(* ===== verification/_CoqProject ===== *)
-Q . S2P
Prelude.v
Matrix.v
Linsolve.v
Orthogonal.v
Procrustes.v
Numeric.v
Methods.v
Ridge.v
Assignment.v
Transport.v
Solvers.v
Piecewise.v
Partition.v
Workers.v
Regions.v
Pairwise.v
Voxels.v
Frame.v
Example.v
Plotting.v
Tests.v
