(* ===== verification/Prelude.v ===== *)
(** * fmralign: functional alignment of brain images -- verification library

    ** The program

    fmralign learns, from the activation maps of a source and a target
    subject, a transformation of the source subject's voxel space onto the
    target's.  Its core is the closed-form solver of the scaled orthogonal
    Procrustes problem, the method objects that wrap the solvers behind
    [fit] / [transform], the partition of the voxels into regions, the
    orchestrator that fits one method per region, and the facade
    [PairwiseAlignment] that puts a masker in front of the orchestrator.

    The sources at hand are two clients of that core:
    - [src/fmralign/tests/test_scaled_orthogonal_alignment.py], the eight
      tests of the solver and of [ScaledOrthogonalAlignment];
    - [src/examples/pairwise_roi_alignment.py], the script that fetches two
      subjects, masks the visual cortex, splits the images into four folds,
      fits [PairwiseAlignment] on one pair of folds, predicts the other and
      scores the prediction.
    The module [fmralign.alignment_methods] and the class
    [PairwiseAlignment] themselves are not among the sources.  They are
    modelled from the specification and from the calls the two clients make,
    and the header of each file that holds such definitions says so.

    ** The files

    - [Prelude] (this file): the result type with the errors of the core
      ([ShapeMismatch], [NotFittedError], [InvalidConfiguration],
      [NumericalDegeneracy]) and of the data frame ([IndexingError],
      [ValueError]), its bind notation in [align_scope], [mapM] and
      [foldM], the life cycle [UNFITTED | FITTING | FITTED], the tactics
      of the development, finite sums of rationals.
    - [Matrix]: arrays as a shape with a row-major buffer; [mk], [mget],
      [dot], [transpose], [trace], [frob2]; equality [=~=] with its Proper
      instances; the algebra of products, transposes, traces and norms.
    - [Linsolve]: the service that solves a square linear system, as the
      classes [LinearSolver] and [LinearSolverLaws], with the reference
      implementation [gauss_jordan] (elimination with a pivot search).
    - [Orthogonal]: orthogonal matrices, invariance of the norm, and the
      inequality [trace (diag s * Z) <= sum s] with its case of equality.
    - [Procrustes]: [scaled_procrustes] with its primal and dual
      formulations over a decomposition service [svd]; the abstract
      contract [procrustes_contract]; the refinement
      [scaled_procrustes_refines]; uniqueness of the solution; the routine
      [orthogonal_procrustes] of SciPy and its contract.
    - [Numeric]: the NumPy and scikit-learn utilities of the clients:
      centring of rows, [assert_array_almost_equal], [r2_score] with the
      refusals of its input validation, [np.maximum].
    - [Methods]: the five method variants, the fitted transformations, and
      [fit] / [transform] with the state of the object explicit.
    - [Ridge]: [ridge_alignment], the closed form of the ridge problem
      through the normal equations, over the service of [Linsolve].
    - [Assignment]: [permutation_alignment], the correspondence of least
      cost between the features, over the assignment routine
      [Assignment] with the exhaustive reference implementation
      [exhaustive_assignment].
    - [Transport]: [optimal_transport_alignment], Sinkhorn's iteration on
      the kernel of the costs (interface [Kernel]) between two uniform
      distributions, rescaled to a row-stochastic matrix.
    - [Solvers]: the record [library_solvers] of the four solvers, with
      the dispatch [linear_alignment] on the variant, and the contract of
      [fit] for every variant.
    - [Piecewise]: the partitioner [create_labels] behind the interface
      [Partitioner]; selection and assignment of columns; the orchestrator
      as the functions [piecewise_fit] / [piecewise_transform] and as the
      machine [step], whose state [Busy] is the state FITTING; the steps
      of a fit in progress, [fit_step].
    - [Partition]: the invariant of the data model that no region is empty,
      as the law [PartitionerCovers]; contiguous labelings; the partitioner
      [blocks], which cuts a row of features into intervals.
    - [Workers]: the fit of the regions by a pool of workers ([pool_step]):
      a worker takes a pending region and gives its result back later, so
      that the fits of several regions overlap.
    - [Regions]: what the orchestrator computes with several regions: the
      prediction entry by entry ([composed_entry]), locality, independence
      from the order of the regions, and totality of fit and prediction
      with the solvers of [Solvers]; the partitioner [striped] for plain
      arrays.
    - [Pairwise]: the masker interface [Masker] with its laws, the instance
      [NiftiMasker], which resamples an image that is not on the grid of
      its mask through the interface [Resampler], and the facade
      [pairwise_fit] / [pairwise_transform]; the [rank] of a voxel among
      the voxels of the mask.
    - [Voxels]: the prediction of the facade voxel by voxel, from the
      entrywise description of [Regions] and the masker of [Pairwise]; the
      partitioner [mask_blocks] for the masker, with which the facade is
      run on two regions.
    - [Frame]: the data frame of the example: rows with index labels,
      column comparison, boolean selection with realignment on the index
      ([getitem]), [.path.values].
    - [Example]: the script, one definition per statement
      ([mask_visual], [roi_masker], [source_train] ..., [alignment_estimator],
      [fit_estimator], [predicted_img], [ground_truth], [baseline_score],
      [aligned_score], [pairwise_roi_alignment]), over the data frame of
      [Frame]; the atlas is read from the record of paths that its fetcher
      returns ([atlas_yeo_2011], [atlas_yeo], [atlas]).
    - [Plotting]: the statements of the script that draw ([plot_mask],
      [baseline_display], [display], [show]) as events of a log of
      figures, and the whole script as a computation of the monad
      [plotting] of the log and the errors ([script_with_figures]).
    - [Tests]: the eight tests, each a boolean function of the solver under
      test and of what the test draws at random.

    ** Numbers

    Floating-point numbers are idealised as rationals ([Q]): the theorems
    are about the exact values the code approximates, and
    [assert_array_almost_equal] is kept with its tolerance [1.5e-6], which
    exact equality meets.  The constants [cos 1] and [sin 1] of the tests
    are parameters [c], [s] constrained by [c * c + s * s == 1].  A
    singular value decomposition with rational entries does not exist for
    every rational matrix, so the decomposition is a parameter [svd] whose
    contract [svd_spec] is assumed only at the matrix it is called on; the
    theorems on the tests assume [procrustes_contract] of the solver at the
    test's call, and [scaled_procrustes_refines] shows that the modelled
    solver meets it when its decomposition is exact.  Each witness runs the
    modelled solver on data whose decomposition is rational.

    ** What is proved

    - Solver ([Procrustes]): the product of the singular bases is an
      optimal orthogonal matrix, in the primal and in the dual formulation;
      the solver refines its contract on every branch (shape error, zero
      input, regular case, with and without scaling); the solution is
      unique when [Y^T X] is invertible, and any two solutions map the data
      alike when [Y] has independent samples; an exact orthogonal relation
      is recovered with scale one.
    - Tests ([Tests]): the tests of the rotation, of the orthogonal
      matrix, of the doubled data, of the two formulations, of the
      agreement with SciPy and of [ScaledOrthogonalAlignment] pass for
      every input they can draw, under the condition on the draw that the
      test needs (stated in the theorem) and the contract of the solver at
      the call.
    - Tests on the solver of the model ([Tests]): the test of the zero
      target passes with every decomposition service; the test of the
      orthogonality of the result passes with every decomposition service
      whose two bases are orthogonal, exact or not
      ([basis_orthogonal_model_passes]); the test against SciPy passes
      with every decomposition service when there are at least as many
      samples as features, because both routines decompose the same
      array; the test of the rotation passes exactly when the solver's
      result is within [1.5e-6] of the rotation, entry by entry.
    - Example ([Example]): the chained boolean selection of the folds is the
      conjunction of its two conditions when the index labels are distinct,
      and raises [ValueError] when they are not; the four folds sort the
      images of the frame; training and test folds share no image; the
      estimator with [n_pieces=1] is one method object on the masked data;
      an exact orthogonal relation between the subjects gives the score one
      at every voxel, while on a dataset without such a relation the
      aligned scores are lower than the scores without alignment
      ([alignment_can_lower_scores]); the script runs to completion when
      the images are on the grid of the mask, the folds have matching
      sizes and the test folds hold two images or more, and with the
      solver of the library it does so whatever the accuracy of the
      decomposition ([script_runs_any_decomposition]); the prediction is
      on the grid of the mask; the clipped scores lie between minus one
      and one; a score is one exactly at the voxels predicted without error
      ([score_one_iff_exact]), and it is zero at a voxel whose ground truth
      is constant as soon as one contrast is missed
      ([constant_voxel_scores_zero]); training folds of different sizes
      raise [ShapeMismatch], an empty test fold stops the script before a
      score is computed ([empty_test_fold_refused]), and [transform]
      before [fit] raises [NotFittedError]; the fit of the masked training
      folds begins, has no infinite run, and every state it reaches takes
      a further step or is the orchestrator that [fit] stores
      ([script_fit_terminates]); by a pool of workers the fit stores the
      same orchestrator whatever the number of workers
      ([script_fit_any_pool]); the script reaches no solver but the
      Procrustes solver; the prediction at a voxel of the mask is the
      entry of [sc * R . Z^T] at the rank of the voxel
      ([prediction_voxelwise]) and
      zero at the voxels outside the mask; fitting the fitted estimator
      again on the same data changes nothing.
    - Figures ([Plotting]): the script draws the mask whatever happens
      later, and then either nothing or both maps of scores, with the
      images of [pairwise_roi_alignment], each followed by its title, and
      [show] last ([figures_all_or_mask_only]); every value of a map lies
      in the range of colours [-vmax, vmax] the script asks for
      ([maps_within_colour_range]), proved with the rules of the logic
      [keeps] for the monad.
    - Data frame ([Frame]): the selection by a boolean key, case by case
      (read by position, realigned on distinct labels, [ValueError] on
      repeated labels, [IndexingError] on a missing label); a selection is
      a sublist of the frame and keeps distinct labels distinct.
    - Scores ([Numeric]): [r2_score] raises [ValueError] for arrays of
      different shapes and for arrays without a sample or without a
      column, and returns on all others; a column scores one exactly when it is predicted without
      error.
    - Other solvers ([Linsolve], [Ridge], [Assignment], [Transport],
      [Solvers]): the elimination returns a solution of the system, and it
      returns whenever the matrix has a trivial kernel; the ridge solver
      returns for every positive penalty, and what it returns is the
      unique minimiser of the penalised residual; the permutation solver
      returns a permutation matrix, which is orthogonal, and no
      correspondence has a smaller residual; the coupling of the transport
      solver is non-negative with rows that sum to one after the
      rescaling, from one iteration on, and where Sinkhorn's iteration
      stops moving the coupling has both marginals
      ([fixed_point_marginals]), while after any number of iterations the
      columns sum to one on average ([row_stochastic_column_sums]); [fit]
      refuses data of different shapes and succeeds on data of equal
      shapes for every variant.
    - Orchestrator ([Piecewise]): the regions of a labeling partition the
      columns; with one region the orchestrator is the method object; the
      machine preserves [job_inv], follows the life cycle, and reaches
      exactly the result of [piecewise_fit] whatever the order in which
      the regions are fitted; the steps of a fit in progress are strongly
      normalising ([fit_step_sn]), a fit in progress can always take a
      step, and a fit at rest holds the result of [piecewise_fit]
      ([fit_terminates]).
    - Partitioner ([Partition]): a labeling that covers its regions has no
      region without columns, so the fit stores an object in every slot
      ([piecewise_fit_all_fitted]) and the prediction writes every column
      ([piecewise_transform_all_written] in [Regions]); [blocks] and
      [striped] meet the laws, and the regions of [blocks] are intervals.
    - Workers ([Workers]): the pool keeps its invariant, no two workers
      hold the same region ([pool_exclusive]), every step of the pool is a
      step of the machine or leaves its state unchanged
      ([pool_step_simulates]), the pool cannot block before the last
      region is given back ([pool_progress]), and every run ends with the
      result of [piecewise_fit] for every schedule and every number of
      workers ([pool_fit_outcome]).
    - Regions ([Regions]): the prediction of the orchestrator writes the
      columns of each region from the prediction of the region's method
      object and leaves the columns of regions without features at zero
      ([piecewise_transform_entrywise]); the regions can be visited in any
      order ([fold_pieces_any_order]); the columns of a region in the
      prediction depend on the columns of that region only, in the data
      of the fit and in the data to map ([piecewise_local]); the
      prediction succeeds exactly when every region's contribution is
      defined; with the solvers of the library, every method with a valid
      configuration fits and predicts region by region
      ([library_piecewise_total]), the decomposition being asked only to
      return bases of the right shapes.
    - Masker and facade ([Pairwise], [Voxels]): a fitted masker
      transforms every list of images, the images on the grid of its mask
      as they are and the others after resampling; [transform] after
      [inverse_transform] is the identity on well-formed arrays; an
      unmasked image holds at a voxel of the mask the value of the voxel's
      rank; the value of a predicted image at a voxel is the entry that the
      object of the voxel's region computes, and zero outside the mask
      ([pairwise_transform_voxel]).

    ** Bounds

    No definition uses fuel: every function is structurally recursive or
    built from [map], [filter] and [seq].  The elimination of [Linsolve]
    recurses on the number of columns left.  Sinkhorn's iteration runs the
    number of times it is given, as the library runs it up to a maximal
    number of iterations; the theorems on it hold for every number of
    iterations from one on.  The exhaustive assignment enumerates the
    [p!] correspondences of [p] features and is meant for small [p]; the
    theorems on the permutation solver are proved against the laws of the
    assignment routine, not against the enumeration.  The machine of the
    orchestrator is a relation; [busy_steps_bounded] bounds its runs by the
    number of regions, and the measure [fit_measure] (one step per pending
    region and one to end) decreases at every step of a fit, which makes
    the relation [fit_step] strongly normalising.  The pool of workers is a relation as well; the
    measure [pool_measure] decreases at every step, so a run takes at most
    two steps per region ([pool_fit_steps]): one to take it, one to give
    it back.

    ** What is not modelled

    Data fetching and caching, reading of image files and resampling are
    collaborators that enter as variables; the resampling that the masker
    applies to an image off the grid of its mask enters through
    [Resampler], of which only the grid of the result is known, and the
    theorems on the values the script computes are stated for images on
    the grid of the mask.  Of plotting the calls and
    their arguments are kept, in their order; what is drawn is not
    modelled.  The clustering
    algorithm of the partitioner enters through [Partitioner], with the
    laws the orchestrator needs.  The numerical services of the library
    enter through interfaces with laws: the singular value decomposition
    ([svd] with [svd_spec]), the solution of linear systems
    ([LinearSolver]), the assignment routine ([Assignment]) and the
    exponential kernel ([Kernel]); the last three have reference
    implementations that meet the laws, the exponential being replaced by
    a positive rational function in the examples.  The convergence of
    Sinkhorn's iteration and its stopping threshold are not modelled, nor
    is the choice of the penalty of the ridge method by cross-validation.
    The cost of matching two features in the permutation and transport
    solvers is the squared distance of their profiles; the specification
    does not fix it.  The warning that pandas emits when it realigns a
    boolean key is not modelled.  The masker of the model accepts an empty
    list of images and an empty mask, which the masker of the library may
    refuse before [r2_score] does; the model places the refusal of an
    empty test fold at [r2_score].  Every statement of the two sources is
    modelled; what is left of them is documentation and imports.  Rounding
    errors of floating-point arithmetic are outside the model. *)

From Stdlib Require Import ZArith QArith Qabs Lqa Lia List Bool Arith Setoid Morphisms.
Import ListNotations.

(** ** Errors and results *)

(** The error taxonomy of the alignment core, with the numerical
    degeneracy that the solvers absorb (a singular linear system), and the
    two errors of the data frame of the example script: a boolean key that
    has no value for a row of the frame ([IndexingError]), and a boolean
    key with repeated index labels that would have to be realigned
    ([ValueError]). *)
Inductive error : Type :=
| ShapeMismatch
| NotFittedError
| InvalidConfiguration
| NumericalDegeneracy
| IndexingError
| ValueError.

Definition error_eq_dec (a b : error) : {a = b} + {a <> b}.
Proof. decide equality. Defined.

(** A call either returns a value or raises one of the errors above. *)
Inductive result (A : Type) : Type :=
| Ok (a : A)
| Err (e : error).

Arguments Ok {A} a.
Arguments Err {A} e.

Definition bind {A B : Type} (r : result A) (k : A -> result B) : result B :=
  match r with
  | Ok a => k a
  | Err e => Err e
  end.

Definition is_ok {A : Type} (r : result A) : bool :=
  match r with Ok _ => true | Err _ => false end.

Declare Scope align_scope.
Delimit Scope align_scope with align.

Notation "x <- c1 ;; c2" := (bind c1 (fun x => c2))
  (at level 60, c1 at next level, right associativity) : align_scope.
Notation "' pat <- c1 ;; c2" := (bind c1 (fun x => match x with pat => c2 end))
  (at level 60, pat pattern, c1 at next level, right associativity) : align_scope.

Lemma bind_ok {A B : Type} (a : A) (k : A -> result B) : bind (Ok a) k = k a.
Proof. reflexivity. Qed.

Lemma bind_err {A B : Type} (e : error) (k : A -> result B) : bind (Err e) k = Err e.
Proof. reflexivity. Qed.

Lemma bind_ok_inv {A B : Type} (r : result A) (k : A -> result B) (b : B) :
  bind r k = Ok b -> exists a, r = Ok a /\ k a = Ok b.
Proof. destruct r as [a|e]; simpl; [eauto | discriminate]. Qed.

(** ** The life cycle of the estimators *)

(** The named states of the fit-then-transform objects. *)
Inductive lifecycle : Type := UNFITTED | FITTING | FITTED.

(** ** Tactics shared by the components *)

(** Invert a hypothesis and clean up. *)
Ltac inv H := inversion H; subst; clear H.

(** Case analysis on the scrutinee of the first [match] or [if] of the goal. *)
Ltac destr_goal :=
  match goal with
  | |- context [match ?x with _ => _ end] => destruct x eqn:?
  end.

(** Turn boolean tests on [nat] found in the context or the goal into
    propositions that [lia] understands. *)
Ltac nat_bool :=
  repeat match goal with
  | H : (_ <? _)%nat = true |- _ => apply Nat.ltb_lt in H
  | H : (_ <? _)%nat = false |- _ => apply Nat.ltb_ge in H
  | H : (_ <=? _)%nat = true |- _ => apply Nat.leb_le in H
  | H : (_ <=? _)%nat = false |- _ => apply Nat.leb_gt in H
  | H : (_ =? _)%nat = true |- _ => apply Nat.eqb_eq in H
  | H : (_ =? _)%nat = false |- _ => apply Nat.eqb_neq in H
  | H : (_ && _)%bool = true |- _ => apply andb_true_iff in H; destruct H
  | H : (_ && _)%bool = false |- _ => apply andb_false_iff in H
  end.

(** Decide a boolean [nat] test of the goal positively, by [lia]. *)
Ltac ltb_true :=
  repeat match goal with
  | |- context [(?a <? ?b)%nat] =>
      let H := fresh in
      assert (H : (a <? b)%nat = true) by (apply Nat.ltb_lt; lia);
      rewrite H; clear H
  end; simpl andb; cbv iota.

(** ** Fallible iteration *)

(** Running a fallible function over a list, left to right; the first error
    ends the run. *)
Fixpoint mapM {A B : Type} (f : A -> result B) (l : list A) : result (list B) :=
  match l with
  | [] => Ok []
  | a :: l' =>
      match f a with
      | Ok b =>
          match mapM f l' with
          | Ok bs => Ok (b :: bs)
          | Err e => Err e
          end
      | Err e => Err e
      end
  end.

(** Threading an accumulator through a fallible function, left to right. *)
Fixpoint foldM {A B : Type} (f : B -> A -> result B) (l : list A) (b : B)
  : result B :=
  match l with
  | [] => Ok b
  | a :: l' =>
      match f b a with
      | Ok b' => foldM f l' b'
      | Err e => Err e
      end
  end.

Lemma mapM_ok_iff {A B : Type} (f : A -> result B) l bs :
  mapM f l = Ok bs <-> Forall2 (fun a b => f a = Ok b) l bs.
Proof.
  revert bs. induction l as [|a l IH]; intros bs; simpl.
  - split; [intros H; inv H; constructor | intros H; now inv H].
  - destruct (f a) as [b|e] eqn:Ea.
    + destruct (mapM f l) as [bs'|e]; split; intros H; inv H.
      * constructor; [assumption | now apply IH].
      * f_equal. f_equal; [congruence|]. apply IH in H4. congruence.
      * apply IH in H4. discriminate.
    + split; intros H; inv H. congruence.
Qed.

Lemma mapM_ok_in {A B : Type} (f : A -> result B) l bs a :
  mapM f l = Ok bs -> In a l -> exists b, f a = Ok b.
Proof.
  intros H. apply mapM_ok_iff in H.
  induction H as [|x b l bs Hx _ IH]; simpl; [tauto|].
  intros [->|Hin]; eauto.
Qed.

Lemma mapM_ok_in_r {A B : Type} (f : A -> result B) l bs b :
  mapM f l = Ok bs -> In b bs -> exists a, In a l /\ f a = Ok b.
Proof.
  intros H. apply mapM_ok_iff in H.
  induction H as [|x y l bs Hx _ IH]; simpl; [tauto|].
  intros [->|Hin]; [eauto|]. destruct (IH Hin) as (a & Ha & Hf). eauto.
Qed.

Lemma mapM_length {A B : Type} (f : A -> result B) l bs :
  mapM f l = Ok bs -> length bs = length l.
Proof.
  intros H. apply mapM_ok_iff in H. symmetry.
  induction H; simpl; congruence.
Qed.

Lemma mapM_ext {A B : Type} (f g : A -> result B) l :
  (forall a, In a l -> f a = g a) -> mapM f l = mapM g l.
Proof.
  induction l as [|a l IH]; intros H; simpl; [reflexivity|].
  rewrite (H a) by now left. rewrite IH; [reflexivity|].
  intros b Hb. apply H. now right.
Qed.

(** [mapM] succeeds exactly when the function does on every element. *)
Lemma mapM_total {A B : Type} (f : A -> result B) (g : A -> B) l :
  (forall a, In a l -> f a = Ok (g a)) -> mapM f l = Ok (map g l).
Proof.
  induction l as [|a l IH]; intros H; simpl; [reflexivity|].
  rewrite (H a) by now left. rewrite IH; [reflexivity|].
  intros b Hb. apply H. now right.
Qed.

Lemma mapM_err {A B : Type} (f : A -> result B) l1 a l2 e :
  (forall x, In x l1 -> is_ok (f x) = true) -> f a = Err e ->
  mapM f (l1 ++ a :: l2) = Err e.
Proof.
  induction l1 as [|x l1 IH]; intros H Ha; simpl.
  - now rewrite Ha.
  - pose proof (H x (or_introl eq_refl)) as Hx.
    destruct (f x) as [b|]; [|discriminate].
    rewrite IH; [reflexivity | | exact Ha]. intros y Hy. apply H. now right.
Qed.

(** When every error of the function is [e] and the function fails
    somewhere in the list, the run fails with [e]. *)
Lemma mapM_err_in {A B : Type} (f : A -> result B) l a e :
  In a l -> f a = Err e ->
  (forall x e', In x l -> f x = Err e' -> e' = e) ->
  mapM f l = Err e.
Proof.
  induction l as [|x l IH]; simpl; [tauto|]. intros Hin Ha He.
  destruct (f x) as [b|e'] eqn:Ex.
  - destruct Hin as [->|Hin]; [congruence|].
    rewrite IH; [reflexivity | exact Hin | exact Ha |].
    intros y e1 Hy. apply He. now right.
  - f_equal. apply (He x); [now left | exact Ex].
Qed.

Lemma foldM_app {A B : Type} (f : B -> A -> result B) l1 l2 b :
  foldM f (l1 ++ l2) b = bind (foldM f l1 b) (foldM f l2).
Proof.
  revert b. induction l1 as [|a l1 IH]; intros b; simpl; [reflexivity|].
  destruct (f b a); [apply IH | reflexivity].
Qed.

(** A property that every successful step preserves holds at the end of a
    successful run. *)
Lemma foldM_invariant {A B : Type} (P : B -> Prop) (f : B -> A -> result B) l :
  (forall b a b', In a l -> P b -> f b a = Ok b' -> P b') ->
  forall b b', P b -> foldM f l b = Ok b' -> P b'.
Proof.
  induction l as [|a l IH]; intros Hstep b b' Hb; simpl.
  - intros H. now inv H.
  - destruct (f b a) as [b1|e] eqn:E; [|discriminate].
    apply IH; [|now apply (Hstep b a); [left|..]].
    intros b2 a2 b3 Hin. apply Hstep. now right.
Qed.

Create HintDb align.

(** ** Finite sums of rationals *)

Open Scope Q_scope.

(** [sumQ n f] is [f 0 + ... + f (n-1)]. *)
Fixpoint sumQ (n : nat) (f : nat -> Q) : Q :=
  match n with
  | O => 0
  | S k => sumQ k f + f k
  end.

(** The sum of a list of rationals. *)
Definition sum_list (l : list Q) : Q := fold_right Qplus 0 l.

#[export] Instance sumQ_Proper :
  Proper (eq ==> pointwise_relation nat Qeq ==> Qeq) sumQ.
Proof.
  intros n ? <- f g H. induction n as [|n IH]; simpl; [reflexivity|].
  now rewrite IH, (H n).
Qed.

Section Sums.
Implicit Types (n m : nat) (f g : nat -> Q) (c : Q).

Lemma sumQ_ext n f g :
  (forall k, (k < n)%nat -> f k == g k) -> sumQ n f == sumQ n g.
Proof.
  induction n as [|n IH]; intros H; simpl; [reflexivity|].
  rewrite IH, (H n) by auto with arith. reflexivity.
Qed.

(** Sums of the same terms are the same number, and not only equal
    rationals. *)
Lemma sumQ_ext_eq n f g :
  (forall k, (k < n)%nat -> f k = g k) -> sumQ n f = sumQ n g.
Proof.
  induction n as [|n IH]; intros H; simpl; [reflexivity|].
  rewrite IH, (H n) by auto with arith. reflexivity.
Qed.

(** The product of two rationals is computed the same way in both orders. *)
Lemma Qmult_comm_eq (x y : Q) : x * y = y * x.
Proof. unfold Qmult. now rewrite Z.mul_comm, Pos.mul_comm. Qed.

Lemma sumQ_zero n : sumQ n (fun _ => 0) == 0.
Proof. induction n as [|n IH]; simpl; [reflexivity | rewrite IH; ring]. Qed.

Lemma sumQ_all_zero n f :
  (forall k, (k < n)%nat -> f k == 0) -> sumQ n f == 0.
Proof. intros H. rewrite (sumQ_ext n f (fun _ => 0)) by exact H. apply sumQ_zero. Qed.

Lemma sumQ_add n f g :
  sumQ n (fun k => f k + g k) == sumQ n f + sumQ n g.
Proof. induction n as [|n IH]; simpl; [ring | rewrite IH; ring]. Qed.

Lemma sumQ_sub n f g :
  sumQ n (fun k => f k - g k) == sumQ n f - sumQ n g.
Proof. induction n as [|n IH]; simpl; [ring | rewrite IH; ring]. Qed.

Lemma sumQ_scale_l n c f :
  sumQ n (fun k => c * f k) == c * sumQ n f.
Proof. induction n as [|n IH]; simpl; [ring | rewrite IH; ring]. Qed.

Lemma sumQ_scale_r n c f :
  sumQ n (fun k => f k * c) == sumQ n f * c.
Proof. induction n as [|n IH]; simpl; [ring | rewrite IH; ring]. Qed.

Lemma sumQ_const n c : sumQ n (fun _ => c) == inject_Z (Z.of_nat n) * c.
Proof.
  induction n as [|n IH]; [simpl; ring|].
  cbn [sumQ]. rewrite IH, Nat2Z.inj_succ. unfold Z.succ.
  rewrite inject_Z_plus. ring.
Qed.

(** Exchange of the order of summation. *)
Lemma sumQ_swap n m (h : nat -> nat -> Q) :
  sumQ n (fun i => sumQ m (fun j => h i j)) ==
  sumQ m (fun j => sumQ n (fun i => h i j)).
Proof.
  induction n as [|n IH]; simpl.
  - symmetry. apply sumQ_zero.
  - rewrite IH, <- sumQ_add. reflexivity.
Qed.

(** A sum over [n + m] terms is the sum of its first [n] and of its last
    [m] terms. *)
Lemma sumQ_app n m f :
  sumQ (n + m) f == sumQ n f + sumQ m (fun k => f (n + k)%nat).
Proof.
  induction m as [|m IH]; simpl.
  - rewrite Nat.add_0_r. ring.
  - rewrite Nat.add_succ_r. simpl. rewrite IH. ring.
Qed.

(** A sum whose only non-zero term is at index [j]. *)
Lemma sumQ_delta n j f :
  sumQ n (fun k => if (k =? j)%nat then f k else 0) ==
  if (j <? n)%nat then f j else 0.
Proof.
  induction n as [|n IH]; simpl; [reflexivity|].
  rewrite IH. destruct (Nat.eqb_spec n j) as [->|Hne].
  - rewrite Nat.ltb_irrefl.
    assert (H : (j <? S j)%nat = true) by (apply Nat.ltb_lt; lia).
    rewrite H. ring.
  - destruct (j <? n)%nat eqn:E; nat_bool.
    + assert (H : (j <? S n)%nat = true) by (apply Nat.ltb_lt; lia).
      rewrite H. ring.
    + assert (H : (j <? S n)%nat = false) by (apply Nat.ltb_ge; lia).
      rewrite H. ring.
Qed.

(** Terms beyond [n] that vanish do not change the sum. *)
Lemma sumQ_extend n m f :
  (n <= m)%nat -> (forall k, (n <= k < m)%nat -> f k == 0) ->
  sumQ m f == sumQ n f.
Proof.
  intros Hle. induction m as [|m IH]; intros H.
  - replace n with O by lia. reflexivity.
  - destruct (Nat.eq_dec n (S m)) as [->|Hne]; [reflexivity|].
    simpl. rewrite IH, H by (try intros; try apply H; lia). ring.
Qed.

Lemma sumQ_nonneg n f :
  (forall k, (k < n)%nat -> 0 <= f k) -> 0 <= sumQ n f.
Proof.
  induction n as [|n IH]; intros H; simpl; [lra|].
  specialize (H n (Nat.lt_succ_diag_r n)) as Hn.
  assert (0 <= sumQ n f) by (apply IH; auto with arith). lra.
Qed.

Lemma sumQ_le n f g :
  (forall k, (k < n)%nat -> f k <= g k) -> sumQ n f <= sumQ n g.
Proof.
  induction n as [|n IH]; intros H; simpl; [lra|].
  specialize (H n (Nat.lt_succ_diag_r n)) as Hn.
  assert (sumQ n f <= sumQ n g) by (apply IH; auto with arith). lra.
Qed.

(** A sum of non-negative terms is zero only if every term is. *)
Lemma sumQ_nonneg_zero n f :
  (forall k, (k < n)%nat -> 0 <= f k) -> sumQ n f == 0 ->
  forall k, (k < n)%nat -> f k == 0.
Proof.
  induction n as [|n IH]; intros Hpos Hz k Hk; [lia|].
  simpl in Hz.
  assert (H1 : 0 <= sumQ n f) by (apply sumQ_nonneg; auto with arith).
  assert (H2 : 0 <= f n) by (apply Hpos; lia).
  destruct (Nat.eq_dec k n) as [->|Hne]; [lra|].
  apply IH; [auto with arith | lra | lia].
Qed.

(** A term of a sum of non-negative terms is bounded by the sum. *)
Lemma sumQ_term_le n f k :
  (forall i, (i < n)%nat -> 0 <= f i) -> (k < n)%nat -> f k <= sumQ n f.
Proof.
  induction n as [|n IH]; intros Hpos Hk; [lia|]. simpl.
  assert (H1 : 0 <= sumQ n f) by (apply sumQ_nonneg; auto with arith).
  assert (H2 : 0 <= f n) by (apply Hpos; lia).
  destruct (Nat.eq_dec k n) as [->|Hne]; [lra|].
  assert (f k <= sumQ n f) by (apply IH; [auto with arith | lia]). lra.
Qed.

(** Two sums of the same terms agree when the terms vanish beyond both
    bounds. *)
Lemma sumQ_conform n m f :
  (forall k, (n <= k)%nat -> f k == 0) ->
  (forall k, (m <= k)%nat -> f k == 0) ->
  sumQ n f == sumQ m f.
Proof.
  intros Hn Hm.
  rewrite (sumQ_extend (Nat.min n m) n), (sumQ_extend (Nat.min n m) m);
    try reflexivity; try lia; intros k Hk.
  - destruct (Nat.le_ge_cases n m); [apply Hn | apply Hm]; lia.
  - destruct (Nat.le_ge_cases n m); [apply Hn | apply Hm]; lia.
Qed.

(** Removing the term at index [j] from a sum. *)
Lemma sumQ_remove n j f :
  sumQ n (fun k => if (k =? j)%nat then 0 else f k) ==
  sumQ n f - (if (j <? n)%nat then f j else 0).
Proof.
  rewrite <- sumQ_delta, <- sumQ_sub. apply sumQ_ext. intros k _.
  destruct (k =? j)%nat; ring.
Qed.

Lemma sumQ_map_seq n f : sumQ n f == sum_list (map f (seq 0 n)).
Proof.
  induction n as [|n IH]; [reflexivity|].
  rewrite seq_S, map_app. simpl. rewrite IH. unfold sum_list.
  generalize (map f (seq 0 n)) as l. intros l.
  induction l as [|x l IHl]; simpl; [ring | rewrite <- IHl; ring].
Qed.
End Sums.

#[export] Hint Resolve sumQ_nonneg sumQ_le : align.

(** ** Rational arithmetic *)

Lemma Qsquare_nonneg (x : Q) : 0 <= x * x.
Proof. nra. Qed.

Lemma Qsquare_zero (x : Q) : x * x == 0 -> x == 0.
Proof. nra. Qed.

(** A number whose square is at most one is at most one. *)
Lemma Qsquare_le_one (x : Q) : x * x <= 1 -> x <= 1.
Proof. nra. Qed.

#[export] Hint Resolve Qsquare_nonneg : align.

(** Boolean comparison of rationals, strict. *)
Definition Qlt_bool (x y : Q) : bool := negb (Qle_bool y x).

Lemma Qlt_bool_iff (x y : Q) : Qlt_bool x y = true <-> x < y.
Proof.
  unfold Qlt_bool. rewrite negb_true_iff. split; intros H.
  - apply Qnot_le_lt. intros Hle. apply Qle_bool_iff in Hle. congruence.
  - destruct (Qle_bool y x) eqn:E; [|reflexivity].
    apply Qle_bool_iff in E. lra.
Qed.

#[export] Instance Qle_bool_Proper : Proper (Qeq ==> Qeq ==> eq) Qle_bool.
Proof.
  intros x x' Hx y y' Hy.
  destruct (Qle_bool x y) eqn:E1, (Qle_bool x' y') eqn:E2; try reflexivity.
  - apply Qle_bool_iff in E1. rewrite Hx, Hy in E1.
    apply Qle_bool_iff in E1. congruence.
  - apply Qle_bool_iff in E2. rewrite <- Hx, <- Hy in E2.
    apply Qle_bool_iff in E2. congruence.
Qed.

#[export] Instance Qlt_bool_Proper : Proper (Qeq ==> Qeq ==> eq) Qlt_bool.
Proof. intros x x' Hx y y' Hy. unfold Qlt_bool. now rewrite Hx, Hy. Qed.

#[export] Instance Qeq_bool_Proper : Proper (Qeq ==> Qeq ==> eq) Qeq_bool.
Proof.
  intros x x' Hx y y' Hy.
  destruct (Qeq_bool x y) eqn:E1, (Qeq_bool x' y') eqn:E2; try reflexivity.
  - apply Qeq_bool_iff in E1. rewrite Hx, Hy in E1.
    apply Qeq_bool_iff in E1. congruence.
  - apply Qeq_bool_iff in E2. rewrite <- Hx, <- Hy in E2.
    apply Qeq_bool_iff in E2. congruence.
Qed.

(** ** Lists *)

(** A function whose images on a list are distinct is injective on it. *)
Lemma NoDup_map_inj {A B : Type} (f : A -> B) l x y :
  NoDup (map f l) -> In x l -> In y l -> f x = f y -> x = y.
Proof.
  induction l as [|a l IH]; simpl; [tauto|]. intros Hnd Hx Hy Hxy.
  inversion Hnd as [|? ? Ha Hnd']; subst.
  destruct Hx as [->|Hx], Hy as [->|Hy]; auto.
  - exfalso. apply Ha. rewrite Hxy. now apply in_map.
  - exfalso. apply Ha. rewrite <- Hxy. now apply in_map.
Qed.

Lemma forallb_ext {A : Type} (f g : A -> bool) (l : list A) :
  (forall x, f x = g x) -> forallb f l = forallb g l.
Proof. intros H. induction l as [|x l IH]; simpl; [reflexivity | now rewrite H, IH]. Qed.

Lemma forallb_seq (f : nat -> bool) (n : nat) :
  forallb f (seq 0 n) = true <-> forall i, (i < n)%nat -> f i = true.
Proof.
  rewrite forallb_forall. split.
  - intros H i Hi. apply H, in_seq. lia.
  - intros H i Hi. apply H. apply in_seq in Hi. lia.
Qed.
