(* ===== verification/Matrix.v ===== *)
(** * Matrix: two-dimensional arrays of rationals

    The model of the NumPy arrays that the alignment code passes around:
    a shape and a row-major buffer.  Every operation is built with [mk]
    from an entry function and is read back with [mget], which returns [0]
    outside the shape; two arrays are equal ([meq]) when they have the same
    shape and the same entries up to equality of rationals.  The operations
    are Proper for [meq], so that matrix equations can be rewritten inside
    products, traces and norms. *)

From Stdlib Require Import ZArith QArith Qabs Lqa Lia List Bool Arith Setoid Morphisms.
From S2P Require Import Prelude.
Import ListNotations.
Open Scope Q_scope.

(** ** Arrays *)

Record matrix : Type := Matrix {
  nrows : nat;
  ncols : nat;
  data : list (list Q)
}.

Definition shape (A : matrix) : nat * nat := (nrows A, ncols A).

(** [np.array(rows)] for a list of equally long rows. *)
Definition array (rows : list (list Q)) : matrix :=
  Matrix (length rows) (length (hd [] rows)) rows.

(** The buffer agrees with the declared shape. *)
Definition wf (A : matrix) : Prop :=
  length (data A) = nrows A /\ Forall (fun r => length r = ncols A) (data A).

(** [A[i, j]], and [0] outside the shape. *)
Definition mget (A : matrix) (i j : nat) : Q :=
  if (i <? nrows A)%nat && (j <? ncols A)%nat
  then nth j (nth i (data A) []) 0
  else 0.

(** The [m] x [n] array whose entry [(i, j)] is [f i j]. *)
Definition mk (m n : nat) (f : nat -> nat -> Q) : matrix :=
  Matrix m n (map (fun i => map (fun j => f i j) (seq 0 n)) (seq 0 m)).

(** Row [i] and column [j] as lists. *)
Definition row (A : matrix) (i : nat) : list Q :=
  map (fun j => mget A i j) (seq 0 (ncols A)).

Definition col (A : matrix) (j : nat) : list Q :=
  map (fun i => mget A i j) (seq 0 (nrows A)).

(** ** Operations *)

Definition zeros (m n : nat) : matrix := mk m n (fun _ _ => 0).

(** [np.zeros_like(X)] *)
Definition zeros_like (X : matrix) : matrix := zeros (nrows X) (ncols X).

(** [np.eye(n)] *)
Definition eye (n : nat) : matrix :=
  mk n n (fun i j => if (i =? j)%nat then 1 else 0).

(** [np.diag(s)] for a vector [s]. *)
Definition diag (s : list Q) : matrix :=
  mk (length s) (length s) (fun i j => if (i =? j)%nat then nth i s 0 else 0).

(** [A.T] *)
Definition transpose (A : matrix) : matrix :=
  mk (ncols A) (nrows A) (fun i j => mget A j i).

(** [A.dot(B)]: the entries are read with [mget], so that rows of [B]
    beyond its shape count as zero.  NumPy raises when the columns of [A]
    are not as many as the rows of [B]; the product is total here, and the
    definitions that call it on data of unknown shapes check the shapes
    first ([transform] in [Methods], [shape_eqb] in [Procrustes]). *)
Definition dot (A B : matrix) : matrix :=
  mk (nrows A) (ncols B)
     (fun i j => sumQ (ncols A) (fun k => mget A i k * mget B k j)).

(** [A + B], [A - B] and [c * A], with the shape of [A]. *)
Definition add (A B : matrix) : matrix :=
  mk (nrows A) (ncols A) (fun i j => mget A i j + mget B i j).

Definition sub (A B : matrix) : matrix :=
  mk (nrows A) (ncols A) (fun i j => mget A i j - mget B i j).

Definition scale (c : Q) (A : matrix) : matrix :=
  mk (nrows A) (ncols A) (fun i j => c * mget A i j).

(** [np.trace(A)] *)
Definition trace (A : matrix) : Q := sumQ (nrows A) (fun i => mget A i i).

(** The Frobenius inner product of two arrays, and the squared Frobenius
    norm [np.linalg.norm(A) ** 2]. *)
Definition inner (A B : matrix) : Q :=
  sumQ (nrows A) (fun i => sumQ (ncols A) (fun j => mget A i j * mget B i j)).

Definition frob2 (A : matrix) : Q := inner A A.

(** ** Equality of arrays *)

Definition meq (A B : matrix) : Prop :=
  nrows A = nrows B /\ ncols A = ncols B /\
  forall i j, mget A i j == mget B i j.

Declare Scope mat_scope.
Delimit Scope mat_scope with mat.
Infix "=~=" := meq (at level 70, no associativity) : mat_scope.
Open Scope mat_scope.

(** Boolean equality: same shape and entries that are equal rationals. *)
Definition meqb (A B : matrix) : bool :=
  (nrows A =? nrows B)%nat && (ncols A =? ncols B)%nat &&
  forallb (fun i =>
    forallb (fun j => Qeq_bool (mget A i j) (mget B i j)) (seq 0 (ncols A)))
    (seq 0 (nrows A)).

(** ** Reading the entries of a built array *)

Lemma nth_map_seq {A : Type} (g : nat -> A) (d : A) (n i : nat) :
  (i < n)%nat -> nth i (map g (seq 0 n)) d = g i.
Proof.
  intros H. rewrite (nth_indep _ d (g 0%nat)) by (now rewrite length_map, length_seq).
  rewrite map_nth, seq_nth by exact H. reflexivity.
Qed.

Lemma nrows_mk m n f : nrows (mk m n f) = m.
Proof. reflexivity. Qed.

Lemma ncols_mk m n f : ncols (mk m n f) = n.
Proof. reflexivity. Qed.

Lemma mget_mk m n f i j :
  mget (mk m n f) i j = if (i <? m)%nat && (j <? n)%nat then f i j else 0.
Proof.
  unfold mget, mk; simpl.
  destruct (i <? m)%nat eqn:Hi; [|reflexivity].
  destruct (j <? n)%nat eqn:Hj; [|reflexivity]. simpl. nat_bool.
  rewrite (nth_map_seq _ _ m i Hi), (nth_map_seq _ _ n j Hj). reflexivity.
Qed.

Lemma mget_mk_in m n f i j :
  (i < m)%nat -> (j < n)%nat -> mget (mk m n f) i j = f i j.
Proof. intros Hi Hj. rewrite mget_mk. now ltb_true. Qed.

Lemma mget_out_row A i j : (nrows A <= i)%nat -> mget A i j = 0.
Proof.
  intros H. unfold mget.
  assert (E : (i <? nrows A)%nat = false) by (apply Nat.ltb_ge; lia).
  now rewrite E.
Qed.

Lemma mget_out_col A i j : (ncols A <= j)%nat -> mget A i j = 0.
Proof.
  intros H. unfold mget.
  assert (E : (j <? ncols A)%nat = false) by (apply Nat.ltb_ge; lia).
  rewrite E. now rewrite andb_false_r.
Qed.

Lemma wf_mk m n f : wf (mk m n f).
Proof.
  split; simpl.
  - now rewrite length_map, length_seq.
  - apply Forall_forall. intros r Hr. apply in_map_iff in Hr.
    destruct Hr as (i & <- & _). now rewrite length_map, length_seq.
Qed.

(** ** [meq] is an equivalence *)

Lemma meq_intro A B :
  nrows A = nrows B -> ncols A = ncols B ->
  (forall i j, (i < nrows A)%nat -> (j < ncols A)%nat -> mget A i j == mget B i j) ->
  A =~= B.
Proof.
  intros Hr Hc H. repeat split; try assumption. intros i j.
  destruct (Nat.lt_ge_cases i (nrows A)) as [Hi|Hi].
  - destruct (Nat.lt_ge_cases j (ncols A)) as [Hj|Hj]; [now apply H|].
    rewrite !mget_out_col by lia. reflexivity.
  - rewrite !mget_out_row by lia. reflexivity.
Qed.

#[export] Instance meq_Equivalence : Equivalence meq.
Proof.
  split.
  - intros A. repeat split; reflexivity.
  - intros A B (Hr & Hc & H). repeat split; auto. intros i j. now rewrite H.
  - intros A B C (Hr & Hc & H) (Hr' & Hc' & H'). repeat split; try congruence.
    intros i j. now rewrite H, H'.
Qed.

#[export] Instance nrows_Proper : Proper (meq ==> eq) nrows.
Proof. now intros A B (Hr & _). Qed.

#[export] Instance ncols_Proper : Proper (meq ==> eq) ncols.
Proof. now intros A B (_ & Hc & _). Qed.

#[export] Instance mget_Proper : Proper (meq ==> eq ==> eq ==> Qeq) mget.
Proof. intros A B (_ & _ & H) i ? <- j ? <-. apply H. Qed.

Lemma mk_ext m n f g :
  (forall i j, (i < m)%nat -> (j < n)%nat -> f i j == g i j) ->
  mk m n f =~= mk m n g.
Proof.
  intros H. apply meq_intro; try reflexivity. simpl. intros i j Hi Hj.
  rewrite !mget_mk_in by assumption. now apply H.
Qed.

(** An array is equal to the one rebuilt from its entries. *)
Lemma mk_mget A : mk (nrows A) (ncols A) (mget A) =~= A.
Proof.
  apply meq_intro; try reflexivity. simpl. intros i j Hi Hj.
  now rewrite mget_mk_in.
Qed.

(** On well-formed arrays reading and rebuilding is the identity, as
    values and not only up to [=~=]. *)
Lemma mk_ext_eq m n f g :
  (forall i j, (i < m)%nat -> (j < n)%nat -> f i j = g i j) ->
  mk m n f = mk m n g.
Proof.
  intros H. unfold mk. f_equal. apply map_ext_in. intros i Hi.
  apply map_ext_in. intros j Hj. apply in_seq in Hi, Hj. apply H; lia.
Qed.

Lemma mk_mget_wf A : wf A -> mk (nrows A) (ncols A) (mget A) = A.
Proof.
  destruct A as [m n d]. intros [Hlen Hrows]. simpl in *. unfold mk. f_equal.
  apply (nth_ext _ _ [] []); [now rewrite length_map, length_seq|].
  intros i Hi. rewrite length_map, length_seq in Hi.
  rewrite (nth_map_seq _ _ m i Hi).
  assert (Hr : length (nth i d []) = n).
  { rewrite Forall_forall in Hrows. apply Hrows, nth_In. lia. }
  apply (nth_ext _ _ 0 0); [now rewrite length_map, length_seq|].
  intros j Hj. rewrite length_map, length_seq in Hj.
  rewrite (nth_map_seq _ _ n j Hj). unfold mget. simpl. now ltb_true.
Qed.

(** ** Deciding [meq] *)

Lemma meqb_spec A B : meqb A B = true <-> A =~= B.
Proof.
  unfold meqb. rewrite !andb_true_iff, !Nat.eqb_eq, forallb_forall. split.
  - intros [[Hr Hc] H]. apply meq_intro; auto. intros i j Hi Hj.
    specialize (H i). rewrite forallb_forall in H.
    apply Qeq_bool_iff, H; apply in_seq; lia.
  - intros (Hr & Hc & H). repeat split; auto. intros i _.
    apply forallb_forall. intros j _. apply Qeq_bool_iff, H.
Qed.

Lemma meqb_true A B : meqb A B = true -> A =~= B.
Proof. apply meqb_spec. Qed.

Lemma meqb_false A B : meqb A B = false -> ~ A =~= B.
Proof. intros H Heq. apply meqb_spec in Heq. congruence. Qed.

(** ** Entries of the operations

    Thanks to the zero outside the shape, most of these hold at every
    index, which is what lets them be rewritten under a sum. *)

Ltac mget_cases :=
  rewrite ?mget_mk;
  repeat match goal with
  | |- context [(?a <? ?b)%nat] => destruct (Nat.ltb_spec a b)
  end; simpl andb; cbv iota.

Lemma mget_zeros m n i j : mget (zeros m n) i j == 0.
Proof. unfold zeros. mget_cases; reflexivity. Qed.

Lemma mget_eye n i j :
  mget (eye n) i j = if (i =? j)%nat && (i <? n)%nat then 1 else 0.
Proof.
  unfold eye. rewrite mget_mk.
  destruct (Nat.eqb_spec i j) as [->|Hne]; simpl.
  - destruct (j <? n)%nat; reflexivity.
  - destruct (i <? n)%nat, (j <? n)%nat; reflexivity.
Qed.

Lemma mget_diag s i j :
  mget (diag s) i j = if (i =? j)%nat then nth i s 0 else 0.
Proof.
  unfold diag. rewrite mget_mk.
  destruct (Nat.eqb_spec i j) as [->|Hne].
  - destruct (Nat.ltb_spec j (length s)); simpl; [reflexivity|].
    now rewrite nth_overflow.
  - destruct (i <? length s)%nat, (j <? length s)%nat; reflexivity.
Qed.

Lemma mget_transpose A i j : mget (transpose A) i j = mget A j i.
Proof.
  unfold transpose. rewrite mget_mk. unfold mget at 2.
  rewrite (andb_comm (j <? nrows A)%nat).
  destruct ((i <? ncols A)%nat && (j <? nrows A)%nat) eqn:E; [|reflexivity].
  unfold mget. now rewrite andb_comm, E.
Qed.

Lemma mget_dot A B i j :
  mget (dot A B) i j == sumQ (ncols A) (fun k => mget A i k * mget B k j).
Proof.
  unfold dot. rewrite mget_mk.
  destruct (Nat.ltb_spec i (nrows A)) as [Hi|Hi]; simpl.
  - destruct (Nat.ltb_spec j (ncols B)) as [Hj|Hj]; [reflexivity|].
    symmetry. apply sumQ_all_zero. intros k _.
    rewrite (mget_out_col B) by lia. ring.
  - symmetry. apply sumQ_all_zero. intros k _.
    rewrite (mget_out_row A) by lia. ring.
Qed.

Lemma mget_scale c A i j : mget (scale c A) i j == c * mget A i j.
Proof.
  unfold scale. rewrite mget_mk.
  destruct (Nat.ltb_spec i (nrows A)) as [Hi|Hi]; simpl.
  - destruct (Nat.ltb_spec j (ncols A)) as [Hj|Hj]; [reflexivity|].
    rewrite mget_out_col by lia. ring.
  - rewrite mget_out_row by lia. ring.
Qed.

Lemma mget_add A B i j :
  nrows A = nrows B -> ncols A = ncols B ->
  mget (add A B) i j == mget A i j + mget B i j.
Proof.
  intros Hr Hc. unfold add. rewrite mget_mk.
  destruct (Nat.ltb_spec i (nrows A)) as [Hi|Hi]; simpl.
  - destruct (Nat.ltb_spec j (ncols A)) as [Hj|Hj]; [reflexivity|].
    rewrite !mget_out_col by lia. ring.
  - rewrite !mget_out_row by lia. ring.
Qed.

Lemma mget_sub A B i j :
  nrows A = nrows B -> ncols A = ncols B ->
  mget (sub A B) i j == mget A i j - mget B i j.
Proof.
  intros Hr Hc. unfold sub. rewrite mget_mk.
  destruct (Nat.ltb_spec i (nrows A)) as [Hi|Hi]; simpl.
  - destruct (Nat.ltb_spec j (ncols A)) as [Hj|Hj]; [reflexivity|].
    rewrite !mget_out_col by lia. ring.
  - rewrite !mget_out_row by lia. ring.
Qed.

(** ** The operations respect [meq] *)

#[export] Instance transpose_Proper : Proper (meq ==> meq) transpose.
Proof.
  intros A B (Hr & Hc & H). apply meq_intro; simpl; auto.
  intros i j _ _. rewrite !mget_transpose. apply H.
Qed.

#[export] Instance dot_Proper : Proper (meq ==> meq ==> meq) dot.
Proof.
  intros A A' (Hr & Hc & H) B B' (Hr' & Hc' & H').
  apply meq_intro; simpl; auto. intros i j _ _.
  rewrite !mget_dot, Hc. apply sumQ_ext. intros k _. now rewrite H, H'.
Qed.

#[export] Instance scale_Proper : Proper (Qeq ==> meq ==> meq) scale.
Proof.
  intros c c' Hcc A B (Hr & Hc & H). apply meq_intro; simpl; auto.
  intros i j _ _. now rewrite !mget_scale, Hcc, H.
Qed.

#[export] Instance add_Proper : Proper (meq ==> meq ==> meq) add.
Proof.
  intros A A' (Hr & Hc & H) B B' (Hr' & Hc' & H').
  apply meq_intro; simpl; auto. intros i j Hi Hj.
  unfold add. rewrite !mget_mk_in by lia. now rewrite H, H'.
Qed.

#[export] Instance sub_Proper : Proper (meq ==> meq ==> meq) sub.
Proof.
  intros A A' (Hr & Hc & H) B B' (Hr' & Hc' & H').
  apply meq_intro; simpl; auto. intros i j Hi Hj.
  unfold sub. rewrite !mget_mk_in by lia. now rewrite H, H'.
Qed.

#[export] Instance trace_Proper : Proper (meq ==> Qeq) trace.
Proof.
  intros A B (Hr & Hc & H). unfold trace. rewrite Hr.
  apply sumQ_ext. intros i _. apply H.
Qed.

#[export] Instance inner_Proper : Proper (meq ==> meq ==> Qeq) inner.
Proof.
  intros A A' (Hr & Hc & H) B B' (Hr' & Hc' & H'). unfold inner.
  rewrite Hr, Hc. apply sumQ_ext. intros i _. apply sumQ_ext. intros j _.
  now rewrite H, H'.
Qed.

#[export] Instance frob2_Proper : Proper (meq ==> Qeq) frob2.
Proof. intros A B H. unfold frob2. now rewrite H. Qed.

#[export] Instance meqb_Proper : Proper (meq ==> meq ==> eq) meqb.
Proof.
  intros A A' HA B B' HB.
  destruct (meqb A B) eqn:E1, (meqb A' B') eqn:E2; try reflexivity.
  - apply meqb_spec in E1. rewrite HA, HB in E1. apply meqb_spec in E1. congruence.
  - apply meqb_spec in E2. rewrite <- HA, <- HB in E2. apply meqb_spec in E2. congruence.
Qed.

(** ** Shapes *)

Lemma shape_dot A B : shape (dot A B) = (nrows A, ncols B).
Proof. reflexivity. Qed.

Lemma shape_transpose A : shape (transpose A) = (ncols A, nrows A).
Proof. reflexivity. Qed.

Lemma shape_eye n : shape (eye n) = (n, n).
Proof. reflexivity. Qed.

Lemma shape_array_cons r rows :
  shape (array (r :: rows)) = (S (length rows), length r).
Proof. reflexivity. Qed.

(** ** Algebraic laws *)

Section Algebra.
Implicit Types (A B C R : matrix) (c : Q) (n : nat).

Lemma transpose_involutive A : transpose (transpose A) =~= A.
Proof.
  apply meq_intro; try reflexivity. intros i j _ _.
  now rewrite !mget_transpose.
Qed.

Lemma transpose_eye n : transpose (eye n) =~= eye n.
Proof.
  apply meq_intro; try reflexivity. intros i j _ _.
  rewrite mget_transpose, !mget_eye, (Nat.eqb_sym j i).
  destruct (Nat.eqb_spec i j) as [->|]; reflexivity.
Qed.

Lemma transpose_dot A B :
  transpose (dot A B) =~= dot (transpose B) (transpose A).
Proof.
  apply meq_intro; try reflexivity. intros i j _ _.
  rewrite mget_transpose, !mget_dot. simpl.
  rewrite (sumQ_conform (ncols A) (nrows B)).
  - apply sumQ_ext. intros k _. rewrite !mget_transpose. ring.
  - intros k Hk. rewrite (mget_out_col A) by exact Hk. ring.
  - intros k Hk. rewrite (mget_out_row B) by exact Hk. ring.
Qed.

Lemma transpose_sub A B :
  transpose (sub A B) =~= sub (transpose A) (transpose B).
Proof.
  apply meq_intro; try reflexivity. simpl. intros i j Hi Hj.
  rewrite mget_transpose. unfold sub.
  rewrite !mget_mk_in by (simpl; assumption).
  now rewrite !mget_transpose.
Qed.

Lemma transpose_scale c A : transpose (scale c A) =~= scale c (transpose A).
Proof.
  apply meq_intro; try reflexivity. intros i j _ _.
  now rewrite mget_transpose, !mget_scale, mget_transpose.
Qed.

Lemma dot_assoc A B C : dot (dot A B) C =~= dot A (dot B C).
Proof.
  apply meq_intro; try reflexivity. intros i j _ _.
  rewrite !mget_dot. simpl.
  rewrite (sumQ_ext _ _ (fun l =>
    sumQ (ncols A) (fun k => mget A i k * mget B k l * mget C l j))).
  2:{ intros l _. rewrite mget_dot, <- sumQ_scale_r. reflexivity. }
  rewrite sumQ_swap. apply sumQ_ext. intros k _.
  rewrite mget_dot, <- sumQ_scale_l. apply sumQ_ext. intros l _. ring.
Qed.

Lemma dot_eye_r A n : ncols A = n -> dot A (eye n) =~= A.
Proof.
  intros <-. apply meq_intro; try reflexivity. simpl. intros i j Hi Hj.
  rewrite mget_dot.
  rewrite (sumQ_ext _ _ (fun k => if (k =? j)%nat then mget A i k else 0)).
  - rewrite sumQ_delta. now ltb_true.
  - intros k Hk. rewrite mget_eye.
    destruct (Nat.eqb_spec k j); simpl; [ltb_true|]; ring.
Qed.

Lemma dot_eye_l A n : nrows A = n -> dot (eye n) A =~= A.
Proof.
  intros <-. apply meq_intro; try reflexivity. simpl. intros i j Hi Hj.
  rewrite mget_dot. simpl.
  rewrite (sumQ_ext _ _ (fun k => if (k =? i)%nat then mget A k j else 0)).
  - rewrite sumQ_delta. now ltb_true.
  - intros k Hk. rewrite mget_eye, (Nat.eqb_sym i k).
    destruct (Nat.eqb_spec k i) as [->|]; simpl; [ltb_true|]; ring.
Qed.

Lemma dot_eye_eye n : dot (eye n) (eye n) =~= eye n.
Proof. now apply dot_eye_l. Qed.

Lemma dot_sub_r R A B :
  nrows A = nrows B -> ncols A = ncols B ->
  dot R (sub A B) =~= sub (dot R A) (dot R B).
Proof.
  intros Hr Hc. apply meq_intro; try reflexivity. simpl. intros i j Hi Hj.
  rewrite mget_sub, !mget_dot, <- sumQ_sub by (simpl; congruence).
  apply sumQ_ext. intros k _. rewrite mget_sub by assumption. ring.
Qed.

Lemma dot_sub_l R A B :
  nrows A = nrows B -> ncols A = ncols B ->
  dot (sub A B) R =~= sub (dot A R) (dot B R).
Proof.
  intros Hr Hc. apply meq_intro; try reflexivity. simpl. intros i j Hi Hj.
  rewrite mget_sub, !mget_dot, <- Hc, <- sumQ_sub by (simpl; congruence).
  apply sumQ_ext. intros k _. rewrite mget_sub by assumption. ring.
Qed.

Lemma dot_scale_l c A B : dot (scale c A) B =~= scale c (dot A B).
Proof.
  apply meq_intro; try reflexivity. intros i j _ _.
  rewrite mget_scale, !mget_dot, <- sumQ_scale_l. simpl.
  apply sumQ_ext. intros k _. rewrite mget_scale. ring.
Qed.

Lemma dot_scale_r c A B : dot A (scale c B) =~= scale c (dot A B).
Proof.
  apply meq_intro; try reflexivity. intros i j _ _.
  rewrite mget_scale, !mget_dot, <- sumQ_scale_l.
  apply sumQ_ext. intros k _. rewrite mget_scale. ring.
Qed.

Lemma scale_one A : scale 1 A =~= A.
Proof.
  apply meq_intro; try reflexivity. intros i j _ _. rewrite mget_scale. ring.
Qed.

Lemma scale_scale c d A : scale c (scale d A) =~= scale (c * d) A.
Proof.
  apply meq_intro; try reflexivity. intros i j _ _. rewrite !mget_scale. ring.
Qed.

Lemma sub_self A : sub A A =~= zeros_like A.
Proof.
  apply meq_intro; try reflexivity. intros i j _ _. unfold zeros_like.
  rewrite mget_sub, mget_zeros by reflexivity. ring.
Qed.

(** *** Trace *)

Lemma trace_transpose A : trace (transpose A) == trace A.
Proof.
  unfold trace. simpl. rewrite (sumQ_conform (ncols A) (nrows A)).
  - apply sumQ_ext. intros i _. now rewrite mget_transpose.
  - intros k Hk. rewrite mget_transpose. now rewrite mget_out_col.
  - intros k Hk. rewrite mget_transpose. now rewrite mget_out_row.
Qed.

Lemma trace_scale c A : trace (scale c A) == c * trace A.
Proof.
  unfold trace. simpl. rewrite <- sumQ_scale_l.
  apply sumQ_ext. intros i _. apply mget_scale.
Qed.

Lemma trace_sub A B :
  nrows A = nrows B -> ncols A = ncols B ->
  trace (sub A B) == trace A - trace B.
Proof.
  intros Hr Hc. unfold trace. simpl. rewrite <- Hr, <- sumQ_sub.
  apply sumQ_ext. intros i _. now apply mget_sub.
Qed.

Lemma trace_eye n : trace (eye n) == inject_Z (Z.of_nat n).
Proof.
  unfold trace. simpl. rewrite (sumQ_ext _ _ (fun _ => 1)).
  - rewrite sumQ_const. ring.
  - intros i Hi. rewrite mget_eye, Nat.eqb_refl. simpl. now ltb_true.
Qed.

Lemma trace_diag s : trace (diag s) == sum_list s.
Proof.
  unfold trace. simpl.
  rewrite (sumQ_ext _ _ (fun i => nth i s 0)).
  2:{ intros i _. now rewrite mget_diag, Nat.eqb_refl. }
  rewrite sumQ_map_seq. unfold sum_list. clear.
  assert (H : map (fun i => nth i s 0) (seq 0 (length s)) = s).
  { apply nth_ext with (d := 0) (d' := 0).
    - now rewrite length_map, length_seq.
    - intros i Hi. rewrite length_map, length_seq in Hi.
      now rewrite (nth_map_seq (fun i => nth i s 0) 0 (length s) i Hi). }
  now rewrite H.
Qed.

(** The trace of a product does not depend on the order of the factors. *)
Lemma trace_dot_comm A B : trace (dot A B) == trace (dot B A).
Proof.
  unfold trace. simpl.
  rewrite (sumQ_ext _ _ (fun i =>
    sumQ (ncols A) (fun k => mget A i k * mget B k i)))
    by (intros; apply mget_dot).
  rewrite (sumQ_ext (nrows B) _ (fun k =>
    sumQ (ncols B) (fun i => mget A i k * mget B k i))).
  2:{ intros k _. rewrite mget_dot. apply sumQ_ext. intros i _. ring. }
  rewrite (sumQ_conform (nrows A) (ncols B)).
  - rewrite sumQ_swap. rewrite (sumQ_conform (ncols A) (nrows B)); [reflexivity| |].
    + intros k Hk. apply sumQ_all_zero. intros i _.
      rewrite (mget_out_col A) by exact Hk. ring.
    + intros k Hk. apply sumQ_all_zero. intros i _.
      rewrite (mget_out_row B) by exact Hk. ring.
  - intros i Hi. apply sumQ_all_zero. intros k _.
    rewrite (mget_out_row A) by exact Hi. ring.
  - intros i Hi. apply sumQ_all_zero. intros k _.
    rewrite (mget_out_col B) by exact Hi. ring.
Qed.
End Algebra.

(** ** The Frobenius inner product and norm *)

Section Norm.
Implicit Types (A B : matrix) (c : Q).

Lemma inner_trace A B : inner A B == trace (dot (transpose A) B).
Proof.
  unfold inner, trace. simpl. rewrite sumQ_swap.
  apply sumQ_ext. intros j _. rewrite mget_dot. simpl.
  apply sumQ_ext. intros i _. now rewrite mget_transpose.
Qed.

Lemma frob2_trace A : frob2 A == trace (dot (transpose A) A).
Proof. apply inner_trace. Qed.

Lemma inner_comm A B :
  nrows A = nrows B -> ncols A = ncols B -> inner A B == inner B A.
Proof.
  intros Hr Hc. unfold inner. rewrite Hr, Hc.
  apply sumQ_ext. intros i _. apply sumQ_ext. intros j _. ring.
Qed.

Lemma frob2_nonneg A : 0 <= frob2 A.
Proof.
  unfold frob2, inner. apply sumQ_nonneg. intros i _.
  apply sumQ_nonneg. intros j _. apply Qsquare_nonneg.
Qed.

Lemma frob2_zeros m n : frob2 (zeros m n) == 0.
Proof.
  unfold frob2, inner. apply sumQ_all_zero. intros i _.
  apply sumQ_all_zero. intros j _. rewrite mget_zeros. ring.
Qed.

(** Only the zero array has norm zero. *)
Lemma frob2_zero_inv A : frob2 A == 0 -> A =~= zeros_like A.
Proof.
  intros H. apply meq_intro; try reflexivity. intros i j Hi Hj.
  unfold zeros_like. rewrite mget_zeros. apply Qsquare_zero.
  unfold frob2, inner in H.
  assert (Hrow : sumQ (ncols A) (fun j => mget A i j * mget A i j) == 0).
  { apply (sumQ_nonneg_zero (nrows A)
             (fun i => sumQ (ncols A) (fun j => mget A i j * mget A i j)));
      auto.
    intros k _. apply sumQ_nonneg. intros l _. apply Qsquare_nonneg. }
  apply (sumQ_nonneg_zero (ncols A) (fun j => mget A i j * mget A i j));
    auto.
  intros k _. apply Qsquare_nonneg.
Qed.

Lemma frob2_zero_iff A : frob2 A == 0 <-> A =~= zeros_like A.
Proof.
  split; [apply frob2_zero_inv|]. intros H. rewrite H.
  apply frob2_zeros.
Qed.

Lemma frob2_transpose A : frob2 (transpose A) == frob2 A.
Proof.
  unfold frob2, inner. simpl. rewrite sumQ_swap.
  apply sumQ_ext. intros i _. apply sumQ_ext. intros j _.
  now rewrite !mget_transpose.
Qed.

Lemma frob2_scale c A : frob2 (scale c A) == c * c * frob2 A.
Proof.
  unfold frob2, inner. simpl. rewrite <- sumQ_scale_l.
  apply sumQ_ext. intros i _. rewrite <- sumQ_scale_l.
  apply sumQ_ext. intros j _. rewrite mget_scale. ring.
Qed.

Lemma inner_scale_r c A B : inner A (scale c B) == c * inner A B.
Proof.
  unfold inner. rewrite <- sumQ_scale_l.
  apply sumQ_ext. intros i _. rewrite <- sumQ_scale_l.
  apply sumQ_ext. intros j _. rewrite mget_scale. ring.
Qed.

(** The norm of a difference, expanded. *)
Lemma frob2_sub A B :
  nrows A = nrows B -> ncols A = ncols B ->
  frob2 (sub A B) == frob2 A - 2 * inner A B + frob2 B.
Proof.
  intros Hr Hc. unfold frob2, inner. simpl. rewrite <- Hr, <- Hc.
  rewrite <- sumQ_scale_l, <- sumQ_sub, <- sumQ_add.
  apply sumQ_ext. intros i _.
  rewrite <- sumQ_scale_l, <- sumQ_sub, <- sumQ_add.
  apply sumQ_ext. intros j _. rewrite mget_sub by assumption. ring.
Qed.

(** Two arrays of the same shape at distance zero are equal. *)
Lemma frob2_sub_zero A B :
  nrows A = nrows B -> ncols A = ncols B ->
  frob2 (sub A B) == 0 -> A =~= B.
Proof.
  intros Hr Hc H. apply frob2_zero_inv in H. destruct H as (_ & _ & H).
  apply meq_intro; auto. intros i j _ _. specialize (H i j).
  unfold zeros_like in H. rewrite mget_sub, mget_zeros in H by assumption.
  lra.
Qed.

Lemma frob2_sub_self A B : A =~= B -> frob2 (sub A B) == 0.
Proof. intros H. rewrite H, sub_self. apply frob2_zeros. Qed.
End Norm.

#[export] Hint Resolve frob2_nonneg : align.

(** ** Sums of arrays *)

Section Sum.
Implicit Types (A B C : matrix) (c : Q).

Lemma dot_add_r C A B :
  nrows A = nrows B -> ncols A = ncols B ->
  dot C (add A B) =~= add (dot C A) (dot C B).
Proof.
  intros Hr Hc. apply meq_intro; try reflexivity. simpl. intros i j Hi Hj.
  rewrite mget_add, !mget_dot, <- sumQ_add by (simpl; congruence).
  apply sumQ_ext. intros k _. rewrite mget_add by assumption. ring.
Qed.

Lemma dot_add_l C A B :
  nrows A = nrows B -> ncols A = ncols B ->
  dot (add A B) C =~= add (dot A C) (dot B C).
Proof.
  intros Hr Hc. apply meq_intro; try reflexivity. simpl. intros i j Hi Hj.
  rewrite mget_add, !mget_dot, <- Hc, <- sumQ_add by (simpl; congruence).
  apply sumQ_ext. intros k _. rewrite mget_add by assumption. ring.
Qed.

(** [A + (B - A)] is [B]. *)
Lemma add_sub_cancel A B :
  nrows A = nrows B -> ncols A = ncols B -> add A (sub B A) =~= B.
Proof.
  intros Hr Hc. apply meq_intro; simpl; auto. intros i j _ _.
  rewrite mget_add, mget_sub by (simpl; congruence). ring.
Qed.

Lemma inner_add_r C A B :
  nrows A = nrows B -> ncols A = ncols B ->
  inner C (add A B) == inner C A + inner C B.
Proof.
  intros Hr Hc. unfold inner. rewrite <- sumQ_add.
  apply sumQ_ext. intros i _. rewrite <- sumQ_add.
  apply sumQ_ext. intros j _. rewrite mget_add by assumption. ring.
Qed.

Lemma inner_scale_l c A B : inner (scale c A) B == c * inner A B.
Proof.
  unfold inner. simpl. rewrite <- sumQ_scale_l.
  apply sumQ_ext. intros i _. rewrite <- sumQ_scale_l.
  apply sumQ_ext. intros j _. rewrite mget_scale. ring.
Qed.

(** The norm of a sum, expanded. *)
Lemma frob2_add A B :
  nrows A = nrows B -> ncols A = ncols B ->
  frob2 (add A B) == frob2 A + 2 * inner A B + frob2 B.
Proof.
  intros Hr Hc. unfold frob2, inner. simpl. rewrite <- Hr, <- Hc.
  rewrite <- sumQ_scale_l, <- !sumQ_add.
  apply sumQ_ext. intros i _.
  rewrite <- sumQ_scale_l, <- !sumQ_add.
  apply sumQ_ext. intros j _. rewrite mget_add by assumption. ring.
Qed.

(** The transpose is the adjoint for the inner product. *)
Lemma inner_dot_adjoint A B C :
  inner A (dot (transpose B) C) == inner (dot B A) C.
Proof.
  rewrite !inner_trace, transpose_dot, dot_assoc. reflexivity.
Qed.
End Sum.

(** ** Zero arrays *)

Lemma dot_zeros_r A m n : dot A (zeros m n) =~= zeros (nrows A) n.
Proof.
  apply meq_intro; try reflexivity. intros i j _ _.
  rewrite mget_dot, mget_zeros. apply sumQ_all_zero. intros k _.
  rewrite mget_zeros. ring.
Qed.

Lemma dot_zeros_l B m n : dot (zeros m n) B =~= zeros m (ncols B).
Proof.
  apply meq_intro; try reflexivity. intros i j _ _.
  rewrite mget_dot, mget_zeros. apply sumQ_all_zero. intros k _.
  rewrite mget_zeros. ring.
Qed.

Lemma transpose_zeros m n : transpose (zeros m n) =~= zeros n m.
Proof.
  apply meq_intro; try reflexivity. intros i j _ _.
  now rewrite mget_transpose, !mget_zeros.
Qed.

Lemma trace_zeros m n : trace (zeros m n) == 0.
Proof.
  unfold trace. apply sumQ_all_zero. intros i _. apply mget_zeros.
Qed.

Lemma frob2_zero_bool A : Qeq_bool (frob2 A) 0 = true <-> A =~= zeros_like A.
Proof. rewrite Qeq_bool_iff. apply frob2_zero_iff. Qed.

(** The product with an array of norm zero has trace zero, whatever the
    other factors. *)
Lemma trace_dot_zero_r A B C :
  frob2 B == 0 -> trace (dot (dot A B) C) == 0.
Proof.
  intros H. apply frob2_zero_inv in H. rewrite H. unfold zeros_like.
  rewrite dot_zeros_r, dot_zeros_l. apply trace_zeros.
Qed.

Lemma trace_dot_zero_l A B C :
  frob2 A == 0 -> trace (dot (dot (transpose A) B) C) == 0.
Proof.
  intros H. apply frob2_zero_inv in H. rewrite H. unfold zeros_like.
  rewrite transpose_zeros, !dot_zeros_l. apply trace_zeros.
Qed.
