(* ===== verification/Linsolve.v ===== *)
(** * Linsolve: linear systems over the rationals

    The service that solves [A R = B] for a square [A], as it is promised
    by [numpy.linalg.solve] to the closed form of the ridge solver: the
    class [LinearSolver] with the laws [LinearSolverLaws], and the
    reference implementation [gauss_jordan], elimination with a pivot
    search on the array [A | B], which meets the laws: what it returns
    solves the system, and it returns for every [A] of trivial kernel.

    The loop of the elimination runs once per column; it is a structural
    recursion on the number of columns left, so no fuel is involved. *)

From Stdlib Require Import ZArith QArith Qabs Lqa Lia List Bool Arith Setoid Morphisms.
From S2P Require Import Prelude Matrix.
Import ListNotations.
Open Scope Q_scope.
Open Scope mat_scope.
Open Scope align_scope.

(** ** The interface *)

Class LinearSolver : Type := {
  linsolve : matrix -> matrix -> result matrix
}.

(** [A] maps no vector but zero to zero. *)
Definition trivial_kernel (A : matrix) : Prop :=
  forall x : nat -> Q,
    (forall r, (r < nrows A)%nat ->
       sumQ (ncols A) (fun c => mget A r c * x c) == 0) ->
    forall c, (c < ncols A)%nat -> x c == 0.

Class LinearSolverLaws `{LinearSolver} : Prop := {
  linsolve_shape A B R :
    linsolve A B = Ok R -> nrows R = ncols A /\ ncols R = ncols B;
  linsolve_sound A B R :
    linsolve A B = Ok R -> dot A R =~= B;
  linsolve_total A B :
    nrows A = ncols A -> nrows B = nrows A -> trivial_kernel A ->
    is_ok (linsolve A B) = true
}.

(** ** Elimination *)

(** [np.hstack((A, B))] *)
Definition hstack (A B : matrix) : matrix :=
  mk (nrows A) (ncols A + ncols B)
     (fun i j => if (j <? ncols A)%nat then mget A i j
                 else mget B i (j - ncols A)).

(** The columns of [M] from column [n] on. *)
Definition right_block (n : nat) (M : matrix) : matrix :=
  mk (nrows M) (ncols M - n) (fun i j => mget M i (n + j)).

(** The first row from row [k] on with a non-zero entry in column [k]. *)
Definition find_pivot (M : matrix) (k : nat) : option nat :=
  find (fun r => negb (Qeq_bool (mget M r k) 0)) (seq k (nrows M - k)).

(** One step of the elimination on column [k] with the pivot in row [p]:
    rows [k] and [p] are exchanged, the new row [k] is divided by the
    pivot, and the multiple of it that clears column [k] is subtracted
    from every other row. *)
Definition pivot_step (M : matrix) (k p : nat) : matrix :=
  let pivot_row c := mget M p c / mget M p k in
  mk (nrows M) (ncols M) (fun r c =>
    if (r =? k)%nat then pivot_row c
    else
      let src := if (r =? p)%nat then k else r in
      mget M src c - mget M src k * pivot_row c).

(** The elimination on the columns [k], ..., [k + steps - 1]; [None] when
    a column has no pivot. *)
Fixpoint eliminate (steps k : nat) (M : matrix) : option matrix :=
  match steps with
  | O => Some M
  | S steps' =>
      match find_pivot M k with
      | None => None
      | Some p => eliminate steps' (S k) (pivot_step M k p)
      end
  end.

(** The solution of [A R = B]: the right block of the reduced [A | B]. *)
Definition gauss_jordan (A B : matrix) : result matrix :=
  if negb ((nrows A =? ncols A)%nat && (nrows B =? nrows A)%nat)
  then Err ShapeMismatch
  else match eliminate (ncols A) 0 (hstack A B) with
       | Some M => Ok (right_block (ncols A) M)
       | None => Err NumericalDegeneracy
       end.

(** ** What the elimination maintains *)

(** The value of a linear form with the weights [w] on row [r]. *)
Definition row_eval (M : matrix) (w : nat -> Q) (r : nat) : Q :=
  sumQ (ncols M) (fun c => mget M r c * w c).

(** The first [j] columns are those of the identity. *)
Definition reduced (j : nat) (M : matrix) : Prop :=
  forall r c, (r < nrows M)%nat -> (c < j)%nat ->
    mget M r c == if (r =? c)%nat then 1 else 0.

(** No weights that vanish from column [n] on annihilate every row. *)
Definition kernel_free (n : nat) (M : matrix) : Prop :=
  forall w, (forall c, (n <= c)%nat -> w c == 0) ->
    (forall r, (r < nrows M)%nat -> row_eval M w r == 0) ->
    forall c, (c < n)%nat -> w c == 0.

(** ** The pivot *)

Lemma find_pivot_Some M k p :
  find_pivot M k = Some p ->
  (k <= p < nrows M)%nat /\ ~ mget M p k == 0.
Proof.
  unfold find_pivot. intros H. apply find_some in H as [Hin Hp].
  apply in_seq in Hin. split; [lia|].
  intros Hz. apply Qeq_bool_iff in Hz. now rewrite Hz in Hp.
Qed.

Lemma find_pivot_None M k r :
  find_pivot M k = None -> (k <= r < nrows M)%nat -> mget M r k == 0.
Proof.
  unfold find_pivot. intros H Hr.
  pose proof (find_none _ _ H r) as Hn.
  apply Qeq_bool_iff. rewrite <- negb_false_iff. apply Hn, in_seq. lia.
Qed.

(** ** One step *)

Section PivotStep.
Variables (M : matrix) (k p : nat).
Hypothesis Hk : (k < nrows M)%nat.
Hypothesis Hp : (p < nrows M)%nat.

Let src (r : nat) : nat := if (r =? p)%nat then k else r.

Lemma row_eval_pivot_row w :
  row_eval (pivot_step M k p) w k == row_eval M w p / mget M p k.
Proof.
  unfold row_eval, Qdiv. simpl. rewrite <- sumQ_scale_r.
  apply sumQ_ext. intros c Hc. unfold pivot_step.
  rewrite mget_mk_in, Nat.eqb_refl by assumption. unfold Qdiv. ring.
Qed.

Lemma row_eval_pivot_other w r :
  (r < nrows M)%nat -> r <> k ->
  row_eval (pivot_step M k p) w r ==
  row_eval M w (src r) - mget M (src r) k * (row_eval M w p / mget M p k).
Proof.
  intros Hr Hne. unfold row_eval, Qdiv. simpl.
  rewrite <- sumQ_scale_r, <- sumQ_scale_l, <- sumQ_sub.
  apply sumQ_ext. intros c Hc. unfold pivot_step.
  rewrite mget_mk_in by assumption.
  rewrite (proj2 (Nat.eqb_neq r k) Hne). unfold src, Qdiv. ring.
Qed.

Hypothesis Hpivot : ~ mget M p k == 0.

(** Weights that annihilate every row after the step did so before. *)
Lemma pivot_step_eval_back w :
  (forall r, (r < nrows M)%nat -> row_eval (pivot_step M k p) w r == 0) ->
  forall r, (r < nrows M)%nat -> row_eval M w r == 0.
Proof.
  intros H.
  assert (Ep : row_eval M w p == 0).
  { pose proof (H k Hk) as Hkz. rewrite row_eval_pivot_row in Hkz.
    rewrite <- (Qmult_div_r (row_eval M w p) (mget M p k)) by exact Hpivot.
    rewrite Hkz. ring. }
  assert (Eo : forall r, (r < nrows M)%nat -> r <> k ->
                         row_eval M w (src r) == 0).
  { intros r Hr Hne. pose proof (H r Hr) as Hz.
    rewrite (row_eval_pivot_other w r Hr Hne), Ep in Hz.
    unfold Qdiv in Hz. rewrite <- Hz. ring. }
  intros r Hr. destruct (Nat.eq_dec r p) as [->|Hrp]; [exact Ep|].
  destruct (Nat.eq_dec r k) as [->|Hrk].
  - specialize (Eo p Hp (not_eq_sym Hrp)). unfold src in Eo.
    now rewrite Nat.eqb_refl in Eo.
  - specialize (Eo r Hr Hrk). unfold src in Eo.
    now rewrite (proj2 (Nat.eqb_neq r p) Hrp) in Eo.
Qed.

Lemma kernel_free_pivot_step n :
  kernel_free n M -> kernel_free n (pivot_step M k p).
Proof.
  intros HM w Hw Hz. apply (HM w Hw). now apply pivot_step_eval_back.
Qed.

Hypothesis Hkp : (k <= p)%nat.
Hypothesis Hcol : (k < ncols M)%nat.

(** The step adds column [k] to the columns of the identity. *)
Lemma reduced_pivot_step : reduced k M -> reduced (S k) (pivot_step M k p).
Proof.
  intros HM r c Hr Hc. simpl in Hr. unfold pivot_step.
  rewrite mget_mk_in by (auto; lia).
  assert (Hpc : (c < k)%nat -> mget M p c == 0).
  { intros Hlt. rewrite (HM p c Hp Hlt).
    now rewrite (proj2 (Nat.eqb_neq p c)) by lia. }
  destruct (Nat.eqb_spec r k) as [->|Hrk].
  - destruct (Nat.eqb_spec k c) as [<-|Hne]; [now field|].
    rewrite Hpc by lia. now field.
  - destruct (Nat.eq_dec c k) as [->|Hck].
    + rewrite (proj2 (Nat.eqb_neq r k) Hrk). now field.
    + rewrite Hpc by lia.
      assert (Hs : (src r < nrows M)%nat) by (unfold src; now destruct (r =? p)%nat).
      fold (src r). rewrite (HM (src r) c Hs) by lia.
      unfold src. destruct (Nat.eqb_spec r p) as [->|Hrp].
      * rewrite !(proj2 (Nat.eqb_neq _ c)) by lia. now field.
      * now field.
Qed.
End PivotStep.

(** ** The whole elimination *)

Lemma eliminate_spec steps : forall k M M',
  eliminate steps k M = Some M' ->
  reduced k M -> (k + steps <= ncols M)%nat ->
  nrows M' = nrows M /\ ncols M' = ncols M /\ reduced (k + steps) M' /\
  forall w, (forall r, (r < nrows M)%nat -> row_eval M' w r == 0) ->
            forall r, (r < nrows M)%nat -> row_eval M w r == 0.
Proof.
  induction steps as [|steps IH]; intros k M M' He Hred Hcols; simpl in He.
  - injection He as <-. rewrite Nat.add_0_r. auto.
  - destruct (find_pivot M k) as [p|] eqn:Ep; [|discriminate].
    apply find_pivot_Some in Ep as [Hp Hpv].
    apply IH in He as (Hr & Hc & Hred' & Hback);
      [|apply reduced_pivot_step; auto; lia | simpl; lia].
    simpl in Hr, Hc. rewrite Nat.add_succ_r. repeat split; auto.
    intros w Hz. apply (pivot_step_eval_back M k p); auto; lia.
Qed.

(** The elimination finds a pivot in every column when no weights
    annihilate every row. *)
Lemma find_pivot_exists n M k :
  reduced k M -> kernel_free n M -> (k < n)%nat -> (n <= ncols M)%nat ->
  (n <= nrows M)%nat ->
  exists p, find_pivot M k = Some p.
Proof.
  intros Hred Hker Hk Hn Hm.
  destruct (find_pivot M k) as [p|] eqn:Ep; [eauto|]. exfalso.
  set (w := fun c => if (c <? k)%nat then - mget M c k
                     else if (c =? k)%nat then 1 else 0).
  assert (Hw : w k == 0).
  { apply (Hker w); [| |exact Hk].
    - intros c Hc. unfold w.
      rewrite (proj2 (Nat.ltb_ge c k)), (proj2 (Nat.eqb_neq c k)) by lia.
      reflexivity.
    - intros r Hr. unfold row_eval.
      rewrite (sumQ_ext _ _ (fun c =>
        (if (c =? r)%nat then (if (r <? k)%nat then - mget M r k else 0) else 0) +
        (if (c =? k)%nat then mget M r k else 0))).
      + rewrite sumQ_add, !sumQ_delta.
        rewrite (proj2 (Nat.ltb_lt k (ncols M))) by lia.
        destruct (Nat.ltb_spec r k) as [Hlt|Hge].
        * rewrite (proj2 (Nat.ltb_lt r (ncols M))) by lia. ring.
        * rewrite (find_pivot_None M k r Ep) by lia.
          destruct (r <? ncols M)%nat; ring.
      + intros c Hc. unfold w. destruct (Nat.ltb_spec c k) as [Hlt|Hge].
        * rewrite (Hred r c Hr Hlt), (proj2 (Nat.eqb_neq c k)) by lia.
          rewrite (Nat.eqb_sym c r).
          destruct (Nat.eqb_spec r c) as [->|_]; [|ring].
          rewrite (proj2 (Nat.ltb_lt c k) Hlt). ring.
        * destruct (Nat.eqb_spec c k) as [->|Hne].
          -- destruct (Nat.eqb_spec k r) as [<-|_]; [|ring].
             rewrite Nat.ltb_irrefl. ring.
          -- destruct (Nat.eqb_spec c r) as [<-|_]; [|ring].
             rewrite (proj2 (Nat.ltb_ge c k) Hge). ring. }
  unfold w in Hw. rewrite Nat.ltb_irrefl, Nat.eqb_refl in Hw. discriminate.
Qed.

Lemma eliminate_total n steps : forall k M,
  reduced k M -> kernel_free n M -> (k + steps <= n)%nat ->
  (n <= ncols M)%nat -> (n <= nrows M)%nat ->
  exists M', eliminate steps k M = Some M'.
Proof.
  induction steps as [|steps IH]; intros k M Hred Hker Hks Hn Hm; simpl;
    [eauto|].
  destruct (find_pivot_exists n M k) as (p & Ep); auto; [lia|].
  rewrite Ep. apply find_pivot_Some in Ep as [Hp Hpv].
  apply IH; simpl; try lia.
  - apply reduced_pivot_step; auto; lia.
  - apply kernel_free_pivot_step; auto; lia.
Qed.

(** ** The array [A | B] *)

(** The linear form that reads [A x - B[:, c]] on a row of [A | B]. *)
Definition residual_weights (n : nat) (x : nat -> Q) (c : nat) (j : nat) : Q :=
  if (j <? n)%nat then x j else if (j =? n + c)%nat then -(1) else 0.

Lemma row_eval_residual (M : matrix) n q x c r :
  ncols M = (n + q)%nat -> (c < q)%nat ->
  row_eval M (residual_weights n x c) r ==
  sumQ n (fun j => mget M r j * x j) - mget M r (n + c).
Proof.
  intros Hc Hq. unfold row_eval. rewrite Hc, sumQ_app.
  rewrite (sumQ_ext q _ (fun j => if (j =? c)%nat then - mget M r (n + j) else 0)).
  - rewrite sumQ_delta, (proj2 (Nat.ltb_lt c q) Hq).
    rewrite (sumQ_ext n _ (fun j => mget M r j * x j)); [ring|].
    intros j Hj. unfold residual_weights.
    now rewrite (proj2 (Nat.ltb_lt j n) Hj).
  - intros j Hj. unfold residual_weights.
    rewrite (proj2 (Nat.ltb_ge (n + j) n)) by lia.
    destruct (Nat.eqb_spec j c) as [->|Hne].
    + rewrite Nat.eqb_refl. ring.
    + rewrite (proj2 (Nat.eqb_neq (n + j) (n + c))) by lia. ring.
Qed.

Lemma reduced_zero (M : matrix) : reduced 0 M.
Proof. intros r c _ Hc. lia. Qed.

Section Augmented.
Variables (A B : matrix).
Hypothesis Hrows : nrows B = nrows A.

Lemma mget_hstack_left r j :
  (j < ncols A)%nat -> mget (hstack A B) r j == mget A r j.
Proof.
  intros Hj. unfold hstack. rewrite mget_mk.
  rewrite (proj2 (Nat.ltb_lt j (ncols A)) Hj).
  rewrite (proj2 (Nat.ltb_lt j (ncols A + ncols B))) by lia.
  destruct (Nat.ltb_spec r (nrows A)); simpl; [reflexivity|].
  now rewrite mget_out_row.
Qed.

Lemma mget_hstack_right r c :
  mget (hstack A B) r (ncols A + c) == mget B r c.
Proof.
  unfold hstack. rewrite mget_mk.
  rewrite (proj2 (Nat.ltb_ge (ncols A + c) (ncols A))) by lia.
  replace (ncols A + c - ncols A)%nat with c by lia.
  destruct (Nat.ltb_spec r (nrows A)); simpl;
    [|rewrite mget_out_row by lia; reflexivity].
  destruct (Nat.ltb_spec (ncols A + c) (ncols A + ncols B)); [reflexivity|].
  rewrite mget_out_col by lia. reflexivity.
Qed.

Lemma kernel_free_hstack : trivial_kernel A -> kernel_free (ncols A) (hstack A B).
Proof.
  intros HA w Hw Hz. apply HA. intros r Hr.
  rewrite <- (Hz r Hr). unfold row_eval. simpl. rewrite sumQ_app.
  rewrite (sumQ_all_zero (ncols B)), Qplus_0_r.
  - apply sumQ_ext. intros c Hc. now rewrite mget_hstack_left.
  - intros c _. rewrite Hw by lia. ring.
Qed.
End Augmented.

(** ** The reference implementation meets the laws *)

Lemma gauss_jordan_inv A B R :
  gauss_jordan A B = Ok R ->
  nrows A = ncols A /\ nrows B = nrows A /\
  exists M, eliminate (ncols A) 0 (hstack A B) = Some M /\
            R = right_block (ncols A) M.
Proof.
  unfold gauss_jordan.
  destruct (Nat.eqb_spec (nrows A) (ncols A)) as [Hsq|]; [|discriminate].
  destruct (Nat.eqb_spec (nrows B) (nrows A)) as [Hr|]; [|discriminate].
  simpl. destruct (eliminate _ 0 _) as [M|]; [|discriminate].
  intros [= <-]. eauto.
Qed.

Lemma gauss_jordan_shape A B R :
  gauss_jordan A B = Ok R -> nrows R = ncols A /\ ncols R = ncols B.
Proof.
  intros H. apply gauss_jordan_inv in H as (Hsq & Hr & M & He & ->).
  apply eliminate_spec in He as (Hm & Hc & _); [|apply reduced_zero | simpl; lia].
  simpl in *. lia.
Qed.

Lemma gauss_jordan_sound A B R : gauss_jordan A B = Ok R -> dot A R =~= B.
Proof.
  intros H. pose proof (gauss_jordan_shape A B R H) as [HRr HRc].
  apply gauss_jordan_inv in H as (Hsq & Hr & M & He & ->).
  apply eliminate_spec in He as (Hm & Hc & Hred & Hback);
    [|apply reduced_zero | simpl; lia].
  simpl in Hm, Hc, Hred, Hback.
  apply meq_intro; [simpl; congruence | exact HRc|].
  intros i c Hi Hcc. simpl in Hi, Hcc, Hc.
  assert (Hcb : (c < ncols B)%nat) by lia. clear Hcc.
  set (x := fun j => mget M j (ncols A + c)).
  assert (Hz : row_eval (hstack A B) (residual_weights (ncols A) x c) i == 0).
  { apply Hback; [|exact Hi]. intros r Hr'.
    rewrite (row_eval_residual M (ncols A) (ncols B)) by assumption.
    rewrite (sumQ_ext _ _ (fun j => if (j =? r)%nat then x j else 0)).
    - rewrite sumQ_delta. unfold x.
      rewrite (proj2 (Nat.ltb_lt r (ncols A))) by lia. ring.
    - intros j Hj. rewrite (Hred r j) by lia. rewrite (Nat.eqb_sym j r).
      destruct (r =? j)%nat; ring. }
  rewrite (row_eval_residual _ (ncols A) (ncols B)) in Hz by (simpl; auto).
  rewrite mget_hstack_right in Hz by exact Hr. rewrite mget_dot.
  rewrite <- (Qplus_0_l (mget B i c)), <- Hz.
  rewrite (sumQ_ext _ _ (fun j => mget (hstack A B) i j * x j)); [ring|].
  intros j Hj. rewrite mget_hstack_left by assumption. unfold x, right_block.
  rewrite mget_mk_in by lia. reflexivity.
Qed.

Lemma gauss_jordan_total A B :
  nrows A = ncols A -> nrows B = nrows A -> trivial_kernel A ->
  is_ok (gauss_jordan A B) = true.
Proof.
  intros Hsq Hr HA. unfold gauss_jordan.
  rewrite Hsq, Hr, Hsq, !Nat.eqb_refl. simpl.
  destruct (eliminate_total (ncols A) (ncols A) 0 (hstack A B)) as (M & ->);
    simpl; try lia; try reflexivity;
    [apply reduced_zero | now apply kernel_free_hstack].
Qed.

#[export] Instance gauss_jordan_solver : LinearSolver := {
  linsolve := gauss_jordan
}.

#[export] Instance gauss_jordan_laws : LinearSolverLaws := {
  linsolve_shape := gauss_jordan_shape;
  linsolve_sound := gauss_jordan_sound;
  linsolve_total := gauss_jordan_total
}.

(** The system [2 y = 4, x + 3 y = 7], whose first pivot is found in the
    second row, and a singular system. *)
Example gauss_jordan_example :
  (exists R, gauss_jordan (array [[0; 2]; [1; 3]]) (array [[4]; [7]]) = Ok R /\
             R =~= array [[1]; [2]]) /\
  gauss_jordan (array [[1; 2]; [2; 4]]) (array [[1]; [2]]) =
  Err NumericalDegeneracy.
Proof.
  split; [eexists; split; [vm_compute; reflexivity|] | vm_compute; reflexivity].
  apply meqb_true. vm_compute. reflexivity.
Qed.
