(* ===== verification/Orthogonal.v ===== *)
(** * Orthogonal: orthogonal matrices and the trace inequality

    The transformations that the scaled orthogonal method learns are
    orthogonal matrices.  This file holds their theory: closure under
    product and transpose, invariance of the Frobenius norm, the bound
    on their entries, and the inequality [trace (diag s * Z) <= sum s]
    for non-negative [s] that makes the product of the singular bases
    optimal. *)

From Stdlib Require Import ZArith QArith Qabs Lqa Lia List Bool Arith Setoid Morphisms.
From S2P Require Import Prelude Matrix.
Import ListNotations.
Open Scope Q_scope.
Open Scope mat_scope.

(** [R] is square and [R R^T = R^T R = I]. *)
Definition orthogonal (R : matrix) : Prop :=
  nrows R = ncols R /\
  dot R (transpose R) =~= eye (nrows R) /\
  dot (transpose R) R =~= eye (nrows R).

Definition orthogonalb (R : matrix) : bool :=
  (nrows R =? ncols R)%nat &&
  meqb (dot R (transpose R)) (eye (nrows R)) &&
  meqb (dot (transpose R) R) (eye (nrows R)).

Lemma orthogonalb_spec R : orthogonalb R = true <-> orthogonal R.
Proof.
  unfold orthogonalb, orthogonal.
  rewrite !andb_true_iff, Nat.eqb_eq, !meqb_spec. tauto.
Qed.

#[export] Instance orthogonal_Proper : Proper (meq ==> iff) orthogonal.
Proof.
  assert (Himp : forall A B, A =~= B -> orthogonal A -> orthogonal B).
  { intros A B H (Hsq & H1 & H2).
    pose proof (nrows_Proper _ _ H) as Hr.
    pose proof (ncols_Proper _ _ H) as Hc.
    unfold orthogonal. rewrite <- Hr, <- Hc. split; [exact Hsq | split].
    - transitivity (dot A (transpose A)); [now rewrite H | exact H1].
    - transitivity (dot (transpose A) A); [now rewrite H | exact H2]. }
  intros A B H. split; apply Himp; [exact H | symmetry; exact H].
Qed.

Section Orthogonal.
Implicit Types (R S A Z : matrix).

Lemma orthogonal_square R : orthogonal R -> ncols R = nrows R.
Proof. now intros (H & _). Qed.

Lemma orthogonal_eye n : orthogonal (eye n).
Proof.
  split; [reflexivity | split]; simpl; rewrite transpose_eye;
    apply dot_eye_eye.
Qed.

Lemma orthogonal_transpose R : orthogonal R -> orthogonal (transpose R).
Proof.
  intros (Hsq & H1 & H2). split; [simpl; auto | split]; simpl.
  - rewrite transpose_involutive, <- Hsq. exact H2.
  - rewrite transpose_involutive, <- Hsq. exact H1.
Qed.

(** [R^T (R A) = A] and [R (R^T A) = A]. *)
Lemma orthogonal_cancel_l R A :
  orthogonal R -> nrows A = nrows R ->
  dot (transpose R) (dot R A) =~= A.
Proof.
  intros (Hsq & _ & H2) HA.
  rewrite <- dot_assoc, H2. now apply dot_eye_l.
Qed.

Lemma orthogonal_cancel_l' R A :
  orthogonal R -> nrows A = nrows R ->
  dot R (dot (transpose R) A) =~= A.
Proof.
  intros (Hsq & H1 & _) HA.
  rewrite <- dot_assoc, H1. now apply dot_eye_l.
Qed.

Lemma orthogonal_cancel_r R A :
  orthogonal R -> ncols A = nrows R ->
  dot (dot A R) (transpose R) =~= A.
Proof.
  intros (Hsq & H1 & _) HA.
  rewrite dot_assoc, H1. now apply dot_eye_r.
Qed.

Lemma orthogonal_cancel_r' R A :
  orthogonal R -> ncols A = nrows R ->
  dot (dot A (transpose R)) R =~= A.
Proof.
  intros (Hsq & _ & H2) HA.
  rewrite dot_assoc, H2. now apply dot_eye_r.
Qed.

Lemma orthogonal_dot R S :
  orthogonal R -> orthogonal S -> nrows R = nrows S ->
  orthogonal (dot R S).
Proof.
  intros HR HS Hn.
  pose proof (orthogonal_square R HR) as HsqR.
  pose proof (orthogonal_square S HS) as HsqS.
  split; [simpl; congruence | split]; simpl; rewrite transpose_dot.
  - rewrite dot_assoc, <- (dot_assoc S).
    destruct HS as (_ & -> & _). rewrite (dot_eye_l (transpose R)) by (simpl; congruence).
    now destruct HR as (_ & -> & _).
  - rewrite dot_assoc, <- (dot_assoc (transpose R)).
    destruct HR as (_ & _ & ->). rewrite (dot_eye_l S) by congruence.
    destruct HS as (_ & _ & ->). now rewrite Hn.
Qed.

(** Multiplying by an orthogonal matrix preserves the Frobenius norm. *)
Lemma frob2_dot_orthogonal_l R A :
  orthogonal R -> nrows A = nrows R -> frob2 (dot R A) == frob2 A.
Proof.
  intros HR HA. rewrite !frob2_trace, transpose_dot, dot_assoc.
  now rewrite orthogonal_cancel_l.
Qed.

Lemma frob2_dot_orthogonal_r R A :
  orthogonal R -> ncols A = nrows R -> frob2 (dot A R) == frob2 A.
Proof.
  intros HR HA.
  rewrite <- frob2_transpose, transpose_dot, frob2_dot_orthogonal_l.
  - apply frob2_transpose.
  - now apply orthogonal_transpose.
  - simpl. destruct HR as (Hsq & _). congruence.
Qed.

(** Every row of an orthogonal matrix has norm one. *)
Lemma orthogonal_row_norm R i :
  orthogonal R -> (i < nrows R)%nat ->
  sumQ (ncols R) (fun k => mget R i k * mget R i k) == 1.
Proof.
  intros (Hsq & (_ & _ & H) & _) Hi. specialize (H i i).
  rewrite mget_dot, mget_eye, Nat.eqb_refl in H. simpl in H.
  revert H. ltb_true. intros <-.
  apply sumQ_ext. intros k _. now rewrite mget_transpose.
Qed.

(** No entry of an orthogonal matrix exceeds one. *)
Lemma orthogonal_entry_le_one R i j : orthogonal R -> mget R i j <= 1.
Proof.
  intros HR.
  destruct (Nat.lt_ge_cases i (nrows R)) as [Hi|Hi];
    [|rewrite mget_out_row by exact Hi; lra].
  destruct (Nat.lt_ge_cases j (ncols R)) as [Hj|Hj];
    [|rewrite mget_out_col by exact Hj; lra].
  apply Qsquare_le_one. rewrite <- (orthogonal_row_norm R i HR Hi).
  apply (sumQ_term_le (ncols R) (fun k => mget R i k * mget R i k) j);
    [|exact Hj].
  intros k _. apply Qsquare_nonneg.
Qed.
End Orthogonal.

(** ** The trace inequality *)

Section TraceBound.
Implicit Types (s : list Q) (Z : matrix).

Lemma trace_diag_dot s Z :
  trace (dot (diag s) Z) == sumQ (length s) (fun i => nth i s 0 * mget Z i i).
Proof.
  unfold trace. simpl. apply sumQ_ext. intros i Hi.
  rewrite mget_dot. simpl.
  rewrite (sumQ_ext _ _ (fun k =>
    if (k =? i)%nat then nth k s 0 * mget Z k i else 0)).
  - rewrite sumQ_delta. now ltb_true.
  - intros k _. rewrite mget_diag, (Nat.eqb_sym i k).
    destruct (Nat.eqb_spec k i) as [->|]; ring.
Qed.

Lemma sum_list_nth s : sum_list s == sumQ (length s) (fun i => nth i s 0).
Proof. rewrite <- trace_diag. unfold trace. simpl.
  apply sumQ_ext. intros i _. now rewrite mget_diag, Nat.eqb_refl.
Qed.

(** For non-negative weights [s] and an orthogonal [Z],
    [sum_i s_i Z_ii <= sum_i s_i]. *)
Lemma trace_diag_dot_le s Z :
  Forall (fun x => 0 <= x) s -> orthogonal Z ->
  trace (dot (diag s) Z) <= sum_list s.
Proof.
  intros Hs HZ. rewrite trace_diag_dot, sum_list_nth.
  apply sumQ_le. intros i Hi.
  assert (H0 : 0 <= nth i s 0).
  { rewrite Forall_forall in Hs. apply Hs, nth_In, Hi. }
  pose proof (orthogonal_entry_le_one Z i i HZ). nra.
Qed.
End TraceBound.

(** ** Orthogonal matrices with a unit on the diagonal *)

Section UnitDiagonal.
Implicit Types (s : list Q) (Z : matrix).

(** A row of an orthogonal matrix whose diagonal entry is one has no other
    non-zero entry. *)
Lemma orthogonal_unit_row Z i j :
  orthogonal Z -> (i < nrows Z)%nat -> mget Z i i == 1 -> j <> i ->
  mget Z i j == 0.
Proof.
  intros HZ Hi Hii Hne.
  destruct (Nat.lt_ge_cases j (ncols Z)) as [Hj|Hj];
    [|now rewrite mget_out_col].
  apply Qsquare_zero.
  pose proof (orthogonal_row_norm Z i HZ Hi) as Hrow.
  pose proof (sumQ_remove (ncols Z) i (fun k => mget Z i k * mget Z i k)) as Hrm.
  cbv beta in Hrm. rewrite Hrow in Hrm.
  assert (Hlt : (i <? ncols Z)%nat = true)
    by (apply Nat.ltb_lt; rewrite (orthogonal_square Z HZ); exact Hi).
  rewrite Hlt, Hii in Hrm.
  assert (Hz : sumQ (ncols Z)
            (fun k => if (k =? i)%nat then 0 else mget Z i k * mget Z i k) == 0)
    by (rewrite Hrm; ring).
  pose proof (sumQ_nonneg_zero _ _
    (fun k _ => match (k =? i)%nat as b
                  return 0 <= (if b then 0 else mget Z i k * mget Z i k)
                with true => Qle_refl 0 | false => Qsquare_nonneg _ end)
    Hz j Hj) as Hjz.
  cbv beta in Hjz. apply Nat.eqb_neq in Hne. now rewrite Hne in Hjz.
Qed.

Lemma mget_diag_dot s Z i j :
  mget (dot (diag s) Z) i j == nth i s 0 * mget Z i j.
Proof.
  rewrite mget_dot. simpl.
  rewrite (sumQ_ext _ _ (fun k =>
    if (k =? i)%nat then nth k s 0 * mget Z k j else 0)).
  - rewrite sumQ_delta. destruct (Nat.ltb_spec i (length s)); [reflexivity|].
    rewrite nth_overflow by assumption. ring.
  - intros k _. rewrite mget_diag, (Nat.eqb_sym i k).
    destruct (Nat.eqb_spec k i) as [->|]; ring.
Qed.

(** If an orthogonal [Z] reaches the bound of the trace inequality, it acts
    as the identity wherever the weight is not zero: [diag(s) Z = diag(s)]. *)
Lemma diag_absorb s Z :
  Forall (fun x => 0 <= x) s -> orthogonal Z -> nrows Z = length s ->
  trace (dot (diag s) Z) == sum_list s ->
  dot (diag s) Z =~= diag s.
Proof.
  intros Hs HZ Hn Htr.
  assert (Hpos : forall i, (i < length s)%nat -> 0 <= nth i s 0).
  { intros i Hi. rewrite Forall_forall in Hs. now apply Hs, nth_In. }
  assert (Hterm : forall i, (i < length s)%nat ->
            nth i s 0 * (1 - mget Z i i) == 0).
  { apply sumQ_nonneg_zero.
    - intros i Hi. pose proof (orthogonal_entry_le_one Z i i HZ).
      pose proof (Hpos i Hi). nra.
    - rewrite trace_diag_dot, sum_list_nth in Htr.
      rewrite (sumQ_ext _ _ (fun i => nth i s 0 - nth i s 0 * mget Z i i))
        by (intros; ring).
      rewrite sumQ_sub, Htr. ring. }
  apply meq_intro; simpl; [reflexivity | now destruct HZ as (<- & _) |].
  intros i j Hi Hj. rewrite mget_diag_dot, mget_diag.
  specialize (Hterm i Hi).
  destruct (Qeq_dec (nth i s 0) 0) as [H0|H0].
  - destruct (i =? j)%nat; rewrite H0; ring.
  - assert (Hii : mget Z i i == 1).
    { apply Qmult_integral in Hterm. destruct Hterm; [contradiction | lra]. }
    destruct (Nat.eqb_spec i j) as [<-|Hne]; [rewrite Hii; ring|].
    rewrite (orthogonal_unit_row Z i j HZ) by (auto; lia). ring.
Qed.
End UnitDiagonal.
