(* ===== verification/Procrustes.v ===== *)
(** * Procrustes: the scaled orthogonal Procrustes solver

    [scaled_procrustes] is the solver of [fmralign.alignment_methods] that
    the tests of this repository exercise.  Its source is not part of the
    sources at hand, so it is modelled from the specification (section 4.1)
    and from the way the tests call it: for sample matrices [X], [Y] of the
    same shape [(n, p)] it returns a [p] x [p] matrix [R] and a scale [sc]
    such that [sc * R.dot(X.T)] approximates [Y.T].

    The singular value decomposition is a service of the linear algebra
    library.  It enters as a function [svd], and the theorems assume its
    contract [svd_spec] only at the matrix it is called on.  That the
    solver returns, and the shape of what it returns, need less: bases of
    the shape of the decomposed matrix ([svd_shaped]); that the matrix
    returned is orthogonal needs orthogonal bases only
    ([orthogonal_bases]). *)

From Stdlib Require Import ZArith QArith Qabs Lqa Lia List Bool Arith Setoid Morphisms.
From S2P Require Import Prelude Matrix Orthogonal.
Import ListNotations.
Open Scope Q_scope.
Open Scope mat_scope.
Open Scope align_scope.

(** ** The decomposition service *)

(** What [U, s, Vt = linalg.svd(A)] returns. *)
Definition svd_result : Type := (matrix * list Q * matrix)%type.

Definition svd_fun : Type := matrix -> svd_result.

(** The contract of the decomposition of a square matrix [A]:
    [A = U diag(s) Vt] with [U], [Vt] orthogonal and [s] non-negative. *)
Definition svd_spec (A : matrix) (r : svd_result) : Prop :=
  let '(U, s, Vt) := r in
  nrows U = nrows A /\ nrows Vt = nrows A /\ length s = nrows A /\
  orthogonal U /\ orthogonal Vt /\
  Forall (fun x => 0 <= x) s /\
  A =~= dot (dot U (diag s)) Vt.

Definition svd_specb (A : matrix) (r : svd_result) : bool :=
  let '(U, s, Vt) := r in
  (nrows U =? nrows A)%nat && (nrows Vt =? nrows A)%nat &&
  (length s =? nrows A)%nat &&
  orthogonalb U && orthogonalb Vt &&
  forallb (fun x => Qle_bool 0 x) s &&
  meqb A (dot (dot U (diag s)) Vt).

Lemma svd_specb_true A r : svd_specb A r = true -> svd_spec A r.
Proof.
  destruct r as [[U s] Vt]. unfold svd_specb, svd_spec.
  rewrite !andb_true_iff, !Nat.eqb_eq, !orthogonalb_spec, meqb_spec,
    forallb_forall.
  intros ((((((H1 & H2) & H3) & H4) & H5) & H6) & H7).
  repeat (split; [assumption|]). split; [|assumption].
  apply Forall_forall. intros x Hx. now apply Qle_bool_iff, H6.
Qed.

(** ** The solver *)

Definition shape_eqb (X Y : matrix) : bool :=
  (nrows X =? nrows Y)%nat && (ncols X =? ncols Y)%nat.

(** The quantity the solver minimises over orthogonal [R]:
    the squared distance between [R.dot(X.T)] and [Y.T]. *)
Definition residual (R X Y : matrix) : Q :=
  frob2 (sub (dot R (transpose X)) (transpose Y)).

(** [X] or [Y] is the zero array. *)
Definition degenerate (X Y : matrix) : Prop := frob2 X == 0 \/ frob2 Y == 0.

Definition degenerateb (X Y : matrix) : bool :=
  Qeq_bool (frob2 X) 0 || Qeq_bool (frob2 Y) 0.

(** The formulation used: the one asked for, or by default the primal one
    unless there are fewer samples than features. *)
Definition choose_primal (primal : option bool) (X : matrix) : bool :=
  match primal with
  | Some b => b
  | None => negb (nrows X <? ncols X)%nat
  end.

Section Solver.
Variable svd : svd_fun.

(** The primal formulation decomposes [Y.T.dot(X)]. *)
Definition procrustes_primal (X Y : matrix) : matrix * list Q :=
  let '(U, s, Vt) := svd (dot (transpose Y) X) in
  (dot U Vt, s).

(** The dual formulation decomposes [X.T.dot(Y)], the transpose of the
    above, and transposes the product of the bases back. *)
Definition procrustes_dual (X Y : matrix) : matrix * list Q :=
  let '(U, s, Vt) := svd (dot (transpose X) Y) in
  (transpose (dot U Vt), s).

Definition formulation (use_primal : bool) (X Y : matrix) : matrix * list Q :=
  if use_primal then procrustes_primal X Y else procrustes_dual X Y.

(** [scaled_procrustes(X, Y, scaling, primal)]: shapes must agree; a zero
    input yields the identity; otherwise the primal or the dual
    formulation, chosen by [primal] or, by default, by whether there are
    fewer samples than features; the scale is [sum(s) / norm(X)**2] when
    [scaling] is set and [1] otherwise. *)
Definition scaled_procrustes (X Y : matrix) (scaling : bool)
    (primal : option bool) : result (matrix * Q) :=
  if negb (shape_eqb X Y) then Err ShapeMismatch
  else if degenerateb X Y then Ok (eye (ncols X), 1)
  else
    let '(R, s) := formulation (choose_primal primal X) X Y in
    let sc := if scaling then sum_list s / frob2 X else 1 in
    Ok (R, sc).
End Solver.

(** ** The product of the singular bases is optimal *)

Section Polar.
Variables (A U Vt : matrix) (s : list Q).
Hypothesis Hsvd : svd_spec A (U, s, Vt).

Let HUr : nrows U = nrows A. Proof. apply Hsvd. Qed.
Let HVr : nrows Vt = nrows A. Proof. apply Hsvd. Qed.
Let Hlen : length s = nrows A. Proof. apply Hsvd. Qed.
Let HU : orthogonal U. Proof. apply Hsvd. Qed.
Let HV : orthogonal Vt. Proof. apply Hsvd. Qed.
Let Hs : Forall (fun x => 0 <= x) s. Proof. apply Hsvd. Qed.
Let HA : A =~= dot (dot U (diag s)) Vt. Proof. apply Hsvd. Qed.

Lemma svd_polar_orthogonal : orthogonal (dot U Vt).
Proof. apply orthogonal_dot; auto; congruence. Qed.

Lemma svd_polar_nrows : nrows (dot U Vt) = nrows A.
Proof. exact HUr. Qed.

(** [trace (A Q^T)] rewritten around the diagonal of singular values. *)
Lemma svd_trace_form Q :
  trace (dot A (transpose Q)) ==
  trace (dot (diag s) (dot (dot Vt (transpose Q)) U)).
Proof.
  rewrite HA, !dot_assoc, trace_dot_comm, !dot_assoc. reflexivity.
Qed.

(** No orthogonal [Q] does better than the sum of the singular values. *)
Lemma svd_trace_le Q :
  orthogonal Q -> nrows Q = nrows A ->
  trace (dot A (transpose Q)) <= sum_list s.
Proof.
  intros HQ Hn. rewrite svd_trace_form. apply trace_diag_dot_le; auto.
  apply orthogonal_dot; auto.
  - apply orthogonal_dot; auto using orthogonal_transpose.
    simpl. rewrite (orthogonal_square Q HQ). congruence.
  - simpl. congruence.
Qed.

(** The product of the bases attains it. *)
Lemma svd_trace_polar :
  trace (dot A (transpose (dot U Vt))) == sum_list s.
Proof.
  rewrite svd_trace_form, transpose_dot, <- (dot_assoc Vt).
  destruct HV as (HsqV & HV1 & _). rewrite HV1, HVr, <- HUr.
  rewrite (dot_eye_l (transpose U)) by (simpl; now destruct HU).
  destruct HU as (HsqU & _ & HU2). rewrite HU2, dot_eye_r.
  - apply trace_diag.
  - simpl. congruence.
Qed.
End Polar.

(** ** The residual in terms of a trace *)

Section Residual.
Variables (X Y R : matrix).
Hypothesis Hrows : nrows X = nrows Y.
Hypothesis Hcols : ncols X = ncols Y.
Hypothesis HR : orthogonal R.
Hypothesis HRn : nrows R = ncols X.

(** The cross term of the residual. *)
Lemma inner_cross_trace :
  inner (dot R (transpose X)) (transpose Y) ==
  trace (dot (dot (transpose Y) X) (transpose R)).
Proof.
  rewrite inner_trace, transpose_dot, transpose_involutive.
  rewrite trace_dot_comm, dot_assoc. reflexivity.
Qed.

(** [|R X^T - Y^T|^2 = |X|^2 + |Y|^2 - 2 trace (Y^T X R^T)]: minimising the
    residual over orthogonal [R] is maximising the trace. *)
Lemma residual_expand :
  residual R X Y ==
  frob2 X + frob2 Y - 2 * trace (dot (dot (transpose Y) X) (transpose R)).
Proof.
  unfold residual.
  rewrite frob2_sub by (simpl; congruence).
  rewrite frob2_dot_orthogonal_l by (simpl; auto).
  rewrite !frob2_transpose, inner_cross_trace. ring.
Qed.
End Residual.

(** The residuals of two orthogonal matrices compare as their traces do. *)
Lemma residual_le_of_trace_le X Y R Q :
  nrows X = nrows Y -> ncols X = ncols Y ->
  orthogonal R -> nrows R = ncols X ->
  orthogonal Q -> nrows Q = ncols X ->
  trace (dot (dot (transpose Y) X) (transpose Q)) <=
  trace (dot (dot (transpose Y) X) (transpose R)) ->
  residual R X Y <= residual Q X Y.
Proof.
  intros Hr Hc HR HRn HQ HQn Hle.
  rewrite (residual_expand X Y R), (residual_expand X Y Q) by assumption.
  lra.
Qed.

(** ** Correctness of the two formulations *)

(** [R] is a solution of the orthogonal Procrustes problem for [X], [Y]:
    an orthogonal matrix of the right size whose residual no orthogonal
    matrix improves. *)
Definition procrustes_solution (X Y R : matrix) : Prop :=
  orthogonal R /\ nrows R = ncols X /\
  forall Q, orthogonal Q -> nrows Q = ncols X ->
    residual R X Y <= residual Q X Y.

(** The matrix that the chosen formulation hands to the decomposition. *)
Definition decomposed (use_primal : bool) (X Y : matrix) : matrix :=
  if use_primal then dot (transpose Y) X else dot (transpose X) Y.

(** [trace (A^T Q) = trace (A Q^T)]: the dual problem has the transposed
    solutions. *)
Lemma trace_transpose_pair A Q :
  trace (dot (transpose A) Q) == trace (dot A (transpose Q)).
Proof.
  rewrite <- (trace_transpose (dot A (transpose Q))).
  rewrite transpose_dot, transpose_involutive, trace_dot_comm. reflexivity.
Qed.

Lemma dual_matrix_transpose X Y :
  dot (transpose Y) X =~= transpose (dot (transpose X) Y).
Proof. now rewrite transpose_dot, transpose_involutive. Qed.

(** The two are the same array, entry by entry and as values: a
    decomposition service is handed the same argument. *)
Lemma dual_matrix_transpose_eq X Y :
  nrows X = nrows Y ->
  transpose (dot (transpose X) Y) = dot (transpose Y) X.
Proof.
  intros Hr. unfold transpose at 1, dot at 2. simpl.
  apply mk_ext_eq. intros i j Hi Hj. unfold dot.
  rewrite mget_mk_in by (simpl; assumption). simpl. rewrite <- Hr.
  apply sumQ_ext_eq. intros k _. rewrite !mget_transpose.
  apply Qmult_comm_eq.
Qed.

Section Formulations.
Variable svd : svd_fun.
Variables (X Y : matrix).
Hypothesis Hrows : nrows X = nrows Y.
Hypothesis Hcols : ncols X = ncols Y.

Lemma procrustes_primal_trace :
  svd_spec (dot (transpose Y) X) (svd (dot (transpose Y) X)) ->
  trace (dot (dot (transpose Y) X)
             (transpose (fst (procrustes_primal svd X Y)))) ==
  sum_list (snd (procrustes_primal svd X Y)).
Proof.
  unfold procrustes_primal.
  destruct (svd (dot (transpose Y) X)) as [[U s] Vt]. intros Hsvd. simpl.
  apply (svd_trace_polar _ _ _ _ Hsvd).
Qed.

Lemma procrustes_dual_trace :
  svd_spec (dot (transpose X) Y) (svd (dot (transpose X) Y)) ->
  trace (dot (dot (transpose Y) X)
             (transpose (fst (procrustes_dual svd X Y)))) ==
  sum_list (snd (procrustes_dual svd X Y)).
Proof.
  unfold procrustes_dual.
  destruct (svd (dot (transpose X) Y)) as [[U s] Vt]. intros Hsvd. simpl.
  rewrite dual_matrix_transpose, trace_transpose_pair.
  rewrite (transpose_involutive (transpose (dot U Vt))).
  apply (svd_trace_polar _ _ _ _ Hsvd).
Qed.

Lemma procrustes_primal_orthogonal :
  svd_spec (dot (transpose Y) X) (svd (dot (transpose Y) X)) ->
  orthogonal (fst (procrustes_primal svd X Y)) /\
  nrows (fst (procrustes_primal svd X Y)) = ncols X.
Proof.
  unfold procrustes_primal.
  destruct (svd (dot (transpose Y) X)) as [[U s] Vt]. intros Hsvd. simpl.
  split; [apply (svd_polar_orthogonal _ _ _ _ Hsvd)|].
  pose proof (svd_polar_nrows _ _ _ _ Hsvd) as H. simpl in H. congruence.
Qed.

Lemma procrustes_dual_orthogonal :
  svd_spec (dot (transpose X) Y) (svd (dot (transpose X) Y)) ->
  orthogonal (fst (procrustes_dual svd X Y)) /\
  nrows (fst (procrustes_dual svd X Y)) = ncols X.
Proof.
  unfold procrustes_dual.
  destruct (svd (dot (transpose X) Y)) as [[U s] Vt]. intros Hsvd. simpl.
  pose proof (svd_polar_orthogonal _ _ _ _ Hsvd) as HR.
  pose proof (svd_polar_nrows _ _ _ _ Hsvd) as HRn. simpl in HRn.
  split; [now apply orthogonal_transpose|].
  destruct HR as (Hsq & _). simpl in Hsq. congruence.
Qed.

(** No orthogonal matrix reaches a larger trace than the sum of the
    singular values of either decomposition. *)
Lemma formulation_trace_le b Q :
  svd_spec (decomposed b X Y) (svd (decomposed b X Y)) ->
  orthogonal Q -> nrows Q = ncols X ->
  trace (dot (dot (transpose Y) X) (transpose Q)) <=
  sum_list (snd (formulation svd b X Y)).
Proof.
  unfold decomposed, formulation, procrustes_primal, procrustes_dual.
  destruct b; intros Hsvd HQ HQn.
  - destruct (svd (dot (transpose Y) X)) as [[U s] Vt]. simpl.
    apply (svd_trace_le _ _ _ _ Hsvd); auto. simpl. congruence.
  - destruct (svd (dot (transpose X) Y)) as [[U s] Vt]. simpl.
    rewrite dual_matrix_transpose, trace_transpose_pair.
    apply (svd_trace_le _ _ _ _ Hsvd).
    + now apply orthogonal_transpose.
    + simpl. rewrite (orthogonal_square Q HQ). congruence.
Qed.

Lemma formulation_trace b :
  svd_spec (decomposed b X Y) (svd (decomposed b X Y)) ->
  trace (dot (dot (transpose Y) X)
             (transpose (fst (formulation svd b X Y)))) ==
  sum_list (snd (formulation svd b X Y)).
Proof.
  destruct b; [apply procrustes_primal_trace | apply procrustes_dual_trace].
Qed.

Lemma formulation_orthogonal b :
  svd_spec (decomposed b X Y) (svd (decomposed b X Y)) ->
  orthogonal (fst (formulation svd b X Y)) /\
  nrows (fst (formulation svd b X Y)) = ncols X.
Proof.
  destruct b;
    [apply procrustes_primal_orthogonal | apply procrustes_dual_orthogonal].
Qed.

(** Either formulation returns a solution of the Procrustes problem. *)
Lemma formulation_solution b :
  svd_spec (decomposed b X Y) (svd (decomposed b X Y)) ->
  procrustes_solution X Y (fst (formulation svd b X Y)).
Proof.
  intros Hsvd. destruct (formulation_orthogonal b Hsvd) as [HR HRn].
  split; [exact HR | split; [exact HRn|]].
  intros Q HQ HQn. apply residual_le_of_trace_le; auto.
  rewrite (formulation_trace b Hsvd). now apply formulation_trace_le.
Qed.
End Formulations.

(** ** The contract of the solver, and its implementation *)

(** The type of [scaled_procrustes] as its callers see it. *)
Definition solver : Type :=
  matrix -> matrix -> bool -> option bool -> result (matrix * Q).

(** What a call [scaled_procrustes(X, Y, scaling)] promises: an error on
    mismatched shapes; the identity and scale one on a zero input;
    otherwise a solution [R] of the Procrustes problem, with the scale
    [trace (Y^T X R^T) / |X|^2] when scaling is asked for. *)
Inductive procrustes_contract (X Y : matrix) (scaling : bool)
  : result (matrix * Q) -> Prop :=
| contract_mismatch :
    shape_eqb X Y = false ->
    procrustes_contract X Y scaling (Err ShapeMismatch)
| contract_degenerate R sc :
    shape_eqb X Y = true -> degenerate X Y ->
    R =~= eye (ncols X) -> sc == 1 ->
    procrustes_contract X Y scaling (Ok (R, sc))
| contract_regular R sc :
    shape_eqb X Y = true -> ~ degenerate X Y ->
    procrustes_solution X Y R ->
    (if scaling
     then sc * frob2 X == trace (dot (dot (transpose Y) X) (transpose R))
     else sc == 1) ->
    procrustes_contract X Y scaling (Ok (R, sc)).

Lemma shape_eqb_true X Y :
  shape_eqb X Y = true <-> nrows X = nrows Y /\ ncols X = ncols Y.
Proof. unfold shape_eqb. now rewrite andb_true_iff, !Nat.eqb_eq. Qed.

Lemma degenerateb_spec X Y : degenerateb X Y = true <-> degenerate X Y.
Proof.
  unfold degenerateb, degenerate. now rewrite orb_true_iff, !Qeq_bool_iff.
Qed.

Lemma degenerateb_false X Y : degenerateb X Y = false <-> ~ degenerate X Y.
Proof.
  rewrite <- degenerateb_spec. destruct (degenerateb X Y); intuition congruence.
Qed.

(** The implementation meets the contract whenever the decomposition it
    calls is exact; on the branches that do not decompose, always. *)
Lemma scaled_procrustes_refines svd X Y scaling primal :
  (shape_eqb X Y = true -> ~ degenerate X Y ->
   svd_spec (decomposed (choose_primal primal X) X Y)
            (svd (decomposed (choose_primal primal X) X Y))) ->
  procrustes_contract X Y scaling (scaled_procrustes svd X Y scaling primal).
Proof.
  intros Hsvd. unfold scaled_procrustes.
  destruct (shape_eqb X Y) eqn:Hshape; simpl; [|now constructor].
  destruct (degenerateb X Y) eqn:Hdeg.
  - apply contract_degenerate; auto; try reflexivity.
    now apply degenerateb_spec.
  - apply degenerateb_false in Hdeg. specialize (Hsvd eq_refl Hdeg).
    apply shape_eqb_true in Hshape as Hs. destruct Hs as [Hr Hc].
    pose proof (formulation_solution svd X Y Hr Hc _ Hsvd) as Hsol.
    pose proof (formulation_trace svd X Y _ Hsvd) as Htr.
    destruct (formulation svd (choose_primal primal X) X Y) as [R s].
    simpl in Hsol, Htr. apply contract_regular; auto.
    destruct scaling; [|reflexivity].
    rewrite Htr. field. intros H0. apply Hdeg. now left.
Qed.

(** ** Consequences of the contract *)

#[export] Instance residual_Proper :
  Proper (meq ==> meq ==> meq ==> Qeq) residual.
Proof.
  intros R R' HR X X' HX Y Y' HY. unfold residual. now rewrite HR, HX, HY.
Qed.

Lemma procrustes_solution_meq X Y R R' :
  R =~= R' -> procrustes_solution X Y R -> procrustes_solution X Y R'.
Proof.
  intros H (HR & HRn & Hopt). split; [now rewrite <- H | split].
  - now rewrite <- H.
  - intros Q HQ HQn. rewrite <- H. now apply Hopt.
Qed.

(** On a zero input every orthogonal matrix has the same residual. *)
Lemma degenerate_residual X Y Q :
  nrows X = nrows Y -> ncols X = ncols Y -> degenerate X Y ->
  orthogonal Q -> nrows Q = ncols X ->
  residual Q X Y == frob2 X + frob2 Y.
Proof.
  intros Hr Hc Hdeg HQ HQn. rewrite residual_expand by assumption.
  destruct Hdeg as [H|H].
  - rewrite (trace_dot_zero_r (transpose Y) X) by exact H. ring.
  - rewrite (trace_dot_zero_l Y X) by exact H. ring.
Qed.

Lemma degenerate_solution X Y :
  nrows X = nrows Y -> ncols X = ncols Y -> degenerate X Y ->
  procrustes_solution X Y (eye (ncols X)).
Proof.
  intros Hr Hc Hdeg. split; [apply orthogonal_eye | split; [reflexivity|]].
  intros Q HQ HQn.
  rewrite !degenerate_residual; auto using orthogonal_eye. lra.
Qed.

(** Whatever the branch, a successful call returns a solution. *)
Lemma contract_solution X Y scaling R sc :
  procrustes_contract X Y scaling (Ok (R, sc)) -> procrustes_solution X Y R.
Proof.
  intros H. inv H; [|assumption].
  match goal with H : shape_eqb _ _ = true |- _ =>
    apply shape_eqb_true in H; destruct H as [Hr Hc] end.
  eapply procrustes_solution_meq; [symmetry; eassumption|].
  now apply degenerate_solution.
Qed.

(** The call succeeds exactly when the shapes agree. *)
Lemma contract_ok X Y scaling out :
  procrustes_contract X Y scaling out -> shape_eqb X Y = true ->
  exists R sc, out = Ok (R, sc).
Proof. intros H Hs. inv H; eauto; congruence. Qed.

Lemma contract_err X Y scaling out :
  procrustes_contract X Y scaling out -> shape_eqb X Y = false ->
  out = Err ShapeMismatch.
Proof. intros H Hs. inv H; congruence. Qed.

(** *** Exact fits are recovered *)

Section ExactFit.
Variables (X Y R R0 : matrix).
Hypothesis Hrows : nrows X = nrows Y.
Hypothesis Hcols : ncols X = ncols Y.
Hypothesis Hsol : procrustes_solution X Y R.
Hypothesis HR0 : orthogonal R0.
Hypothesis HR0n : nrows R0 = ncols X.
Hypothesis Hfit : dot R0 (transpose X) =~= transpose Y.

(** If some orthogonal [R0] maps [X.T] onto [Y.T], so does the solution. *)
Lemma exact_fit_action : dot R (transpose X) =~= transpose Y.
Proof.
  destruct Hsol as (HR & HRn & Hopt).
  apply frob2_sub_zero; simpl; try congruence.
  specialize (Hopt R0 HR0 HR0n). unfold residual in Hopt.
  rewrite (frob2_sub_self _ _ Hfit) in Hopt.
  pose proof (frob2_nonneg (sub (dot R (transpose X)) (transpose Y))). lra.
Qed.

(** If moreover [X.T] has a right inverse (the features are linearly
    independent over the samples), the solution is [R0] itself. *)
Lemma exact_fit_unique W :
  dot (transpose X) W =~= eye (ncols X) -> R =~= R0.
Proof.
  intros HW. destruct Hsol as (HR & HRn & _).
  rewrite <- (dot_eye_r R (ncols X)) by (rewrite (orthogonal_square R HR); congruence).
  rewrite <- (dot_eye_r R0 (ncols X)) by (rewrite (orthogonal_square R0 HR0); congruence).
  rewrite <- HW, <- !dot_assoc, exact_fit_action, Hfit. reflexivity.
Qed.
End ExactFit.

(** *** Scaled copies *)

Lemma trace_gram_scale c X Q :
  trace (dot (dot (transpose (scale c X)) X) Q) ==
  c * trace (dot (dot (transpose X) X) Q).
Proof.
  now rewrite transpose_scale, !dot_scale_l, trace_scale.
Qed.

Lemma trace_gram_eye X :
  trace (dot (dot (transpose X) X) (transpose (eye (ncols X)))) == frob2 X.
Proof.
  rewrite transpose_eye, dot_eye_r by reflexivity. symmetry. apply frob2_trace.
Qed.

(** When [Y = c X] with [c > 0], a solution fixes [X.T]. *)
Lemma scaled_copy_action c X R :
  0 < c -> procrustes_solution X (scale c X) R ->
  dot R (transpose X) =~= transpose X.
Proof.
  intros Hc (HR & HRn & Hopt).
  specialize (Hopt (eye (ncols X)) (orthogonal_eye _) eq_refl).
  rewrite !residual_expand in Hopt by (simpl; auto using orthogonal_eye).
  rewrite !trace_gram_scale, trace_gram_eye in Hopt.
  apply frob2_sub_zero; simpl; try congruence.
  pose proof (residual_expand X X R eq_refl eq_refl HR HRn) as He.
  unfold residual in He. rewrite He.
  pose proof (frob2_nonneg (sub (dot R (transpose X)) (transpose X))) as Hpos.
  rewrite He in Hpos. nra.
Qed.

(** The trace that defines the scale, for [Y = c X]. *)
Lemma scaled_copy_trace c X R :
  dot R (transpose X) =~= transpose X ->
  trace (dot (dot (transpose (scale c X)) X) (transpose R)) == c * frob2 X.
Proof.
  intros H. rewrite trace_gram_scale, dot_assoc.
  assert (HX : dot X (transpose R) =~= X).
  { transitivity (transpose (dot R (transpose X))).
    - now rewrite transpose_dot, transpose_involutive.
    - rewrite H. apply transpose_involutive. }
  rewrite HX, frob2_trace. reflexivity.
Qed.

(** *** Inversion of the contract, by case *)

Lemma shape_eqb_refl X : shape_eqb X X = true.
Proof. unfold shape_eqb. now rewrite !Nat.eqb_refl. Qed.

Lemma contract_ok_solution X Y scaling out :
  procrustes_contract X Y scaling out -> shape_eqb X Y = true ->
  exists R sc, out = Ok (R, sc) /\ procrustes_solution X Y R.
Proof.
  intros H Hs. destruct (contract_ok _ _ _ _ H Hs) as (R & sc & ->).
  exists R, sc. split; [reflexivity|]. eapply contract_solution; eauto.
Qed.

Lemma contract_degenerate_inv X Y scaling out :
  procrustes_contract X Y scaling out -> shape_eqb X Y = true ->
  degenerate X Y ->
  exists R sc, out = Ok (R, sc) /\ R =~= eye (ncols X) /\ sc == 1.
Proof. intros H Hs Hd. inv H; try congruence; try contradiction; eauto. Qed.

Lemma contract_regular_inv X Y scaling out :
  procrustes_contract X Y scaling out -> shape_eqb X Y = true ->
  ~ degenerate X Y ->
  exists R sc, out = Ok (R, sc) /\ procrustes_solution X Y R /\
    (if scaling
     then sc * frob2 X == trace (dot (dot (transpose Y) X) (transpose R))
     else sc == 1).
Proof. intros H Hs Hd. inv H; try congruence; try contradiction; eauto. Qed.

Lemma degenerate_zeros_like X : degenerate X (zeros_like X).
Proof. right. apply frob2_zeros. Qed.

Lemma procrustes_solution_meq_data X X' Y Y' R :
  X =~= X' -> Y =~= Y' ->
  procrustes_solution X Y R -> procrustes_solution X' Y' R.
Proof.
  intros HX HY (HR & HRn & Hopt).
  pose proof (ncols_Proper _ _ HX) as Hc.
  split; [exact HR | split; [congruence|]].
  intros Q HQ HQn. rewrite <- HX, <- HY. apply Hopt; congruence.
Qed.

(** Without scaling the scale returned is one, on every branch. *)
Lemma contract_scale_one X Y R sc :
  procrustes_contract X Y false (Ok (R, sc)) -> sc == 1.
Proof. intros H. inv H; assumption. Qed.

(** *** The scale of an exact fit *)

Section ExactScale.
Variables (X Y R R0 : matrix) (sc : Q) (scaling : bool).
Hypothesis Hrows : nrows X = nrows Y.
Hypothesis Hcols : ncols X = ncols Y.
Hypothesis Hc : procrustes_contract X Y scaling (Ok (R, sc)).
Hypothesis HR0 : orthogonal R0.
Hypothesis HR0n : nrows R0 = ncols X.
Hypothesis Hfit : dot R0 (transpose X) =~= transpose Y.

(** The solution of an exactly solvable problem maps the samples of [X]
    onto those of [Y]. *)
Lemma exact_fit_samples : dot X (transpose R) =~= Y.
Proof.
  pose proof (exact_fit_action X Y R R0 Hrows Hcols
                (contract_solution _ _ _ _ _ Hc) HR0 HR0n Hfit) as Hact.
  transitivity (transpose (dot R (transpose X))).
  - now rewrite transpose_dot, transpose_involutive.
  - rewrite Hact. apply transpose_involutive.
Qed.

Lemma exact_fit_gram :
  trace (dot (dot (transpose Y) X) (transpose R)) == frob2 X.
Proof.
  rewrite dot_assoc, exact_fit_samples, <- frob2_trace.
  rewrite <- (frob2_transpose Y), <- Hfit.
  rewrite frob2_dot_orthogonal_l by (auto; simpl; congruence).
  apply frob2_transpose.
Qed.

(** When the data is related by an orthogonal map, the scale is one,
    whether scaling is asked for or not. *)
Lemma exact_fit_scale : sc == 1.
Proof.
  pose proof exact_fit_gram as Hg.
  inversion Hc as [|? ? _ _ _ Hsc|? ? _ Hnd _ Hsc]; subst; [exact Hsc|].
  destruct scaling; [|exact Hsc].
  rewrite Hg in Hsc. apply (Qmult_inj_r _ _ (frob2 X)); [|lra].
  intros H0. apply Hnd. now left.
Qed.
End ExactScale.

(** *** Recovery of an orthogonal transformation

    The call [scaled_procrustes(X.T, (R0 X).T)] for data [X] given with one
    row per feature, as the tests make it. *)

Section Recovery.
Variables (X R0 W : matrix).
Hypothesis HR0 : orthogonal R0.
Hypothesis HR0n : nrows R0 = nrows X.
Hypothesis HW : dot X W =~= eye (nrows X).

Lemma recovery_shape :
  shape_eqb (transpose X) (transpose (dot R0 X)) = true.
Proof. apply shape_eqb_true. simpl. split; congruence. Qed.

Lemma recovery_solution R :
  procrustes_solution (transpose X) (transpose (dot R0 X)) R -> R =~= R0.
Proof.
  intros Hsol.
  apply (exact_fit_unique (transpose X) (transpose (dot R0 X)) R R0) with (W := W);
    simpl; auto.
  - now rewrite !transpose_involutive.
  - now rewrite transpose_involutive.
Qed.

Lemma recovery_contract scaling out :
  procrustes_contract (transpose X) (transpose (dot R0 X)) scaling out ->
  exists R sc, out = Ok (R, sc) /\ R =~= R0.
Proof.
  intros H.
  destruct (contract_ok_solution _ _ _ _ H recovery_shape) as (R & sc & -> & Hsol).
  exists R, sc. split; [reflexivity | now apply recovery_solution].
Qed.
End Recovery.

(** *** Recovery of a scale *)

Section ScaledCopy.
Variables (X Y W : matrix) (c : Q).
Hypothesis Hc : 0 < c.
Hypothesis HY : Y =~= scale c X.
Hypothesis HW : dot (transpose X) W =~= eye (ncols X).

Lemma scaled_copy_identity R :
  procrustes_solution X Y R -> R =~= eye (ncols X).
Proof.
  intros Hsol.
  assert (Hsol' : procrustes_solution X (scale c X) R)
    by (eapply procrustes_solution_meq_data; eauto; reflexivity).
  pose proof (scaled_copy_action c X R Hc Hsol') as Hact.
  destruct Hsol as (HR & HRn & _).
  rewrite <- (dot_eye_r R (ncols X))
    by (rewrite (orthogonal_square R HR); congruence).
  rewrite <- HW at 1. rewrite <- dot_assoc, Hact. exact HW.
Qed.

Hypothesis HX : ~ frob2 X == 0.

Lemma scaled_copy_shape : shape_eqb X Y = true.
Proof.
  apply shape_eqb_true. destruct HY as (Hr & Hcs & _). simpl in Hr, Hcs.
  split; congruence.
Qed.

Lemma scaled_copy_regular : ~ degenerate X Y.
Proof.
  intros [H|H]; [now apply HX|]. rewrite HY, frob2_scale in H.
  assert (Hcc : 0 < c * c) by nra.
  apply HX. apply (Qmult_inj_l _ _ (c * c)); [lra | rewrite H; ring].
Qed.

(** The identity is a solution for a scaled copy. *)
Lemma scaled_copy_eye_solution : procrustes_solution X Y (eye (ncols X)).
Proof.
  apply (procrustes_solution_meq_data X X (scale c X) Y);
    [reflexivity | now symmetry |].
  split; [apply orthogonal_eye | split; [reflexivity|]].
  intros Q HQ HQn.
  apply residual_le_of_trace_le; simpl; auto using orthogonal_eye.
  rewrite !trace_gram_scale, trace_gram_eye.
  pose proof (residual_expand X X Q eq_refl eq_refl HQ HQn) as He.
  pose proof (frob2_nonneg (sub (dot Q (transpose X)) (transpose X))) as Hpos.
  unfold residual in He. rewrite He in Hpos. nra.
Qed.

(** The solver returns the identity and the factor [c]. *)
Lemma scaled_copy_contract out :
  procrustes_contract X Y true out ->
  exists R sc, out = Ok (R, sc) /\ R =~= eye (ncols X) /\ sc == c.
Proof.
  intros H.
  destruct (contract_regular_inv _ _ _ _ H scaled_copy_shape scaled_copy_regular)
    as (R & sc & -> & Hsol & Hsc).
  exists R, sc. split; [reflexivity|].
  pose proof (scaled_copy_identity R Hsol) as HR. split; [exact HR|].
  assert (Hact : dot R (transpose X) =~= transpose X).
  { rewrite HR. apply dot_eye_l. reflexivity. }
  rewrite HY, (scaled_copy_trace c X R Hact) in Hsc.
  apply (Qmult_inj_r _ _ (frob2 X)); assumption.
Qed.
End ScaledCopy.

(** ** Uniqueness of the solution where the data determines it

    Here an exact decomposition of [Y^T X] is a hypothesis: it is what makes
    the set of solutions explicit. *)

Section Uniqueness.
Variables (A U Vt : matrix) (s : list Q).
Hypothesis Hsvd : svd_spec A (U, s, Vt).

(** An orthogonal [Q] that reaches the sum of the singular values has the
    image [A Q^T = U diag(s) U^T], whatever [Q]. *)
Lemma optimal_image Q :
  orthogonal Q -> nrows Q = nrows A ->
  trace (dot A (transpose Q)) == sum_list s ->
  dot A (transpose Q) =~= dot (dot U (diag s)) (transpose U).
Proof.
  intros HQ HQn Htr.
  destruct Hsvd as (HUr & HVr & Hlen & HU & HV & Hs & HA).
  assert (HZ : orthogonal (dot (dot Vt (transpose Q)) U)).
  { apply orthogonal_dot; auto; [|simpl; congruence].
    apply orthogonal_dot; auto using orthogonal_transpose.
    simpl. rewrite (orthogonal_square Q HQ). congruence. }
  rewrite (svd_trace_form _ _ _ _ Hsvd) in Htr.
  pose proof (diag_absorb s _ Hs HZ ltac:(simpl; congruence) Htr) as Habs.
  assert (HM : dot (diag s) (dot Vt (transpose Q)) =~=
               dot (diag s) (transpose U)).
  { transitivity
      (dot (dot (dot (diag s) (dot Vt (transpose Q))) U) (transpose U)).
    - symmetry. apply orthogonal_cancel_r; [exact HU|]. simpl. congruence.
    - rewrite (dot_assoc (diag s)), Habs. reflexivity. }
  rewrite HA, !dot_assoc, HM. reflexivity.
Qed.
End Uniqueness.

Section SolutionsAgree.
Variables (X Y U Vt : matrix) (s : list Q).
Hypothesis Hrows : nrows X = nrows Y.
Hypothesis Hcols : ncols X = ncols Y.
Hypothesis Hsvd : svd_spec (dot (transpose Y) X) (U, s, Vt).

(** A solution reaches the sum of the singular values. *)
Lemma solution_trace R :
  procrustes_solution X Y R ->
  trace (dot (dot (transpose Y) X) (transpose R)) == sum_list s.
Proof.
  intros (HR & HRn & Hopt).
  pose proof (svd_polar_orthogonal _ _ _ _ Hsvd) as HP.
  pose proof (svd_polar_nrows _ _ _ _ Hsvd) as HPn. simpl in HPn.
  assert (HPn' : nrows (dot U Vt) = ncols X) by (simpl; congruence).
  specialize (Hopt (dot U Vt) HP HPn').
  rewrite (residual_expand X Y R), (residual_expand X Y (dot U Vt)) in Hopt
    by assumption.
  rewrite (svd_trace_polar _ _ _ _ Hsvd) in Hopt.
  pose proof (svd_trace_le _ _ _ _ Hsvd R HR ltac:(simpl; congruence)). lra.
Qed.

(** Any two solutions have the same image of [Y^T X]. *)
Lemma solutions_same_image R1 R2 :
  procrustes_solution X Y R1 -> procrustes_solution X Y R2 ->
  dot (dot (transpose Y) X) (transpose R1) =~=
  dot (dot (transpose Y) X) (transpose R2).
Proof.
  intros H1 H2.
  rewrite (optimal_image _ _ _ _ Hsvd R1), (optimal_image _ _ _ _ Hsvd R2);
    try reflexivity; try (now apply solution_trace);
    try (destruct H1 as (? & ? & _); destruct H2 as (? & ? & _);
         simpl; congruence || assumption).
Qed.

(** If [Y] has a right inverse (its samples are linearly independent), any
    two solutions map the data [X.T] alike. *)
Lemma solutions_same_action R1 R2 V :
  dot Y V =~= eye (nrows Y) ->
  procrustes_solution X Y R1 -> procrustes_solution X Y R2 ->
  dot R1 (transpose X) =~= dot R2 (transpose X).
Proof.
  intros HV H1 H2.
  pose proof (solutions_same_image R1 R2 H1 H2) as Him.
  assert (Hcancel : forall R, dot (transpose V)
            (dot (dot (transpose Y) X) (transpose R)) =~= dot X (transpose R)).
  { intros R. rewrite !dot_assoc, <- dot_assoc, <- transpose_dot, HV.
    rewrite transpose_eye. apply dot_eye_l. simpl. congruence. }
  assert (HXR : dot X (transpose R1) =~= dot X (transpose R2))
    by now rewrite <- (Hcancel R1), <- (Hcancel R2), Him.
  transitivity (transpose (dot X (transpose R1))).
  - now rewrite transpose_dot, transpose_involutive.
  - now rewrite HXR, transpose_dot, transpose_involutive.
Qed.

(** If [Y^T X] has a left inverse, the solution is unique. *)
Lemma solution_unique R1 R2 B :
  dot B (dot (transpose Y) X) =~= eye (ncols X) ->
  procrustes_solution X Y R1 -> procrustes_solution X Y R2 ->
  R1 =~= R2.
Proof.
  intros HB H1 H2.
  pose proof (solutions_same_image R1 R2 H1 H2) as Him.
  assert (Hcancel : forall R, nrows R = ncols X -> ncols R = nrows R ->
            dot B (dot (dot (transpose Y) X) (transpose R)) =~= transpose R).
  { intros R Hn Hsq. rewrite <- dot_assoc, HB. apply dot_eye_l. simpl. congruence. }
  destruct H1 as (HR1 & Hn1 & _). destruct H2 as (HR2 & Hn2 & _).
  assert (HT : transpose R1 =~= transpose R2).
  { rewrite <- (Hcancel R1), <- (Hcancel R2), Him;
      auto using orthogonal_square. reflexivity. }
  transitivity (transpose (transpose R1)).
  - symmetry. apply transpose_involutive.
  - rewrite HT. apply transpose_involutive.
Qed.
End SolutionsAgree.

(** ** The problem as [scipy.linalg.orthogonal_procrustes] states it

    [orthogonal_procrustes(A, B)] promises an orthogonal [R] that minimises
    [|A R - B|].  Called with [(Y, X)] it solves the problem of
    [scaled_procrustes(X, Y)]: the two residuals are equal. *)

(** The routine itself: it decomposes [B.T.dot(A).T] and returns the
    product of the bases with the sum of the singular values. *)
Definition orthogonal_procrustes (svd : svd_fun) (A B : matrix) : matrix * Q :=
  let '(U, s, Vt) := svd (transpose (dot (transpose B) A)) in
  (dot U Vt, sum_list s).

Definition orthogonal_procrustes_spec (A B R : matrix) : Prop :=
  orthogonal R /\ nrows R = ncols A /\
  forall Q, orthogonal Q -> nrows Q = ncols A ->
    frob2 (sub (dot A R) B) <= frob2 (sub (dot A Q) B).

Section Scipy.
Variables (X Y : matrix).
Hypothesis Hrows : nrows X = nrows Y.
Hypothesis Hcols : ncols X = ncols Y.

Lemma scipy_residual R :
  orthogonal R -> nrows R = ncols X ->
  frob2 (sub (dot Y R) X) == residual R X Y.
Proof.
  intros HR HRn. pose proof (orthogonal_square R HR) as Hsq.
  rewrite (residual_expand X Y R) by assumption.
  rewrite frob2_sub by (simpl; congruence).
  rewrite frob2_dot_orthogonal_r by (auto; congruence).
  rewrite inner_trace, transpose_dot, dot_assoc, trace_dot_comm. ring.
Qed.

Lemma orthogonal_procrustes_solution R :
  orthogonal_procrustes_spec Y X R -> procrustes_solution X Y R.
Proof.
  intros (HR & HRn & Hopt).
  assert (HRn' : nrows R = ncols X) by congruence.
  split; [exact HR | split; [exact HRn'|]]. intros Q HQ HQn.
  rewrite <- !scipy_residual by assumption. apply Hopt; congruence.
Qed.

Lemma svd_spec_meq A A' r : A =~= A' -> svd_spec A r -> svd_spec A' r.
Proof.
  destruct r as [[U s] Vt]. intros HA (H1 & H2 & H3 & H4 & H5 & H6 & H7).
  pose proof (nrows_Proper _ _ HA) as Hn.
  repeat (split; [assumption || congruence|]). now rewrite <- HA.
Qed.

(** The routine meets its contract whenever its decomposition is exact. *)
Lemma orthogonal_procrustes_refines svd :
  svd_spec (transpose (dot (transpose X) Y))
           (svd (transpose (dot (transpose X) Y))) ->
  orthogonal_procrustes_spec Y X (fst (orthogonal_procrustes svd Y X)).
Proof.
  unfold orthogonal_procrustes.
  destruct (svd (transpose (dot (transpose X) Y))) as [[U s] Vt].
  intros Hsvd. simpl.
  apply (svd_spec_meq _ (dot (transpose Y) X)) in Hsvd;
    [|symmetry; apply dual_matrix_transpose].
  pose proof (svd_polar_orthogonal _ _ _ _ Hsvd) as HP.
  pose proof (svd_polar_nrows _ _ _ _ Hsvd) as HPn. simpl in HPn.
  split; [exact HP | split; [simpl; congruence|]]. intros Q HQ HQn.
  rewrite !scipy_residual by (auto; simpl; congruence).
  apply residual_le_of_trace_le; auto; try (simpl; congruence).
  rewrite (svd_trace_polar _ _ _ _ Hsvd).
  apply (svd_trace_le _ _ _ _ Hsvd); auto; simpl; congruence.
Qed.
End Scipy.

(** ** The shape of what the solver returns *)

(** The bases that the decomposition returns have the rows and the columns
    of the matrix it is given. *)
Definition svd_shaped (svd : svd_fun) : Prop :=
  forall A, nrows (fst (fst (svd A))) = nrows A /\
            ncols (snd (svd A)) = ncols A.

(** The matrix that the Procrustes solver of the library returns is
    square, of the size of the features, as soon as the decomposition
    returns bases of the right shapes. *)
Lemma scaled_procrustes_shape svd X Y scaling primal R sc :
  svd_shaped svd ->
  scaled_procrustes svd X Y scaling primal = Ok (R, sc) ->
  nrows R = ncols X /\ ncols R = ncols X.
Proof.
  intros Hsvd. unfold scaled_procrustes.
  destruct (shape_eqb X Y) eqn:Hs; [simpl | discriminate].
  apply shape_eqb_true in Hs as [_ Hc].
  destruct (degenerateb X Y); [intros [= <- _]; now split|].
  unfold formulation, procrustes_primal, procrustes_dual.
  destruct (choose_primal primal X);
    [pose proof (Hsvd (dot (transpose Y) X)) as [Hu Hv];
     destruct (svd (dot (transpose Y) X)) as [[U s] Vt]
    |pose proof (Hsvd (dot (transpose X) Y)) as [Hu Hv];
     destruct (svd (dot (transpose X) Y)) as [[U s] Vt]];
    intros [= <- _]; simpl in *; split; congruence.
Qed.

(** On data of equal shapes the solver returns, whatever the accuracy of
    the decomposition. *)
Lemma scaled_procrustes_total svd X Y scaling primal :
  svd_shaped svd -> shape_eqb X Y = true ->
  exists R sc, scaled_procrustes svd X Y scaling primal = Ok (R, sc) /\
               nrows R = ncols X /\ ncols R = ncols X.
Proof.
  intros Hsvd Hs.
  assert (Hok : exists R sc, scaled_procrustes svd X Y scaling primal = Ok (R, sc)).
  { unfold scaled_procrustes. rewrite Hs. simpl.
    destruct (degenerateb X Y); [eauto|].
    destruct (formulation svd _ X Y). eauto. }
  destruct Hok as (R & sc & E). exists R, sc. split; [exact E|].
  exact (scaled_procrustes_shape _ _ _ _ _ _ _ Hsvd E).
Qed.

(** ** The matrix returned is orthogonal *)

(** The two bases of a decomposition are orthogonal and of one size.
    Nothing is asked of the singular values, nor of the product of the
    three factors. *)
Definition orthogonal_bases (r : svd_result) : Prop :=
  let '(U, _, Vt) := r in
  orthogonal U /\ orthogonal Vt /\ nrows U = nrows Vt.

Lemma formulation_orthogonal_bases svd b X Y :
  orthogonal_bases (svd (decomposed b X Y)) ->
  orthogonal (fst (formulation svd b X Y)).
Proof.
  unfold decomposed, formulation, procrustes_primal, procrustes_dual.
  destruct b; destruct (svd _) as [[U s] Vt]; intros (HU & HV & Hn); simpl.
  - now apply orthogonal_dot.
  - now apply orthogonal_transpose, orthogonal_dot.
Qed.

(** The matrix that the solver returns is orthogonal as soon as the bases
    of the one decomposition it asks for are: the identity for a zero input,
    the product of the bases otherwise, transposed in the dual
    formulation. *)
Lemma scaled_procrustes_orthogonal svd X Y scaling primal R sc :
  orthogonal_bases (svd (decomposed (choose_primal primal X) X Y)) ->
  scaled_procrustes svd X Y scaling primal = Ok (R, sc) -> orthogonal R.
Proof.
  intros Hb. unfold scaled_procrustes.
  destruct (shape_eqb X Y); [simpl | discriminate].
  destruct (degenerateb X Y); [intros [= <- _]; apply orthogonal_eye|].
  pose proof (formulation_orthogonal_bases _ _ _ _ Hb) as HR.
  destruct (formulation svd _ X Y) as [R' s]. now intros [= <- _].
Qed.
