(* ===== verification/Numeric.v ===== *)
(** * Numeric: the array utilities of the tests and of the example

    Row means with [keepdims], subtraction with broadcasting along the
    columns, the centring of rows that the tests apply to their inputs,
    products of a matrix with a one-dimensional array, the assertion
    [assert_array_almost_equal] with its default of six decimals, and the
    scores of the example: [r2_score] with raw values and [np.maximum]. *)

From Stdlib Require Import ZArith QArith Qabs Lqa Lia List Bool Arith Setoid Morphisms.
From S2P Require Import Prelude Matrix.
Import ListNotations.
Open Scope Q_scope.
Open Scope mat_scope.

(** ** Means and centring *)

(** The number of columns as a rational. *)
Definition Qcols (X : matrix) : Q := inject_Z (Z.of_nat (ncols X)).

(** [X.mean(axis=1, keepdims=True)]: the column of the row means.  For an
    array without columns the quotient by zero is zero here, where NumPy
    warns and returns NaN; the tests take the mean of arrays of four
    columns. *)
Definition mean_axis1 (X : matrix) : matrix :=
  mk (nrows X) 1 (fun i _ => sumQ (ncols X) (fun j => mget X i j) / Qcols X).

(** [X - M] for [M] of shape [(m, 1)]: [M] is broadcast along the columns. *)
Definition sub_broadcast (X M : matrix) : matrix :=
  mk (nrows X) (ncols X) (fun i j => mget X i j - mget M i 0).

(** [X - X.mean(axis=1, keepdims=True)] *)
Definition center_rows (X : matrix) : matrix :=
  sub_broadcast X (mean_axis1 X).

(** ** Products with one-dimensional arrays *)

(** [A.dot(v)] for a one-dimensional [v]. *)
Definition dot_vec (A : matrix) (v : list Q) : list Q :=
  map (fun i => sumQ (ncols A) (fun k => mget A i k * nth k v 0))
      (seq 0 (nrows A)).

(** ** Almost-equality *)

(** The tolerance of [assert_array_almost_equal] at its default
    [decimal=6]: [abs(desired - actual) < 1.5 * 10**(-6)]. *)
Definition tolerance : Q := 1.5e-6.

Definition almost_equal (actual desired : Q) : bool :=
  Qlt_bool (Qabs (desired - actual)) tolerance.

(** [assert_array_almost_equal(A, B)] as a test: the shapes agree and
    every entry is within the tolerance. *)
Definition assert_array_almost_equal (A B : matrix) : bool :=
  (nrows A =? nrows B)%nat && (ncols A =? ncols B)%nat &&
  forallb (fun i =>
    forallb (fun j => almost_equal (mget A i j) (mget B i j))
            (seq 0 (ncols A)))
    (seq 0 (nrows A)).

(** The same for one-dimensional arrays. *)
Definition assert_vec_almost_equal (u v : list Q) : bool :=
  (length u =? length v)%nat &&
  forallb (fun i => almost_equal (nth i u 0) (nth i v 0)) (seq 0 (length u)).

(** ** Lemmas *)

#[export] Instance almost_equal_Proper : Proper (Qeq ==> Qeq ==> eq) almost_equal.
Proof. intros x x' Hx y y' Hy. unfold almost_equal. now rewrite Hx, Hy. Qed.

Lemma almost_equal_refl x y : x == y -> almost_equal x y = true.
Proof.
  intros H. unfold almost_equal. apply Qlt_bool_iff.
  setoid_replace (y - x) with 0 by (rewrite H; ring). reflexivity.
Qed.

Lemma almost_equal_spec x y :
  almost_equal x y = true <-> Qabs (y - x) < tolerance.
Proof. apply Qlt_bool_iff. Qed.

(** Equal arrays pass the assertion. *)
Lemma assert_array_almost_equal_meq A B :
  A =~= B -> assert_array_almost_equal A B = true.
Proof.
  intros (Hr & Hc & H). unfold assert_array_almost_equal.
  rewrite !andb_true_iff, !Nat.eqb_eq. repeat split; auto.
  apply forallb_forall. intros i _. apply forallb_forall. intros j _.
  now apply almost_equal_refl.
Qed.

(** What a passed assertion gives. *)
Lemma assert_array_almost_equal_spec A B :
  assert_array_almost_equal A B = true <->
  nrows A = nrows B /\ ncols A = ncols B /\
  forall i j, (i < nrows A)%nat -> (j < ncols A)%nat ->
    Qabs (mget B i j - mget A i j) < tolerance.
Proof.
  unfold assert_array_almost_equal.
  rewrite !andb_true_iff, !Nat.eqb_eq, forallb_forall. split.
  - intros [[Hr Hc] H]. repeat split; auto. intros i j Hi Hj.
    specialize (H i). rewrite forallb_forall in H.
    apply almost_equal_spec, H; apply in_seq; lia.
  - intros (Hr & Hc & H). repeat split; auto. intros i Hi.
    apply forallb_forall. intros j Hj. apply in_seq in Hi, Hj.
    apply almost_equal_spec, H; lia.
Qed.

#[export] Instance assert_array_almost_equal_Proper :
  Proper (meq ==> meq ==> eq) assert_array_almost_equal.
Proof.
  intros A A' (Hr & Hc & H) B B' (Hr' & Hc' & H').
  unfold assert_array_almost_equal. rewrite Hr, Hc, Hr', Hc'. f_equal.
  apply forallb_ext. intros i. apply forallb_ext. intros j.
  now rewrite H, H'.
Qed.

Lemma assert_vec_almost_equal_refl u v :
  length u = length v -> (forall i, nth i u 0 == nth i v 0) ->
  assert_vec_almost_equal u v = true.
Proof.
  intros Hl H. unfold assert_vec_almost_equal.
  rewrite andb_true_iff, Nat.eqb_eq. split; [exact Hl|].
  apply forallb_forall. intros i _. now apply almost_equal_refl.
Qed.

(** *** Centring *)

Lemma mget_center_rows X i j :
  (i < nrows X)%nat -> (j < ncols X)%nat ->
  mget (center_rows X) i j ==
  mget X i j - sumQ (ncols X) (fun k => mget X i k) / Qcols X.
Proof.
  intros Hi Hj. unfold center_rows, sub_broadcast, mean_axis1.
  rewrite mget_mk_in by assumption. rewrite mget_mk_in by lia. reflexivity.
Qed.

Lemma Qcols_nonzero X j : (j < ncols X)%nat -> ~ Qcols X == 0.
Proof.
  intros Hj H. unfold Qcols in H.
  assert (Hz : (0 < Z.of_nat (ncols X))%Z) by lia.
  apply (Qlt_not_eq 0 (inject_Z (Z.of_nat (ncols X)))).
  - unfold Qlt. simpl. lia.
  - now symmetry.
Qed.

(** Every row of a centred array sums to zero. *)
Lemma center_rows_sum X i :
  sumQ (ncols X) (fun j => mget (center_rows X) i j) == 0.
Proof.
  destruct (Nat.lt_ge_cases i (nrows X)) as [Hi|Hi].
  2:{ apply sumQ_all_zero. intros. now rewrite mget_out_row. }
  destruct (ncols X) as [|n] eqn:En; [reflexivity|]. rewrite <- En.
  rewrite (sumQ_ext _ _ (fun j =>
    mget X i j - sumQ (ncols X) (fun k => mget X i k) / Qcols X))
    by (intros; now apply mget_center_rows).
  rewrite sumQ_sub, sumQ_const. fold (Qcols X).
  assert (Hnz : ~ Qcols X == 0) by (apply (Qcols_nonzero X 0%nat); lia).
  change (sumQ (ncols X) (mget X i)) with (sumQ (ncols X) (fun k => mget X i k)).
  revert Hnz. generalize (Qcols X), (sumQ (ncols X) (fun k => mget X i k)).
  intros q t Hq. field. exact Hq.
Qed.

(** Centring an array whose rows already sum to zero changes nothing. *)
Lemma center_rows_fixed X :
  (forall i, sumQ (ncols X) (fun j => mget X i j) == 0) ->
  center_rows X =~= X.
Proof.
  intros H. apply meq_intro; try reflexivity. simpl. intros i j Hi Hj.
  rewrite mget_center_rows, H by assumption.
  pose proof (Qcols_nonzero X j Hj) as Hnz. revert Hnz.
  generalize (Qcols X), (mget X i j). intros q t Hq. field. exact Hq.
Qed.

(** C33: scaling preserves centredness, so that the second centring of
    [test_scaled_procrustes_multiplication] ([Y = Y - Y.mean(...)] after
    [Y = 2 * X] with [X] centred) changes nothing. *)
Lemma center_rows_scale c X :
  center_rows (scale c (center_rows X)) =~= scale c (center_rows X).
Proof.
  apply center_rows_fixed. intros i. simpl.
  rewrite (sumQ_ext _ _ (fun j => c * mget (center_rows X) i j))
    by (intros; apply mget_scale).
  rewrite sumQ_scale_l, (center_rows_sum X). ring.
Qed.

(** ** Scores *)

(** The coefficient of determination of output column [j], as
    [sklearn.metrics.r2_score] computes it: one when the residual sum of
    squares is zero, zero when only the total sum of squares is, and
    [1 - numerator / denominator] otherwise. *)
Definition r2_column (y_true y_pred : matrix) (j : nat) : Q :=
  let n := nrows y_true in
  let mean := sumQ n (fun i => mget y_true i j) / inject_Z (Z.of_nat n) in
  let numerator :=
    sumQ n (fun i => (mget y_true i j - mget y_pred i j) *
                     (mget y_true i j - mget y_pred i j)) in
  let denominator :=
    sumQ n (fun i => (mget y_true i j - mean) * (mget y_true i j - mean)) in
  if Qeq_bool numerator 0 then 1
  else if Qeq_bool denominator 0 then 0
  else 1 - numerator / denominator.

(** [r2_score(y_true, y_pred, multioutput='raw_values')]: one score per
    column.  The validation of the inputs raises [ValueError] for arrays
    of different shapes and for arrays without a sample or without a
    column.  On a single sample the coefficient is not defined (the total
    sum of squares is zero in every column, and the library warns); the
    definition gives the value of the formula there, and the theorems on
    the scores of the example ask for two samples or more. *)
Definition r2_score (y_true y_pred : matrix) : result (list Q) :=
  if negb ((nrows y_true =? nrows y_pred)%nat &&
           (ncols y_true =? ncols y_pred)%nat)
  then Err ValueError
  else if (nrows y_true =? 0)%nat || (ncols y_true =? 0)%nat
  then Err ValueError
  else Ok (map (r2_column y_true y_pred) (seq 0 (ncols y_true))).

(** [np.maximum(a, c)] for an array [a] and a scalar [c]. *)
Definition np_maximum (a : list Q) (c : Q) : list Q :=
  map (fun x => if Qle_bool c x then x else c) a.

(** A score never exceeds one. *)
Lemma r2_column_le_one y_true y_pred j : r2_column y_true y_pred j <= 1.
Proof.
  unfold r2_column. cbv zeta.
  set (num := sumQ _ (fun i => (_ - mget y_pred i j) * _)).
  set (den := sumQ _ (fun i => (_ - _ / _) * _)).
  assert (Hn : 0 <= num) by (unfold num; auto with align).
  assert (Hd : 0 <= den) by (unfold den; auto with align).
  destruct (Qeq_bool num 0); [lra|].
  destruct (Qeq_bool den 0) eqn:Ed; [lra|].
  apply Qeq_bool_neq in Ed.
  assert (0 <= num / den) by (apply Qle_shift_div_l; lra). lra.
Qed.

(** A prediction equal to the truth on a column scores one there. *)
Lemma r2_column_perfect y_true y_pred j :
  (forall i, (i < nrows y_true)%nat -> mget y_true i j == mget y_pred i j) ->
  r2_column y_true y_pred j = 1.
Proof.
  intros H. unfold r2_column. cbv zeta.
  rewrite (proj2 (Qeq_bool_iff _ 0)); [reflexivity|].
  apply sumQ_all_zero. intros i Hi. rewrite (H i Hi). ring.
Qed.

(** The residual of a column is zero exactly when the column is predicted
    exactly. *)
Lemma residual_zero_iff y_true y_pred j :
  sumQ (nrows y_true)
       (fun i => (mget y_true i j - mget y_pred i j) *
                 (mget y_true i j - mget y_pred i j)) == 0 <->
  forall i, (i < nrows y_true)%nat -> mget y_true i j == mget y_pred i j.
Proof.
  split.
  - intros H i Hi.
    pose proof (sumQ_nonneg_zero _ _ (fun k _ => Qsquare_nonneg _) H i Hi) as Hz.
    apply Qsquare_zero in Hz. lra.
  - intros H. apply sumQ_all_zero. intros i Hi. rewrite (H i Hi). ring.
Qed.

(** A column scores one exactly when it is predicted exactly. *)
Lemma r2_column_one_iff y_true y_pred j :
  r2_column y_true y_pred j == 1 <->
  forall i, (i < nrows y_true)%nat -> mget y_true i j == mget y_pred i j.
Proof.
  rewrite <- residual_zero_iff. unfold r2_column. cbv zeta.
  set (num := sumQ _ (fun i => (_ - mget y_pred i j) * _)).
  set (den := sumQ _ (fun i => (_ - _ / _) * _)).
  destruct (Qeq_bool num 0) eqn:En.
  - apply Qeq_bool_iff in En. split; [intros _; exact En | reflexivity].
  - apply Qeq_bool_neq in En. destruct (Qeq_bool den 0) eqn:Ed.
    + split; [intros H; discriminate H | intros H; contradiction].
    + apply Qeq_bool_neq in Ed. split; [|intros H; contradiction].
      intros H. exfalso. apply En.
      assert (Hq : num / den == 0) by lra.
      rewrite <- (Qmult_div_r num den Ed), Hq. ring.
Qed.

(** A column whose truth is the same in every sample scores zero, unless
    it is predicted exactly. *)
Lemma r2_column_constant y_true y_pred j c :
  (forall i, (i < nrows y_true)%nat -> mget y_true i j == c) ->
  ~ (forall i, (i < nrows y_true)%nat -> mget y_true i j == mget y_pred i j) ->
  r2_column y_true y_pred j = 0.
Proof.
  intros Hc Hne. rewrite <- residual_zero_iff in Hne. unfold r2_column.
  cbv zeta.
  destruct (Qeq_bool _ 0) eqn:En; [apply Qeq_bool_iff in En; contradiction|].
  rewrite (proj2 (Qeq_bool_iff _ 0)); [reflexivity|].
  destruct (nrows y_true) as [|n] eqn:E; [reflexivity|].
  apply sumQ_all_zero. intros i Hi.
  rewrite (sumQ_ext _ _ (fun _ => c)) by (intros k Hk; apply Hc; lia).
  rewrite sumQ_const, (Hc i) by lia.
  assert (Hn : ~ inject_Z (Z.of_nat (S n)) == 0)
    by (unfold Qeq, inject_Z; simpl; lia).
  field. exact Hn.
Qed.

(** [np.maximum(a, c)], entry by entry. *)
Lemma nth_np_maximum a c j :
  (j < length a)%nat ->
  nth j (np_maximum a c) 0 =
  if Qle_bool c (nth j a 0) then nth j a 0 else c.
Proof.
  intros Hj. unfold np_maximum.
  rewrite (nth_indep _ 0 (if Qle_bool c 0 then 0 else c))
    by (now rewrite length_map).
  apply (map_nth (fun x => if Qle_bool c x then x else c)).
Qed.

(** What a successful call has checked, and what it returns. *)
Lemma r2_score_inv y_true y_pred s :
  r2_score y_true y_pred = Ok s ->
  nrows y_true = nrows y_pred /\ ncols y_true = ncols y_pred /\
  (0 < nrows y_true)%nat /\ (0 < ncols y_true)%nat /\
  s = map (r2_column y_true y_pred) (seq 0 (ncols y_true)).
Proof.
  unfold r2_score.
  destruct (Nat.eqb_spec (nrows y_true) (nrows y_pred)); [|discriminate].
  destruct (Nat.eqb_spec (ncols y_true) (ncols y_pred)); [|discriminate].
  destruct (Nat.eqb_spec (nrows y_true) 0); [discriminate|].
  destruct (Nat.eqb_spec (ncols y_true) 0); [discriminate|].
  simpl. intros [= <-]. repeat split; auto; lia.
Qed.

(** Arrays of the same shape with a sample and a column are scored. *)
Lemma r2_score_eq y_true y_pred :
  nrows y_true = nrows y_pred -> ncols y_true = ncols y_pred ->
  (0 < nrows y_true)%nat -> (0 < ncols y_true)%nat ->
  r2_score y_true y_pred =
  Ok (map (r2_column y_true y_pred) (seq 0 (ncols y_true))).
Proof.
  intros Hr Hc Hn Hp. unfold r2_score. rewrite <- Hr, <- Hc, !Nat.eqb_refl.
  destruct (Nat.eqb_spec (nrows y_true) 0); [lia|].
  destruct (Nat.eqb_spec (ncols y_true) 0); [lia | reflexivity].
Qed.

(** Arrays without a sample or without a column are refused, on either
    side. *)
Lemma r2_score_empty y_true y_pred :
  nrows y_true = 0%nat \/ ncols y_true = 0%nat \/
  nrows y_pred = 0%nat \/ ncols y_pred = 0%nat ->
  is_ok (r2_score y_true y_pred) = false.
Proof.
  intros H. destruct (r2_score y_true y_pred) as [s|] eqn:E; [|reflexivity].
  apply r2_score_inv in E. lia.
Qed.

Lemma r2_score_length y_true y_pred s :
  r2_score y_true y_pred = Ok s -> length s = ncols y_true.
Proof.
  intros H. apply r2_score_inv in H as (_ & _ & _ & _ & ->).
  now rewrite length_map, length_seq.
Qed.

Lemma r2_score_perfect y_true y_pred :
  y_true =~= y_pred -> (0 < nrows y_true)%nat -> (0 < ncols y_true)%nat ->
  r2_score y_true y_pred = Ok (repeat 1 (ncols y_true)).
Proof.
  intros (Hr & Hc & He) Hn Hp. rewrite (r2_score_eq _ _ Hr Hc Hn Hp).
  f_equal. rewrite (map_ext_in _ (fun _ => 1)).
  - generalize (ncols y_true) as n. intros n. generalize 0%nat as a.
    induction n as [|n IH]; intros a; simpl; [reflexivity | now rewrite IH].
  - intros j _. apply r2_column_perfect. intros i _. apply He.
Qed.

(** Arrays of the same shape are scored, with one score per column. *)
Lemma r2_score_ok y_true y_pred :
  nrows y_true = nrows y_pred -> ncols y_true = ncols y_pred ->
  (0 < nrows y_true)%nat -> (0 < ncols y_true)%nat ->
  exists s, r2_score y_true y_pred = Ok s /\ length s = ncols y_true.
Proof.
  intros Hr Hc Hn Hp. rewrite (r2_score_eq _ _ Hr Hc Hn Hp).
  eexists. split; [reflexivity|]. now rewrite length_map, length_seq.
Qed.

(** [np.maximum(a, c)] is at least [c], and keeps every upper bound that
    [c] respects. *)
Lemma np_maximum_bounds a c u :
  c <= u -> Forall (fun x => x <= u) a ->
  Forall (fun x => c <= x /\ x <= u) (np_maximum a c).
Proof.
  intros Hcu Ha. unfold np_maximum. apply Forall_map.
  apply Forall_impl with (2 := Ha). intros x Hx.
  destruct (Qle_bool c x) eqn:E; [apply Qle_bool_iff in E; lra | lra].
Qed.

(** Values that are at least [c] pass through [np.maximum(a, c)]. *)
Lemma np_maximum_id a c :
  Forall (fun x => c <= x) a -> np_maximum a c = a.
Proof.
  intros Ha. unfold np_maximum. rewrite <- (map_id a) at 2.
  apply map_ext_in. intros x Hx. rewrite Forall_forall in Ha.
  now rewrite (proj2 (Qle_bool_iff c x) (Ha x Hx)).
Qed.

Lemma length_np_maximum a c : length (np_maximum a c) = length a.
Proof. unfold np_maximum. apply length_map. Qed.

(** The clipped scores of the example lie between minus one and one. *)
Lemma clipped_r2_bounds y_true y_pred s :
  r2_score y_true y_pred = Ok s ->
  Forall (fun x => -1 <= x /\ x <= 1) (np_maximum s (-1)).
Proof.
  intros H. apply r2_score_inv in H as (_ & _ & _ & _ & ->).
  apply np_maximum_bounds; [lra|]. apply Forall_map, Forall_forall.
  intros j _. apply r2_column_le_one.
Qed.
