(* ===== verification/Methods.v ===== *)
(** * Methods: the alignment method objects

    The estimator objects of [fmralign.alignment_methods] with their uniform
    [fit] / [transform] contract (specification, section 4.2).  Their source
    is not part of the sources at hand; they are modelled from the
    specification and from the calls of the tests: [fit(X, Y)] takes the
    sample matrices [(n_samples, n_features)], and [transform(X)] takes the
    data with one row per feature and returns [scale * R.dot(X)].

    The dynamic dispatch on the method's name is a closed variant type of
    five methods; the presence of the fitted attributes is an explicit
    option.  The solvers are reached through the record [solvers]: the
    Procrustes solver of the scaled orthogonal method, and the solvers of
    the permutation, transport and ridge methods, which [Solvers] fills
    with the solvers of [Assignment], [Transport] and [Ridge]. *)

From Stdlib Require Import ZArith QArith Qabs Lqa Lia List Bool Arith Setoid Morphisms String.
From S2P Require Import Prelude Matrix Orthogonal Procrustes.
Import ListNotations.
Open Scope Q_scope.
Open Scope mat_scope.
Open Scope align_scope.

(** ** Variants and learned transformations *)

(** The closed set of methods; the regularisation strength is part of the
    configuration of the two methods that have one. *)
Inductive variant : Type :=
| Identity
| Permutation
| ScaledOrthogonal (scaling : bool)
| OptimalTransport (reg : Q)
| Ridge (alpha : Q).

(** What a fitted object holds: nothing, a matrix (a permutation, a
    rescaled coupling or a regression matrix), or an orthogonal matrix with
    a scale. *)
Inductive transformation : Type :=
| T_identity
| T_linear (M : matrix)
| T_scaled_orthogonal (R : matrix) (sc : Q).

(** The solvers the method objects call: the Procrustes solver, and the
    solvers of the permutation, transport and ridge methods, which return
    the matrix the object stores. *)
Record solvers : Type := Solvers {
  procrustes : solver;
  linear : variant -> matrix -> matrix -> result matrix
}.

(** An estimator: its configuration, and its fitted state if any. *)
Record method_object : Type := Method {
  variant_of : variant;
  fitted : option transformation
}.

(** Where the object stands in the life cycle; a method object is never
    seen while it is being fitted. *)
Definition state_of (self : method_object) : lifecycle :=
  match fitted self with
  | None => UNFITTED
  | Some _ => FITTED
  end.

(** The constructor: a fresh, unfitted estimator. *)
Definition new_method (v : variant) : method_object :=
  Method v None.

(** [ScaledOrthogonalAlignment(scaling=...)] *)
Definition ScaledOrthogonalAlignment (scaling : bool) : method_object :=
  new_method (ScaledOrthogonal scaling).

(** ** [fit] and [transform] *)

Section Methods.
Variable solve : solvers.

(** [self.fit(X, Y)]: learns the transformation, stores it in place of any
    earlier one, and returns the object. *)
Definition fit (self : method_object) (X Y : matrix) : result method_object :=
  match variant_of self with
  | Identity =>
      if shape_eqb X Y then Ok (Method Identity (Some T_identity))
      else Err ShapeMismatch
  | ScaledOrthogonal scaling =>
      ' (R, sc) <- procrustes solve X Y scaling None ;;
      Ok (Method (ScaledOrthogonal scaling) (Some (T_scaled_orthogonal R sc)))
  | v =>
      if shape_eqb X Y
      then M <- linear solve v X Y ;; Ok (Method v (Some (T_linear M)))
      else Err ShapeMismatch
  end.

(** The action of a learned transformation on data given with one row per
    feature. *)
Definition apply_transformation (t : transformation) (X : matrix)
  : result matrix :=
  match t with
  | T_identity => Ok X
  | T_linear M =>
      if (ncols M =? nrows X)%nat then Ok (dot M X)
      else Err ShapeMismatch
  | T_scaled_orthogonal R sc =>
      if (ncols R =? nrows X)%nat then Ok (scale sc (dot R X))
      else Err ShapeMismatch
  end.

(** [self.transform(X)]: fails before [fit]. *)
Definition transform (self : method_object) (X : matrix) : result matrix :=
  match fitted self with
  | None => Err NotFittedError
  | Some t => apply_transformation t X
  end.

(** ** Life cycle *)

Lemma new_method_unfitted v : state_of (new_method v) = UNFITTED.
Proof. reflexivity. Qed.

Lemma transform_unfitted self X :
  state_of self = UNFITTED -> transform self X = Err NotFittedError.
Proof.
  unfold state_of, transform. destruct (fitted self); [discriminate | reflexivity].
Qed.

Lemma transform_new v X : transform (new_method v) X = Err NotFittedError.
Proof. reflexivity. Qed.

(** A successful [fit] leaves the object fitted and keeps its variant. *)
Lemma fit_fitted self X Y self' :
  fit self X Y = Ok self' ->
  state_of self' = FITTED /\ variant_of self' = variant_of self.
Proof.
  unfold fit.
  destruct (variant_of self) as [| |scaling|reg|alpha] eqn:Ev;
    try (intros H; apply bind_ok_inv in H; destruct H as ([R sc] & _ & H);
         inv H; now split);
    destruct (shape_eqb X Y); try discriminate; intros H;
    try (apply bind_ok_inv in H; destruct H as (M & _ & H));
    inv H; now split.
Qed.

(** Every method refuses data of different shapes, provided the Procrustes
    solver does. *)
Lemma fit_shape_mismatch self X Y :
  shape_eqb X Y = false ->
  (forall scaling, procrustes solve X Y scaling None = Err ShapeMismatch) ->
  fit self X Y = Err ShapeMismatch.
Proof.
  intros Hs Hp. unfold fit.
  destruct (variant_of self); rewrite ?Hs, ?Hp; reflexivity.
Qed.

(** The scaled orthogonal method stores what a solver that meets its
    contract returns: a solution of the Procrustes problem. *)
Lemma fit_scaled_orthogonal scaling X Y :
  shape_eqb X Y = true ->
  procrustes_contract X Y scaling (procrustes solve X Y scaling None) ->
  exists R sc,
    procrustes solve X Y scaling None = Ok (R, sc) /\
    procrustes_solution X Y R /\
    fit (new_method (ScaledOrthogonal scaling)) X Y =
    Ok (Method (ScaledOrthogonal scaling) (Some (T_scaled_orthogonal R sc))).
Proof.
  intros Hs Hc.
  destruct (contract_ok_solution _ _ _ _ Hc Hs) as (R & sc & E & Hsol).
  exists R, sc. unfold fit. simpl. now rewrite E.
Qed.

(** [fit] does not read the fitted state: fitting again replaces it. *)
Lemma fit_replaces self t X Y :
  fit (Method (variant_of self) (Some t)) X Y = fit self X Y.
Proof. reflexivity. Qed.
End Methods.

(** The scaled orthogonal and the identity method reach no solver but the
    Procrustes solver. *)
Lemma fit_procrustes_only p l1 l2 self X Y :
  match variant_of self with
  | Identity | ScaledOrthogonal _ => True
  | _ => False
  end ->
  fit (Solvers p l1) self X Y = fit (Solvers p l2) self X Y.
Proof. unfold fit. destruct (variant_of self); simpl; tauto. Qed.
