(* ===== verification/Ridge.v ===== *)
(** * Ridge: the ridge regression solver

    [ridge_alignment] of the specification (section 4.1): the matrix [R]
    that minimises [|X R - Y|^2 + alpha |R|^2], in closed form through the
    normal equations [(X^T X + alpha I) R = X^T Y].  Its source is not part
    of the sources at hand; it is modelled from the specification.  The
    linear system is solved by the service of [Linsolve], and the theorems
    are proved against the laws of that service.

    The object of the ridge method stores the transpose of [R], the matrix
    that [transform] applies to data given with one row per feature. *)

From Stdlib Require Import ZArith QArith Qabs Lqa Lia List Bool Arith Setoid Morphisms.
From S2P Require Import Prelude Matrix Linsolve Orthogonal Procrustes Methods.
Import ListNotations.
Open Scope Q_scope.
Open Scope mat_scope.
Open Scope align_scope.

(** ** The problem *)

(** What the solver minimises over [R]. *)
Definition ridge_objective (alpha : Q) (X Y R : matrix) : Q :=
  frob2 (sub (dot X R) Y) + alpha * frob2 R.

(** [X.T.dot(X) + alpha * np.eye(p)] *)
Definition gram (alpha : Q) (X : matrix) : matrix :=
  add (dot (transpose X) X) (scale alpha (eye (ncols X))).

Definition normal_equations (alpha : Q) (X Y R : matrix) : Prop :=
  dot (gram alpha X) R =~= dot (transpose X) Y.

(** [R] has one row per feature of [X] and one column per feature of [Y]. *)
Definition ridge_shape (X Y R : matrix) : Prop :=
  nrows R = ncols X /\ ncols R = ncols Y.

(** ** The solver *)

Section Solver.
Context `{LinearSolver}.

(** [ridge_alignment(X, Y, alpha)]: the shapes must agree; the solution of
    the normal equations, transposed for [transform]. *)
Definition ridge_alignment (alpha : Q) (X Y : matrix) : result matrix :=
  if negb (shape_eqb X Y) then Err ShapeMismatch
  else
    R <- linsolve (gram alpha X) (dot (transpose X) Y) ;;
    Ok (transpose R).
End Solver.

(** ** The normal equations characterise the minimum *)

Section NormalEquations.
Variables (alpha : Q) (X Y : matrix).
Hypothesis Hrows : nrows X = nrows Y.

Lemma gram_dot R :
  nrows R = ncols X ->
  dot (gram alpha X) R =~=
  add (dot (transpose X) (dot X R)) (scale alpha R).
Proof.
  intros HR. unfold gram. rewrite dot_add_l by reflexivity.
  rewrite dot_assoc, dot_scale_l, (dot_eye_l R) by exact HR. reflexivity.
Qed.

(** At a solution of the normal equations the residual, pulled back by
    [X], is [- alpha R]. *)
Lemma normal_residual R :
  ridge_shape X Y R -> normal_equations alpha X Y R ->
  dot (transpose X) (sub (dot X R) Y) =~= scale (- alpha) R.
Proof.
  intros [HRr HRc] Hn. unfold normal_equations in Hn.
  rewrite gram_dot in Hn by exact HRr.
  rewrite dot_sub_r by (simpl; congruence). rewrite <- Hn.
  apply meq_intro; simpl; auto. intros i j _ _.
  rewrite mget_sub, mget_add, !mget_scale by (simpl; congruence). ring.
Qed.

(** The objective at [R'] exceeds the objective at a solution [R] of the
    normal equations by [|X (R' - R)|^2 + alpha |R' - R|^2]. *)
Lemma ridge_objective_gap R R' :
  ridge_shape X Y R -> ridge_shape X Y R' -> normal_equations alpha X Y R ->
  ridge_objective alpha X Y R' ==
  ridge_objective alpha X Y R +
  (frob2 (dot X (sub R' R)) + alpha * frob2 (sub R' R)).
Proof.
  intros HR HR' Hn. pose proof HR as [HRr HRc]. pose proof HR' as [HRr' HRc'].
  set (D := sub R' R).
  assert (HD : add R D =~= R')
    by (apply add_sub_cancel; congruence).
  assert (HE : sub (dot X R') Y =~= add (sub (dot X R) Y) (dot X D)).
  { rewrite <- HD at 1. rewrite dot_add_r by (simpl; congruence).
    apply meq_intro; simpl; auto. intros i j _ _.
    rewrite mget_sub, !mget_add, mget_sub by (simpl; congruence). ring. }
  assert (F1 : frob2 (sub (dot X R') Y) ==
               frob2 (sub (dot X R) Y) +
               2 * inner (sub (dot X R) Y) (dot X D) + frob2 (dot X D)).
  { rewrite HE. apply frob2_add; simpl; congruence. }
  assert (F2 : frob2 R' == frob2 R + 2 * inner R D + frob2 D).
  { rewrite <- HD at 1. apply frob2_add; simpl; congruence. }
  assert (F3 : inner (sub (dot X R) Y) (dot X D) == - alpha * inner R D).
  { rewrite inner_comm by (simpl; congruence).
    rewrite <- inner_dot_adjoint, (normal_residual R HR Hn), inner_scale_r.
    rewrite (inner_comm D R) by (simpl; congruence). reflexivity. }
  unfold ridge_objective. fold D. rewrite F1, F2, F3. ring.
Qed.

(** A solution of the normal equations minimises the objective. *)
Lemma normal_equations_optimal R R' :
  0 <= alpha ->
  ridge_shape X Y R -> ridge_shape X Y R' -> normal_equations alpha X Y R ->
  ridge_objective alpha X Y R <= ridge_objective alpha X Y R'.
Proof.
  intros Ha HR HR' Hn. rewrite (ridge_objective_gap R R' HR HR' Hn).
  pose proof (frob2_nonneg (dot X (sub R' R))).
  pose proof (frob2_nonneg (sub R' R)). nra.
Qed.

(** With a positive penalty the minimiser is unique. *)
Lemma ridge_minimiser_unique R R' :
  0 < alpha ->
  ridge_shape X Y R -> ridge_shape X Y R' -> normal_equations alpha X Y R ->
  ridge_objective alpha X Y R' <= ridge_objective alpha X Y R ->
  R' =~= R.
Proof.
  intros Ha HR HR' Hn Hle. rewrite (ridge_objective_gap R R' HR HR' Hn) in Hle.
  pose proof (frob2_nonneg (dot X (sub R' R))).
  pose proof (frob2_nonneg (sub R' R)).
  destruct HR, HR'. apply frob2_sub_zero; try congruence. nra.
Qed.
End NormalEquations.

(** ** The system of the normal equations has one solution *)

(** The quadratic form of the Gram matrix. *)
Lemma gram_quadratic alpha X v :
  nrows v = ncols X ->
  inner v (dot (gram alpha X) v) == frob2 (dot X v) + alpha * frob2 v.
Proof.
  intros Hv. rewrite gram_dot by exact Hv.
  rewrite inner_add_r by (simpl; congruence).
  rewrite inner_dot_adjoint, inner_scale_r. reflexivity.
Qed.

Lemma gram_trivial_kernel alpha X : 0 < alpha -> trivial_kernel (gram alpha X).
Proof.
  intros Ha x Hx c Hc. simpl in Hx, Hc.
  set (v := mk (ncols X) 1 (fun i _ => x i)).
  assert (Hz : dot (gram alpha X) v =~= zeros_like v).
  { apply meq_intro; try reflexivity. simpl. intros r j Hr Hj.
    unfold zeros_like. rewrite mget_dot, mget_zeros. simpl.
    rewrite <- (Hx r Hr). apply sumQ_ext. intros k Hk.
    unfold v. rewrite mget_mk_in by lia. reflexivity. }
  assert (Hq : frob2 (dot X v) + alpha * frob2 v == 0).
  { rewrite <- gram_quadratic, Hz by reflexivity.
    unfold inner, zeros_like. apply sumQ_all_zero. intros i _.
    apply sumQ_all_zero. intros j _. rewrite mget_zeros. ring. }
  pose proof (frob2_nonneg (dot X v)). pose proof (frob2_nonneg v).
  assert (Hv : frob2 v == 0) by nra.
  apply frob2_zero_inv in Hv. destruct Hv as (_ & _ & Hv).
  specialize (Hv c 0%nat). unfold zeros_like in Hv.
  rewrite mget_zeros in Hv. unfold v in Hv.
  rewrite mget_mk_in in Hv by (simpl; lia). exact Hv.
Qed.

(** ** The solver meets its specification *)

Section Correctness.
Context `{LinearSolverLaws}.
Variables (alpha : Q) (X Y : matrix).

Lemma ridge_alignment_shape_mismatch :
  shape_eqb X Y = false -> ridge_alignment alpha X Y = Err ShapeMismatch.
Proof. unfold ridge_alignment. now intros ->. Qed.

(** With a positive penalty the solver returns for all data of equal
    shapes: the degeneracy of the linear system does not surface. *)
Lemma ridge_alignment_total :
  0 < alpha -> shape_eqb X Y = true ->
  exists M, ridge_alignment alpha X Y = Ok M.
Proof.
  intros Ha Hs. unfold ridge_alignment. rewrite Hs. simpl.
  apply shape_eqb_true in Hs as [Hr Hc].
  pose proof (linsolve_total (gram alpha X) (dot (transpose X) Y)
                eq_refl eq_refl (gram_trivial_kernel alpha X Ha)) as Hok.
  destruct (linsolve _ _) as [R|]; [|discriminate]. simpl. eauto.
Qed.

(** What it returns is the transpose of a solution of the normal
    equations. *)
Lemma ridge_alignment_normal M :
  ridge_alignment alpha X Y = Ok M ->
  shape_eqb X Y = true /\
  ridge_shape X Y (transpose M) /\
  normal_equations alpha X Y (transpose M).
Proof.
  unfold ridge_alignment. destruct (shape_eqb X Y); [|discriminate].
  simpl. intros Hb. apply bind_ok_inv in Hb as (R & HR & [= <-]).
  split; [reflexivity|].
  pose proof (linsolve_shape _ _ _ HR) as [Hr Hc].
  pose proof (linsolve_sound _ _ _ HR) as Hs.
  split; [split; simpl; auto|].
  unfold normal_equations. now rewrite transpose_involutive.
Qed.

(** What it returns minimises the objective. *)
Lemma ridge_alignment_optimal M R' :
  0 <= alpha -> ridge_alignment alpha X Y = Ok M -> ridge_shape X Y R' ->
  ridge_objective alpha X Y (transpose M) <= ridge_objective alpha X Y R'.
Proof.
  intros Ha HM HR'. apply ridge_alignment_normal in HM as (Hs & HR & Hn).
  apply shape_eqb_true in Hs as [Hr _].
  now apply normal_equations_optimal.
Qed.
End Correctness.

(** ** The ridge method object *)

Section Method.
Context `{LinearSolverLaws}.
Variable solve : solvers.
Variable alpha : Q.
Hypothesis Hlinear :
  forall X Y, linear solve (Ridge alpha) X Y = ridge_alignment alpha X Y.

(** With a positive penalty, the ridge method fits all data of equal
    shapes, and what it stores maps the fitted data onto the prediction
    [X R] of the minimiser, given with one row per feature. *)
Lemma fit_ridge X Y :
  0 < alpha -> shape_eqb X Y = true ->
  exists M,
    fit solve (new_method (Ridge alpha)) X Y =
      Ok (Method (Ridge alpha) (Some (T_linear M))) /\
    ridge_shape X Y (transpose M) /\
    (forall R', ridge_shape X Y R' ->
       ridge_objective alpha X Y (transpose M) <=
       ridge_objective alpha X Y R') /\
    transform (Method (Ridge alpha) (Some (T_linear M))) (transpose X) =
      Ok (dot M (transpose X)).
Proof.
  intros Ha Hs. destruct (ridge_alignment_total alpha X Y Ha Hs) as (M & HM).
  exists M. unfold fit. simpl. rewrite Hs, Hlinear, HM. simpl.
  split; [reflexivity|].
  pose proof (ridge_alignment_normal alpha X Y M HM) as (_ & HR & _).
  split; [exact HR|]. split.
  - intros R' HR'. apply (ridge_alignment_optimal alpha X Y M R'); auto. lra.
  - unfold transform. simpl. destruct HR as [HRr _]. simpl in HRr.
    now rewrite HRr, Nat.eqb_refl.
Qed.
End Method.

(** ** An instance

    Three samples of two features; the target is the source with its
    features exchanged.  With the penalty one the reference solver returns
    the minimiser, which is not the exchange itself: the penalty shrinks
    it. *)
Example ridge_alignment_example :
  exists M,
    ridge_alignment 1 (array [[1; 0]; [0; 1]; [1; 1]])
                      (array [[0; 1]; [1; 0]; [1; 1]]) = Ok M /\
    M =~= array [[1 # 8; 5 # 8]; [5 # 8; 1 # 8]].
Proof.
  eexists. split; [vm_compute; reflexivity|].
  apply meqb_true. vm_compute. reflexivity.
Qed.
