(* ===== verification/Assignment.v ===== *)
(** * Assignment: the permutation solver

    The permutation method of the specification (section 4.1): the best
    one-to-one correspondence between the features of the source and the
    features of the target, found by linear assignment.  Its source is not
    part of the sources at hand; it is modelled from the specification,
    with the squared distance between two feature profiles as the cost of
    matching them.

    The assignment routine (the Hungarian algorithm of the library) is
    reached through the interface [Assignment] with the laws
    [AssignmentLaws].  The reference implementation [exhaustive_assignment]
    tries every permutation and keeps the first of least cost; it meets the
    laws, and it is executable on small inputs. *)

From stdpp Require Import base list.
From Stdlib Require Import ZArith QArith Lqa Lia Bool Arith.
#[local] Set Warnings "-notation-incompatible-prefix".
From S2P Require Import Prelude Matrix Orthogonal Procrustes.
Close Scope Q_scope.
Open Scope nat_scope.
Open Scope mat_scope.
Open Scope align_scope.

(** ** Correspondences and their cost *)

(** A correspondence of [p] features: feature [i] of the source is matched
    with feature [matched sigma i] of the target. *)
Definition correspondence (p : nat) (sigma : list nat) : Prop :=
  Permutation sigma (seq 0 p).

(** The feature of the target matched with feature [i] of the source. *)
Definition matched (sigma : list nat) (i : nat) : nat := nth i sigma 0.

(** The cost of a correspondence under a matrix of costs. *)
Definition total_cost (C : matrix) (sigma : list nat) : Q :=
  sumQ (length sigma) (fun i => mget C i (matched sigma i)).

(** The squared distance between feature [i] of [X] and feature [j] of
    [Y]. *)
Definition feature_costs (X Y : matrix) : matrix :=
  mk (ncols X) (ncols Y)
     (fun i j => sumQ (nrows X)
        (fun s => (mget X s i - mget Y s j) * (mget X s i - mget Y s j))%Q).

(** The matrix that [transform] applies for a correspondence: the entry
    [(j, i)] is one when feature [i] of the source is matched with feature
    [j] of the target. *)
Definition permutation_matrix (sigma : list nat) : matrix :=
  mk (length sigma) (length sigma)
     (fun j i => if matched sigma i =? j then 1%Q else 0%Q).

(** One [1] in every row and every column, and [0] elsewhere. *)
Definition is_permutation_matrix (M : matrix) : Prop :=
  nrows M = ncols M /\
  (forall i j, (mget M i j == 0)%Q \/ (mget M i j == 1)%Q) /\
  (forall i, i < nrows M -> (sumQ (ncols M) (fun j => mget M i j) == 1)%Q) /\
  (forall j, j < ncols M -> (sumQ (nrows M) (fun i => mget M i j) == 1)%Q).

(** ** The assignment routine *)

Class Assignment : Type := {
  linear_sum_assignment : matrix -> list nat
}.

Class AssignmentLaws `{Assignment} : Prop := {
  assignment_correspondence C :
    nrows C = ncols C -> correspondence (nrows C) (linear_sum_assignment C);
  assignment_optimal C sigma :
    nrows C = ncols C -> correspondence (nrows C) sigma ->
    (total_cost C (linear_sum_assignment C) <= total_cost C sigma)%Q
}.

(** The first element of least value, starting from [best]. *)
Fixpoint argmin {A : Type} (f : A -> Q) (best : A) (l : list A) : A :=
  match l with
  | [] => best
  | a :: l' => argmin f (if Qlt_bool (f a) (f best) then a else best) l'
  end.

(** The reference implementation: every permutation is tried. *)
Definition exhaustive_assignment (C : matrix) : list nat :=
  argmin (total_cost C) (seq 0 (nrows C)) (permutations (seq 0 (nrows C))).

(** ** The solver *)

Section Solver.
Context `{Assignment}.

(** The permutation method: the shapes must agree; the matrix of the
    correspondence of least cost. *)
Definition permutation_alignment (X Y : matrix) : result matrix :=
  if negb (shape_eqb X Y) then Err ShapeMismatch
  else Ok (permutation_matrix (linear_sum_assignment (feature_costs X Y))).
End Solver.

(** ** Sums along a correspondence *)

Lemma sum_list_Permutation (l l' : list Q) :
  Permutation l l' -> (sum_list l == sum_list l')%Q.
Proof.
  induction 1 as [|x l l' _ IH|x y l|l l' l'' _ IH1 _ IH2]; simpl.
  - reflexivity.
  - now rewrite IH.
  - ring.
  - now rewrite IH1.
Qed.

Lemma map_nth_seq {A : Type} (l : list A) (d : A) :
  map (fun i => nth i l d) (seq 0 (length l)) = l.
Proof.
  apply (nth_ext _ _ d d); [now rewrite length_map, length_seq|].
  intros i Hi. rewrite length_map, length_seq in Hi.
  now rewrite (nth_map_seq _ d (length l) i Hi).
Qed.

(** A sum over the features of the target is a sum along the
    correspondence. *)
Lemma sumQ_correspondence p sigma (g : nat -> Q) :
  correspondence p sigma ->
  (sumQ p (fun i => g (matched sigma i)) == sumQ p g)%Q.
Proof.
  intros Hs. pose proof (Permutation_length Hs) as Hl.
  rewrite length_seq in Hl. rewrite !sumQ_map_seq. unfold matched.
  rewrite <- (map_map (fun i => nth i sigma 0) g), <- Hl, map_nth_seq, Hl.
  apply sum_list_Permutation, Permutation_map, Hs.
Qed.

Section Correspondence.
Variables (p : nat) (sigma : list nat).
Hypothesis Hs : correspondence p sigma.

Lemma correspondence_length : length sigma = p.
Proof. apply Permutation_length in Hs. now rewrite length_seq in Hs. Qed.

Lemma correspondence_bound i : i < p -> matched sigma i < p.
Proof.
  intros Hi. assert (Hin : In (matched sigma i) sigma)
    by (apply nth_In; now rewrite correspondence_length).
  apply (Permutation_in _ Hs), in_seq in Hin. lia.
Qed.

Lemma correspondence_injective i i' :
  i < p -> i' < p -> matched sigma i = matched sigma i' -> i = i'.
Proof.
  intros Hi Hi' He.
  assert (Hnd : List.NoDup sigma).
  { apply (Permutation_NoDup (Permutation_sym Hs)), List.seq_NoDup. }
  apply (proj1 (List.NoDup_nth sigma 0) Hnd);
    rewrite ?correspondence_length; assumption.
Qed.

(** Exactly one feature of the source is matched with feature [j]. *)
Lemma correspondence_count j :
  j < p -> (sumQ p (fun i => if matched sigma i =? j then 1 else 0) == 1)%Q.
Proof.
  intros Hj. rewrite (sumQ_correspondence p sigma
                        (fun x => if x =? j then 1%Q else 0%Q) Hs).
  rewrite sumQ_delta. now rewrite (proj2 (Nat.ltb_lt j p) Hj).
Qed.

Lemma mget_permutation_matrix j i :
  j < p -> i < p ->
  mget (permutation_matrix sigma) j i =
  if matched sigma i =? j then 1%Q else 0%Q.
Proof.
  intros Hj Hi. unfold permutation_matrix.
  now rewrite mget_mk_in by (rewrite correspondence_length; assumption).
Qed.

Lemma permutation_matrix_shape :
  nrows (permutation_matrix sigma) = p /\ ncols (permutation_matrix sigma) = p.
Proof. simpl. now rewrite correspondence_length. Qed.

(** The matrix of a correspondence is a permutation matrix. *)
Lemma permutation_matrix_is_permutation :
  is_permutation_matrix (permutation_matrix sigma).
Proof.
  destruct permutation_matrix_shape as [Hr Hc].
  split; [congruence | split; [|split]].
  - intros i j. unfold permutation_matrix. rewrite mget_mk.
    destruct (_ && _); [|now left]. destruct (_ =? _); [now right | now left].
  - intros j Hj. rewrite Hr in Hj. rewrite Hc.
    rewrite <- (correspondence_count j Hj). apply sumQ_ext. intros i Hi.
    now rewrite mget_permutation_matrix.
  - intros i Hi. rewrite Hc in Hi. rewrite Hr.
    rewrite (sumQ_ext _ _ (fun j => if j =? matched sigma i then 1%Q else 0%Q)).
    + rewrite sumQ_delta.
      now rewrite (proj2 (Nat.ltb_lt _ p) (correspondence_bound i Hi)).
    + intros j Hj. rewrite mget_permutation_matrix by assumption.
      now rewrite Nat.eqb_sym.
Qed.

(** It is orthogonal: the permutation method is a special case of the
    orthogonal one. *)
Lemma permutation_matrix_orthogonal : orthogonal (permutation_matrix sigma).
Proof.
  destruct permutation_matrix_shape as [Hr Hc].
  split; [congruence | split]; apply meq_intro; try (simpl; congruence);
    intros a b Ha Hb; simpl in Ha, Hb; rewrite correspondence_length in Ha, Hb;
    rewrite mget_dot, mget_eye, Hr; simpl; rewrite correspondence_length;
    rewrite (proj2 (Nat.ltb_lt a p) Ha), andb_true_r.
  - rewrite (sumQ_ext _ _ (fun i =>
      (if a =? b then 1 else 0) * (if matched sigma i =? a then 1 else 0))%Q).
    + rewrite sumQ_scale_l, (correspondence_count a Ha). ring.
    + intros i Hi. rewrite mget_transpose, !mget_permutation_matrix by assumption.
      destruct (Nat.eqb_spec (matched sigma i) a) as [E|_]; [rewrite E|]; ring.
  - rewrite (sumQ_ext _ _ (fun j =>
      if j =? matched sigma a then (if a =? b then 1 else 0)%Q else 0%Q)).
    + rewrite sumQ_delta.
      now rewrite (proj2 (Nat.ltb_lt _ p) (correspondence_bound a Ha)).
    + intros j Hj. rewrite mget_transpose, !mget_permutation_matrix by assumption.
      destruct (Nat.eqb_spec j (matched sigma a)) as [->|Hne].
      * rewrite Nat.eqb_refl.
        destruct (Nat.eqb_spec (matched sigma b) (matched sigma a)) as [He|Hne].
        -- rewrite (correspondence_injective b a Hb Ha He), Nat.eqb_refl. ring.
        -- destruct (Nat.eqb_spec a b) as [->|_]; [congruence | ring].
      * rewrite (proj2 (Nat.eqb_neq (matched sigma a) j)) by congruence. ring.
Qed.

(** ** The cost of a correspondence is the residual of its matrix *)

Variables (X Y : matrix).
Hypothesis HX : ncols X = p.
Hypothesis HY : ncols Y = p.

(** The column of [X P] at the target feature matched with [i] is the
    column [i] of [X]. *)
Lemma dot_permutation_column s i :
  i < p ->
  (mget (dot X (transpose (permutation_matrix sigma))) s (matched sigma i) ==
   mget X s i)%Q.
Proof.
  intros Hi. rewrite mget_dot, HX.
  rewrite (sumQ_ext _ _ (fun k => if k =? i then mget X s k else 0%Q)).
  - rewrite sumQ_delta. now rewrite (proj2 (Nat.ltb_lt i p) Hi).
  - intros k Hk. rewrite mget_transpose.
    rewrite mget_permutation_matrix by auto using correspondence_bound.
    destruct (Nat.eqb_spec (matched sigma k) (matched sigma i)) as [He|Hne].
    + rewrite (correspondence_injective k i Hk Hi He), Nat.eqb_refl. ring.
    + destruct (Nat.eqb_spec k i) as [->|_]; [congruence | ring].
Qed.

Lemma residual_total_cost :
  nrows X = nrows Y ->
  (frob2 (sub (dot X (transpose (permutation_matrix sigma))) Y) ==
   total_cost (feature_costs X Y) sigma)%Q.
Proof.
  intros Hr. destruct permutation_matrix_shape as [HPr HPc].
  unfold frob2, inner, total_cost. simpl.
  rewrite correspondence_length, sumQ_swap.
  rewrite <- (sumQ_correspondence p sigma _ Hs).
  apply sumQ_ext. intros i Hi. unfold feature_costs.
  rewrite mget_mk_in by (rewrite ?HX, ?HY; auto using correspondence_bound).
  apply sumQ_ext. intros s _.
  rewrite mget_sub, dot_permutation_column
    by (simpl; rewrite ?correspondence_length; congruence).
  reflexivity.
Qed.
End Correspondence.

(** ** The reference implementation meets the laws *)

Lemma argmin_spec {A : Type} (f : A -> Q) (l : list A) : forall best,
  (argmin f best l = best \/ In (argmin f best l) l) /\
  (f (argmin f best l) <= f best)%Q /\
  forall a, In a l -> (f (argmin f best l) <= f a)%Q.
Proof.
  induction l as [|x l IH]; intros best; simpl.
  - split; [now left | split; [lra | tauto]].
  - destruct (IH (if Qlt_bool (f x) (f best) then x else best))
      as (Hin & Hle & Hall).
    destruct (Qlt_bool (f x) (f best)) eqn:E.
    + apply Qlt_bool_iff in E. split; [|split].
      * destruct Hin as [->|Hin]; auto.
      * lra.
      * intros a [<-|Ha]; [exact Hle | now apply Hall].
    + assert (f best <= f x)%Q.
      { destruct (Qlt_le_dec (f x) (f best)) as [Hlt|Hge]; [|exact Hge].
        apply Qlt_bool_iff in Hlt. congruence. }
      split; [|split].
      * destruct Hin as [->|Hin]; auto.
      * exact Hle.
      * intros a [<-|Ha]; [lra | now apply Hall].
Qed.

Lemma exhaustive_assignment_correspondence C :
  correspondence (nrows C) (exhaustive_assignment C).
Proof.
  unfold exhaustive_assignment, correspondence.
  destruct (argmin_spec (total_cost C) (permutations (seq 0 (nrows C)))
              (seq 0 (nrows C))) as ([->|Hin] & _); [reflexivity|].
  apply list_elem_of_In, permutations_Permutation in Hin. now symmetry.
Qed.

Lemma exhaustive_assignment_optimal C sigma :
  correspondence (nrows C) sigma ->
  (total_cost C (exhaustive_assignment C) <= total_cost C sigma)%Q.
Proof.
  intros Hs. unfold exhaustive_assignment.
  apply argmin_spec, list_elem_of_In, permutations_Permutation. now symmetry.
Qed.

#[export] Instance exhaustive_assignment_routine : Assignment := {
  linear_sum_assignment := exhaustive_assignment
}.

#[export] Instance exhaustive_assignment_laws : AssignmentLaws.
Proof.
  split.
  - intros C _. apply exhaustive_assignment_correspondence.
  - intros C sigma _. apply exhaustive_assignment_optimal.
Qed.

(** ** The solver meets its specification *)

Section Correctness.
Context `{AssignmentLaws}.
Variables (X Y : matrix).
Hypothesis Hshape : shape_eqb X Y = true.

Let Hrows : nrows X = nrows Y.
Proof. now apply shape_eqb_true in Hshape. Qed.

Let Hcols : ncols X = ncols Y.
Proof. now apply shape_eqb_true in Hshape. Qed.

Lemma permutation_alignment_ok :
  permutation_alignment X Y =
  Ok (permutation_matrix (linear_sum_assignment (feature_costs X Y))).
Proof. unfold permutation_alignment. now rewrite Hshape. Qed.

Lemma assignment_of_costs :
  correspondence (ncols X) (linear_sum_assignment (feature_costs X Y)).
Proof. apply (assignment_correspondence (feature_costs X Y)). exact Hcols. Qed.

(** What the solver returns is a permutation matrix, hence orthogonal. *)
Lemma permutation_alignment_permutation M :
  permutation_alignment X Y = Ok M ->
  is_permutation_matrix M /\ orthogonal M /\ nrows M = ncols X.
Proof.
  rewrite permutation_alignment_ok. intros [= <-].
  pose proof assignment_of_costs as Hs.
  split; [exact (permutation_matrix_is_permutation _ _ Hs)|].
  split; [exact (permutation_matrix_orthogonal _ _ Hs)|].
  apply (permutation_matrix_shape _ _ Hs).
Qed.

(** No correspondence brings the source closer to the target. *)
Lemma permutation_alignment_optimal M sigma :
  permutation_alignment X Y = Ok M -> correspondence (ncols X) sigma ->
  (frob2 (sub (dot X (transpose M)) Y) <=
   frob2 (sub (dot X (transpose (permutation_matrix sigma))) Y))%Q.
Proof.
  rewrite permutation_alignment_ok. intros [= <-] Hs.
  rewrite !(residual_total_cost (ncols X)) by auto using assignment_of_costs.
  apply (assignment_optimal (feature_costs X Y)); [exact Hcols | exact Hs].
Qed.
End Correctness.

(** The solver refuses data of different shapes. *)
Lemma permutation_alignment_shape_mismatch `{Assignment} X Y :
  shape_eqb X Y = false -> permutation_alignment X Y = Err ShapeMismatch.
Proof. unfold permutation_alignment. now intros ->. Qed.

(** ** An instance

    The target is the source with its three features turned by one
    place: the reference implementation finds the turn, at cost zero. *)
Example permutation_alignment_example :
  let X := array [[1; 2; 3]; [4; 5; 7]]%Q in
  let Y := array [[3; 1; 2]; [7; 4; 5]]%Q in
  exhaustive_assignment (feature_costs X Y) = [1; 2; 0] /\
  (total_cost (feature_costs X Y) [1; 2; 0]%nat == 0)%Q /\
  exists M, permutation_alignment X Y = Ok M /\
            dot M (transpose X) =~= transpose Y.
Proof.
  split; [vm_compute; reflexivity|]. split; [vm_compute; reflexivity|].
  eexists. split; [vm_compute; reflexivity|].
  apply meqb_true. vm_compute. reflexivity.
Qed.
