(* ===== verification/Transport.v ===== *)
(** * Transport: the optimal transport solver

    The optimal transport method of the specification (section 4.1): the
    correspondence between the features of the source and of the target as
    a transport problem between two uniform distributions, solved by
    Sinkhorn's iteration on the kernel of the costs, and rescaled so that
    every row of the coupling sums to one.  Its source is not part of the
    sources at hand; it is modelled from the specification.

    The kernel [exp(- C / reg)] is a service of the numerical library,
    reached through the interface [Kernel]; the theorems rely on its
    entries being positive only.  The iteration runs a given number of
    times, each time scaling the columns and then the rows; its
    convergence is not part of the model.  What is proved is what the
    specification promises of the result: it is non-negative, and its rows
    sum to one after the rescaling, for every number of iterations from one
    on; and that a pair of scalings that the iteration leaves in place
    gives a coupling with both marginals. *)

From Stdlib Require Import ZArith QArith Qabs Lqa Lia List Bool Arith Setoid Morphisms.
From S2P Require Import Prelude Matrix Procrustes Assignment.
Import ListNotations.
Open Scope Q_scope.
Open Scope mat_scope.
Open Scope align_scope.

(** ** The kernel *)

Class Kernel : Type := {
  gibbs_kernel : Q -> matrix -> matrix
}.

Class KernelLaws `{Kernel} : Prop := {
  kernel_shape reg C :
    nrows (gibbs_kernel reg C) = nrows C /\
    ncols (gibbs_kernel reg C) = ncols C;
  kernel_positive reg C i j :
    0 < reg -> (i < nrows C)%nat -> (j < ncols C)%nat ->
    0 < mget (gibbs_kernel reg C) i j
}.

(** ** Sinkhorn's iteration *)

(** The uniform distribution on [p] points. *)
Definition uniform (p : nat) : list Q :=
  repeat (1 / inject_Z (Z.of_nat p)) p.

(** [K.T.dot(u)] and [K.dot(v)] at one index. *)
Definition Kt_dot (K : matrix) (u : list Q) (j : nat) : Q :=
  sumQ (nrows K) (fun i => mget K i j * nth i u 0).

Definition K_dot (K : matrix) (v : list Q) (i : nat) : Q :=
  sumQ (ncols K) (fun j => mget K i j * nth j v 0).

(** One iteration: [v = b / K.T.dot(u)], then [u = a / K.dot(v)]. *)
Definition sinkhorn_update (K : matrix) (a b u : list Q) : list Q * list Q :=
  let v := map (fun j => nth j b 0 / Kt_dot K u j) (seq 0 (ncols K)) in
  let u' := map (fun i => nth i a 0 / K_dot K v i) (seq 0 (nrows K)) in
  (u', v).

Fixpoint sinkhorn_iterate (n : nat) (K : matrix) (a b u v : list Q)
  : list Q * list Q :=
  match n with
  | O => (u, v)
  | S n' =>
      let '(u', v') := sinkhorn_update K a b u in
      sinkhorn_iterate n' K a b u' v'
  end.

(** [diag(u) K diag(v)] *)
Definition coupling (K : matrix) (u v : list Q) : matrix :=
  mk (nrows K) (ncols K) (fun i j => nth i u 0 * mget K i j * nth j v 0).

(** The coupling after [n_iter] iterations from [u = v = 1]. *)
Definition sinkhorn (a b : list Q) (K : matrix) (n_iter : nat) : matrix :=
  let '(u, v) := sinkhorn_iterate n_iter K a b
                   (repeat 1 (nrows K)) (repeat 1 (ncols K)) in
  coupling K u v.

(** ** The solver *)

Section Solver.
Context `{Kernel}.

(** The optimal transport method: the shapes must agree; the coupling of
    the uniform distributions on the features under the kernel of the
    squared distances, multiplied by the number of features, and
    transposed for [transform]. *)
Definition optimal_transport_alignment (reg : Q) (n_iter : nat)
    (X Y : matrix) : result matrix :=
  if negb (shape_eqb X Y) then Err ShapeMismatch
  else
    let p := ncols X in
    let K := gibbs_kernel reg (feature_costs X Y) in
    let P := sinkhorn (uniform p) (uniform p) K n_iter in
    Ok (transpose (scale (inject_Z (Z.of_nat p)) P)).
End Solver.

(** A matrix whose entries are non-negative and whose rows sum to one. *)
Definition row_stochastic (R : matrix) : Prop :=
  (forall i j, 0 <= mget R i j) /\
  forall i, (i < nrows R)%nat -> sumQ (ncols R) (fun j => mget R i j) == 1.

(** ** Positive vectors *)

Definition positive (n : nat) (u : list Q) : Prop :=
  length u = n /\ forall i, (i < n)%nat -> 0 < nth i u 0.

Lemma positive_repeat c n : 0 < c -> positive n (repeat c n).
Proof.
  intros Hc. split; [apply repeat_length|]. intros i Hi.
  rewrite (nth_indep _ 0 c) by (now rewrite repeat_length).
  now rewrite nth_repeat.
Qed.

Lemma positive_map_seq n (f : nat -> Q) :
  (forall i, (i < n)%nat -> 0 < f i) -> positive n (map f (seq 0 n)).
Proof.
  intros Hf. split; [now rewrite length_map, length_seq|]. intros i Hi.
  rewrite (nth_map_seq f 0 n i Hi). now apply Hf.
Qed.

Lemma uniform_positive p : (0 < p)%nat -> positive p (uniform p).
Proof.
  intros Hp. apply positive_repeat. apply Qlt_shift_div_l; [|lra].
  change 0 with (inject_Z 0). rewrite <- Zlt_Qlt. lia.
Qed.

(** A sum of positive terms, with at least one term, is positive. *)
Lemma sumQ_positive n f :
  (0 < n)%nat -> (forall k, (k < n)%nat -> 0 < f k) -> 0 < sumQ n f.
Proof.
  intros Hn Hf. destruct n as [|n]; [lia|]. simpl.
  assert (0 <= sumQ n f)
    by (apply sumQ_nonneg; intros k Hk; apply Qlt_le_weak, Hf; lia).
  assert (0 < f n) by (apply Hf; lia). lra.
Qed.

(** ** What one iteration maintains *)

Section Update.
Variables (K : matrix) (a b u : list Q).
Hypothesis Hm : (0 < nrows K)%nat.
Hypothesis Hn : (0 < ncols K)%nat.
Hypothesis HK : forall i j, (i < nrows K)%nat -> (j < ncols K)%nat ->
                            0 < mget K i j.
Hypothesis Ha : positive (nrows K) a.
Hypothesis Hb : positive (ncols K) b.
Hypothesis Hu : positive (nrows K) u.

Lemma Kt_dot_positive j : (j < ncols K)%nat -> 0 < Kt_dot K u j.
Proof.
  intros Hj. apply sumQ_positive; [exact Hm|]. intros i Hi.
  apply Qmult_lt_0_compat; [now apply HK | now apply Hu].
Qed.

Lemma update_v_positive :
  positive (ncols K) (snd (sinkhorn_update K a b u)).
Proof using Hm Hn HK Ha Hb Hu.
  simpl. apply positive_map_seq. intros j Hj.
  apply Qlt_shift_div_l; [now apply Kt_dot_positive|].
  rewrite Qmult_0_l. now apply Hb.
Qed.

Lemma K_dot_positive v i :
  positive (ncols K) v -> (i < nrows K)%nat -> 0 < K_dot K v i.
Proof.
  intros Hv Hi. apply sumQ_positive; [exact Hn|]. intros j Hj.
  apply Qmult_lt_0_compat; [now apply HK | now apply Hv].
Qed.

Lemma update_u_positive :
  positive (nrows K) (fst (sinkhorn_update K a b u)).
Proof using Hm Hn HK Ha Hb Hu.
  simpl. apply positive_map_seq. intros i Hi.
  apply Qlt_shift_div_l; [apply K_dot_positive; [apply update_v_positive | exact Hi]|].
  rewrite Qmult_0_l. now apply Ha.
Qed.

(** After the scaling of the rows, the rows of the coupling have the sums
    [a]. *)
Lemma update_row_marginal i :
  (i < nrows K)%nat ->
  let '(u', v') := sinkhorn_update K a b u in
  sumQ (ncols K) (fun j => mget (coupling K u' v') i j) == nth i a 0.
Proof using Hm Hn HK Ha Hb Hu.
  intros Hi. pose proof update_v_positive as Hv.
  pose proof (K_dot_positive _ i Hv Hi) as Hpos.
  unfold sinkhorn_update in *. cbn [fst snd] in *.
  set (v' := map _ (seq 0 (ncols K))) in *.
  rewrite (sumQ_ext _ _ (fun j =>
    (nth i a 0 / K_dot K v' i) * (mget K i j * nth j v' 0))).
  - rewrite sumQ_scale_l. fold (K_dot K v' i). field. lra.
  - intros j Hj. unfold coupling. rewrite mget_mk_in by assumption.
    rewrite (nth_map_seq _ 0 (nrows K) i Hi). ring.
Qed.

(** After the scaling of the columns, and before that of the rows, the
    columns of the coupling have the sums [b]. *)
Lemma update_column_marginal j :
  (j < ncols K)%nat ->
  sumQ (nrows K)
    (fun i => mget (coupling K u (snd (sinkhorn_update K a b u))) i j) ==
  nth j b 0.
Proof using Hm HK Hu.
  intros Hj. pose proof (Kt_dot_positive j Hj) as Hpos. cbn [sinkhorn_update snd].
  rewrite (sumQ_ext _ _ (fun i =>
    (nth j b 0 / Kt_dot K u j) * (mget K i j * nth i u 0))).
  - rewrite sumQ_scale_l. fold (Kt_dot K u j). field. lra.
  - intros i Hi. unfold coupling. rewrite mget_mk_in by assumption.
    rewrite (nth_map_seq _ 0 (ncols K) j Hj). ring.
Qed.

(** Where the iteration stops moving, the coupling is the one that is
    looked for: its rows have the sums [a] and its columns the sums [b]. *)
Theorem fixed_point_marginals :
  (forall i, (i < nrows K)%nat ->
     nth i (fst (sinkhorn_update K a b u)) 0 == nth i u 0) ->
  let P := coupling K u (snd (sinkhorn_update K a b u)) in
  (forall i, (i < nrows K)%nat ->
     sumQ (ncols K) (fun j => mget P i j) == nth i a 0) /\
  (forall j, (j < ncols K)%nat ->
     sumQ (nrows K) (fun i => mget P i j) == nth j b 0).
Proof using Hm Hn HK Ha Hb Hu.
  intros Hfix P. split; [|exact update_column_marginal]. intros i Hi.
  pose proof (update_row_marginal i Hi) as Hrow.
  destruct (sinkhorn_update K a b u) as [u' v] eqn:E. cbn [fst snd] in *.
  rewrite <- Hrow. apply sumQ_ext. intros j Hj. unfold P, coupling.
  rewrite !mget_mk_in by assumption. now rewrite (Hfix i Hi).
Qed.

(** The masses of the two distributions agree where a fixed point exists. *)
Corollary fixed_point_masses :
  (forall i, (i < nrows K)%nat ->
     nth i (fst (sinkhorn_update K a b u)) 0 == nth i u 0) ->
  sumQ (nrows K) (fun i => nth i a 0) == sumQ (ncols K) (fun j => nth j b 0).
Proof using Hm Hn HK Ha Hb Hu.
  intros Hfix. destruct (fixed_point_marginals Hfix) as [Hrow Hcol].
  rewrite <- (sumQ_ext _ _ _ Hrow), <- (sumQ_ext _ _ _ Hcol).
  apply sumQ_swap.
Qed.
End Update.

(** ** The iteration *)

Section Iteration.
Variables (K : matrix) (a b : list Q).
Hypothesis Hm : (0 < nrows K)%nat.
Hypothesis Hn : (0 < ncols K)%nat.
Hypothesis HK : forall i j, (i < nrows K)%nat -> (j < ncols K)%nat ->
                            0 < mget K i j.
Hypothesis Ha : positive (nrows K) a.
Hypothesis Hb : positive (ncols K) b.

(** Scalings that are positive and whose coupling has the row sums [a]:
    the state of the iteration after an iteration. *)
Definition balanced (uv : list Q * list Q) : Prop :=
  positive (nrows K) (fst uv) /\ positive (ncols K) (snd uv) /\
  forall i, (i < nrows K)%nat ->
    sumQ (ncols K) (fun j => mget (coupling K (fst uv) (snd uv)) i j) ==
    nth i a 0.

Lemma update_balanced u :
  positive (nrows K) u -> balanced (sinkhorn_update K a b u).
Proof.
  intros Hu. split; [now apply update_u_positive|].
  split; [now apply (update_v_positive K a b u)|]. intros i Hi.
  pose proof (update_row_marginal K a b u Hm Hn HK Ha Hb Hu i Hi) as H.
  now destruct (sinkhorn_update K a b u).
Qed.

Lemma iterate_balanced n : forall u v,
  balanced (u, v) -> balanced (sinkhorn_iterate n K a b u v).
Proof.
  induction n as [|n IH]; intros u v Huv; [exact Huv|].
  cbn [sinkhorn_iterate].
  pose proof (update_balanced u (proj1 Huv)) as Hup.
  destruct (sinkhorn_update K a b u) as [u' v']. now apply IH.
Qed.

(** From one iteration on, the coupling is positive and has the row sums
    [a]. *)
Lemma sinkhorn_balanced n :
  (0 < n)%nat ->
  (forall i j, (i < nrows K)%nat -> (j < ncols K)%nat ->
     0 < mget (sinkhorn a b K n) i j) /\
  forall i, (i < nrows K)%nat ->
    sumQ (ncols K) (fun j => mget (sinkhorn a b K n) i j) == nth i a 0.
Proof.
  intros Hpos. destruct n as [|n]; [lia|]. unfold sinkhorn.
  cbn [sinkhorn_iterate].
  pose proof (update_balanced (repeat 1 (nrows K))
                (positive_repeat 1 (nrows K) ltac:(lra))) as Hup.
  destruct (sinkhorn_update K a b (repeat 1 (nrows K))) as [u' v'].
  pose proof (iterate_balanced n u' v' Hup) as (Hu & Hv & Hrow).
  destruct (sinkhorn_iterate n K a b u' v') as [u v]. simpl in *.
  split; [|exact Hrow]. intros i j Hi Hj. unfold coupling.
  rewrite mget_mk_in by assumption.
  repeat apply Qmult_lt_0_compat; [now apply Hu | now apply HK | now apply Hv].
Qed.
End Iteration.

(** ** The solver meets its specification *)

Lemma feature_costs_nonneg X Y i j : 0 <= mget (feature_costs X Y) i j.
Proof.
  unfold feature_costs. rewrite mget_mk. destruct (_ && _); [|lra].
  apply sumQ_nonneg. intros s _. apply Qsquare_nonneg.
Qed.

Section Correctness.
Context `{KernelLaws}.
Variables (reg : Q) (n_iter : nat) (X Y : matrix).
Hypothesis Hreg : 0 < reg.
Hypothesis Hiter : (0 < n_iter)%nat.
Hypothesis Hshape : shape_eqb X Y = true.
Hypothesis Hp : (0 < ncols X)%nat.

(** The coupling that the solver stores, before it is transposed: it is
    row-stochastic, whatever the number of iterations. *)
Lemma optimal_transport_row_stochastic M :
  optimal_transport_alignment reg n_iter X Y = Ok M ->
  row_stochastic (transpose M) /\ nrows M = ncols X /\ ncols M = ncols X.
Proof.
  unfold optimal_transport_alignment. rewrite Hshape. simpl. intros [= <-].
  apply shape_eqb_true in Hshape as [_ Hc].
  set (p := ncols X) in *. set (C := feature_costs X Y).
  set (K := gibbs_kernel reg C).
  destruct (kernel_shape reg C) as [HKr HKc]. fold K in HKr, HKc.
  assert (HCr : nrows C = p) by reflexivity.
  assert (HCc : ncols C = p) by (simpl; congruence).
  assert (Hu : positive p (uniform p)) by now apply uniform_positive.
  destruct (sinkhorn_balanced K (uniform p) (uniform p)) with (n := n_iter)
    as [Hpos Hrow]; try (rewrite ?HKr, ?HKc, ?HCr, ?HCc; assumption).
  { intros i j Hi Hj. apply kernel_positive; auto; congruence. }
  set (P := sinkhorn (uniform p) (uniform p) K n_iter) in *.
  assert (HPr : nrows P = p).
  { unfold P, sinkhorn. destruct (sinkhorn_iterate _ _ _ _ _ _). simpl. congruence. }
  assert (HPc : ncols P = p).
  { unfold P, sinkhorn. destruct (sinkhorn_iterate _ _ _ _ _ _). simpl. congruence. }
  assert (HQp : 0 < inject_Z (Z.of_nat p)).
  { change 0 with (inject_Z 0). rewrite <- Zlt_Qlt. lia. }
  split; [|simpl; split; congruence]. split.
  - intros i j. rewrite transpose_involutive, mget_scale.
    destruct (Nat.lt_ge_cases i p) as [Hi|Hi];
      [|rewrite mget_out_row by lia; lra].
    destruct (Nat.lt_ge_cases j p) as [Hj|Hj];
      [|rewrite mget_out_col by lia; lra].
    apply Qlt_le_weak, Qmult_lt_0_compat; [exact HQp|].
    apply Hpos; congruence.
  - intros i Hi. simpl in Hi. rewrite HPr in Hi. simpl. rewrite HPc.
    rewrite (sumQ_ext _ _ (fun j => inject_Z (Z.of_nat p) * mget P i j)).
    + assert (HKp : ncols K = p) by congruence.
      pose proof (Hrow i ltac:(congruence)) as Hri. rewrite HKp in Hri.
      rewrite sumQ_scale_l, Hri.
      unfold uniform. rewrite (nth_indep _ 0 (1 / inject_Z (Z.of_nat p)))
        by (now rewrite repeat_length).
      rewrite nth_repeat. field. lra.
    + intros j _. now rewrite transpose_involutive, mget_scale.
Qed.
End Correctness.

(** The columns of a row-stochastic matrix sum to one on average: the sums
    of the columns add up to the number of rows.  With the square coupling
    of the solver this is what is left of double stochasticity when the
    iteration is stopped after the scaling of the rows. *)
Lemma row_stochastic_column_sums R :
  row_stochastic R ->
  sumQ (ncols R) (fun j => sumQ (nrows R) (fun i => mget R i j)) ==
  inject_Z (Z.of_nat (nrows R)).
Proof.
  intros [_ Hrow]. rewrite sumQ_swap.
  rewrite (sumQ_ext _ _ (fun _ => 1) Hrow), sumQ_const. ring.
Qed.

(** The solver refuses data of different shapes. *)
Lemma optimal_transport_shape_mismatch `{Kernel} reg n_iter X Y :
  shape_eqb X Y = false ->
  optimal_transport_alignment reg n_iter X Y = Err ShapeMismatch.
Proof. unfold optimal_transport_alignment. now intros ->. Qed.

(** ** An instance

    A kernel with rational values that stands for the exponential, for
    computing examples: [1 / (1 + c / reg)], positive on non-negative
    costs. *)
Definition rational_kernel (reg : Q) (C : matrix) : matrix :=
  mk (nrows C) (ncols C) (fun i j => 1 / (1 + Qabs (mget C i j / reg))).

#[export] Instance rational_kernel_service : Kernel := {
  gibbs_kernel := rational_kernel
}.

#[export] Instance rational_kernel_laws : KernelLaws.
Proof.
  split.
  - intros reg C. split; reflexivity.
  - intros reg C i j _ Hi Hj. simpl. unfold rational_kernel.
    rewrite mget_mk_in by assumption.
    pose proof (Qabs_nonneg (mget C i j / reg)).
    apply Qlt_shift_div_l; lra.
Qed.

Example optimal_transport_example :
  let X := array [[1; 0]; [0; 1]] in
  let Y := array [[0; 1]; [1; 0]] in
  let P := sinkhorn (uniform 2) (uniform 2)
             (rational_kernel 1 (feature_costs X Y)) 3 in
  scale 2 P =~= array [[1 # 4; 3 # 4]; [3 # 4; 1 # 4]].
Proof. apply meqb_true. vm_compute. reflexivity. Qed.
