(* ===== verification/Solvers.v ===== *)
(** * Solvers: the solvers behind the method objects

    The record of solvers that the method objects of [Methods] call, filled
    with the solvers of the library: [scaled_procrustes] for the scaled
    orthogonal method, and for the other methods the dispatch
    [linear_alignment] on the variant to [permutation_alignment],
    [optimal_transport_alignment] and [ridge_alignment].

    The theorems state the uniform contract of the method objects
    (specification, sections 4.2 and 8) for every variant: [fit] refuses
    data of different shapes, it succeeds on data of equal shapes, and what
    it stores can be applied to new data with the features of the fitted
    data. *)

From Stdlib Require Import ZArith QArith Qabs Lqa Lia List Bool Arith Setoid Morphisms.
From S2P Require Import Prelude Matrix Linsolve Orthogonal Procrustes Methods.
From S2P Require Import Ridge Assignment Transport.
Import ListNotations.
Open Scope Q_scope.
Open Scope mat_scope.
Open Scope align_scope.

Section Library.
Context `{LinearSolver} `{Assignment} `{Kernel}.
(** The decomposition service of the Procrustes solver, and the number of
    iterations of Sinkhorn's iteration. *)
Variable svd : svd_fun.
Variable n_iter : nat.

(** The solver of each method that stores a matrix.  The identity and the
    scaled orthogonal method store none through this path: [fit] never
    asks for them. *)
Definition linear_alignment (v : variant) (X Y : matrix) : result matrix :=
  match v with
  | Permutation => permutation_alignment X Y
  | OptimalTransport reg => optimal_transport_alignment reg n_iter X Y
  | Ridge alpha => ridge_alignment alpha X Y
  | Identity | ScaledOrthogonal _ => Err InvalidConfiguration
  end.

Definition library_solvers : solvers :=
  Solvers (scaled_procrustes svd) linear_alignment.

(** The penalty of the ridge method and the regularisation of the
    transport method must be positive. *)
Definition valid_variant (v : variant) : Prop :=
  match v with
  | OptimalTransport reg => 0 < reg
  | Ridge alpha => 0 < alpha
  | _ => True
  end.
End Library.

(** ** The uniform contract of [fit] *)

Section Contract.
Context `{LinearSolverLaws} `{AssignmentLaws} `{KernelLaws}.
Variable svd : svd_fun.
Variable n_iter : nat.

Let solve : solvers := library_solvers svd n_iter.

(** [fit] with data of different shapes raises [ShapeMismatch], for every
    variant. *)
Lemma fit_shape_mismatch_every_variant v X Y :
  shape_eqb X Y = false -> fit solve (new_method v) X Y = Err ShapeMismatch.
Proof.
  intros Hs. apply fit_shape_mismatch; [exact Hs|].
  intros scaling. simpl. unfold scaled_procrustes. now rewrite Hs.
Qed.

(** The matrix that [fit] stores for the variants that store one: it is
    square, of the size of the features. *)
Lemma linear_alignment_shape v X Y M :
  valid_variant v -> (0 < n_iter)%nat -> (0 < ncols X)%nat ->
  linear_alignment n_iter v X Y = Ok M ->
  nrows M = ncols X /\ ncols M = ncols X.
Proof.
  intros Hv Hn Hp HM.
  destruct v as [| |scaling|reg|alpha]; simpl in HM, Hv; try discriminate.
  - assert (Hs : shape_eqb X Y = true).
    { unfold permutation_alignment in HM. now destruct (shape_eqb X Y). }
    destruct (permutation_alignment_permutation X Y Hs M HM) as (_ & HO & Hr).
    split; [exact Hr|]. rewrite <- Hr. symmetry. apply HO.
  - assert (Hs : shape_eqb X Y = true).
    { unfold optimal_transport_alignment in HM. now destruct (shape_eqb X Y). }
    now apply (optimal_transport_row_stochastic reg n_iter X Y Hv Hn Hs Hp M).
  - apply ridge_alignment_normal in HM as (Hs & [Hr Hc] & _).
    apply shape_eqb_true in Hs as [_ Hcols]. simpl in Hr, Hc.
    split; congruence.
Qed.

(** [fit] succeeds on data of equal shapes for every variant whose
    configuration is valid, and leaves the object FITTED. *)
Lemma fit_total v X Y :
  valid_variant v -> shape_eqb X Y = true ->
  exists e, fit solve (new_method v) X Y = Ok e /\ state_of e = FITTED.
Proof.
  intros Hv Hs. unfold fit. simpl.
  destruct v as [| |scaling|reg|alpha]; simpl in *; rewrite ?Hs.
  - eexists. split; reflexivity.
  - rewrite (permutation_alignment_ok X Y Hs). eexists. split; reflexivity.
  - unfold scaled_procrustes. rewrite Hs. simpl.
    destruct (degenerateb X Y); [eexists; split; reflexivity|].
    destruct (formulation svd _ X Y). eexists. split; reflexivity.
  - unfold optimal_transport_alignment. rewrite Hs. eexists. split; reflexivity.
  - destruct (ridge_alignment_total alpha X Y Hv Hs) as (M & ->).
    eexists. split; reflexivity.
Qed.

(** What [fit] has stored for the permutation, transport and ridge methods
    applies to every array with one row per feature of the fitted data, and
    the result has the shape of that array. *)
Lemma fit_transform_linear v X Y e Z :
  match v with Permutation | OptimalTransport _ | Ridge _ => True
             | _ => False end ->
  valid_variant v -> (0 < n_iter)%nat -> (0 < ncols X)%nat ->
  fit solve (new_method v) X Y = Ok e -> nrows Z = ncols X ->
  exists T, transform e Z = Ok T /\ nrows T = nrows Z /\ ncols T = ncols Z.
Proof.
  intros Hl Hv Hn Hp He HZ. unfold fit in He. simpl in He.
  assert (HM : exists M, linear_alignment n_iter v X Y = Ok M /\
                         e = Method v (Some (T_linear M))).
  { destruct v; try contradiction; destruct (shape_eqb X Y); try discriminate;
      apply bind_ok_inv in He as (M & HM & [= <-]); eauto. }
  destruct HM as (M & HM & ->).
  destruct (linear_alignment_shape v X Y M Hv Hn Hp HM) as [Hr Hc].
  unfold transform. simpl. rewrite Hc, HZ, Nat.eqb_refl.
  eexists. split; [reflexivity|]. simpl. split; congruence.
Qed.
End Contract.

(** ** The solvers of the library on an instance

    The three methods that store a matrix, fitted on the same data with
    the reference implementations of the services: each returns, and the
    objects are fitted. *)
Example library_methods_example :
  let X := array [[1; 2; 3]; [4; 5; 7]] in
  let Y := array [[3; 1; 2]; [7; 4; 5]] in
  let solve := library_solvers (fun A => (A, [], A)) 2 in
  Forall (fun v => is_ok (fit solve (new_method v) X Y) = true)
         [Identity; Permutation; OptimalTransport 1; Ridge 1].
Proof. repeat constructor. Qed.
