(* ===== verification/Piecewise.v ===== *)
(** * Piecewise: the region partitioner and the piecewise orchestrator

    The partition of the features into regions and the orchestration that
    fits one alignment method object per region and recomposes full-width
    predictions (specification, sections 4.3 and 4.4).  Their source is not
    part of the sources at hand: they are modelled from the specification.
    The clustering algorithm and the mask are collaborators, reached through
    the interface [Partitioner]; what the orchestrator relies on is stated
    by [PartitionerLaws].

    The orchestrator is given twice: as the functions [piecewise_fit] and
    [piecewise_transform], and as a machine whose steps fit one region at a
    time in any order, with the state FITTING made explicit.  The machine is
    shown to reach the result of the function whatever the order, and the
    steps of a fit in progress, [fit_step], to admit no infinite run. *)

From stdpp Require Import base list relations.
From Stdlib Require Import ZArith QArith Lia Bool Arith.
#[local] Set Warnings "-notation-incompatible-prefix".
From S2P Require Import Prelude Matrix Orthogonal Procrustes Methods.
Close Scope Q_scope.
Open Scope nat_scope.
Open Scope mat_scope.
Open Scope align_scope.

(** ** Region labelings *)

(** One region id per feature. *)
Definition labeling : Type := list nat.

(** Every feature carries the id of one of the [n_pieces] regions. *)
Definition labeling_wf (n_pieces n_features : nat) (l : labeling) : Prop :=
  length l = n_features /\ Forall (fun k => k < n_pieces) l.

Definition labeling_wfb (n_pieces n_features : nat) (l : labeling) : bool :=
  (length l =? n_features) && forallb (fun k => k <? n_pieces) l.

(** The mask and the clustering, as the partitioner sees them: the mask
    defines the number of features, and the clustering labels them. *)
Class Partitioner (Mask : Type) : Type := {
  n_features_of : Mask -> nat;
  cluster : Mask -> nat -> labeling
}.

(** What the clustering promises when it is asked for at least two regions
    and no more regions than features. *)
Class PartitionerLaws (Mask : Type) `{Partitioner Mask} : Prop := {
  cluster_wf (m : Mask) (n : nat) :
    1 < n -> n <= n_features_of m ->
    labeling_wf n (n_features_of m) (cluster m n)
}.

(** The partitioner: no region count below one, no more regions than
    features; a single region holds every feature without clustering. *)
Definition create_labels {Mask : Type} `{Partitioner Mask}
    (mask : Mask) (n_pieces : nat) : result labeling :=
  if n_pieces =? 0 then Err InvalidConfiguration
  else if n_features_of mask <? n_pieces then Err InvalidConfiguration
  else if n_pieces =? 1 then Ok (replicate (n_features_of mask) 0)
  else Ok (cluster mask n_pieces).

(** ** Columns of a region *)

(** The feature positions labelled [k], in increasing order:
    [labels == k]. *)
Definition region_columns (l : labeling) (k : nat) : list nat :=
  List.filter (fun j => nth j l 0 =? k) (seq 0 (length l)).

(** The position of [j] in [cols]. *)
Fixpoint index_of (j : nat) (cols : list nat) : option nat :=
  match cols with
  | [] => None
  | c :: cols' => if c =? j then Some 0 else S <$> index_of j cols'
  end.

(** [X[:, cols]] *)
Definition select_columns (X : matrix) (cols : list nat) : matrix :=
  mk (nrows X) (length cols) (fun i c => mget X i (nth c cols 0)).

(** [Z[:, cols] = T]: the value must have the shape of the selection. *)
Definition assign_columns (Z : matrix) (cols : list nat) (T : matrix)
  : result matrix :=
  if (nrows T =? nrows Z) && (ncols T =? length cols)
  then Ok (mk (nrows Z) (ncols Z) (fun i j =>
             match index_of j cols with
             | Some c => mget T i c
             | None => mget Z i j
             end))
  else Err ShapeMismatch.

(** ** Facts on labelings and columns *)

Lemma labeling_wfb_spec n p l : labeling_wfb n p l = true <-> labeling_wf n p l.
Proof.
  unfold labeling_wfb, labeling_wf.
  rewrite andb_true_iff, Nat.eqb_eq, forallb_forall, List.Forall_forall.
  split; intros [H1 H2]; (split; [exact H1|]); intros k Hk;
    apply Nat.ltb_lt, H2, Hk.
Qed.

Lemma in_region_columns l k j :
  In j (region_columns l k) <-> j < length l /\ nth j l 0 = k.
Proof.
  unfold region_columns. rewrite filter_In, in_seq, Nat.eqb_eq. lia.
Qed.

Lemma NoDup_region_columns l k : List.NoDup (region_columns l k).
Proof. apply List.NoDup_filter, seq_NoDup. Qed.

(** Regions do not overlap. *)
Lemma region_columns_disjoint l k1 k2 j :
  In j (region_columns l k1) -> In j (region_columns l k2) -> k1 = k2.
Proof. rewrite !in_region_columns. intros [_ H1] [_ H2]. congruence. Qed.

(** Every feature of a well-formed labeling lies in one of the regions. *)
Lemma region_columns_cover n p l j :
  labeling_wf n p l -> j < p ->
  exists k, k < n /\ In j (region_columns l k).
Proof.
  intros [Hlen Hall] Hj. exists (nth j l 0). split.
  - rewrite List.Forall_forall in Hall. apply Hall, nth_In. lia.
  - apply in_region_columns. split; [lia | reflexivity].
Qed.

Lemma filter_seq_all (f : nat -> bool) n :
  (forall j, j < n -> f j = true) -> List.filter f (seq 0 n) = seq 0 n.
Proof.
  intros H. apply List.forallb_filter_id, forallb_forall.
  intros j Hj. apply in_seq in Hj. apply H. lia.
Qed.

(** With a single region, the region holds every column. *)
Lemma region_columns_single p :
  region_columns (replicate p 0) 0 = seq 0 p.
Proof.
  unfold region_columns. rewrite length_replicate. apply filter_seq_all.
  intros j Hj. apply Nat.eqb_eq.
  destruct (nth_in_or_default j (replicate p 0) 0) as [Hin | ->]; [|reflexivity].
  apply list_elem_of_In, elem_of_replicate in Hin. apply Hin.
Qed.

Lemma index_of_Some j cols c :
  index_of j cols = Some c -> c < length cols /\ nth c cols 0 = j.
Proof.
  revert c. induction cols as [|x cols IH]; intros c; simpl; [discriminate|].
  destruct (x =? j) eqn:E.
  - intros [= <-]. apply Nat.eqb_eq in E. split; [lia | exact E].
  - destruct (index_of j cols) as [c'|]; simpl; [|discriminate].
    intros [= <-]. destruct (IH c' eq_refl). split; [lia | assumption].
Qed.

Lemma index_of_None j cols : index_of j cols = None <-> ~ In j cols.
Proof.
  induction cols as [|x cols IH]; simpl; [tauto|].
  destruct (Nat.eqb_spec x j) as [E|E]; [split; [discriminate | tauto]|].
  destruct (index_of j cols) as [c|]; simpl.
  - split; [discriminate|]. intros H. exfalso. apply H. right.
    destruct (in_dec Nat.eq_dec j cols) as [Hin|Hnin]; [assumption|].
    apply IH in Hnin. discriminate.
  - split; [|reflexivity]. destruct IH as [IH _].
    intros _ [H|H]; [congruence | exact (IH eq_refl H)].
Qed.

Lemma index_of_seq j a p : a <= j < a + p -> index_of j (seq a p) = Some (j - a).
Proof.
  revert a. induction p as [|p IH]; intros a Hj; simpl; [lia|].
  destruct (a =? j) eqn:E.
  - apply Nat.eqb_eq in E. subst. now rewrite Nat.sub_diag.
  - apply Nat.eqb_neq in E. rewrite IH by lia. simpl. f_equal. lia.
Qed.

Lemma index_of_nth cols c :
  List.NoDup cols -> c < length cols -> index_of (nth c cols 0) cols = Some c.
Proof.
  intros Hnd. revert c. induction Hnd as [|x cols Hx Hnd IH]; intros c Hc;
    simpl in *; [lia|].
  destruct c as [|c]; [now rewrite Nat.eqb_refl|].
  destruct (Nat.eqb_spec x (nth c cols 0)) as [E|E].
  - exfalso. apply Hx. rewrite E. apply nth_In. lia.
  - rewrite IH by lia. reflexivity.
Qed.

(** Selecting every column, and assigning every column, change nothing. *)
Lemma select_columns_all X : wf X -> select_columns X (seq 0 (ncols X)) = X.
Proof.
  intros H. unfold select_columns. rewrite length_seq.
  transitivity (mk (nrows X) (ncols X) (mget X)); [|now apply mk_mget_wf].
  apply mk_ext_eq. intros i j Hi Hj. now rewrite seq_nth.
Qed.

Lemma assign_columns_all Z T :
  wf T -> nrows T = nrows Z -> ncols T = ncols Z ->
  assign_columns Z (seq 0 (ncols Z)) T = Ok T.
Proof.
  intros HT Hr Hc. unfold assign_columns.
  rewrite length_seq, Hr, Hc, !Nat.eqb_refl. simpl. f_equal.
  transitivity (mk (nrows T) (ncols T) (mget T)); [|now apply mk_mget_wf].
  rewrite Hr, Hc. apply mk_ext_eq. intros i j Hi Hj.
  rewrite index_of_seq by lia. now rewrite Nat.sub_0_r.
Qed.

Lemma assign_columns_shape Z cols T Z' :
  assign_columns Z cols T = Ok Z' ->
  nrows Z' = nrows Z /\ ncols Z' = ncols Z /\ wf Z'.
Proof.
  unfold assign_columns. destruct (_ && _); [|discriminate].
  intros [= <-]. repeat split; apply wf_mk.
Qed.

(** Assignment leaves the other columns as they were. *)
Lemma assign_columns_frame Z cols T Z' i j :
  assign_columns Z cols T = Ok Z' -> ~ In j cols -> mget Z' i j = mget Z i j.
Proof.
  unfold assign_columns. destruct (_ && _); [|discriminate].
  intros [= <-] Hj. rewrite mget_mk. apply index_of_None in Hj. rewrite Hj.
  destruct (_ && _) eqn:E; [reflexivity|]. unfold mget. now rewrite E.
Qed.

(** Assignment writes column [c] of the value at the [c]-th position. *)
Lemma assign_columns_written Z cols T Z' i c :
  assign_columns Z cols T = Ok Z' -> List.NoDup cols ->
  c < length cols -> nth c cols 0 < ncols Z ->
  mget Z' i (nth c cols 0) = mget T i c.
Proof.
  unfold assign_columns. destruct (_ && _) eqn:Es; [|discriminate].
  intros [= <-] Hnd Hc Hj. rewrite mget_mk, index_of_nth by assumption.
  nat_bool. destruct (i <? nrows Z) eqn:Ei; simpl; [now ltb_true|].
  unfold mget. nat_bool. replace (i <? nrows T) with false; [reflexivity|].
  symmetry. apply Nat.ltb_ge. lia.
Qed.

(** ** The orchestrator *)

(** The configuration, the stored labeling, and one slot per region id for
    the fitted method object; the slot of a region without features stays
    empty. *)
Record orchestrator (Mask : Type) : Type := Orchestrator {
  alignment_method : variant;
  n_pieces : nat;
  mask : Mask;
  labels_ : option labeling;
  fit_ : option (list (option method_object))
}.

Arguments Orchestrator {Mask} _ _ _ _ _.
Arguments alignment_method {Mask} _.
Arguments n_pieces {Mask} _.
Arguments mask {Mask} _.
Arguments labels_ {Mask} _.
Arguments fit_ {Mask} _.

(** A fresh orchestrator. *)
Definition new_orchestrator {Mask : Type} (v : variant) (n : nat) (m : Mask)
  : orchestrator Mask :=
  Orchestrator v n m None None.

Definition orchestrator_state {Mask : Type} (self : orchestrator Mask)
  : lifecycle :=
  match fit_ self with
  | None => UNFITTED
  | Some _ => FITTED
  end.

Section Orchestrator.
Context {Mask : Type} `{Partitioner Mask}.
Variable solve : solvers.

(** The stored labeling if there is one, a new one otherwise. *)
Definition get_labels (self : orchestrator Mask) : result labeling :=
  match labels_ self with
  | Some l => Ok l
  | None => create_labels (mask self) (n_pieces self)
  end.

(** The fit of region [k]: a fresh method object fitted on the columns of
    the region; nothing for a region without features. *)
Definition fit_one_piece (v : variant) (l : labeling) (X Y : matrix) (k : nat)
  : result (option method_object) :=
  match region_columns l k with
  | [] => Ok None
  | cols =>
      e <- fit solve (new_method v) (select_columns X cols)
                                    (select_columns Y cols) ;;
      Ok (Some e)
  end.

Definition piecewise_fit (self : orchestrator Mask) (X Y : matrix)
  : result (orchestrator Mask) :=
  if negb (shape_eqb X Y) then Err ShapeMismatch
  else
    l <- get_labels self ;;
    if negb (ncols X =? length l) then Err ShapeMismatch
    else
      es <- mapM (fit_one_piece (alignment_method self) l X Y)
                 (seq 0 (n_pieces self)) ;;
      Ok (Orchestrator (alignment_method self) (n_pieces self) (mask self)
                       (Some l) (Some es)).

(** The contribution of region [k]: its method object maps the columns of
    the region, given with one row per feature, and the result is written
    back to the positions of the region. *)
Definition transform_one_piece (l : labeling) (X_new : matrix) (acc : matrix)
    (ke : nat * option method_object) : result matrix :=
  match snd ke with
  | None => Ok acc
  | Some e =>
      let cols := region_columns l (fst ke) in
      T <- transform e (transpose (select_columns X_new cols)) ;;
      assign_columns acc cols (transpose T)
  end.

Definition piecewise_transform (self : orchestrator Mask) (X_new : matrix)
  : result matrix :=
  match fit_ self, labels_ self with
  | Some es, Some l =>
      if negb (ncols X_new =? length l) then Err ShapeMismatch
      else foldM (transform_one_piece l X_new)
                 (combine (seq 0 (length es)) es) (zeros_like X_new)
  | _, _ => Err NotFittedError
  end.
End Orchestrator.

(** ** The partitioner's contract *)

Section PartitionerFacts.
Context {Mask : Type} `{Partitioner Mask}.

Lemma create_labels_single m :
  0 < n_features_of m ->
  create_labels m 1 = Ok (replicate (n_features_of m) 0).
Proof.
  intros Hp. unfold create_labels. simpl.
  destruct (Nat.ltb_spec (n_features_of m) 1); [lia | reflexivity].
Qed.

Lemma create_labels_too_many m n :
  n_features_of m < n -> create_labels m n = Err InvalidConfiguration.
Proof.
  intros Hn. unfold create_labels. destruct (n =? 0); [reflexivity|].
  destruct (Nat.ltb_spec (n_features_of m) n); [reflexivity | lia].
Qed.

(** A labeling is returned exactly for one to [n_features] regions. *)
Lemma create_labels_ok m n :
  is_ok (create_labels m n) = true <-> 1 <= n <= n_features_of m.
Proof.
  unfold create_labels. destruct (Nat.eqb_spec n 0); [simpl; split; [discriminate | lia]|].
  destruct (Nat.ltb_spec (n_features_of m) n); [simpl; split; [discriminate | lia]|].
  destruct (n =? 1); simpl; split; auto; lia.
Qed.

(** The labeling returned covers the features of the mask with ids below
    the region count. *)
Lemma create_labels_wf `{!PartitionerLaws Mask} m n l :
  create_labels m n = Ok l -> labeling_wf n (n_features_of m) l.
Proof.
  unfold create_labels. destruct (Nat.eqb_spec n 0); [discriminate|].
  destruct (Nat.ltb_spec (n_features_of m) n); [discriminate|].
  destruct (Nat.eqb_spec n 1) as [->|]; intros [= <-].
  - split; [apply length_replicate|]. apply Forall_replicate. lia.
  - apply cluster_wf; lia.
Qed.
End PartitionerFacts.

(** ** The orchestrator's contract *)

(** The size of the matrix a fitted object holds. *)
Definition fitted_dim (p : nat) (e : method_object) : Prop :=
  match fitted e with
  | Some (T_scaled_orthogonal R _) => nrows R = p
  | Some (T_linear M) => nrows M = p
  | _ => True
  end.

Section OrchestratorFacts.
Context {Mask : Type} `{Partitioner Mask}.
Variable solve : solvers.

Lemma piecewise_transform_unfitted (self : orchestrator Mask) X :
  orchestrator_state self = UNFITTED ->
  piecewise_transform self X = Err NotFittedError.
Proof.
  unfold orchestrator_state, piecewise_transform.
  destruct (fit_ self); [discriminate | reflexivity].
Qed.

Lemma piecewise_fit_shape_mismatch (self : orchestrator Mask) X Y :
  shape_eqb X Y = false -> piecewise_fit solve self X Y = Err ShapeMismatch.
Proof. unfold piecewise_fit. now intros ->. Qed.

(** What a successful fit leaves: the configuration, a labeling of the
    columns of the data, and one slot per region. *)
Lemma piecewise_fit_ok (self self' : orchestrator Mask) X Y :
  piecewise_fit solve self X Y = Ok self' ->
  orchestrator_state self' = FITTED /\
  alignment_method self' = alignment_method self /\
  n_pieces self' = n_pieces self /\ mask self' = mask self /\
  exists l es, get_labels self = Ok l /\ labels_ self' = Some l /\
    fit_ self' = Some es /\ length l = ncols X /\
    mapM (fit_one_piece solve (alignment_method self) l X Y)
         (seq 0 (n_pieces self)) = Ok es.
Proof.
  unfold piecewise_fit. destruct (shape_eqb X Y); [simpl | discriminate].
  destruct (get_labels self) as [l|]; [simpl | discriminate].
  destruct (Nat.eqb_spec (ncols X) (length l)); [simpl | discriminate].
  destruct (mapM _ _) as [es|] eqn:Ees; [simpl | discriminate].
  intros [= <-]. repeat split; simpl; eauto 10.
Qed.

(** The labeling computed by the first fit is the one every later fit
    uses. *)
Lemma piecewise_fit_reuses_labels (self self1 self2 : orchestrator Mask)
    X Y X' Y' :
  piecewise_fit solve self X Y = Ok self1 ->
  piecewise_fit solve self1 X' Y' = Ok self2 ->
  labels_ self2 = labels_ self1.
Proof.
  intros H1 H2.
  apply piecewise_fit_ok in H1 as (_ & _ & _ & _ & l & es & _ & Hl & _).
  apply piecewise_fit_ok in H2 as (_ & _ & _ & _ & l' & es' & Hg & Hl' & _).
  unfold get_labels in Hg. rewrite Hl in Hg. congruence.
Qed.

(** Fitting the fitted orchestrator again on the same data changes
    nothing: the labeling is reused and every region is fitted afresh to
    the same object. *)
Lemma piecewise_fit_idempotent (self self' : orchestrator Mask) X Y :
  piecewise_fit solve self X Y = Ok self' ->
  piecewise_fit solve self' X Y = Ok self'.
Proof.
  intros H1. pose proof H1 as H2. unfold piecewise_fit in H1 |- *.
  destruct (negb (shape_eqb X Y)); [discriminate|].
  apply bind_ok_inv in H1 as (l & Hl & H1).
  destruct (negb (ncols X =? length l)) eqn:Hc; [discriminate|].
  apply bind_ok_inv in H1 as (es & Hes & [= <-]).
  cbn [get_labels labels_ alignment_method n_pieces mask bind].
  now rewrite Hc, Hes.
Qed.

(** The output has the shape of the input. *)
Lemma piecewise_transform_shape (self : orchestrator Mask) X T :
  piecewise_transform self X = Ok T ->
  nrows T = nrows X /\ ncols T = ncols X.
Proof.
  unfold piecewise_transform.
  destruct (fit_ self) as [es|]; [|discriminate].
  destruct (labels_ self) as [l|]; [|discriminate].
  destruct (negb _); [discriminate|].
  apply (foldM_invariant (fun Z => nrows Z = nrows X /\ ncols Z = ncols X));
    [|now split].
  intros Z [k [e|]] Z' _ [Hr Hc]; unfold transform_one_piece; simpl.
  - intros HZ. apply bind_ok_inv in HZ as (T1 & _ & HZ).
    apply assign_columns_shape in HZ. intuition congruence.
  - intros [= <-]. now split.
Qed.
End OrchestratorFacts.

(** ** A single region: the orchestrator is the method object *)

Section SinglePiece.
Context {Mask : Type} `{Partitioner Mask}.
Variable solve : solvers.

Lemma fit_one_piece_single v X Y :
  wf X -> wf Y -> 0 < ncols X -> ncols X = ncols Y ->
  fit_one_piece solve v (replicate (ncols X) 0) X Y 0 =
  (e <- fit solve (new_method v) X Y ;; Ok (Some e)).
Proof.
  intros HX HY Hp Hc. unfold fit_one_piece. rewrite region_columns_single.
  destruct (seq 0 (ncols X)) as [|c cols] eqn:E.
  - apply (f_equal length) in E. rewrite length_seq in E. simpl in E. lia.
  - rewrite <- E, (select_columns_all X HX), Hc, (select_columns_all Y HY).
    reflexivity.
Qed.

(** With one region, fitting the orchestrator is fitting one method object
    on the whole data. *)
Lemma single_piece_fit (self : orchestrator Mask) X Y :
  n_pieces self = 1 -> labels_ self = None ->
  n_features_of (mask self) = ncols X -> 0 < ncols X ->
  wf X -> wf Y -> shape_eqb X Y = true ->
  piecewise_fit solve self X Y =
  (e <- fit solve (new_method (alignment_method self)) X Y ;;
   Ok (Orchestrator (alignment_method self) 1 (mask self)
         (Some (replicate (ncols X) 0)) (Some [Some e]))).
Proof.
  intros Hn Hl Hm Hp HX HY Hs. unfold piecewise_fit, get_labels.
  rewrite Hs, Hl, Hn, create_labels_single by lia. simpl.
  rewrite Hm, length_replicate, Nat.eqb_refl. simpl.
  apply shape_eqb_true in Hs as [_ Hc].
  rewrite fit_one_piece_single by assumption.
  now destruct (fit solve _ X Y).
Qed.

(** With one region, the orchestrator maps new data as the method object
    does: transposed in, transposed out. *)
Lemma single_piece_transform (self : orchestrator Mask) X e :
  labels_ self = Some (replicate (ncols X) 0) -> fit_ self = Some [Some e] ->
  wf X -> fitted_dim (ncols X) e ->
  piecewise_transform self X =
  (T <- transform e (transpose X) ;; Ok (transpose T)).
Proof.
  intros Hl He HX Hd. unfold piecewise_transform.
  rewrite He, Hl, length_replicate, Nat.eqb_refl. simpl.
  unfold transform_one_piece. simpl.
  rewrite region_columns_single, (select_columns_all X HX).
  unfold transform, fitted_dim in *.
  destruct (fitted e) as [[|M|R sc]|]; simpl; [| | |reflexivity];
    [|destruct (ncols M =? ncols X)|destruct (ncols R =? ncols X)];
    simpl; try reflexivity;
    rewrite <- (ncols_mk (nrows X) (ncols X) (fun _ _ => 0%Q)) at 1;
    (rewrite assign_columns_all;
      [reflexivity | apply wf_mk | reflexivity | simpl; auto]).
Qed.
End SinglePiece.

(** An orchestrator of the scaled orthogonal or of the identity method
    reaches no solver but the Procrustes solver. *)
Lemma piecewise_fit_procrustes_only {Mask : Type} `{Partitioner Mask}
    p l1 l2 (self : orchestrator Mask) X Y :
  match alignment_method self with
  | Identity | ScaledOrthogonal _ => True
  | _ => False
  end ->
  piecewise_fit (Solvers p l1) self X Y = piecewise_fit (Solvers p l2) self X Y.
Proof.
  intros Hv. unfold piecewise_fit.
  destruct (negb (shape_eqb X Y)); [reflexivity|].
  destruct (get_labels self) as [l|]; [|reflexivity]. cbn [bind].
  destruct (negb (ncols X =? length l)); [reflexivity|].
  rewrite (mapM_ext _ (fit_one_piece (Solvers p l2) (alignment_method self) l X Y));
    [reflexivity|].
  intros k _. unfold fit_one_piece.
  destruct (region_columns l k); [reflexivity|].
  now rewrite (fit_procrustes_only p l1 l2).
Qed.

(** ** The orchestrator as a machine

    The fit of the regions is a set of independent tasks: each reads the
    columns of its region and writes its own slot.  The machine below fits
    the pending regions one at a time in any order; it stands for every
    sequential or parallel schedule of the tasks. *)

(** A fit in progress: the data, the labeling, the regions still to fit and
    the slots written so far. *)
Record job : Type := Job {
  job_X : matrix;
  job_Y : matrix;
  job_labels : labeling;
  pending : list nat;
  slots : list (option method_object)
}.

Inductive machine (Mask : Type) : Type :=
| Idle (self : orchestrator Mask)
| Busy (self : orchestrator Mask) (j : job).

Arguments Idle {Mask} self.
Arguments Busy {Mask} self j.

Definition phase {Mask : Type} (m : machine Mask) : lifecycle :=
  match m with
  | Idle self => orchestrator_state self
  | Busy _ _ => FITTING
  end.

(** The transitions between the named states. *)
Definition lifecycle_next (a b : lifecycle) : bool :=
  match a, b with
  | UNFITTED, FITTING | FITTED, FITTING | FITTING, FITTING
  | FITTING, FITTED | FITTING, UNFITTED => true
  | _, _ => false
  end.

Definition start_job {Mask : Type} (self : orchestrator Mask) (X Y : matrix)
    (l : labeling) : job :=
  Job X Y l (seq 0 (n_pieces self)) (replicate (n_pieces self) None).

(** The job after region [k] has been fitted to [e]. *)
Definition write_slot (j : job) (k : nat) (e : option method_object) : job :=
  Job (job_X j) (job_Y j) (job_labels j)
      (List.filter (fun k' => negb (k' =? k)) (pending j))
      (<[k := e]> (slots j)).

(** The orchestrator that a finished job leaves. *)
Definition finish {Mask : Type} (self : orchestrator Mask) (j : job)
  : orchestrator Mask :=
  Orchestrator (alignment_method self) (n_pieces self) (mask self)
               (Some (job_labels j)) (Some (slots j)).

Section Machine.
Context {Mask : Type} `{Partitioner Mask}.
Variable solve : solvers.

(** The fit of region [k] of a job. *)
Definition job_fit (self : orchestrator Mask) (j : job) (k : nat)
  : result (option method_object) :=
  fit_one_piece solve (alignment_method self) (job_labels j)
                (job_X j) (job_Y j) k.

Inductive step : machine Mask -> machine Mask -> Prop :=
| step_begin self X Y l :
    shape_eqb X Y = true -> get_labels self = Ok l -> ncols X = length l ->
    step (Idle self) (Busy self (start_job self X Y l))
| step_piece self j k e :
    In k (pending j) -> job_fit self j k = Ok e ->
    step (Busy self j) (Busy self (write_slot j k e))
| step_abort self j k err :
    In k (pending j) -> job_fit self j k = Err err ->
    step (Busy self j) (Idle self)
| step_end self j :
    pending j = [] ->
    step (Busy self j) (Idle (finish self j)).

(** The steps of a fit in progress that leave it in progress. *)
Definition busy_step (self : orchestrator Mask) (j j' : job) : Prop :=
  step (Busy self j) (Busy self j').

(** What holds of every job reachable from the start of a fit on [X], [Y]
    with the labeling [l]: the data is unchanged, the pending regions are
    distinct region ids, and the slot of every other region holds the fit
    of that region. *)
Record job_inv (self : orchestrator Mask) (X Y : matrix) (l : labeling)
    (j : job) : Prop := {
  inv_data : job_X j = X /\ job_Y j = Y /\ job_labels j = l;
  inv_nodup : List.NoDup (pending j);
  inv_bound : forall k, In k (pending j) -> k < n_pieces self;
  inv_length : length (slots j) = n_pieces self;
  inv_done : forall k, k < n_pieces self -> ~ In k (pending j) ->
             exists e, job_fit self j k = Ok e /\ slots j !! k = Some e
}.
End Machine.

Section MachineFacts.
Context {Mask : Type} `{Partitioner Mask}.
Variable solve : solvers.

(** Every step follows the life cycle. *)
Lemma phase_step (m m' : machine Mask) :
  step solve m m' -> lifecycle_next (phase m) (phase m') = true.
Proof.
  intros Hs. inv Hs; simpl; try reflexivity;
    unfold orchestrator_state; now destruct (fit_ self).
Qed.

Lemma job_inv_start (self : orchestrator Mask) X Y l :
  job_inv solve self X Y l (start_job self X Y l).
Proof.
  split; simpl.
  - auto.
  - apply seq_NoDup.
  - intros k Hk. apply in_seq in Hk. lia.
  - apply length_replicate.
  - intros k Hk Hn. exfalso. apply Hn, in_seq. lia.
Qed.

Lemma in_pending_write j k e k' :
  In k' (pending (write_slot j k e)) <-> In k' (pending j) /\ k' <> k.
Proof.
  simpl. rewrite filter_In, negb_true_iff, Nat.eqb_neq. reflexivity.
Qed.

(** Fitting a pending region preserves the invariant. *)
Lemma job_inv_piece (self : orchestrator Mask) X Y l j k e :
  job_inv solve self X Y l j -> In k (pending j) ->
  job_fit solve self j k = Ok e ->
  job_inv solve self X Y l (write_slot j k e).
Proof.
  intros [Hd Hnd Hb Hlen Hdone] Hk He. split.
  - exact Hd.
  - apply List.NoDup_filter, Hnd.
  - intros k' Hk'. apply in_pending_write in Hk'. now apply Hb.
  - simpl. now rewrite length_insert.
  - intros k' Hk' Hn. rewrite in_pending_write in Hn.
    destruct (Nat.eq_dec k' k) as [->|Hne].
    + exists e. split; [exact He|]. simpl.
      apply list_lookup_insert_eq. rewrite Hlen. now apply Hb.
    + destruct (Hdone k' Hk') as (e' & He' & Hs); [tauto|].
      exists e'. split; [exact He'|]. simpl.
      now rewrite list_lookup_insert_ne.
Qed.

Lemma job_inv_busy (self : orchestrator Mask) X Y l j j' :
  job_inv solve self X Y l j -> busy_step solve self j j' ->
  job_inv solve self X Y l j'.
Proof. intros Hi Hs. inv Hs. now apply job_inv_piece. Qed.

(** The invariant holds all along a fit. *)
Lemma job_inv_reachable (self : orchestrator Mask) X Y l j :
  rtc (busy_step solve self) (start_job self X Y l) j ->
  job_inv solve self X Y l j.
Proof.
  revert j. apply rtc_ind_r.
  - apply job_inv_start.
  - intros j1 j2 _ Hs Hi. exact (job_inv_busy _ _ _ _ _ _ Hi Hs).
Qed.

(** When no region is pending the slots are what the sequential loop
    computes. *)
Lemma slots_complete (self : orchestrator Mask) X Y l j :
  job_inv solve self X Y l j -> pending j = [] ->
  mapM (fit_one_piece solve (alignment_method self) l X Y)
       (seq 0 (n_pieces self)) = Ok (slots j).
Proof.
  intros [(HX & HY & Hl) _ _ Hlen Hdone] Hp. apply mapM_ok_iff.
  apply Forall2_same_length_lookup_2.
  - now rewrite length_seq, Hlen.
  - intros i k e Hk He. apply lookup_seq in Hk as [-> Hi].
    destruct (Hdone i Hi) as (e' & He' & Hs); [now rewrite Hp|].
    unfold job_fit in He'. rewrite HX, HY, Hl in He'. simpl. congruence.
Qed.
End MachineFacts.

(** ** The machine computes what the function computes *)

Section Refinement.
Context {Mask : Type} `{Partitioner Mask}.
Variable solve : solvers.
Variables (self : orchestrator Mask) (X Y : matrix) (l : labeling).
Hypothesis Hshape : shape_eqb X Y = true.
Hypothesis Hlabels : get_labels self = Ok l.
Hypothesis Hcols : ncols X = length l.

Lemma piecewise_fit_unfold :
  piecewise_fit solve self X Y =
  (es <- mapM (fit_one_piece solve (alignment_method self) l X Y)
              (seq 0 (n_pieces self)) ;;
   Ok (Orchestrator (alignment_method self) (n_pieces self) (mask self)
                    (Some l) (Some es))).
Proof.
  unfold piecewise_fit. rewrite Hshape, Hlabels. simpl.
  now rewrite Hcols, Nat.eqb_refl.
Qed.

(** However the regions are scheduled, a fit that ends leaves what
    [piecewise_fit] returns, and a fit that is abandoned leaves the
    orchestrator as it was, in which case [piecewise_fit] raises. *)
Lemma machine_fit_outcome j self' :
  rtc (busy_step solve self) (start_job self X Y l) j ->
  step solve (Busy self j) (Idle self') ->
  piecewise_fit solve self X Y = Ok self' \/
  (self' = self /\ is_ok (piecewise_fit solve self X Y) = false).
Proof.
  intros Hr Hs. apply job_inv_reachable in Hr.
  rewrite piecewise_fit_unfold.
  inversion Hs as [| | s0 j0 k err Hk Hf | s0 j0 Hp]; subst.
  - right. split; [reflexivity|].
    destruct (mapM _ _) as [es|] eqn:Ees; [|reflexivity]. exfalso.
    destruct Hr as [(HX & HY & Hl) _ Hb _ _].
    destruct (mapM_ok_in _ _ _ k Ees) as (e & He);
      [apply in_seq; specialize (Hb k Hk); lia|].
    unfold job_fit in Hf. rewrite HX, HY, Hl in Hf. congruence.
  - left. rewrite (slots_complete _ _ _ _ _ _ Hr Hp). simpl.
    unfold finish. destruct Hr as [(_ & _ & ->) _ _ _ _]. reflexivity.
Qed.
End Refinement.

(** ** Every schedule ends *)

Lemma length_filter_out (k : nat) (ks : list nat) :
  In k ks ->
  length (List.filter (fun k' => negb (k' =? k)) ks) < length ks.
Proof.
  induction ks as [|x ks IH]; simpl; [tauto|].
  pose proof (List.filter_length_le (fun k' => negb (k' =? k)) ks) as Hle.
  destruct (Nat.eqb_spec x k) as [->|Hne]; simpl; [lia|].
  intros [->|Hin]; [congruence|]. specialize (IH Hin). lia.
Qed.

Section Progress.
Context {Mask : Type} `{Partitioner Mask}.
Variable solve : solvers.
Variable self : orchestrator Mask.

(** Each fit of a region removes one pending region. *)
Lemma busy_step_decreases j j' :
  busy_step solve self j j' -> length (pending j') < length (pending j).
Proof.
  intros Hs. inversion Hs as [|s0 j0 k e Hk Hf| |]; subst. simpl.
  now apply length_filter_out.
Qed.

(** A fit takes no more steps than there are pending regions. *)
Lemma busy_steps_bounded n j j' :
  nsteps (busy_step solve self) n j j' ->
  n + length (pending j') <= length (pending j).
Proof.
  induction 1 as [|n j1 j2 j3 Hs _ IH]; [lia|].
  apply busy_step_decreases in Hs. lia.
Qed.

(** A fit in progress can always move: it fits a pending region, is
    abandoned on the error of one, or ends. *)
Lemma busy_progress j : exists m, step solve (Busy self j) m.
Proof.
  destruct (pending j) as [|k ks] eqn:Hp.
  - eexists. now apply step_end.
  - destruct (job_fit solve self j k) as [e|err] eqn:Hf.
    + eexists. apply (step_piece _ _ _ k e); [rewrite Hp; now left | exact Hf].
    + eexists. apply (step_abort _ _ _ k err); [rewrite Hp; now left | exact Hf].
Qed.

(** When the fit of every pending region succeeds, some schedule empties
    the pending regions. *)
Lemma busy_run_exists n j :
  length (pending j) = n ->
  (forall k, In k (pending j) -> is_ok (job_fit solve self j k) = true) ->
  exists j', rtc (busy_step solve self) j j' /\ pending j' = [].
Proof.
  revert j. induction n as [n IH] using lt_wf_ind. intros j Hn Hok.
  destruct (pending j) as [|k ks] eqn:Hp; [exists j; split; [constructor | exact Hp]|].
  assert (Hk : In k (pending j)) by (rewrite Hp; now left).
  destruct (job_fit solve self j k) as [e|] eqn:Hf;
    [|specialize (Hok k (or_introl eq_refl)); rewrite Hf in Hok; discriminate].
  assert (Hs : busy_step solve self j (write_slot j k e))
    by now apply step_piece.
  destruct (IH (length (pending (write_slot j k e)))) with (j := write_slot j k e)
    as (j' & Hr & Hj'); [|reflexivity| |].
  - apply busy_step_decreases in Hs. rewrite Hp in Hs. simpl in *. lia.
  - intros k' Hk'. apply in_pending_write in Hk' as [Hk' _].
    rewrite Hp in Hk'. now apply Hok.
  - exists j'. split; [|exact Hj']. now apply (rtc_l _ _ (write_slot j k e)).
Qed.
End Progress.

Section Completeness.
Context {Mask : Type} `{Partitioner Mask}.
Variable solve : solvers.

(** What [piecewise_fit] returns, the machine reaches: from the idle
    orchestrator through the state FITTING to the fitted one. *)
Lemma machine_fit_complete (self self' : orchestrator Mask) X Y :
  piecewise_fit solve self X Y = Ok self' ->
  rtc (step solve) (Idle self) (Idle self').
Proof.
  intros Hfit. pose proof Hfit as Hok.
  apply piecewise_fit_ok in Hok
    as (_ & _ & _ & _ & l & es & Hl & _ & _ & Hlen & Hes).
  assert (Hshape : shape_eqb X Y = true).
  { unfold piecewise_fit in Hfit. now destruct (shape_eqb X Y). }
  destruct (busy_run_exists solve self _ (start_job self X Y l) eq_refl)
    as (j & Hr & Hp).
  { intros k Hk. destruct (mapM_ok_in _ _ _ k Hes Hk) as (e & He).
    unfold job_fit. simpl. now rewrite He. }
  destruct (machine_fit_outcome solve self X Y l Hshape Hl (eq_sym Hlen) j
              (finish self j) Hr (step_end _ _ _ Hp)) as [Hout|[_ Hout]];
    [|rewrite Hfit in Hout; discriminate].
  apply (rtc_l _ _ (Busy self (start_job self X Y l)));
    [now apply step_begin|].
  apply rtc_r with (y := Busy self j).
  - clear -Hr. induction Hr; [constructor | econstructor; eauto].
  - replace self' with (finish self j) by congruence. now apply step_end.
Qed.
End Completeness.

(** ** Every fit ends, with the result of the function *)

Section Termination.
Context {Mask : Type} `{Partitioner Mask}.
Variable solve : solvers.

(** The steps of a fit in progress: the steps of the machine out of the
    state FITTING.  An idle orchestrator takes none of them. *)
Definition fit_step (m m' : machine Mask) : Prop :=
  match m with
  | Busy _ _ => step solve m m'
  | Idle _ => False
  end.

(** A bound on the steps that a fit can still take: one per pending region
    and one to store the result or to abandon the fit. *)
Definition fit_measure (m : machine Mask) : nat :=
  match m with
  | Idle _ => 0
  | Busy _ j => S (length (pending j))
  end.

Lemma fit_step_decreases m m' :
  fit_step m m' -> fit_measure m' < fit_measure m.
Proof.
  destruct m as [|self j]; [intros []|]. intros Hs.
  inversion Hs as [|s0 j0 k e Hk Hf| |]; subst; simpl; try lia.
  apply (length_filter_out k) in Hk. lia.
Qed.

(** No sequence of steps of a fit is infinite, whatever the order in which
    the regions are taken. *)
Lemma fit_step_sn m : sn fit_step m.
Proof.
  induction m as [m IH]
    using (well_founded_induction (well_founded_ltof _ fit_measure)).
  constructor. intros m' Hs. apply IH. now apply fit_step_decreases.
Qed.

(** A fit in progress can take a step. *)
Lemma fit_step_red self j : red fit_step (Busy self j).
Proof. exact (busy_progress solve self j). Qed.

(** What a fit reaches: a job reached by fits of regions, or the idle
    orchestrator that the last step out of such a job leaves. *)
Lemma fit_reachable self j0 m :
  rtc fit_step (Busy self j0) m ->
  (exists j, m = Busy self j /\ rtc (busy_step solve self) j0 j) \/
  (exists j self', m = Idle self' /\ rtc (busy_step solve self) j0 j /\
                   step solve (Busy self j) (Idle self')).
Proof.
  revert m. apply rtc_ind_r; [|intros m m' Hr Hs IH].
  - left. exists j0. split; [reflexivity | constructor].
  - destruct IH as [(j & -> & Hj)|(j & self' & -> & _)]; [|destruct Hs].
    simpl in Hs. inversion Hs as [|s0 j1 k e Hk Hf| |]; subst.
    + left. eexists. split; [reflexivity|].
      apply rtc_r with (y := j); [exact Hj | exact Hs].
    + right. eauto.
    + right. eauto.
Qed.

Variables (self : orchestrator Mask) (X Y : matrix) (l : labeling).
Hypothesis Hshape : shape_eqb X Y = true.
Hypothesis Hlabels : get_labels self = Ok l.
Hypothesis Hcols : ncols X = length l.

(** A fit of [X] and [Y] begins, every run of it is finite, and a state it
    reaches either takes a further step or is the idle orchestrator that
    [piecewise_fit] returns, the orchestrator unchanged when
    [piecewise_fit] raises. *)
Lemma fit_terminates :
  step solve (Idle self) (Busy self (start_job self X Y l)) /\
  sn fit_step (Busy self (start_job self X Y l)) /\
  forall m, rtc fit_step (Busy self (start_job self X Y l)) m ->
    red fit_step m \/
    exists self', m = Idle self' /\
      (piecewise_fit solve self X Y = Ok self' \/
       self' = self /\ is_ok (piecewise_fit solve self X Y) = false).
Proof.
  split; [now apply step_begin | split; [apply fit_step_sn|]].
  intros m Hr.
  destruct (fit_reachable _ _ _ Hr) as [(j & -> & _)|(j & self' & -> & Hj & Hs)].
  - left. apply fit_step_red.
  - right. exists self'. split; [reflexivity|].
    exact (machine_fit_outcome solve self X Y l Hshape Hlabels Hcols j self'
             Hj Hs).
Qed.
End Termination.
