(* ===== verification/Partition.v ===== *)
(** * Partition: labelings without empty regions, and a partitioner

    The data model of the specification (section 3) asks more of a region
    labeling than ids below the region count: the ids are contiguous from
    zero, so every region holds a feature, and a region is a contiguous
    subset of the features.  This file states the first as the law
    [PartitionerCovers] of a partitioner and shows what the orchestrator
    gains from it: every slot of the fitted model holds an object, so no
    column of a prediction is left unwritten.  The second is stated for
    features in a row ([contiguous]), and the partitioner [blocks], which
    cuts a row of features into intervals of nearly equal length, is shown
    to meet every law. *)

From stdpp Require Import base list.
From Stdlib Require Import ZArith QArith Lia Bool Arith.
#[local] Set Warnings "-notation-incompatible-prefix".
From S2P Require Import Prelude Matrix Orthogonal Procrustes Methods Piecewise.
Close Scope Q_scope.
Open Scope nat_scope.
Open Scope mat_scope.
Open Scope align_scope.

(** ** Definitions *)

(** Every region id below [n_pieces] labels a feature. *)
Definition labeling_covers (n_pieces : nat) (l : labeling) : Prop :=
  forall k, k < n_pieces -> In k l.

Definition labeling_coversb (n_pieces : nat) (l : labeling) : bool :=
  forallb (fun k => existsb (Nat.eqb k) l) (seq 0 n_pieces).

(** The labels do not decrease along the row of features: every region is
    an interval of the row. *)
Definition contiguous (l : labeling) : Prop :=
  forall i j, i <= j -> j < length l -> nth i l 0 <= nth j l 0.

(** What a clustering promises on top of [PartitionerLaws]: no region is
    empty. *)
Class PartitionerCovers (Mask : Type) `{Partitioner Mask} : Prop := {
  cluster_covers (m : Mask) (n : nat) :
    1 < n -> n <= n_features_of m -> labeling_covers n (cluster m n)
}.

(** A row of features, as a mask: only its length matters. *)
Record segment : Type := Segment { segment_length : nat }.

(** The label of feature [j] of [m] when the row is cut into [n] intervals
    of nearly equal length. *)
Definition block_of (m n j : nat) : nat := j * n / m.

Definition blocks (s : segment) (n : nat) : labeling :=
  map (block_of (segment_length s) n) (seq 0 (segment_length s)).

#[export] Instance blocks_partitioner : Partitioner segment := {
  n_features_of := segment_length;
  cluster := blocks
}.

(** ** Labelings that cover their regions *)

Lemma labeling_coversb_spec n l :
  labeling_coversb n l = true <-> labeling_covers n l.
Proof.
  unfold labeling_coversb, labeling_covers. rewrite forallb_forall.
  split; intros H k Hk.
  - specialize (H k ltac:(apply in_seq; lia)).
    apply existsb_exists in H as (x & Hx & E). apply Nat.eqb_eq in E.
    now subst.
  - apply in_seq in Hk. apply existsb_exists. exists k.
    split; [apply H; lia | apply Nat.eqb_refl].
Qed.

(** No region of a covering labeling is without columns. *)
Lemma region_columns_nonempty n l k :
  labeling_covers n l -> k < n -> region_columns l k <> [].
Proof.
  intros Hc Hk. destruct (In_nth l k 0 (Hc k Hk)) as (j & Hj & E).
  intros Hnil. assert (Hin : In j (region_columns l k))
    by (apply in_region_columns; split; assumption).
  rewrite Hnil in Hin. exact Hin.
Qed.

(** A covering labeling has at least as many features as regions: the
    first columns of the regions are distinct. *)
Lemma labeling_covers_length n l : labeling_covers n l -> n <= length l.
Proof.
  intros Hc. transitivity (length (seq 0 n)); [now rewrite length_seq|].
  apply List.NoDup_incl_length.
  - apply seq_NoDup.
  - intros k Hk. apply in_seq in Hk. apply Hc. lia.
Qed.

Section Covers.
Context {Mask : Type} `{Partitioner Mask}.
Context `{!PartitionerLaws Mask} `{!PartitionerCovers Mask}.

(** The labeling that the partitioner returns leaves no region empty. *)
Lemma create_labels_covers m n l :
  create_labels m n = Ok l -> labeling_covers n l.
Proof.
  unfold create_labels. destruct (Nat.eqb_spec n 0); [discriminate|].
  destruct (Nat.ltb_spec (n_features_of m) n); [discriminate|].
  destruct (Nat.eqb_spec n 1) as [->|]; intros [= <-].
  - intros k Hk. replace k with 0 by lia.
    destruct (n_features_of m) as [|p]; [lia | now left].
  - apply cluster_covers; lia.
Qed.

Variable solve : solvers.

(** The fit of a region with columns stores an object. *)
Lemma fit_one_piece_fitted v l X Y k o :
  region_columns l k <> [] -> fit_one_piece solve v l X Y k = Ok o ->
  exists e, o = Some e.
Proof.
  unfold fit_one_piece. destruct (region_columns l k); [congruence|].
  intros _ Ho. apply bind_ok_inv in Ho as (e & _ & [= <-]). eauto.
Qed.

(** After the fit of a fresh orchestrator every slot holds an object: the
    edge case of a region without features does not occur with a
    partitioner that keeps its promises. *)
Theorem piecewise_fit_all_fitted (self s : orchestrator Mask) X Y es k :
  labels_ self = None ->
  piecewise_fit solve self X Y = Ok s -> fit_ s = Some es ->
  k < n_pieces self -> exists e, es !! k = Some (Some e).
Proof.
  intros Hfresh Hfit Hes Hk.
  apply piecewise_fit_ok in Hfit
    as (_ & _ & _ & _ & l & a & Hl & _ & Ha & _ & Hm).
  assert (a = es) by congruence. subst a.
  unfold get_labels in Hl. rewrite Hfresh in Hl.
  pose proof (create_labels_covers _ _ _ Hl) as Hc.
  apply mapM_ok_iff in Hm.
  destruct (Forall2_lookup_l _ _ _ k k Hm) as (o & Ho & Hf);
    [apply lookup_seq; lia|].
  destruct (fit_one_piece_fitted _ _ _ _ _ _
              (region_columns_nonempty _ _ _ Hc Hk) Hf) as (e & ->).
  eauto.
Qed.
End Covers.

(** ** The partitioner [blocks] *)

Section Blocks.
Variables m n : nat.
Hypothesis Hn : 0 < n.
Hypothesis Hm : n <= m.

Lemma block_of_bound j : j < m -> block_of m n j < n.
Proof.
  intros Hj. unfold block_of. apply Nat.Div0.div_lt_upper_bound. nia.
Qed.

Lemma block_of_mono i j : i <= j -> block_of m n i <= block_of m n j.
Proof. intros Hij. unfold block_of. apply Nat.Div0.div_le_mono. nia. Qed.

(** The first feature of region [k]: the least [j] with [k * m <= j * n]. *)
Lemma block_of_first k :
  k < n -> let j := (k * m + (n - 1)) / n in j < m /\ block_of m n j = k.
Proof.
  intros Hk j.
  assert (Hlo : k * m <= j * n).
  { unfold j. pose proof (Nat.div_mod (k * m + (n - 1)) n ltac:(lia)) as E.
    pose proof (Nat.mod_upper_bound (k * m + (n - 1)) n ltac:(lia)). nia. }
  assert (Hhi : j * n < k * m + n).
  { unfold j. pose proof (Nat.Div0.mul_div_le (k * m + (n - 1)) n). nia. }
  split.
  - assert (j * n < m * n) by nia. nia.
  - unfold block_of. symmetry.
    apply Nat.div_unique with (r := j * n - k * m); nia.
Qed.
End Blocks.

Lemma length_blocks s n : length (blocks s n) = segment_length s.
Proof. unfold blocks. now rewrite length_map, length_seq. Qed.

Lemma nth_blocks s n j :
  j < segment_length s -> nth j (blocks s n) 0 = block_of (segment_length s) n j.
Proof. intros Hj. unfold blocks. now rewrite (nth_map_seq _ _ _ _ Hj). Qed.

#[export] Instance blocks_laws : PartitionerLaws segment.
Proof.
  split. intros s n Hn Hp. simpl in *. split; [apply length_blocks|].
  apply List.Forall_forall. intros k Hk. unfold blocks in Hk.
  apply in_map_iff in Hk as (j & <- & Hj). apply in_seq in Hj.
  apply block_of_bound; lia.
Qed.

#[export] Instance blocks_covers : PartitionerCovers segment.
Proof.
  split. intros s n Hn Hp k Hk. simpl in *.
  destruct (block_of_first (segment_length s) n ltac:(lia) Hp k Hk) as [Hj E].
  unfold blocks. apply in_map_iff. eexists. split; [exact E|].
  apply in_seq. lia.
Qed.

(** The regions of [blocks] are intervals of the row. *)
Theorem blocks_contiguous s n : contiguous (blocks s n).
Proof.
  intros i j Hij Hj. rewrite length_blocks in Hj.
  rewrite !nth_blocks by lia. unfold block_of. apply Nat.Div0.div_le_mono. nia.
Qed.

(** A contiguous labeling cuts the row into intervals: between two features
    of a region there are only features of the region. *)
Lemma contiguous_interval l k i j x :
  contiguous l -> In i (region_columns l k) -> In j (region_columns l k) ->
  i <= x <= j -> In x (region_columns l k).
Proof.
  intros Hc Hi Hj Hx. apply in_region_columns in Hi as [Hil Hik].
  apply in_region_columns in Hj as [Hjl Hjk]. apply in_region_columns.
  split; [lia|].
  pose proof (Hc i x ltac:(lia) ltac:(lia)).
  pose proof (Hc x j ltac:(lia) ltac:(lia)). lia.
Qed.

(** Seven features in three regions. *)
Example blocks_example :
  create_labels (Segment 7) 3 = Ok [0; 0; 0; 1; 1; 2; 2] /\
  region_columns [0; 0; 0; 1; 1; 2; 2] 1 = [3; 4] /\
  create_labels (Segment 2) 3 = Err InvalidConfiguration.
Proof. repeat split. Qed.
