(* ===== verification/Workers.v ===== *)
(** * Workers: the fit of the regions by a pool of workers

    The specification (section 5) lets the regions be fitted concurrently:
    each task reads the columns of its region and writes its own slot, and
    the only synchronisation is the final join.  This file models a pool of
    workers that take the pending regions and give their results back at
    any later time, so that the fits of several regions overlap.  The pool
    is shown to refine the machine of [Piecewise]: a worker that takes a
    region changes nothing the orchestrator can see, and a worker that
    gives a result back performs one step of the machine.  It follows that
    every schedule of every number of workers ends, within twice as many
    steps as there are regions, with the result of [piecewise_fit]; that
    no two workers ever hold the same region; and that the pool cannot
    block. *)

From stdpp Require Import base list relations.
From Stdlib Require Import ZArith QArith Lia Bool Arith.
#[local] Set Warnings "-notation-incompatible-prefix".
From S2P Require Import Prelude Matrix Orthogonal Procrustes Methods Piecewise.
Close Scope Q_scope.
Open Scope nat_scope.
Open Scope mat_scope.
Open Scope align_scope.

(** ** The pool *)

(** The fit in progress, and the tasks in flight: which worker holds which
    region.  A region in flight is still pending for the orchestrator. *)
Record pool : Type := Pool {
  pool_job : job;
  in_flight : list (nat * nat)
}.

Definition busy_workers (p : pool) : list nat := map fst (in_flight p).
Definition taken (p : pool) : list nat := map snd (in_flight p).

(** The tasks in flight once the result of region [k] is given back. *)
Definition release (k : nat) (tasks : list (nat * nat)) : list (nat * nat) :=
  List.filter (fun wk => negb (snd wk =? k)) tasks.

(** What is left to do: two steps for a region nobody has taken, one for a
    region in flight. *)
Definition pool_measure (p : pool) : nat :=
  2 * length (pending (pool_job p)) - length (in_flight p).

Section Pool.
Context {Mask : Type} `{Partitioner Mask}.
Variable solve : solvers.
Variable self : orchestrator Mask.
Variable n_workers : nat.

(** A worker at rest takes a pending region that nobody holds; a worker
    gives back the object it has fitted, which fills the slot of its
    region. *)
Inductive pool_step : pool -> pool -> Prop :=
| pool_take p w k :
    w < n_workers -> ~ In w (busy_workers p) ->
    In k (pending (pool_job p)) -> ~ In k (taken p) ->
    pool_step p (Pool (pool_job p) ((w, k) :: in_flight p))
| pool_give p w k e :
    In (w, k) (in_flight p) -> job_fit solve self (pool_job p) k = Ok e ->
    pool_step p (Pool (write_slot (pool_job p) k e) (release k (in_flight p))).

(** How the work of the pool ends: with the join when nothing is pending,
    or with the error of a task, which abandons the fit. *)
Inductive pool_end : pool -> machine Mask -> Prop :=
| pool_join p :
    pending (pool_job p) = [] ->
    pool_end p (Idle (finish self (pool_job p)))
| pool_fail p w k err :
    In (w, k) (in_flight p) -> job_fit solve self (pool_job p) k = Err err ->
    pool_end p (Idle self).

(** No worker holds two regions, no region is held twice, and what is
    held is pending. *)
Record pool_inv (p : pool) : Prop := {
  inv_workers : List.NoDup (busy_workers p);
  inv_worker_bound : forall w, In w (busy_workers p) -> w < n_workers;
  inv_taken : List.NoDup (taken p);
  inv_taken_pending : forall k, In k (taken p) -> In k (pending (pool_job p))
}.
End Pool.

(** ** Tasks in flight *)

Lemma in_release k tasks wk :
  In wk (release k tasks) <-> In wk tasks /\ snd wk <> k.
Proof.
  unfold release. rewrite filter_In, negb_true_iff, Nat.eqb_neq. reflexivity.
Qed.

Lemma in_map_release (f : nat * nat -> nat) k tasks x :
  In x (map f (release k tasks)) -> In x (map f tasks).
Proof.
  intros Hx. apply in_map_iff in Hx as (wk & <- & Hwk).
  apply in_release in Hwk as [Hwk _]. now apply in_map.
Qed.

Lemma NoDup_map_release (f : nat * nat -> nat) k tasks :
  List.NoDup (map f tasks) -> List.NoDup (map f (release k tasks)).
Proof.
  induction tasks as [|wk tasks IH]; simpl; [constructor|].
  intros Hnd. inversion Hnd as [|? ? Hx Hnd']; subst.
  destruct (negb (snd wk =? k)); simpl; [|now apply IH].
  constructor; [|now apply IH]. intros Hin. apply Hx.
  now apply in_map_release in Hin.
Qed.

(** Giving a result back frees exactly one task. *)
Lemma length_release k tasks :
  List.NoDup (map snd tasks) -> In k (map snd tasks) ->
  length (release k tasks) + 1 = length tasks.
Proof.
  induction tasks as [|[w k'] tasks IH]; simpl; [tauto|].
  intros Hnd Hin. inversion Hnd as [|? ? Hx Hnd']; subst.
  destruct (Nat.eqb_spec k' k) as [->|Hne]; simpl.
  - assert (E : release k tasks = tasks); [|rewrite E; lia].
    unfold release. apply List.forallb_filter_id, forallb_forall.
    intros [w' k''] Hwk. apply negb_true_iff, Nat.eqb_neq. simpl.
    intros ->.
    apply Hx. now apply (in_map snd _ (w', k)).
  - destruct Hin as [Hin|Hin]; [congruence|]. rewrite <- (IH Hnd' Hin). lia.
Qed.

(** ** The invariant *)

Section PoolFacts.
Context {Mask : Type} `{Partitioner Mask}.
Variable solve : solvers.
Variable self : orchestrator Mask.
Variable n_workers : nat.

Lemma pool_inv_start j : pool_inv n_workers (Pool j []).
Proof. split; simpl; try constructor; tauto. Qed.

Lemma pool_inv_step p p' :
  pool_inv n_workers p -> pool_step solve self n_workers p p' ->
  pool_inv n_workers p'.
Proof.
  intros [Hw Hb Ht Hp] Hs.
  destruct Hs as [p w k Hlt Hfree Hk Hnew | p w k e Hin Hf]; split;
    unfold busy_workers, taken in *; simpl.
  - now constructor.
  - intros w' [<-|Hw']; [exact Hlt | now apply Hb].
  - now constructor.
  - intros k' [<-|Hk']; [exact Hk | now apply Hp].
  - now apply NoDup_map_release.
  - intros w' Hw'. apply Hb. now apply in_map_release in Hw'.
  - now apply NoDup_map_release.
  - intros k' Hk'. apply in_map_iff in Hk' as (wk & <- & Hwk).
    apply in_release in Hwk as [Hwk Hne].
    apply (proj2 (in_pending_write (pool_job p) k e (snd wk))).
    split; [|exact Hne]. apply Hp. now apply in_map.
Qed.

Lemma pool_inv_reachable j p :
  rtc (pool_step solve self n_workers) (Pool j []) p -> pool_inv n_workers p.
Proof.
  revert p. apply rtc_ind_r; [apply pool_inv_start|].
  intros p1 p2 _ Hs Hi. exact (pool_inv_step _ _ Hi Hs).
Qed.

(** Two workers never hold the same region. *)
Theorem pool_exclusive j p w1 w2 k :
  rtc (pool_step solve self n_workers) (Pool j []) p ->
  In (w1, k) (in_flight p) -> In (w2, k) (in_flight p) -> w1 = w2.
Proof.
  intros Hr. apply pool_inv_reachable in Hr as [_ _ Ht _].
  unfold taken in Ht. induction (in_flight p) as [|[w k'] tasks IH];
    simpl in *; [tauto|].
  inversion Ht as [|? ? Hx Hnd]; subst.
  intros [[= -> ->]|H1] [[= ->]|H2]; try reflexivity; try now apply IH.
  - exfalso. apply Hx. now apply (in_map snd _ (w2, k)).
  - subst. exfalso. apply Hx. now apply (in_map snd _ (w1, k)).
Qed.

(** ** The pool refines the machine *)

(** A step of the pool is invisible to the orchestrator or is the fit of
    one pending region. *)
Lemma pool_step_simulates p p' :
  pool_inv n_workers p -> pool_step solve self n_workers p p' ->
  pool_job p' = pool_job p \/
  busy_step solve self (pool_job p) (pool_job p').
Proof.
  intros Hi Hs. destruct Hs as [p w k _ _ _ _ | p w k e Hin Hf]; simpl.
  - now left.
  - right. apply step_piece; [|exact Hf].
    apply (inv_taken_pending _ _ Hi). now apply (in_map snd _ (w, k)).
Qed.

Lemma pool_run_simulates p p' :
  pool_inv n_workers p -> rtc (pool_step solve self n_workers) p p' ->
  rtc (busy_step solve self) (pool_job p) (pool_job p').
Proof.
  intros Hi Hr. induction Hr as [|p1 p2 p3 Hs _ IH]; [constructor|].
  pose proof (pool_inv_step _ _ Hi Hs) as Hi2.
  destruct (pool_step_simulates _ _ Hi Hs) as [E|Hb].
  - rewrite <- E. now apply IH.
  - eapply rtc_l; [exact Hb | now apply IH].
Qed.

(** The end of the pool's work is a final step of the machine. *)
Lemma pool_end_simulates p m :
  pool_inv n_workers p -> pool_end solve self p m ->
  step solve (Busy self (pool_job p)) m.
Proof.
  intros Hi He. destruct He as [p Hp | p w k err Hin Hf].
  - now apply step_end.
  - apply (step_abort _ _ _ k err); [|exact Hf].
    apply (inv_taken_pending _ _ Hi). now apply (in_map snd _ (w, k)).
Qed.

(** ** Every schedule ends *)

Lemma pool_inv_flight_le p :
  pool_inv n_workers p -> length (in_flight p) <= length (pending (pool_job p)).
Proof.
  intros [_ _ Ht Hp]. unfold taken in *.
  rewrite <- (length_map snd (in_flight p)).
  now apply List.NoDup_incl_length.
Qed.

Lemma pool_step_decreases p p' :
  pool_inv n_workers p -> pool_step solve self n_workers p p' ->
  pool_measure p' < pool_measure p.
Proof.
  intros Hi Hs. pose proof (pool_inv_step _ _ Hi Hs) as Hi'.
  apply pool_inv_flight_le in Hi'. pose proof (pool_inv_flight_le _ Hi) as Hle.
  unfold pool_measure in *.
  destruct Hs as [p w k _ _ Hk Hnew | p w k e Hin Hf]; simpl in *; [lia|].
  assert (Hk : In k (taken p)) by now apply (in_map snd _ (w, k)).
  pose proof (length_release k _ (inv_taken _ _ Hi) Hk).
  pose proof (length_filter_out k _ (inv_taken_pending _ _ Hi k Hk)). lia.
Qed.

(** A pool takes at most two steps per pending region. *)
Theorem pool_steps_bounded n p p' :
  pool_inv n_workers p -> nsteps (pool_step solve self n_workers) n p p' ->
  n + pool_measure p' <= pool_measure p.
Proof.
  intros Hi Hn. induction Hn as [|n p1 p2 p3 Hs _ IH]; [lia|].
  pose proof (pool_step_decreases _ _ Hi Hs).
  specialize (IH (pool_inv_step _ _ Hi Hs)). lia.
Qed.

(** A pool with a worker never blocks: it can take a step or end. *)
Theorem pool_progress p :
  pool_inv n_workers p -> 0 < n_workers ->
  (exists p', pool_step solve self n_workers p p') \/
  (exists m, pool_end solve self p m).
Proof.
  intros Hi Hw. destruct (in_flight p) as [|[w k] tasks] eqn:Ef.
  - destruct (pending (pool_job p)) as [|k ks] eqn:Ep.
    + right. eexists. now apply pool_join.
    + left. eexists. apply (pool_take _ _ _ p 0 k); try exact Hw;
        unfold busy_workers, taken; rewrite ?Ef, ?Ep; simpl; tauto.
  - destruct (job_fit solve self (pool_job p) k) as [e|err] eqn:Hf.
    + left. eexists. apply (pool_give _ _ _ p w k e); [|exact Hf].
      rewrite Ef. now left.
    + right. eexists. apply (pool_fail _ _ p w k err); [|exact Hf].
      rewrite Ef. now left.
Qed.
End PoolFacts.

(** ** The result of the pool *)

Section PoolResult.
Context {Mask : Type} `{Partitioner Mask}.
Variable solve : solvers.
Variables (self : orchestrator Mask) (X Y : matrix) (l : labeling).
Variable n_workers : nat.
Hypothesis Hshape : shape_eqb X Y = true.
Hypothesis Hlabels : get_labels self = Ok l.
Hypothesis Hcols : ncols X = length l.

(** Whatever the number of workers and the order in which they take the
    regions and give their results back, a fit that is joined leaves what
    [piecewise_fit] returns, and a fit abandoned on an error leaves the
    orchestrator as it was, in which case [piecewise_fit] raises. *)
Theorem pool_fit_outcome p self' :
  rtc (pool_step solve self n_workers) (Pool (start_job self X Y l) []) p ->
  pool_end solve self p (Idle self') ->
  piecewise_fit solve self X Y = Ok self' \/
  (self' = self /\ is_ok (piecewise_fit solve self X Y) = false).
Proof.
  intros Hr He. pose proof (pool_inv_reachable _ _ _ _ _ Hr) as Hi.
  apply (machine_fit_outcome solve self X Y l Hshape Hlabels Hcols
           (pool_job p)).
  - exact (pool_run_simulates _ _ _ _ _ (pool_inv_start _ _) Hr).
  - exact (pool_end_simulates _ _ _ _ _ Hi He).
Qed.

(** A pool runs for at most two steps per region. *)
Corollary pool_fit_steps n p :
  nsteps (pool_step solve self n_workers) n
         (Pool (start_job self X Y l) []) p ->
  n <= 2 * n_pieces self.
Proof.
  intros Hn. apply pool_steps_bounded in Hn; [|apply pool_inv_start].
  unfold pool_measure in Hn. simpl in Hn. rewrite length_seq in Hn. lia.
Qed.
End PoolResult.
