(* ===== verification/Regions.v ===== *)
(** * Regions: the composition of the regions' predictions

    What [piecewise_transform] computes when there are several regions
    (specification, section 4.4): the fold over the slots writes the columns
    of every fitted region from the prediction of the region's own method
    object, and leaves the columns of the other regions as they are.  From
    this follow an entry by entry characterisation of the prediction
    ([composed_entry]), the independence of the prediction from the order in
    which the regions are visited, and the locality of the orchestrator: the
    columns of a region depend on the data of that region only.  The last
    part shows that fit and prediction succeed region by region for every
    method of the library with a valid configuration, and runs the
    orchestrator on two regions with the partitioner [striped], in one
    piece and with a pool of two workers. *)

From stdpp Require Import base list relations.
From Stdlib Require Import ZArith QArith Lia Bool Arith.
#[local] Set Warnings "-notation-incompatible-prefix".
From S2P Require Import Prelude Matrix Linsolve Orthogonal Procrustes Methods.
From S2P Require Import Assignment Transport Solvers Piecewise Partition Workers.
Close Scope Q_scope.
Open Scope nat_scope.
Open Scope mat_scope.
Open Scope align_scope.

#[local] Abbreviation permuted := Stdlib.Sorting.Permutation.Permutation.

(** ** Definitions *)

(** Two arrays with the same rows that agree on the columns [cols]. *)
Definition agree_on (cols : list nat) (A B : matrix) : Prop :=
  nrows A = nrows B /\ forall i j, In j cols -> mget A i j = mget B i j.

(** The prediction entry by entry: the entry of feature [j] comes from the
    method object of the region of [j], applied to the columns of that
    region; it is zero when the region has no fitted object. *)
Definition composed_entry (l : labeling) (es : list (option method_object))
    (X : matrix) (i j : nat) : Q :=
  let cols := region_columns l (nth j l 0) in
  match es !! nth j l 0 with
  | Some (Some e) =>
      match transform e (transpose (select_columns X cols)),
            index_of j cols with
      | Ok Tk, Some c => mget Tk c i
      | _, _ => 0%Q
      end
  | _ => 0%Q
  end.

(** The contribution of a slot is defined: the method object maps the
    columns of the region to an array of their shape. *)
Definition piece_defined (l : labeling) (X : matrix)
    (ke : nat * option method_object) : Prop :=
  match snd ke with
  | None => True
  | Some e =>
      exists Tk,
        transform e (transpose (select_columns X (region_columns l (fst ke))))
          = Ok Tk /\
        nrows Tk = length (region_columns l (fst ke)) /\ ncols Tk = nrows X
  end.

(** The method [v] applies what it has fitted on [X] and [Y]: the object
    that [fit] returns maps every array with one row per feature of [X] to
    an array of the same shape. *)
Definition applicable (solve : solvers) (v : variant) (X Y : matrix) : Prop :=
  forall e Z,
    0 < ncols X -> fit solve (new_method v) X Y = Ok e -> nrows Z = ncols X ->
    exists T, transform e Z = Ok T /\ nrows T = nrows Z /\ ncols T = ncols Z.

(** The method [v] fits every pair of arrays of one shape. *)
Definition fits_equal_shapes (solve : solvers) (v : variant) : Prop :=
  forall X Y, shape_eqb X Y = true ->
    exists e, fit solve (new_method v) X Y = Ok e.

(** ** Generic facts *)

Lemma mapM_exists {A B : Type} (f : A -> result B) xs :
  (forall a, In a xs -> exists b, f a = Ok b) -> exists bs, mapM f xs = Ok bs.
Proof.
  induction xs as [|a xs IH]; intros Hf; simpl; [eauto|].
  destruct (Hf a) as (b & ->); [now left|].
  destruct IH as (bs & ->); [intros; apply Hf; now right | eauto].
Qed.

Lemma mget_zeros_like_eq X i j : mget (zeros_like X) i j = 0%Q.
Proof. unfold zeros_like, zeros. rewrite mget_mk. now destruct (_ && _). Qed.

(** Arrays of equal shape and equal entries are equal. *)
Lemma wf_ext_eq A B :
  wf A -> wf B -> nrows A = nrows B -> ncols A = ncols B ->
  (forall i j, mget A i j = mget B i j) -> A = B.
Proof.
  intros HA HB Hr Hc He.
  rewrite <- (mk_mget_wf A HA), <- (mk_mget_wf B HB), Hr, Hc.
  apply mk_ext_eq. intros i j _ _. apply He.
Qed.

Lemma select_columns_agree cols A B :
  agree_on cols A B -> select_columns A cols = select_columns B cols.
Proof.
  intros [Hr He]. unfold select_columns. rewrite Hr. apply mk_ext_eq.
  intros i c _ Hc. apply He, nth_In, Hc.
Qed.

Lemma in_combine_seq {A : Type} (xs : list A) a k x :
  In (k, x) (combine (seq a (length xs)) xs) <-> a <= k /\ xs !! (k - a) = Some x.
Proof.
  revert a. induction xs as [|y xs IH]; intros a; simpl.
  - split; [tauto | now intros [_ ?]].
  - rewrite IH. split.
    + intros [[= <- <-]|[Hk Hx]]; [now rewrite Nat.sub_diag|].
      split; [lia|]. now replace (k - a) with (S (k - S a)) by lia.
    + intros [Hk Hx]. destruct (k - a) as [|d] eqn:Ed; simpl in Hx.
      * left. f_equal; [lia | congruence].
      * right. split; [lia|]. now replace (k - S a) with d by lia.
Qed.

Lemma map_fst_combine_seq {A : Type} (xs : list A) a :
  map fst (combine (seq a (length xs)) xs) = seq a (length xs).
Proof.
  revert a. induction xs as [|y xs IH]; intros a; simpl; [|rewrite IH];
    reflexivity.
Qed.

(** The slot of index [k] of [mapM f (seq 0 n)] is [f k]. *)
Lemma mapM_seq_lookup {B : Type} (f : nat -> result B) n bs k :
  mapM f (seq 0 n) = Ok bs ->
  match bs !! k with Some b => k < n /\ f k = Ok b | None => n <= k end.
Proof.
  intros H. pose proof (mapM_length _ _ _ H) as Hlen.
  rewrite length_seq in Hlen. apply mapM_ok_iff in H.
  destruct (bs !! k) as [b|] eqn:Eb.
  - destruct (Forall2_lookup_r _ _ _ _ _ H Eb) as (x & Hx & Hf).
    apply lookup_seq in Hx as [-> Hk]. now split.
  - apply lookup_ge_None in Eb. lia.
Qed.

(** ** One step of the fold, and the fold *)

Section Composition.
Variable l : labeling.
Variable X : matrix.

Lemma piece_step_inv acc k e acc' :
  transform_one_piece l X acc (k, Some e) = Ok acc' ->
  exists Tk,
    transform e (transpose (select_columns X (region_columns l k))) = Ok Tk /\
    assign_columns acc (region_columns l k) (transpose Tk) = Ok acc'.
Proof. intros H. exact (bind_ok_inv _ _ _ H). Qed.

Lemma piece_step_shape acc ke acc' :
  transform_one_piece l X acc ke = Ok acc' ->
  nrows acc' = nrows acc /\ ncols acc' = ncols acc /\ (wf acc -> wf acc').
Proof.
  destruct ke as [k [e|]].
  - intros H. apply piece_step_inv in H as (Tk & _ & H).
    apply assign_columns_shape in H. tauto.
  - intros [= <-]. tauto.
Qed.

(** A step leaves the columns outside its region as they are. *)
Lemma piece_step_frame acc ke acc' i j :
  transform_one_piece l X acc ke = Ok acc' ->
  (forall e, snd ke = Some e -> ~ In j (region_columns l (fst ke))) ->
  mget acc' i j = mget acc i j.
Proof.
  destruct ke as [k [e|]]; simpl.
  - intros H Hj. apply piece_step_inv in H as (Tk & _ & H).
    eapply assign_columns_frame; eauto.
  - now intros [= <-].
Qed.

(** The step succeeds exactly when the contribution of the slot is
    defined. *)
Lemma piece_step_defined acc ke :
  nrows acc = nrows X ->
  piece_defined l X ke <->
  exists acc', transform_one_piece l X acc ke = Ok acc'.
Proof.
  intros Hr. destruct ke as [k [e|]];
    unfold piece_defined, transform_one_piece; simpl; [|split; eauto].
  split.
  - intros (Tk & -> & Hr' & Hc'). simpl. unfold assign_columns. simpl.
    rewrite Hr', Hc', Hr, !Nat.eqb_refl. eauto.
  - intros (acc' & H). apply bind_ok_inv in H as (Tk & HTk & Ha).
    exists Tk. split; [exact HTk|]. unfold assign_columns in Ha.
    destruct (_ && _) eqn:E; [|discriminate].
    apply andb_true_iff in E as [E1 E2]. apply Nat.eqb_eq in E1, E2.
    simpl in E1, E2. lia.
Qed.

(** The fold leaves a column as it is when no fitted slot owns it. *)
Lemma fold_pieces_frame kes acc T i j :
  foldM (transform_one_piece l X) kes acc = Ok T ->
  (forall k e, In (k, Some e) kes -> ~ In j (region_columns l k)) ->
  mget T i j = mget acc i j.
Proof.
  revert acc. induction kes as [|ke kes IH]; intros acc; simpl.
  - now intros [= <-].
  - destruct (transform_one_piece l X acc ke) as [acc1|] eqn:E; [|discriminate].
    intros HT Hj. rewrite (IH acc1 HT).
    2:{ intros k e Hin. eapply Hj. right. exact Hin. }
    eapply piece_step_frame; [exact E|]. intros e He. apply (Hj _ e). left.
    destruct ke; simpl in *; now subst.
Qed.

(** The fold writes the columns of a fitted slot from the prediction of
    its method object, whatever comes before and after the slot. *)
Lemma fold_pieces_written kes acc T k e :
  foldM (transform_one_piece l X) kes acc = Ok T ->
  List.NoDup (map fst kes) -> In (k, Some e) kes -> ncols acc = length l ->
  exists Tk,
    transform e (transpose (select_columns X (region_columns l k))) = Ok Tk /\
    forall c i, c < length (region_columns l k) ->
      mget T i (nth c (region_columns l k) 0) = mget Tk c i.
Proof.
  revert acc. induction kes as [|ke kes IH]; intros acc; simpl; [tauto|].
  destruct (transform_one_piece l X acc ke) as [acc1|] eqn:E; [|discriminate].
  intros HT Hnd Hin Hc. inversion Hnd as [|? ? Hk Hnd']; subst.
  destruct Hin as [->|Hin].
  - apply piece_step_inv in E as (Tk & HTk & Ha). exists Tk.
    split; [exact HTk|]. intros c i Hlt.
    pose proof (nth_In (region_columns l k) 0 Hlt) as Hj.
    rewrite (fold_pieces_frame kes acc1 T i _ HT).
    + rewrite (assign_columns_written _ _ _ _ i c Ha);
        [apply mget_transpose | apply NoDup_region_columns | exact Hlt |].
      apply in_region_columns in Hj. lia.
    + intros k' e' Hin' Hj'.
      assert (k' = k) by (eapply region_columns_disjoint; eauto). subst k'.
      apply Hk. simpl. now apply (in_map fst _ (k, Some e')).
  - apply (IH acc1 HT Hnd' Hin). apply piece_step_shape in E. lia.
Qed.

(** The fold succeeds exactly when the contribution of every slot is
    defined. *)
Lemma fold_pieces_defined kes acc :
  nrows acc = nrows X ->
  Forall (piece_defined l X) kes <->
  exists T, foldM (transform_one_piece l X) kes acc = Ok T.
Proof.
  revert acc. induction kes as [|ke kes IH]; intros acc Hr; simpl.
  - split; [eauto | constructor].
  - rewrite Forall_cons, (piece_step_defined acc ke Hr). split.
    + intros [(acc1 & E) Hall]. rewrite E. apply IH; [|exact Hall].
      apply piece_step_shape in E. lia.
    + intros (T & HT).
      destruct (transform_one_piece l X acc ke) as [acc1|] eqn:E;
        [|discriminate].
      split; [eauto|]. apply (IH acc1); [|eauto].
      apply piece_step_shape in E. lia.
Qed.

Lemma fold_pieces_wf kes acc T :
  foldM (transform_one_piece l X) kes acc = Ok T ->
  wf acc -> nrows T = nrows acc /\ ncols T = ncols acc /\ wf T.
Proof.
  intros HT Hwf.
  apply (foldM_invariant
           (fun Z => nrows Z = nrows acc /\ ncols Z = ncols acc /\ wf Z)
           _ _) with (b := acc) in HT; [exact HT | | tauto].
  intros Z ke Z' _ (Hr & Hc & Hw) E. apply piece_step_shape in E.
  intuition congruence.
Qed.

(** Whether a fitted slot owns column [j]. *)
Lemma column_owner_dec (kes : list (nat * option method_object)) j :
  (exists k e, In (k, Some e) kes /\ In j (region_columns l k)) \/
  (forall k e, In (k, Some e) kes -> ~ In j (region_columns l k)).
Proof.
  induction kes as [|[k [e|]] kes [(k' & e' & Hin & Hj)|IH]];
    try (left; exists k', e'; split; [now right | exact Hj]).
  - right. intros k e [].
  - destruct (in_dec Nat.eq_dec j (region_columns l k)) as [Hj|Hj].
    + left. exists k, e. split; [now left | exact Hj].
    + right. intros k' e' [[= <- <-]|Hin]; [exact Hj | exact (IH _ _ Hin)].
  - right. intros k' e' [[=]|Hin]. exact (IH _ _ Hin).
Qed.

(** The regions can be visited in any order: the fold over a rearrangement
    of the slots succeeds too, with the same array. *)
Theorem fold_pieces_any_order kes kes' acc T :
  permuted kes kes' -> List.NoDup (map fst kes) -> wf acc ->
  nrows acc = nrows X -> ncols acc = length l ->
  foldM (transform_one_piece l X) kes acc = Ok T ->
  foldM (transform_one_piece l X) kes' acc = Ok T.
Proof.
  intros Hp Hnd Hwf Hr Hc HT.
  assert (Hnd' : List.NoDup (map fst kes')).
  { eapply Permutation.Permutation_NoDup; [|exact Hnd].
    now apply Permutation.Permutation_map. }
  destruct (proj1 (fold_pieces_defined kes' acc Hr)) as (T' & HT').
  { eapply Permutation.Permutation_Forall; [exact Hp|].
    apply (fold_pieces_defined kes acc Hr). eauto. }
  rewrite HT'. f_equal.
  destruct (fold_pieces_wf _ _ _ HT Hwf) as (Hr1 & Hc1 & Hw1).
  destruct (fold_pieces_wf _ _ _ HT' Hwf) as (Hr2 & Hc2 & Hw2).
  apply wf_ext_eq; try congruence. intros i j.
  destruct (column_owner_dec kes j) as [(k & e & Hin & Hj)|Hno].
  - apply (In_nth _ _ 0) in Hj as (c & Hlt & <-).
    destruct (fold_pieces_written _ _ _ _ _ HT Hnd Hin Hc) as (Tk & HTk & HW).
    destruct (fold_pieces_written kes' _ _ k e HT' Hnd') as (Tk' & HTk' & HW');
      [eapply Permutation.Permutation_in; eauto | exact Hc |].
    rewrite (HW c i Hlt), (HW' c i Hlt). congruence.
  - rewrite (fold_pieces_frame _ _ _ i j HT Hno).
    apply (fold_pieces_frame _ _ _ i j HT'). intros k e Hin.
    apply (Hno k e). eapply Permutation.Permutation_in; [|exact Hin].
    now apply Permutation.Permutation_sym.
Qed.
End Composition.

(** ** The prediction of the orchestrator *)

Section Prediction.
Context {Mask : Type}.
Variable self : orchestrator Mask.
Variable l : labeling.
Variable es : list (option method_object).
Hypothesis Hl : labels_ self = Some l.
Hypothesis Hes : fit_ self = Some es.

Lemma piecewise_transform_fold X T :
  piecewise_transform self X = Ok T ->
  ncols X = length l /\
  foldM (transform_one_piece l X) (combine (seq 0 (length es)) es)
        (zeros_like X) = Ok T.
Proof.
  unfold piecewise_transform. rewrite Hl, Hes.
  destruct (Nat.eqb_spec (ncols X) (length l)); [now split | discriminate].
Qed.

(** The columns of a region with a fitted object are the prediction of
    that object on the columns of the region. *)
Theorem piecewise_transform_written X T k e :
  piecewise_transform self X = Ok T -> es !! k = Some (Some e) ->
  exists Tk,
    transform e (transpose (select_columns X (region_columns l k))) = Ok Tk /\
    forall c i, c < length (region_columns l k) ->
      mget T i (nth c (region_columns l k) 0) = mget Tk c i.
Proof.
  intros HT Hk. apply piecewise_transform_fold in HT as [Hc HT].
  apply (fold_pieces_written _ _ _ _ _ _ _ HT).
  - rewrite map_fst_combine_seq. apply seq_NoDup.
  - apply in_combine_seq. split; [lia | now rewrite Nat.sub_0_r].
  - exact Hc.
Qed.

(** The columns that no fitted object owns are zero. *)
Theorem piecewise_transform_frame X T i j :
  piecewise_transform self X = Ok T ->
  (forall e, es !! nth j l 0 = Some (Some e) -> length l <= j) ->
  mget T i j = 0%Q.
Proof.
  intros HT Hj. apply piecewise_transform_fold in HT as [Hc HT].
  rewrite (fold_pieces_frame _ _ _ _ _ i j HT); [apply mget_zeros_like_eq|].
  intros k e Hin Hjk. apply in_combine_seq in Hin as [_ Hk].
  rewrite Nat.sub_0_r in Hk. apply in_region_columns in Hjk as [Hlt <-].
  specialize (Hj e Hk). lia.
Qed.

(** The fold computes the prediction that [composed_entry] describes. *)
Theorem piecewise_transform_entrywise X T i j :
  piecewise_transform self X = Ok T -> mget T i j = composed_entry l es X i j.
Proof.
  intros HT. unfold composed_entry.
  destruct (es !! nth j l 0) as [[e|]|] eqn:Ek;
    [|apply (piecewise_transform_frame X T i j HT); congruence..].
  destruct (piecewise_transform_written X T _ e HT Ek) as (Tk & -> & HW).
  destruct (index_of j _) as [c|] eqn:Ec.
  - apply index_of_Some in Ec as [Hc <-]. now apply HW.
  - apply (piecewise_transform_frame X T i j HT). intros _ _.
    apply index_of_None in Ec. rewrite in_region_columns in Ec. lia.
Qed.

(** The prediction succeeds exactly when the contribution of every slot
    is defined. *)
Theorem piecewise_transform_defined X :
  ncols X = length l ->
  Forall (piece_defined l X) (combine (seq 0 (length es)) es) <->
  exists T, piecewise_transform self X = Ok T.
Proof.
  intros Hc. rewrite (fold_pieces_defined l X _ (zeros_like X) eq_refl).
  unfold piecewise_transform. rewrite Hl, Hes, Hc, Nat.eqb_refl. reflexivity.
Qed.
End Prediction.

(** ** Locality *)

Section Locality.
Context {Mask : Type} `{Partitioner Mask}.
Variable solve : solvers.

(** The fit of a region reads the columns of the region only. *)
Lemma fit_one_piece_local v l X Y X' Y' k :
  agree_on (region_columns l k) X X' -> agree_on (region_columns l k) Y Y' ->
  fit_one_piece solve v l X Y k = fit_one_piece solve v l X' Y' k.
Proof.
  intros HX HY. unfold fit_one_piece.
  destruct (region_columns l k); [reflexivity|].
  now rewrite (select_columns_agree _ _ _ HX), (select_columns_agree _ _ _ HY).
Qed.

(** Two fits of the same orchestrator on data that agree on a region
    store the same object for the region. *)
Lemma piecewise_fit_slot_local (self s1 s2 : orchestrator Mask)
    X Y X' Y' l es1 es2 k :
  piecewise_fit solve self X Y = Ok s1 ->
  piecewise_fit solve self X' Y' = Ok s2 ->
  labels_ s1 = Some l -> fit_ s1 = Some es1 -> fit_ s2 = Some es2 ->
  agree_on (region_columns l k) X X' -> agree_on (region_columns l k) Y Y' ->
  labels_ s2 = Some l /\ es1 !! k = es2 !! k.
Proof.
  intros H1 H2 Hl He1 He2 HX HY.
  apply piecewise_fit_ok in H1 as (_ & _ & _ & _ & l1 & a1 & Hg1 & Hl1 & Ha1 & _ & Hm1).
  apply piecewise_fit_ok in H2 as (_ & _ & _ & _ & l2 & a2 & Hg2 & Hl2 & Ha2 & _ & Hm2).
  assert (l1 = l) by congruence. assert (l2 = l) by congruence.
  assert (a1 = es1) by congruence. assert (a2 = es2) by congruence. subst.
  split; [exact Hl2|].
  pose proof (mapM_seq_lookup _ _ _ k Hm1) as E1.
  pose proof (mapM_seq_lookup _ _ _ k Hm2) as E2.
  rewrite (fit_one_piece_local _ _ _ _ _ _ _ HX HY) in E1.
  destruct (es1 !! k), (es2 !! k); try lia; [|reflexivity].
  destruct E1 as [_ E1], E2 as [_ E2]. congruence.
Qed.

(** The columns of a region in the prediction depend on the columns of
    that region only, in the data of the fit and in the data to map. *)
Theorem piecewise_local (self s1 s2 : orchestrator Mask)
    X Y X' Y' Z Z' T T' l k :
  piecewise_fit solve self X Y = Ok s1 ->
  piecewise_fit solve self X' Y' = Ok s2 ->
  labels_ s1 = Some l ->
  agree_on (region_columns l k) X X' -> agree_on (region_columns l k) Y Y' ->
  agree_on (region_columns l k) Z Z' ->
  piecewise_transform s1 Z = Ok T -> piecewise_transform s2 Z' = Ok T' ->
  forall i j, In j (region_columns l k) -> mget T i j = mget T' i j.
Proof.
  intros H1 H2 Hl HX HY HZ HT HT' i j Hj.
  destruct (fit_ s1) as [es1|] eqn:He1;
    [|unfold piecewise_transform in HT; now rewrite He1 in HT].
  destruct (fit_ s2) as [es2|] eqn:He2;
    [|unfold piecewise_transform in HT'; now rewrite He2 in HT'].
  destruct (piecewise_fit_slot_local _ _ _ _ _ _ _ _ _ _ k H1 H2 Hl He1 He2 HX HY)
    as [Hl2 Hk].
  rewrite (piecewise_transform_entrywise s1 l es1 Hl He1 Z T i j HT).
  rewrite (piecewise_transform_entrywise s2 l es2 Hl2 He2 Z' T' i j HT').
  apply in_region_columns in Hj as [_ Hj]. unfold composed_entry.
  now rewrite Hj, Hk, (select_columns_agree _ _ _ HZ).
Qed.
End Locality.

(** ** Predictions without unwritten columns *)

Section Written.
Context {Mask : Type} `{Partitioner Mask}.
Context `{!PartitionerLaws Mask} `{!PartitionerCovers Mask}.
Variable solve : solvers.

(** With a partitioner that leaves no region empty, every column of a
    prediction comes from the object of its region: none is left at the
    zero it was initialised with for lack of an object. *)
Theorem piecewise_transform_all_written (self s : orchestrator Mask)
    X Y Z T l es j :
  labels_ self = None -> piecewise_fit solve self X Y = Ok s ->
  labels_ s = Some l -> fit_ s = Some es ->
  piecewise_transform s Z = Ok T -> j < ncols Z ->
  exists e Tk c,
    es !! nth j l 0 = Some (Some e) /\
    transform e (transpose (select_columns Z (region_columns l (nth j l 0))))
      = Ok Tk /\
    index_of j (region_columns l (nth j l 0)) = Some c /\
    forall i, mget T i j = mget Tk c i.
Proof.
  intros Hfresh Hfit Hl Hes HT Hj.
  pose proof (piecewise_transform_fold s l es Hl Hes Z T HT) as [Hc _].
  destruct (piecewise_fit_ok _ _ _ _ _ Hfit)
    as (_ & _ & Hn & _ & l1 & a & Hg & Hl1 & _ & _ & _).
  assert (l1 = l) by congruence. subst l1.
  unfold get_labels in Hg. rewrite Hfresh in Hg.
  pose proof (create_labels_wf _ _ _ Hg) as [Hlen Hall].
  assert (Hk : nth j l 0 < n_pieces self).
  { rewrite List.Forall_forall in Hall. apply Hall, nth_In. lia. }
  destruct (piecewise_fit_all_fitted solve self s X Y es _ Hfresh Hfit Hes Hk)
    as (e & He).
  destruct (piecewise_transform_written s l es Hl Hes Z T _ e HT He)
    as (Tk & HTk & HW).
  assert (Hin : In j (region_columns l (nth j l 0)))
    by (apply in_region_columns; split; [lia | reflexivity]).
  apply (In_nth _ _ 0) in Hin as (c & Hlt & E).
  exists e, Tk, c. split; [exact He | split; [exact HTk|]]. split.
  - rewrite <- E at 1. apply index_of_nth; [apply NoDup_region_columns | exact Hlt].
  - intros i. rewrite <- E at 1. now apply HW.
Qed.
End Written.

(** ** Totality *)

Section Totality.
Context {Mask : Type} `{Partitioner Mask}.
Variable solve : solvers.

Lemma shape_eqb_select_columns X Y cols :
  shape_eqb X Y = true ->
  shape_eqb (select_columns X cols) (select_columns Y cols) = true.
Proof.
  intros Hs. apply shape_eqb_true in Hs as [Hr _]. apply shape_eqb_true.
  simpl. now split.
Qed.

(** The fit of the orchestrator succeeds when the method fits every pair
    of arrays of one shape. *)
Theorem piecewise_fit_total (self : orchestrator Mask) X Y l :
  fits_equal_shapes solve (alignment_method self) ->
  shape_eqb X Y = true -> get_labels self = Ok l -> ncols X = length l ->
  exists s, piecewise_fit solve self X Y = Ok s.
Proof.
  intros Hfit Hs Hl Hc. unfold piecewise_fit.
  rewrite Hs, Hl. cbn [negb bind]. rewrite Hc, Nat.eqb_refl. cbn [negb].
  destruct (mapM_exists (fit_one_piece solve (alignment_method self) l X Y)
              (seq 0 (n_pieces self))) as (es & ->); [|simpl; eauto].
  intros k _. unfold fit_one_piece.
  destruct (region_columns l k) as [|c cols]; [eauto|].
  destruct (Hfit _ _ (shape_eqb_select_columns X Y (c :: cols) Hs)) as (e & ->).
  simpl. eauto.
Qed.

(** What a slot of the fitted orchestrator holds, for a region with
    features: the object fitted on the columns of the region. *)
Lemma piecewise_fit_slot (self s : orchestrator Mask) X Y l es k e :
  piecewise_fit solve self X Y = Ok s ->
  labels_ s = Some l -> fit_ s = Some es -> es !! k = Some (Some e) ->
  region_columns l k <> [] /\
  fit solve (new_method (alignment_method self))
      (select_columns X (region_columns l k))
      (select_columns Y (region_columns l k)) = Ok e.
Proof.
  intros Hfit Hl Hes Hk.
  apply piecewise_fit_ok in Hfit
    as (_ & _ & _ & _ & l1 & a1 & _ & Hl1 & Ha1 & _ & Hm).
  assert (l1 = l) by congruence. assert (a1 = es) by congruence. subst.
  pose proof (mapM_seq_lookup _ _ _ k Hm) as E. rewrite Hk in E.
  destruct E as [_ E]. unfold fit_one_piece in E.
  destruct (region_columns l k) as [|c cols]; [discriminate|].
  split; [discriminate|]. apply bind_ok_inv in E as (e' & E & [= <-]).
  exact E.
Qed.

(** The prediction of the fitted orchestrator succeeds on every array
    with the columns of the fitted data, when the method applies what it
    has fitted on each region. *)
Theorem piecewise_transform_total (self s : orchestrator Mask) X Y Z l :
  piecewise_fit solve self X Y = Ok s -> labels_ s = Some l ->
  (forall k, applicable solve (alignment_method self)
               (select_columns X (region_columns l k))
               (select_columns Y (region_columns l k))) ->
  ncols Z = ncols X ->
  exists T, piecewise_transform s Z = Ok T.
Proof.
  intros Hfit Hl Happ Hc.
  destruct (piecewise_fit_ok _ _ _ _ _ Hfit)
    as (_ & _ & _ & _ & l1 & es & _ & Hl1 & Hes & Hlen & _).
  assert (l1 = l) by congruence. subst l1.
  apply (piecewise_transform_defined s l es Hl Hes); [congruence|].
  apply List.Forall_forall. intros [k [e|]] Hin; [|exact I].
  apply in_combine_seq in Hin as [_ Hk]. rewrite Nat.sub_0_r in Hk.
  destruct (piecewise_fit_slot _ _ _ _ _ _ _ _ Hfit Hl Hes Hk) as [Hne He].
  assert (Hpos : 0 < length (region_columns l k))
    by (destruct (region_columns l k); simpl; [congruence | lia]).
  destruct (Happ k e (transpose (select_columns Z (region_columns l k)))
              Hpos He eq_refl) as (T & HT & Hr & Hcol).
  exists T. split; [exact HT|]. split; [exact Hr | exact Hcol].
Qed.
End Totality.

(** ** The methods that apply what they have fitted *)

Lemma applicable_identity solve X Y : applicable solve Identity X Y.
Proof.
  intros e Z _ He _. unfold fit in He. simpl in He.
  destruct (shape_eqb X Y); [|discriminate]. inv He. cbn. eauto.
Qed.

Lemma transform_scaled_orthogonal_total v R sc Z :
  ncols R = nrows Z -> nrows R = nrows Z ->
  exists T, transform (Method v (Some (T_scaled_orthogonal R sc))) Z = Ok T /\
            nrows T = nrows Z /\ ncols T = ncols Z.
Proof.
  intros Hc Hr. unfold transform. simpl. rewrite Hc, Nat.eqb_refl.
  eexists. split; [reflexivity|]. simpl. split; [exact Hr | reflexivity].
Qed.

(** The scaled orthogonal method, for a solver that meets its contract on
    the data. *)
Lemma applicable_scaled_orthogonal solve scaling X Y :
  procrustes_contract X Y scaling (procrustes solve X Y scaling None) ->
  applicable solve (ScaledOrthogonal scaling) X Y.
Proof.
  intros HC e Z _ He HZ. unfold fit in He. simpl in He.
  apply bind_ok_inv in He as ([R sc] & HR & [= <-]). rewrite HR in HC.
  apply contract_solution in HC as ((Hsq & _) & Hn & _).
  apply transform_scaled_orthogonal_total; lia.
Qed.

Section Library.
Context `{LinearSolverLaws} `{AssignmentLaws} `{KernelLaws}.
Variable svd : svd_fun.
Variable n_iter : nat.
Hypothesis Hiter : 0 < n_iter.
Hypothesis Hsvd : svd_shaped svd.

(** Every method of the library whose configuration is valid applies what
    it has fitted. *)
Lemma applicable_library v X Y :
  valid_variant v -> applicable (library_solvers svd n_iter) v X Y.
Proof.
  intros Hv. destruct v as [| |scaling|reg|alpha];
    [apply applicable_identity | | | |]; intros e Z Hp He HZ.
  1,3,4: match type of He with fit _ (new_method ?v) _ _ = _ =>
    exact (fit_transform_linear svd n_iter v X Y e Z I Hv Hiter Hp He HZ) end.
  unfold fit in He. simpl in He.
  apply bind_ok_inv in He as ([R sc] & HR & [= <-]).
  apply (scaled_procrustes_shape _ _ _ _ _ _ _ Hsvd) in HR as [Hr Hc].
  apply transform_scaled_orthogonal_total; lia.
Qed.

(** With the solvers of the library, every method whose configuration is
    valid fits each region and maps new data region by region, for any
    labeling of the columns. *)
Theorem library_piecewise_total {Mask : Type} `{Partitioner Mask}
    (self : orchestrator Mask) X Y Z l :
  valid_variant (alignment_method self) ->
  shape_eqb X Y = true -> get_labels self = Ok l -> ncols X = length l ->
  ncols Z = ncols X ->
  exists s T,
    piecewise_fit (library_solvers svd n_iter) self X Y = Ok s /\
    piecewise_transform s Z = Ok T /\
    nrows T = nrows Z /\ ncols T = ncols Z.
Proof.
  intros Hv Hs Hl Hc HZ.
  destruct (piecewise_fit_total (library_solvers svd n_iter) self X Y l)
    as (s & Hfit); try assumption.
  { intros A B HAB. destruct (fit_total svd n_iter _ A B Hv HAB) as (e & He & _).
    eauto. }
  destruct (piecewise_fit_ok _ _ _ _ _ Hfit)
    as (_ & _ & _ & _ & l1 & es & Hl1 & Hls & _).
  assert (l1 = l) by congruence. subst l1.
  destruct (piecewise_transform_total (library_solvers svd n_iter)
              self s X Y Z l Hfit Hls) as (T & HT); [|exact HZ|].
  { intros k. now apply applicable_library. }
  exists s, T. split; [exact Hfit|]. split; [exact HT|].
  now apply piecewise_transform_shape in HT.
Qed.
End Library.

(** ** A partitioner, and a run with two regions *)

(** A partitioner for plain arrays: the mask is the number of features,
    and the region of a feature is the residue of its position. *)
Definition striped (m n : nat) : labeling := map (fun j => j mod n) (seq 0 m).

#[export] Instance striped_partitioner : Partitioner nat := {
  n_features_of m := m;
  cluster := striped
}.

#[export] Instance striped_laws : PartitionerLaws nat.
Proof.
  split. intros m n Hn _. split; simpl; unfold striped.
  - now rewrite length_map, length_seq.
  - apply List.Forall_forall. intros k Hk. apply in_map_iff in Hk as (j & <- & _).
    apply Nat.mod_upper_bound. lia.
Qed.

#[export] Instance striped_covers : PartitionerCovers nat.
Proof.
  split. intros m n Hn Hm k Hk. simpl in *. unfold striped.
  apply in_map_iff. exists k. split; [now apply Nat.mod_small|].
  apply in_seq. lia.
Qed.

(** Two regions of two features each; the target exchanges the two
    features of each region.  The permutation method, fitted region by
    region, maps the source to the target. *)
Example two_regions_example :
  let X := array [[1; 2; 3; 4]; [5; 6; 7; 9]]%Q in
  let Y := array [[3; 4; 1; 2]; [7; 9; 5; 6]]%Q in
  let solve := library_solvers (fun A => (A, [], A)) 1 in
  exists s T,
    piecewise_fit solve (new_orchestrator Permutation 2 4) X Y = Ok s /\
    labels_ s = Some [0; 1; 0; 1] /\
    piecewise_transform s X = Ok T /\ meqb T Y = true.
Proof.
  eexists. eexists. split; [vm_compute; reflexivity|].
  split; [reflexivity|]. split; [vm_compute; reflexivity|].
  vm_compute. reflexivity.
Qed.

(** The same fit by two workers whose tasks overlap: both take a region
    before either gives its result back, the second worker finishes first,
    and the join leaves what [piecewise_fit] returns. *)
Example two_workers_example :
  let X := array [[1; 2; 3; 4]; [5; 6; 7; 9]]%Q in
  let Y := array [[3; 4; 1; 2]; [7; 9; 5; 6]]%Q in
  let solve := library_solvers (fun A => (A, [], A)) 1 in
  let o := new_orchestrator Permutation 2 4 in
  exists p s,
    nsteps (pool_step solve o 2) 4 (Pool (start_job o X Y [0; 1; 0; 1]) []) p /\
    map fst (in_flight p) = [] /\
    pool_end solve o p (Idle s) /\
    piecewise_fit solve o X Y = Ok s.
Proof.
  cbv zeta. eexists. eexists. split.
  { eapply nsteps_l;
      [apply (pool_take _ _ _ _ 0 0); vm_compute; lia || tauto|].
    eapply nsteps_l;
      [apply (pool_take _ _ _ _ 1 1); vm_compute; lia || intuition lia|].
    eapply nsteps_l;
      [apply (pool_give _ _ _ _ 1 1);
       [vm_compute; tauto | vm_compute; reflexivity]|].
    eapply nsteps_l;
      [apply (pool_give _ _ _ _ 0 0);
       [vm_compute; tauto | vm_compute; reflexivity]|].
    apply nsteps_O. }
  split; [reflexivity|]. split; [apply pool_join; reflexivity|].
  vm_compute. reflexivity.
Qed.
