(* ===== verification/Pairwise.v ===== *)
(** * Pairwise: the masker and the pairwise alignment facade

    [PairwiseAlignment] coordinates the masker, which turns images into
    sample matrices and back, with the piecewise orchestrator
    (specification, sections 2 and 6).  Its source and the masker's are not
    part of the sources at hand.  The masker is an interface, [Masker], with
    the laws [MaskerLaws] that its clients rely on; [NiftiMasker] is the
    instance the example script builds: a boolean mask over the voxel grid
    that keeps the values of the voxels inside the mask.  The value of a
    voxel of the mask is held by the column of its [rank] among the voxels
    of the mask.  An image that is not on the grid of the mask is resampled
    to it before it is masked; the resampling is that of the image library,
    an interface here, [Resampler], of which the masker uses the grid of
    the result only. *)

From stdpp Require Import base list.
From Stdlib Require Import ZArith QArith Lia Bool Arith.
From Stdlib Require String.
Import String.StringSyntax.
Delimit Scope string_scope with string.
#[local] Set Warnings "-notation-incompatible-prefix".
From S2P Require Import Prelude Matrix Orthogonal Procrustes Methods Piecewise.
Close Scope Q_scope.
Open Scope nat_scope.
Open Scope mat_scope.
Open Scope align_scope.

(** ** Images *)

(** The values of an image on the voxel grid, in the order of the grid. *)
Definition volume : Type := list Q.

(** ** Resampling *)

(** The resampling of the image library: the values of an image on a grid
    of [n] voxels. *)
Class Resampler : Type := {
  resample_img : volume -> nat -> volume;
  resample_img_length (v : volume) (n : nat) : length (resample_img v n) = n
}.

(** A resampling to run the definitions with: voxel [i] of the new grid
    takes the value of the voxel of the image at the same relative
    position. *)
Definition resample_nearest (v : volume) (n : nat) : volume :=
  map (fun i => nth (i * length v / n) v 0%Q) (seq 0 n).

Lemma length_resample_nearest v n : length (resample_nearest v n) = n.
Proof. unfold resample_nearest. now rewrite length_map, length_seq. Qed.

Definition nearest_resampler : Resampler :=
  {| resample_img := resample_nearest;
     resample_img_length := length_resample_nearest |}.

(** ** The masker interface *)

Class Masker (M : Type) : Type := {
  (** [masker.fit()] *)
  masker_fit : M -> M;
  (** the number of voxels inside the mask *)
  masker_features : M -> nat;
  (** [masker.transform(imgs)]: one row per image, one column per voxel of
      the mask *)
  masker_transform : M -> list volume -> result matrix;
  (** [masker.inverse_transform(X)]: one image per row *)
  masker_inverse_transform : M -> matrix -> result (list volume)
}.

Class MaskerLaws (M : Type) `{Masker M} : Prop := {
  masker_fit_idempotent (m : M) : masker_fit (masker_fit m) = masker_fit m;
  masker_fit_features (m : M) :
    masker_features (masker_fit m) = masker_features m;
  masker_transform_shape (m : M) vols T :
    masker_transform m vols = Ok T ->
    nrows T = length vols /\ ncols T = masker_features m /\ wf T;
  masker_inverse_ok (m : M) T :
    ncols T = masker_features m ->
    is_ok (masker_inverse_transform (masker_fit m) T) = true;
  masker_round_trip (m : M) T vols :
    wf T -> masker_inverse_transform m T = Ok vols ->
    masker_transform m vols = Ok T
}.

(** ** The masker of the example *)

Record NiftiMasker : Type := Build_NiftiMasker {
  mask_img : list bool;
  fitted_ : bool
}.

(** [NiftiMasker(mask_img=mask)] *)
Definition nifti_masker (mask : list bool) : NiftiMasker :=
  Build_NiftiMasker mask false.

Definition count_true (mask : list bool) : nat :=
  length (List.filter (fun b => b) mask).

(** The values of the voxels inside the mask. *)
Fixpoint apply_mask (mask : list bool) (v : volume) : list Q :=
  match mask, v with
  | true :: mask', x :: v' => x :: apply_mask mask' v'
  | false :: mask', _ :: v' => apply_mask mask' v'
  | _, _ => []
  end.

(** The image that holds the given values inside the mask and zero
    outside. *)
Fixpoint unmask (mask : list bool) (r : list Q) : volume :=
  match mask with
  | [] => []
  | true :: mask' => hd 0%Q r :: unmask mask' (tl r)
  | false :: mask' => 0%Q :: unmask mask' r
  end.

(** The position of voxel [v] among the voxels of the mask: the column of
    the masked data that holds its values. *)
Definition rank (mask : list bool) (v : nat) : nat :=
  count_true (firstn v mask).

(** The image on the grid of the mask: an image on another grid is
    resampled to it. *)
Definition conform `{Resampler} (mask : list bool) (v : volume) : volume :=
  if length v =? length mask then v else resample_img v (length mask).

Definition mask_volume `{Resampler} (mask : list bool) (v : volume)
  : list Q :=
  apply_mask mask (conform mask v).

Definition nifti_transform `{Resampler} (m : NiftiMasker)
    (vols : list volume) : result matrix :=
  if fitted_ m then
    Ok (Matrix (length vols) (count_true (mask_img m))
               (map (mask_volume (mask_img m)) vols))
  else Err NotFittedError.

Definition nifti_inverse_transform (m : NiftiMasker) (T : matrix)
  : result (list volume) :=
  if fitted_ m then
    if ncols T =? count_true (mask_img m)
    then Ok (map (fun i => unmask (mask_img m) (row T i)) (seq 0 (nrows T)))
    else Err ShapeMismatch
  else Err NotFittedError.

#[export] Instance NiftiMasker_Masker `{Resampler} : Masker NiftiMasker := {
  masker_fit m := Build_NiftiMasker (mask_img m) true;
  masker_features m := count_true (mask_img m);
  masker_transform := nifti_transform;
  masker_inverse_transform := nifti_inverse_transform
}.

(** ** Masking and unmasking *)

Lemma length_apply_mask mask v :
  length v = length mask -> length (apply_mask mask v) = count_true mask.
Proof.
  revert v. induction mask as [|[|] mask IH]; intros [|x v] Hl;
    simpl in *; try lia; try reflexivity.
  - unfold count_true in *. simpl. rewrite IH by lia. reflexivity.
  - unfold count_true in *. simpl. apply IH. lia.
Qed.

Lemma length_unmask mask r : length (unmask mask r) = length mask.
Proof.
  revert r. induction mask as [|[|] mask IH]; intros r; simpl;
    now rewrite ?IH.
Qed.

(** Masking what was unmasked gives the values back. *)
Lemma apply_mask_unmask mask r :
  length r = count_true mask -> apply_mask mask (unmask mask r) = r.
Proof.
  revert r. induction mask as [|[|] mask IH]; intros r Hl;
    unfold count_true in *; simpl in *.
  - now destruct r.
  - destruct r as [|x r]; simpl in *; [lia|]. rewrite IH by lia. reflexivity.
  - now apply IH.
Qed.

Lemma length_row T i : length (row T i) = ncols T.
Proof. unfold row. now rewrite length_map, length_seq. Qed.

(** The only row of the array of one list of values. *)
Lemma row_single (s : list Q) : row (Matrix 1 (length s) [s]) 0 = s.
Proof.
  apply nth_ext with (d := 0%Q) (d' := 0%Q); [apply length_row|].
  intros j Hj. rewrite length_row in Hj. simpl in Hj. unfold row.
  rewrite (nth_map_seq _ _ _ _ Hj). unfold mget. simpl.
  now rewrite (proj2 (Nat.ltb_lt j (length s)) Hj).
Qed.

(** What holds of the values and of zero holds at every voxel of the
    unmasked image. *)
Lemma unmask_Forall (P : Q -> Prop) mask r :
  P 0%Q -> Forall P r -> Forall P (unmask mask r).
Proof.
  intros H0. revert r. induction mask as [|[|] mask IH]; intros r Hr; simpl.
  - constructor.
  - constructor; [|apply IH]; destruct Hr; simpl; auto.
  - constructor; [exact H0 | now apply IH].
Qed.

Section Resampled.
Context `{Resampler}.

(** Every image is brought to the grid of the mask. *)
Lemma length_conform mask v : length (conform mask v) = length mask.
Proof.
  unfold conform. destruct (Nat.eqb_spec (length v) (length mask));
    [assumption | apply resample_img_length].
Qed.

(** An image on the grid of the mask is masked as it is. *)
Lemma conform_on_grid mask v : length v = length mask -> conform mask v = v.
Proof. intros Hl. unfold conform. now rewrite Hl, Nat.eqb_refl. Qed.

Lemma length_mask_volume mask v :
  length (mask_volume mask v) = count_true mask.
Proof. apply length_apply_mask, length_conform. Qed.

Lemma nifti_round_trip (m : NiftiMasker) T vols :
  wf T -> nifti_inverse_transform m T = Ok vols ->
  nifti_transform m vols = Ok T.
Proof.
  unfold nifti_inverse_transform, nifti_transform. intros HT.
  destruct (fitted_ m); [|discriminate].
  destruct (Nat.eqb_spec (ncols T) (count_true (mask_img m))) as [Hc|];
    [|discriminate].
  intros [= <-]. rewrite length_map, length_seq, map_map, <- Hc. f_equal.
  transitivity (mk (nrows T) (ncols T) (mget T)); [|now apply mk_mget_wf].
  unfold mk. f_equal. apply map_ext_in. intros i _.
  unfold mask_volume. rewrite conform_on_grid by apply length_unmask.
  apply apply_mask_unmask. rewrite <- Hc. apply (length_row T i).
Qed.

Lemma nifti_transform_shape (m : NiftiMasker) vols T :
  nifti_transform m vols = Ok T ->
  nrows T = length vols /\ ncols T = count_true (mask_img m) /\ wf T.
Proof.
  unfold nifti_transform. destruct (fitted_ m); [|discriminate].
  intros [= <-]. simpl. split; [reflexivity | split; [reflexivity|]].
  split; simpl; [apply length_map|].
  apply List.Forall_forall. intros r Hr.
  apply in_map_iff in Hr as (v & <- & _). apply length_mask_volume.
Qed.

(** A fitted masker transforms every list of images; the images on its
    grid are masked as they are. *)
Lemma nifti_transform_ok (m : NiftiMasker) vols :
  fitted_ m = true ->
  exists T, nifti_transform m vols = Ok T.
Proof. intros Hf. unfold nifti_transform. rewrite Hf. eauto. Qed.

Lemma nifti_transform_on_grid (m : NiftiMasker) vols :
  fitted_ m = true ->
  (forall v, In v vols -> length v = length (mask_img m)) ->
  nifti_transform m vols =
  Ok (Matrix (length vols) (count_true (mask_img m))
             (map (apply_mask (mask_img m)) vols)).
Proof.
  intros Hf Hg. unfold nifti_transform. rewrite Hf. do 2 f_equal.
  apply map_ext_in. intros v Hv. unfold mask_volume.
  now rewrite conform_on_grid by auto.
Qed.
End Resampled.

(** The images of an array: one per row, each on the grid of the mask. *)
Lemma nifti_inverse_transform_shape (m : NiftiMasker) T vols :
  nifti_inverse_transform m T = Ok vols ->
  length vols = nrows T /\
  Forall (fun v => length v = length (mask_img m)) vols.
Proof.
  unfold nifti_inverse_transform. destruct (fitted_ m); [|discriminate].
  destruct (ncols T =? count_true (mask_img m)); [|discriminate].
  intros [= <-]. rewrite length_map, length_seq. split; [reflexivity|].
  apply List.Forall_forall. intros v Hv.
  apply in_map_iff in Hv as (i & <- & _). apply length_unmask.
Qed.

(** An unmasked image is zero outside the mask. *)
Lemma unmask_outside mask r i :
  nth i mask false = false -> nth i (unmask mask r) 0%Q = 0%Q.
Proof.
  revert r i. induction mask as [|[|] mask IH]; intros r [|i] Hi;
    simpl in *; try reflexivity; try discriminate; now apply IH.
Qed.

Lemma rank_bound mask v :
  nth v mask false = true -> rank mask v < count_true mask.
Proof.
  unfold rank, count_true. revert v.
  induction mask as [|b mask IH]; intros [|v] Hv; simpl in *;
    try discriminate.
  - subst b. simpl. lia.
  - specialize (IH v Hv). destruct b; simpl; lia.
Qed.

(** Inside the mask an unmasked image holds the value of the voxel's
    rank. *)
Lemma unmask_inside mask r v :
  nth v mask false = true ->
  nth v (unmask mask r) 0%Q = nth (rank mask v) r 0%Q.
Proof.
  unfold rank, count_true. revert r v.
  induction mask as [|b mask IH]; intros r [|v] Hv; simpl in *;
    try discriminate.
  - subst b. now destruct r.
  - destruct b; simpl; rewrite (IH _ v Hv); [|reflexivity].
    now destruct r as [|x r]; [destruct (length _)|].
Qed.

(** Voxels of the mask with the same rank are the same voxel. *)
Lemma rank_inj mask v w :
  nth v mask false = true -> nth w mask false = true ->
  rank mask v = rank mask w -> v = w.
Proof.
  unfold rank, count_true. revert v w.
  induction mask as [|b mask IH]; intros [|v] [|w] Hv Hw E; simpl in *;
    try discriminate; try reflexivity.
  - subst b. simpl in E. lia.
  - subst b. simpl in E. lia.
  - f_equal. apply IH; try assumption. destruct b; simpl in E; lia.
Qed.

Lemma nth_row T i j : j < ncols T -> nth j (row T i) 0%Q = mget T i j.
Proof. intros Hj. unfold row. now rewrite (nth_map_seq _ _ _ _ Hj). Qed.

(** The value of the image of row [i] at voxel [v]. *)
Lemma nifti_inverse_transform_voxel (m : NiftiMasker) T vols i v :
  nifti_inverse_transform m T = Ok vols -> i < nrows T ->
  nth v (nth i vols []) 0%Q =
  if nth v (mask_img m) false then mget T i (rank (mask_img m) v) else 0%Q.
Proof.
  unfold nifti_inverse_transform. destruct (fitted_ m); [|discriminate].
  destruct (Nat.eqb_spec (ncols T) (count_true (mask_img m))) as [Hc|];
    [|discriminate].
  intros [= <-] Hi. rewrite (nth_map_seq _ _ _ _ Hi).
  destruct (nth v (mask_img m) false) eqn:Hv.
  - rewrite (unmask_inside _ _ _ Hv). apply nth_row.
    rewrite Hc. now apply rank_bound.
  - now apply unmask_outside.
Qed.

#[export] Instance NiftiMasker_Laws `{Resampler} : MaskerLaws NiftiMasker.
Proof.
  split.
  - reflexivity.
  - reflexivity.
  - exact nifti_transform_shape.
  - intros m T Hc. simpl in *. unfold nifti_inverse_transform. simpl.
    now rewrite Hc, Nat.eqb_refl.
  - exact nifti_round_trip.
Qed.

(** ** The facade *)

(** The method names of the configuration, and the variant each stands
    for; any other name is refused. *)
Definition parse_method (name : String.string) (scaling : bool) (reg : Q)
  : result variant :=
  if String.eqb name "identity" then Ok Identity
  else if String.eqb name "permutation" then Ok Permutation
  else if String.eqb name "scaled_orthogonal" then Ok (ScaledOrthogonal scaling)
  else if String.eqb name "optimal_transport" then Ok (OptimalTransport reg)
  else if String.eqb name "ridge" then Ok (Ridge reg)
  else Err InvalidConfiguration.

(** The configuration surface and the fitted orchestrator, if any. *)
Record pairwise_alignment (M : Type) : Type := Build_PairwiseAlignment {
  pa_alignment_method : String.string;
  pa_n_pieces : nat;
  pa_mask : M;
  pa_scaling : bool;
  pa_reg : Q;
  pa_fit_ : option (orchestrator M)
}.

Arguments Build_PairwiseAlignment {M} _ _ _ _ _ _.
Arguments pa_alignment_method {M} _.
Arguments pa_n_pieces {M} _.
Arguments pa_mask {M} _.
Arguments pa_scaling {M} _.
Arguments pa_reg {M} _.
Arguments pa_fit_ {M} _.

(** [PairwiseAlignment(alignment_method=..., n_pieces=..., mask=...)], with
    the options the caller leaves to their defaults given explicitly. *)
Definition PairwiseAlignment {M : Type} (alignment_method : String.string)
    (n_pieces : nat) (mask : M) (scaling : bool) (reg : Q)
  : pairwise_alignment M :=
  Build_PairwiseAlignment alignment_method n_pieces mask scaling reg None.

Section Facade.
Context {M : Type} `{Masker M} `{Partitioner M}.
Variable solve : solvers.

(** The orchestrator a fit works on: the stored one, with its labeling, or
    a fresh one for the configured method. *)
Definition facade_orchestrator (self : pairwise_alignment M) (v : variant)
  : orchestrator M :=
  match pa_fit_ self with
  | Some o => o
  | None => new_orchestrator v (pa_n_pieces self) (pa_mask self)
  end.

(** [self.fit(X, Y)] on images. *)
Definition pairwise_fit (self : pairwise_alignment M) (X Y : list volume)
  : result (pairwise_alignment M) :=
  v <- parse_method (pa_alignment_method self) (pa_scaling self)
                    (pa_reg self) ;;
  X_ <- masker_transform (pa_mask self) X ;;
  Y_ <- masker_transform (pa_mask self) Y ;;
  o <- piecewise_fit solve (facade_orchestrator self v) X_ Y_ ;;
  Ok (Build_PairwiseAlignment (pa_alignment_method self) (pa_n_pieces self)
        (pa_mask self) (pa_scaling self) (pa_reg self) (Some o)).

(** [self.transform(X)] on images: mask, map region by region, unmask. *)
Definition pairwise_transform (self : pairwise_alignment M) (X : list volume)
  : result (list volume) :=
  match pa_fit_ self with
  | None => Err NotFittedError
  | Some o =>
      X_ <- masker_transform (pa_mask self) X ;;
      T <- piecewise_transform o X_ ;;
      masker_inverse_transform (pa_mask self) T
  end.

Lemma pairwise_transform_unfitted (self : pairwise_alignment M) X :
  pa_fit_ self = None -> pairwise_transform self X = Err NotFittedError.
Proof. unfold pairwise_transform. now intros ->. Qed.

(** After a successful fit, [transform] no longer raises
    [NotFittedError] for want of a fit. *)
Lemma pairwise_fit_fitted (self self' : pairwise_alignment M) X Y :
  pairwise_fit self X Y = Ok self' ->
  pa_mask self' = pa_mask self /\
  exists o, pa_fit_ self' = Some o /\ orchestrator_state o = FITTED.
Proof.
  unfold pairwise_fit. intros Hf.
  apply bind_ok_inv in Hf as (v & _ & Hf).
  apply bind_ok_inv in Hf as (X_ & _ & Hf).
  apply bind_ok_inv in Hf as (Y_ & _ & Hf).
  apply bind_ok_inv in Hf as (o & Ho & Hf). injection Hf as <-.
  split; [reflexivity|]. exists o. split; [reflexivity|].
  now apply piecewise_fit_ok in Ho.
Qed.

(** Fitting the fitted facade again on the same images changes nothing. *)
Lemma pairwise_fit_idempotent (self self' : pairwise_alignment M) X Y :
  pairwise_fit self X Y = Ok self' -> pairwise_fit self' X Y = Ok self'.
Proof.
  unfold pairwise_fit. intros Hf.
  apply bind_ok_inv in Hf as (v & Hv & Hf).
  apply bind_ok_inv in Hf as (X_ & HX & Hf).
  apply bind_ok_inv in Hf as (Y_ & HY & Hf).
  apply bind_ok_inv in Hf as (o & Ho & [= <-]).
  cbn [pa_alignment_method pa_scaling pa_reg pa_mask pa_n_pieces pa_fit_].
  rewrite Hv, HX, HY. cbn [bind]. unfold facade_orchestrator at 1.
  cbn [pa_fit_]. now rewrite (piecewise_fit_idempotent solve _ o X_ Y_ Ho).
Qed.

(** What the facade returns is zero outside the mask, for the masker of
    the example. *)
Lemma nifti_inverse_transform_outside (m : NiftiMasker) T vols :
  nifti_inverse_transform m T = Ok vols ->
  Forall (fun v => forall i, nth i (mask_img m) false = false ->
                             nth i v 0%Q = 0%Q) vols.
Proof.
  unfold nifti_inverse_transform. destruct (fitted_ m); [|discriminate].
  destruct (ncols T =? count_true (mask_img m)); [|discriminate].
  intros [= <-]. apply List.Forall_forall. intros v Hv.
  apply in_map_iff in Hv as (r & <- & _). intros i Hi.
  now apply unmask_outside.
Qed.

(** With one piece, the facade fits one method object on the masked data
    and maps new images through it. *)
Lemma pairwise_single_piece (self : pairwise_alignment M) v Xs Ys X_ Y_ e :
  pa_n_pieces self = 1 -> pa_fit_ self = None ->
  parse_method (pa_alignment_method self) (pa_scaling self) (pa_reg self)
    = Ok v ->
  masker_transform (pa_mask self) Xs = Ok X_ ->
  masker_transform (pa_mask self) Ys = Ok Y_ ->
  wf X_ -> wf Y_ -> shape_eqb X_ Y_ = true ->
  n_features_of (pa_mask self) = ncols X_ -> 0 < ncols X_ ->
  fit solve (new_method v) X_ Y_ = Ok e ->
  exists self',
    pairwise_fit self Xs Ys = Ok self' /\
    forall Zs Z_, masker_transform (pa_mask self) Zs = Ok Z_ ->
      wf Z_ -> ncols Z_ = ncols X_ -> fitted_dim (ncols X_) e ->
      pairwise_transform self' Zs =
      (T <- transform e (transpose Z_) ;;
       masker_inverse_transform (pa_mask self) (transpose T)).
Proof.
  intros Hn Hfit Hv HX HY HwX HwY Hs Hp Hpos He.
  unfold pairwise_fit, facade_orchestrator. rewrite Hv, HX, HY, Hfit. simpl.
  rewrite single_piece_fit; simpl; auto. rewrite He. simpl.
  eexists. split; [reflexivity|]. intros Zs Z_ HZ HwZ Hc Hd.
  unfold pairwise_transform. simpl. rewrite HZ. simpl.
  rewrite (single_piece_transform _ Z_ e); simpl; try congruence.
  now destruct (transform e (transpose Z_)).
Qed.
End Facade.

Lemma parse_method_scaled_orthogonal scaling reg :
  parse_method "scaled_orthogonal"%string scaling reg =
  Ok (ScaledOrthogonal scaling).
Proof. reflexivity. Qed.

(** Only the five names of the configuration surface are accepted. *)
Lemma parse_method_ok name scaling reg v :
  parse_method name scaling reg = Ok v ->
  In name ["identity"; "permutation"; "scaled_orthogonal";
           "optimal_transport"; "ridge"]%string.
Proof.
  unfold parse_method.
  repeat match goal with
  | |- context [String.eqb name ?s] =>
      destruct (String.eqb_spec name s) as [->|_]; [simpl; tauto|]
  end.
  discriminate.
Qed.

(** The partitioner of a masker: the mask defines the number of features,
    and the clustering is the collaborator's. *)
(** A facade configured for the scaled orthogonal method, and not fitted
    before, reaches no solver but the Procrustes solver. *)
Lemma pairwise_fit_procrustes_only {M : Type} `{Masker M} `{Partitioner M}
    p l1 l2 (self : pairwise_alignment M) X Y :
  pa_alignment_method self = "scaled_orthogonal"%string ->
  pa_fit_ self = None ->
  pairwise_fit (Solvers p l1) self X Y = pairwise_fit (Solvers p l2) self X Y.
Proof.
  intros Hm Hf. unfold pairwise_fit, facade_orchestrator.
  rewrite Hm, Hf, parse_method_scaled_orthogonal. cbn [bind].
  destruct (masker_transform (pa_mask self) X) as [X_|]; [|reflexivity].
  destruct (masker_transform (pa_mask self) Y) as [Y_|]; [|reflexivity].
  cbn [bind]. now rewrite (piecewise_fit_procrustes_only p l1 l2).
Qed.

Definition masker_partitioner {M : Type} `{Masker M}
    (clustering : M -> nat -> labeling) : Partitioner M :=
  {| n_features_of := masker_features; cluster := clustering |}.
