(* ===== verification/Voxels.v ===== *)
(** * Voxels: the prediction of the facade, voxel by voxel

    The facade masks the images, lets the orchestrator map the masked data
    region by region and unmasks the result.  This file composes the
    description of the masker of the example ([Pairwise]) with the
    description of the orchestrator's prediction ([Regions]): the value of a
    predicted image at a voxel of the mask is the entry that the object of
    the voxel's region computes, and it is zero at every other voxel.  The
    region of a voxel is found through its rank among the voxels of the
    mask.  The end of the file gives the masker a partitioner,
    [mask_blocks], and runs the facade with two regions. *)

From stdpp Require Import base list.
From Stdlib Require Import ZArith QArith Lia Bool Arith.
#[local] Set Warnings "-notation-incompatible-prefix".
From Stdlib Require String.
Import String.StringSyntax.
From S2P Require Import Prelude Matrix Linsolve Orthogonal Procrustes Methods.
From S2P Require Import Assignment Transport Solvers.
From S2P Require Import Piecewise Partition Regions Pairwise.
Close Scope Q_scope.
Open Scope nat_scope.
Open Scope mat_scope.
Open Scope align_scope.

(** ** Definitions *)

(** The value of the predicted image [i] at voxel [v], as the fitted model
    [(l, es)] determines it from the masked images [Z_]. *)
Definition predicted_voxel (mask : list bool) (l : labeling)
    (es : list (option method_object)) (Z_ : matrix) (i v : nat) : Q :=
  if nth v mask false then composed_entry l es Z_ i (rank mask v) else 0%Q.

(** ** The prediction of the facade *)

Section Facade.
Context {resampler : Resampler} `{Partitioner NiftiMasker}.

(** Every voxel of every predicted image is the value [predicted_voxel]:
    the entry computed by the object of the voxel's region inside the
    mask, zero outside. *)
Theorem pairwise_transform_voxel (est : pairwise_alignment NiftiMasker)
    o l es Zs Z_ imgs i v :
  pa_fit_ est = Some o -> labels_ o = Some l -> fit_ o = Some es ->
  masker_transform (pa_mask est) Zs = Ok Z_ ->
  pairwise_transform est Zs = Ok imgs -> i < length Zs ->
  nth v (nth i imgs []) 0%Q =
  predicted_voxel (mask_img (pa_mask est)) l es Z_ i v.
Proof.
  intros Ho Hl Hes HZ Hp Hi. unfold pairwise_transform in Hp.
  rewrite Ho, HZ in Hp. cbn [bind] in Hp.
  apply bind_ok_inv in Hp as (T & HT & Hinv).
  destruct (piecewise_transform_shape _ _ _ HT) as [Hr _].
  apply masker_transform_shape in HZ as (HZr & _).
  simpl in Hinv.
  rewrite (nifti_inverse_transform_voxel _ _ _ i v Hinv) by congruence.
  unfold predicted_voxel. destruct (nth v _ false); [|reflexivity].
  apply (piecewise_transform_entrywise o l es Hl Hes Z_ T _ _ HT).
Qed.

(** The number of predicted images is the number of images given. *)
Lemma pairwise_transform_length (est : pairwise_alignment NiftiMasker)
    Zs imgs :
  pairwise_transform est Zs = Ok imgs -> length imgs = length Zs.
Proof.
  unfold pairwise_transform. destruct (pa_fit_ est) as [o|]; [|discriminate].
  intros Hp. apply bind_ok_inv in Hp as (Z_ & HZ & Hp).
  apply bind_ok_inv in Hp as (T & HT & Hinv).
  destruct (piecewise_transform_shape _ _ _ HT) as [Hr _].
  apply masker_transform_shape in HZ as (HZr & _).
  apply nifti_inverse_transform_shape in Hinv as [Hl _]. congruence.
Qed.
End Facade.

(** ** A partitioner for the masker

    The voxels of the mask, in their order on the grid, cut into intervals
    of nearly equal length: the partitioner [blocks] of [Partition] on the
    columns of the masked data. *)

Definition mask_blocks (m : NiftiMasker) (n : nat) : labeling :=
  blocks (Segment (count_true (mask_img m))) n.

Section MaskBlocks.
Context {resampler : Resampler}.

#[local] Instance mask_blocks_partitioner : Partitioner NiftiMasker :=
  masker_partitioner mask_blocks.

#[local] Instance mask_blocks_laws : PartitionerLaws NiftiMasker.
Proof.
  split. intros m n Hn Hp.
  exact (cluster_wf (Segment (count_true (mask_img m))) n Hn Hp).
Qed.

#[local] Instance mask_blocks_covers : PartitionerCovers NiftiMasker.
Proof.
  split. intros m n Hn Hp.
  exact (cluster_covers (Segment (count_true (mask_img m))) n Hn Hp).
Qed.

(** The region of a voxel of the mask: the interval of its rank. *)
Lemma mask_blocks_region m n v :
  nth v (mask_img m) false = true ->
  nth (rank (mask_img m) v) (mask_blocks m n) 0 =
  block_of (count_true (mask_img m)) n (rank (mask_img m) v).
Proof.
  intros Hv. unfold mask_blocks. apply nth_blocks. simpl.
  now apply rank_bound.
Qed.

(** The facade with two regions, on a grid of five voxels of which four are
    in the mask.  The target exchanges the two voxels of each region; the
    permutation method, fitted region by region, predicts the images of
    the target, and the voxel outside the mask stays at zero. *)
Example facade_two_regions :
  let m := masker_fit (nifti_masker [true; true; false; true; true]) in
  let Xs := [[1; 2; 0; 3; 4]; [5; 6; 0; 7; 9]]%Q in
  let Ys := [[2; 1; 8; 4; 3]; [6; 5; 8; 9; 7]]%Q in
  let solve := library_solvers (fun A => (A, [], A)) 1 in
  exists est o imgs T,
    pairwise_fit solve (PairwiseAlignment "permutation"%string 2 m false 0%Q)
                 Xs Ys = Ok est /\
    pa_fit_ est = Some o /\ labels_ o = Some [0; 0; 1; 1] /\
    pairwise_transform est Xs = Ok imgs /\
    masker_transform m imgs = Ok T /\
    meqb T (array [[2; 1; 4; 3]; [6; 5; 9; 7]]%Q) = true /\
    map (fun img => nth 2 img 1%Q) imgs = [0; 0]%Q.
Proof.
  cbv zeta. eexists. eexists. eexists. eexists.
  split; [vm_compute; reflexivity|]. split; [reflexivity|].
  split; [reflexivity|]. split; [vm_compute; reflexivity|].
  split; [vm_compute; reflexivity|]. split; vm_compute; reflexivity.
Qed.
End MaskBlocks.
