(* ===== verification/Frame.v ===== *)
(** * Frame: the data frame of the example

    The script selects its folds from a pandas data frame by boolean
    indexing.  This file models what the script uses of pandas: a frame as
    rows with their index labels, the comparison of a column with a value,
    and [df[key]] for a boolean series [key], which is read by position
    when the key has the index of the frame and is realigned on the index
    otherwise.  The realignment is what makes the chained selection
    [df[a][b]] of the script work, and what makes it fail on frames whose
    index labels repeat. *)

From stdpp Require Import base list.
From Stdlib Require Import ZArith Lia Bool Arith.
From Stdlib Require String.
Import String.StringSyntax.
Delimit Scope string_scope with string.
#[local] Set Warnings "-notation-incompatible-prefix".
From S2P Require Import Prelude.
Open Scope nat_scope.
Open Scope align_scope.

(** Lists that hold the same elements, each as often ([Permutation] is the
    name of a method variant here). *)
Abbreviation perm := Stdlib.Sorting.Permutation.Permutation.

(** ** The data frame *)

(** A row of [df]: the columns the script reads. *)
Record contrast_row : Type := Row {
  subject : String.string;
  acquisition : String.string;
  path : String.string
}.

(** A column or a frame: values with their index labels. *)
Definition series (A : Type) : Type := list (nat * A).

Definition dataframe : Type := series contrast_row.

(** The frame of the given rows under the default index [0, 1, ...]. *)
Definition with_range_index (rows : list contrast_row) : dataframe :=
  combine (seq 0 (length rows)) rows.

(** [df.column == value] *)
Definition column_eq (df : dataframe) (column : contrast_row -> String.string)
    (value : String.string) : series bool :=
  map (fun ir => (fst ir, String.eqb (column (snd ir)) value)) df.

(** The value of a series at an index label. *)
Fixpoint series_at {A : Type} (s : series A) (i : nat) : option A :=
  match s with
  | [] => None
  | (j, a) :: s' => if j =? i then Some a else series_at s' i
  end.

(** The index labels of a series or a frame. *)
Definition index {A : Type} (s : series A) : list nat := map fst s.

(** [df[key]] for a boolean series [key].  A key with the index of [df] is
    read position by position.  Any other key is first realigned on the
    index of [df]: this is refused when the labels of the key are not
    distinct, and a key without a value for some row of [df] is refused;
    the rows at which the key is true are kept. *)
Definition getitem (df : dataframe) (key : series bool) : result dataframe :=
  if decide (index key = index df)
  then Ok (map snd (List.filter fst (combine (map snd key) df)))
  else if decide (NoDup (index key))
  then
    kept <- mapM (fun ir => match series_at key (fst ir) with
                            | Some b => Ok (b, ir)
                            | None => Err IndexingError
                            end) df ;;
    Ok (map snd (List.filter fst kept))
  else Err ValueError.

(** [df.path.values] *)
Definition path_values (df : dataframe) : list String.string :=
  map (fun ir => path (snd ir)) df.

(** ** Boolean keys computed on an enclosing frame *)

(** The index labels of a frame are distinct. *)
Definition unique_index (df : dataframe) : Prop := List.NoDup (index df).

Lemma index_column_eq df column value : index (column_eq df column value) = index df.
Proof. unfold index, column_eq. rewrite map_map. reflexivity. Qed.

Lemma series_at_column_eq df column value i r :
  unique_index df -> In (i, r) df ->
  series_at (column_eq df column value) i = Some (String.eqb (column r) value).
Proof.
  unfold unique_index. induction df as [|[j r'] df IH]; simpl; [tauto|].
  intros Hnd Hin. inversion Hnd as [|? ? Hj Hnd']; subst.
  destruct Hin as [[= -> ->]|Hin]; [now rewrite Nat.eqb_refl|].
  destruct (Nat.eqb_spec j i) as [->|_]; [|now apply IH].
  exfalso. apply Hj. now apply (in_map fst) in Hin.
Qed.

Lemma filter_flagged {A : Type} (f : A -> bool) (l : list A) :
  map snd (List.filter fst (map (fun a => (f a, a)) l)) = List.filter f l.
Proof.
  induction l as [|a l IH]; simpl; [reflexivity|].
  destruct (f a); simpl; now rewrite IH.
Qed.

(** A key computed on the frame it selects from, read by position. *)
Lemma combine_column_eq df column value :
  combine (map snd (column_eq df column value)) df =
  map (fun ir => (String.eqb (column (snd ir)) value, ir)) df.
Proof.
  induction df as [|ir df IH]; simpl; [reflexivity|]. now rewrite IH.
Qed.

(** A part of a frame with distinct labels that has all its labels is the
    frame. *)
Lemma same_index_same_frame (df d : dataframe) :
  unique_index df -> (forall ir, In ir d -> In ir df) ->
  index d = index df -> d = df.
Proof.
  unfold unique_index, index. revert d.
  induction df as [|[i r] df IH]; intros [|[i' r'] d] Hu Hsub Hi;
    simpl in *; try discriminate; [reflexivity|].
  injection Hi as -> Hi. inversion Hu as [|? ? Hn Hu']; subst.
  assert (Hr : r' = r).
  { destruct (Hsub (i, r') (or_introl eq_refl)) as [[= ->]|Hin]; [reflexivity|].
    exfalso. apply Hn. now apply (in_map fst) in Hin. }
  subst r'. f_equal. apply IH; [exact Hu' | | exact Hi].
  intros ir Hin. destruct (Hsub ir (or_intror Hin)) as [<-|Hin']; [|exact Hin'].
  exfalso. apply Hn. rewrite <- Hi. now apply (in_map fst) in Hin.
Qed.

(** A key computed on [df] selects, in any part [d] of [df], the rows that
    satisfy the condition. *)
Lemma getitem_column_eq df d column value :
  unique_index df -> (forall ir, In ir d -> In ir df) ->
  getitem d (column_eq df column value) =
  Ok (List.filter (fun ir => String.eqb (column (snd ir)) value) d).
Proof.
  intros Hu Hsub. unfold getitem. rewrite index_column_eq.
  destruct (decide (index df = index d)) as [Hi|_].
  - rewrite (same_index_same_frame df d Hu Hsub (eq_sym Hi)).
    now rewrite combine_column_eq, filter_flagged.
  - rewrite decide_True by now apply NoDup_ListNoDup.
    rewrite (mapM_total _
      (fun ir => (String.eqb (column (snd ir)) value, ir))).
    + simpl. now rewrite filter_flagged.
    + intros [i r] Hin. simpl.
      now rewrite (series_at_column_eq df column value i r Hu (Hsub _ Hin)).
Qed.

(** ** The selection, case by case *)

(** A key with the index of the frame is read by position. *)
Lemma getitem_positional df key :
  index key = index df ->
  getitem df key = Ok (map snd (List.filter fst (combine (map snd key) df))).
Proof. intros E. unfold getitem. now rewrite decide_True. Qed.

(** Another key with repeated labels cannot be realigned. *)
Lemma getitem_duplicate_labels df key :
  index key <> index df -> ~ List.NoDup (index key) ->
  getitem df key = Err ValueError.
Proof.
  intros Hi Hd. unfold getitem. rewrite decide_False by exact Hi.
  rewrite decide_False; [reflexivity|]. now rewrite NoDup_ListNoDup.
Qed.

(** Another key with distinct labels is realigned: a row is kept when the
    key is true at its label. *)
Lemma getitem_realigned df key :
  index key <> index df -> List.NoDup (index key) ->
  (forall i, In i (index df) -> exists b, series_at key i = Some b) ->
  getitem df key =
  Ok (List.filter (fun ir => match series_at key (fst ir) with
                             | Some b => b
                             | None => false
                             end) df).
Proof.
  intros Hi Hd Hall. unfold getitem. rewrite decide_False by exact Hi.
  rewrite decide_True by now apply NoDup_ListNoDup.
  rewrite (mapM_total _ (fun ir => (match series_at key (fst ir) with
                                    | Some b => b
                                    | None => false
                                    end, ir))).
  - simpl. now rewrite filter_flagged.
  - intros ir Hin. destruct (Hall (fst ir)) as (b & ->); [|reflexivity].
    now apply (in_map fst).
Qed.

(** A row whose label the key does not have makes the realignment fail. *)
Lemma getitem_missing_label df key i :
  index key <> index df -> List.NoDup (index key) ->
  In i (index df) -> series_at key i = None ->
  getitem df key = Err IndexingError.
Proof.
  intros Hi Hd Hin Hnone. unfold getitem. rewrite decide_False by exact Hi.
  rewrite decide_True by now apply NoDup_ListNoDup.
  apply in_map_iff in Hin as (ir & <- & Hir).
  rewrite (mapM_err_in _ df ir IndexingError);
    [reflexivity | exact Hir | now rewrite Hnone |].
  intros x e _. destruct (series_at key (fst x)); congruence.
Qed.

Lemma map_snd_combine {A B : Type} (l1 : list A) (l2 : list B) :
  length l1 = length l2 -> map snd (combine l1 l2) = l2.
Proof.
  revert l2. induction l1 as [|a l1 IH]; intros [|b l2] Hl; simpl in *;
    try discriminate; [reflexivity|]. f_equal. apply IH. lia.
Qed.

Lemma sublist_flagged {A : Type} (l : list (bool * A)) :
  map snd (List.filter fst l) `sublist_of` map snd l.
Proof.
  induction l as [|[[|] a] l IH]; simpl; [constructor | |];
    now constructor.
Qed.

(** Whatever the key, the rows selected are rows of the frame, in the
    order of the frame. *)
Theorem getitem_sublist df key d : getitem df key = Ok d -> d `sublist_of` df.
Proof.
  unfold getitem. destruct (decide (index key = index df)) as [E|_].
  - intros [= <-]. etransitivity; [apply sublist_flagged|].
    rewrite map_snd_combine; [reflexivity|].
    apply (f_equal length) in E. unfold index in E.
    now rewrite !length_map in *.
  - destruct (decide (NoDup (index key))); [|discriminate].
    intros Hk. apply bind_ok_inv in Hk as (kept & Hkept & [= <-]).
    etransitivity; [apply sublist_flagged|].
    replace (map snd kept) with df; [reflexivity|].
    apply mapM_ok_iff in Hkept. clear -Hkept.
    induction Hkept as [|ir [b ir'] df kept Hx _ IH]; [reflexivity|].
    simpl. rewrite <- IH. f_equal.
    destruct (series_at key (fst ir)); congruence.
Qed.

(** A selection from a frame with distinct labels has distinct labels. *)
Corollary getitem_unique_index df key d :
  unique_index df -> getitem df key = Ok d -> unique_index d.
Proof.
  unfold unique_index, index. intros Hu Hd. apply getitem_sublist in Hd.
  apply NoDup_ListNoDup. apply NoDup_ListNoDup in Hu.
  eapply sublist_NoDup; [exact Hu|]. now apply fmap_sublist.
Qed.

Lemma filter_filter {A : Type} (f g : A -> bool) (l : list A) :
  List.filter g (List.filter f l) = List.filter (fun a => f a && g a) l.
Proof.
  induction l as [|a l IH]; simpl; [reflexivity|].
  destruct (f a); simpl; [destruct (g a)|]; now rewrite IH.
Qed.

(** The rows of a subject and an acquisition. *)
Definition in_fold (s a : String.string) (ir : nat * contrast_row) : bool :=
  String.eqb (subject (snd ir)) s && String.eqb (acquisition (snd ir)) a.

Arguments in_fold (s a)%_string ir.

(** Two folds of different subjects or acquisitions share no row. *)
Lemma in_fold_exclusive s a s' a' ir :
  (s, a) <> (s', a') -> in_fold s a ir = true -> in_fold s' a' ir = false.
Proof.
  unfold in_fold. intros Hne H. apply andb_true_iff in H as [Hs Ha].
  apply String.eqb_eq in Hs, Ha. subst s a.
  destruct (String.eqb_spec (subject (snd ir)) s') as [<-|]; [|reflexivity].
  destruct (String.eqb_spec (acquisition (snd ir)) a') as [<-|]; [|reflexivity].
  congruence.
Qed.

(** A filter that drops an element shortens the list. *)
Lemma filter_length_lt {A : Type} (f : A -> bool) (l : list A) :
  Exists (fun x => f x = false) l -> length (List.filter f l) < length l.
Proof.
  induction 1 as [x l Hx|x l _ IH]; simpl.
  - rewrite Hx. pose proof (List.filter_length_le f l). lia.
  - destruct (f x); simpl; lia.
Qed.

(** Four conditions of which every element meets exactly one sort a list
    into four parts. *)
Lemma filter_partition4 {A : Type} (f1 f2 f3 f4 : A -> bool) (l : list A) :
  (forall x, In x l -> f1 x || f2 x || f3 x || f4 x = true) ->
  (forall x, f1 x = true -> f2 x = false /\ f3 x = false /\ f4 x = false) ->
  (forall x, f2 x = true -> f3 x = false /\ f4 x = false) ->
  (forall x, f3 x = true -> f4 x = false) ->
  perm
    (List.filter f1 l ++ List.filter f2 l ++ List.filter f3 l ++ List.filter f4 l)
    l.
Proof.
  intros Hcov H1 H2 H3. induction l as [|x l IH]; [constructor|].
  specialize (IH (fun y Hy => Hcov y (or_intror Hy))).
  specialize (Hcov x (or_introl eq_refl)). simpl.
  destruct (f1 x) eqn:E1; [destruct (H1 x E1) as (-> & -> & ->); now constructor|].
  destruct (f2 x) eqn:E2.
  { destruct (H2 x E2) as (-> & ->). symmetry.
    apply Permutation_cons_app. now symmetry. }
  destruct (f3 x) eqn:E3.
  { rewrite (H3 x E3). simpl. rewrite (app_assoc (List.filter f1 l)). symmetry.
    apply Permutation_cons_app. rewrite <- app_assoc. now symmetry. }
  destruct (f4 x); [|discriminate].
  rewrite (app_assoc (List.filter f2 l)), (app_assoc (List.filter f1 l)).
  symmetry. apply Permutation_cons_app. rewrite <- !app_assoc. now symmetry.
Qed.
