(* ===== verification/Example.v ===== *)
(** * Example: functional alignment on a pair of subjects

    The script [examples/pairwise_roi_alignment.py], statement by
    statement: the data frame of the fetched contrasts and its four folds,
    the mask of the visual cortex taken from the atlas, the masker, the
    estimator that is fitted on the training fold and predicts the test
    fold, and the clipped scores of the prediction with and without
    alignment.

    The dataset, the fetcher of the atlas, the resampling and the reading
    of image files are collaborators: they enter as variables.  The data
    frame is the one of [Frame]: the three columns the script reads and
    the index labels, on which a boolean key is aligned as pandas aligns
    it.  The statements that draw are in [Plotting]; this file computes
    the images handed to them.  The masker resamples an image that is not
    on the grid of the mask, through the interface [Resampler] of
    [Pairwise]; the theorems that compute with the images ask for images
    on the grid.  The theorems on the scores ask for two
    test contrasts or more: the coefficient of determination is not
    defined on a single sample.  The theorems of the section [Script] hold
    for every dataset; the end of the file instantiates them on a small
    dataset. *)

From stdpp Require Import base list relations.
From Stdlib Require Import ZArith QArith Lqa Lia Bool Arith.
From Stdlib Require String.
Import String.StringSyntax.
#[local] Set Warnings "-notation-incompatible-prefix".
From S2P Require Import Prelude Matrix Orthogonal Procrustes Numeric Methods.
From S2P Require Import Piecewise Workers Pairwise Frame.
Close Scope Q_scope.
Open Scope nat_scope.
Open Scope mat_scope.
Open Scope align_scope.

(** ** The script *)

(** What [datasets.fetch_atlas_yeo_2011()] returns: the paths of the four
    parcellations of the atlas. *)
Record yeo_atlas : Type := Build_yeo_atlas {
  thin_7 : String.string;
  thick_7 : String.string;
  thin_17 : String.string;
  thick_17 : String.string
}.

Section Script.
Context {resampler : Resampler}.
(** The collaborators. *)
Variable fetch_ibc_subjects_contrasts :
  list String.string -> list String.string * dataframe * list bool.
Variable fetch_atlas_yeo_2011 : yeo_atlas.
Variable load_img : String.string -> list Z.
Variable resample_to_img :
  list bool -> list bool -> String.string -> list bool.
Variable load : String.string -> volume.
Variable clustering : NiftiMasker -> nat -> labeling.
Variable solve : solvers.
(** The options of [PairwiseAlignment] that the script leaves to their
    defaults. *)
Variable default_scaling : bool.
Variable default_reg : Q.

#[local] Instance script_partitioner : Partitioner NiftiMasker :=
  masker_partitioner clustering.

(** [files, df, mask = fetch_ibc_subjects_contrasts(['sub-01', 'sub-02'])] *)
Definition fetched : list String.string * dataframe * list bool :=
  fetch_ibc_subjects_contrasts ["sub-01"; "sub-02"]%string.

Definition files : list String.string := fst (fst fetched).
Definition df : dataframe := snd (fst fetched).
Definition mask : list bool := snd fetched.

(** [atlas_yeo_2011 = datasets.fetch_atlas_yeo_2011()] *)
Definition atlas_yeo_2011 : yeo_atlas := fetch_atlas_yeo_2011.

(** [atlas_yeo = atlas_yeo_2011.thick_7] *)
Definition atlas_yeo : String.string := thick_7 atlas_yeo_2011.

(** [atlas = load_img(atlas_yeo)]: one label per voxel. *)
Definition atlas : list Z := load_img atlas_yeo.

(** [atlas.get_data() == 1]: the voxels of the first network of the
    atlas. *)
Definition mask_visual : list bool := map (fun label => Z.eqb label 1) atlas.

(** [resample_to_img(mask_visual, mask, interpolation="nearest")] *)
Definition resampled_mask_visual : list bool :=
  resample_to_img mask_visual mask "nearest"%string.

(** [roi_masker = NiftiMasker(mask_img=...)] followed by
    [roi_masker.fit()]. *)
Definition roi_masker : NiftiMasker :=
  masker_fit (nifti_masker resampled_mask_visual).

(** [df[df.subject == s][df.acquisition == a].path.values]: the second key
    is computed on the whole frame and applied to the filtered one. *)
Definition select_fold (s a : String.string) : result (list String.string) :=
  by_subject <- getitem df (column_eq df subject s) ;;
  by_both <- getitem by_subject (column_eq df acquisition a) ;;
  Ok (path_values by_both).

Definition source_train : result (list String.string) :=
  select_fold "sub-01"%string "ap"%string.
Definition target_train : result (list String.string) :=
  select_fold "sub-02"%string "ap"%string.
Definition source_test : result (list String.string) :=
  select_fold "sub-01"%string "pa"%string.
Definition target_test : result (list String.string) :=
  select_fold "sub-02"%string "pa"%string.

(** The images behind a list of paths, as the masker and the estimator
    read them. *)
Definition load_all (paths : list String.string) : list volume :=
  map load paths.

(** [PairwiseAlignment(alignment_method='scaled_orthogonal', n_pieces=1,
    mask=roi_masker)] *)
Definition alignment_estimator : pairwise_alignment NiftiMasker :=
  PairwiseAlignment "scaled_orthogonal"%string 1 roi_masker
                    default_scaling default_reg.

(** [alignment_estimator.fit(source_train, target_train)] *)
Definition fit_estimator (source_train target_train : list String.string)
  : result (pairwise_alignment NiftiMasker) :=
  pairwise_fit solve alignment_estimator
               (load_all source_train) (load_all target_train).

(** [predicted_img = alignment_estimator.transform(source_test)] *)
Definition predicted_img (estimator : pairwise_alignment NiftiMasker)
    (source_test : list String.string) : result (list volume) :=
  pairwise_transform estimator (load_all source_test).

(** [ground_truth = roi_masker.transform(target_test)] *)
Definition ground_truth (target_test : list String.string) : result matrix :=
  masker_transform roi_masker (load_all target_test).

(** [np.maximum(r2_score(ground_truth, roi_masker.transform(imgs),
    multioutput='raw_values'), -1)] *)
Definition clipped_score (ground_truth : matrix) (imgs : list volume)
  : result (list Q) :=
  prediction <- masker_transform roi_masker imgs ;;
  scores <- r2_score ground_truth prediction ;;
  Ok (np_maximum scores (-1)%Q).

Definition baseline_score (ground_truth : matrix)
    (source_test : list String.string) : result (list Q) :=
  clipped_score ground_truth (load_all source_test).

Definition aligned_score (ground_truth : matrix) (predicted_img : list volume)
  : result (list Q) :=
  clipped_score ground_truth predicted_img.

(** [roi_masker.inverse_transform(score)]: the image of a score per voxel,
    as it is handed to the plotting routine. *)
Definition score_image (score : list Q) : result volume :=
  imgs <- masker_inverse_transform roi_masker
            (Matrix 1 (length score) [score]) ;;
  Ok (hd [] imgs).

(** The script from the folds to the two images it plots, in the order of
    its statements. *)
Definition pairwise_roi_alignment : result (volume * volume) :=
  source_train <- source_train ;;
  target_train <- target_train ;;
  source_test <- source_test ;;
  target_test <- target_test ;;
  estimator <- fit_estimator source_train target_train ;;
  predicted_img <- predicted_img estimator source_test ;;
  ground_truth <- ground_truth target_test ;;
  baseline_score <- baseline_score ground_truth source_test ;;
  aligned_score <- aligned_score ground_truth predicted_img ;;
  baseline_display <- score_image baseline_score ;;
  display <- score_image aligned_score ;;
  Ok (baseline_display, display).

(** ** The folds *)

Lemma select_fold_filter s a :
  unique_index df ->
  select_fold s a = Ok (path_values (List.filter (in_fold s a) df)).
Proof using Type.
  intros Hu. unfold select_fold.
  rewrite (getitem_column_eq df df) by auto. simpl.
  rewrite (getitem_column_eq df) by (auto; intros ir Hir; now apply filter_In in Hir).
  simpl. now rewrite filter_filter.
Qed.

Lemma in_select_fold s a paths p :
  unique_index df -> select_fold s a = Ok paths ->
  In p paths <->
  exists ir, In ir df /\ in_fold s a ir = true /\ path (snd ir) = p.
Proof using Type.
  intros Hu Hf. rewrite (select_fold_filter s a Hu) in Hf. injection Hf as <-.
  unfold path_values. rewrite in_map_iff. split.
  - intros (ir & Hp & Hin). apply filter_In in Hin as [Hin Hc].
    exists ir. repeat split; assumption.
  - intros (ir & Hin & Hc & Hp). exists ir. split; [exact Hp|].
    now apply filter_In.
Qed.

(** C10: each fold of the script holds the paths of the rows of its subject
    and its acquisition, in the order of the frame: although the second
    key of [df[...][...]] is computed on the whole frame, its alignment on
    the index of the filtered frame makes the chained selection the
    conjunction of the two conditions, provided the index labels of the
    fetched frame are distinct. *)
Theorem folds_are_conjunctions :
  unique_index df ->
  source_train = Ok (path_values (List.filter (in_fold "sub-01" "ap") df)) /\
  target_train = Ok (path_values (List.filter (in_fold "sub-02" "ap") df)) /\
  source_test = Ok (path_values (List.filter (in_fold "sub-01" "pa") df)) /\
  target_test = Ok (path_values (List.filter (in_fold "sub-02" "pa") df)).
Proof.
  intros Hu. unfold source_train, target_train, source_test, target_test.
  now rewrite !select_fold_filter by exact Hu.
Qed.

Lemma fold_acquisition s a paths p :
  unique_index df -> List.NoDup (path_values df) ->
  select_fold s a = Ok paths -> In p paths ->
  forall ir, In ir df -> path (snd ir) = p ->
  String.eqb (acquisition (snd ir)) a = true.
Proof using Type.
  intros Hu Hnd Hf Hp ir Hir Hpath.
  apply (in_select_fold s a paths p Hu Hf) in Hp as (ir' & Hir' & Hc & Hp').
  assert (ir' = ir) as ->.
  { apply (NoDup_map_inj (fun ir => path (snd ir)) df);
      [exact Hnd | exact Hir' | exact Hir | now rewrite Hp', Hpath]. }
  unfold in_fold in Hc. now apply andb_true_iff in Hc.
Qed.

(** C11: no image of a training fold is an image of a test fold, when the
    paths of the fetched frame are distinct: the training folds hold the
    acquisitions [ap] and the test folds the acquisitions [pa]. *)
Theorem train_test_disjoint s s' train test :
  unique_index df -> List.NoDup (path_values df) ->
  select_fold s "ap"%string = Ok train ->
  select_fold s' "pa"%string = Ok test ->
  Forall (fun p => ~ In p test) train.
Proof using Type.
  intros Hu Hnd Htrain Htest. apply List.Forall_forall. intros p Hp Hp'.
  apply (in_select_fold s' _ test p Hu Htest) in Hp' as Hrow.
  destruct Hrow as (ir & Hir & _ & Hpath).
  pose proof (fold_acquisition _ _ _ _ Hu Hnd Htrain Hp ir Hir Hpath) as H1.
  pose proof (fold_acquisition _ _ _ _ Hu Hnd Htest Hp' ir Hir Hpath) as H2.
  apply String.eqb_eq in H1, H2. congruence.
Qed.

(** C18: the four folds sort the images of the frame: when every row
    belongs to one of the two subjects and to one of the two acquisitions,
    every path of the frame is in exactly one of the four folds. *)
Theorem folds_partition st tt ste tte :
  unique_index df ->
  Forall (fun ir => in_fold "sub-01" "ap" ir || in_fold "sub-02" "ap" ir ||
                    in_fold "sub-01" "pa" ir || in_fold "sub-02" "pa" ir = true)
         df ->
  source_train = Ok st -> target_train = Ok tt ->
  source_test = Ok ste -> target_test = Ok tte ->
  perm (st ++ tt ++ ste ++ tte) (path_values df).
Proof using Type.
  intros Hu Hcov Hst Htt Hste Htte.
  unfold source_train, target_train, source_test, target_test in *.
  rewrite select_fold_filter in Hst, Htt, Hste, Htte by exact Hu.
  injection Hst as <-. injection Htt as <-.
  injection Hste as <-. injection Htte as <-.
  unfold path_values. rewrite <- !map_app. apply Permutation_map.
  apply filter_partition4.
  - now apply List.Forall_forall.
  - intros x H. repeat split; (eapply in_fold_exclusive; [|exact H]; discriminate).
  - intros x H. repeat split; (eapply in_fold_exclusive; [|exact H]; discriminate).
  - intros x H. eapply in_fold_exclusive; [|exact H]. discriminate.
Qed.

(** C23: when the index labels of the fetched frame are not distinct and
    the selection of the subject drops a row, the second selection of
    [df[...][...]] raises [ValueError]: its key, computed on the whole
    frame, cannot be realigned on the index of the filtered frame. *)
Theorem duplicate_labels_refused s a :
  ~ unique_index df ->
  Exists (fun ir => String.eqb (subject (snd ir)) s = false) df ->
  select_fold s a = Err ValueError.
Proof using Type.
  intros Hdup Hdrop. unfold select_fold, getitem at 1.
  rewrite index_column_eq, decide_True by reflexivity.
  rewrite combine_column_eq, filter_flagged. cbn [bind].
  unfold getitem. rewrite index_column_eq.
  rewrite decide_False.
  - rewrite decide_False; [reflexivity|]. now rewrite NoDup_ListNoDup.
  - intros Hi. apply (f_equal (@length nat)) in Hi. unfold index in Hi.
    rewrite !length_map in Hi.
    pose proof (filter_length_lt _ _ Hdrop). lia.
Qed.

(** ** The scores *)

(** A score of the script is a coefficient of determination clipped at
    minus one. *)
Lemma clipped_score_bounds gt imgs s :
  clipped_score gt imgs = Ok s ->
  Forall (fun x => (-1 <= x)%Q /\ (x <= 1)%Q) s.
Proof.
  unfold clipped_score. intros Hs. apply bind_ok_inv in Hs as (P & _ & Hs).
  apply bind_ok_inv in Hs as (scores & Hr & [= <-]).
  exact (clipped_r2_bounds _ _ _ Hr).
Qed.

(** C19: the scores the script plots lie between minus one and one, with and
    without alignment: [r2_score] never exceeds one and [np.maximum] clips
    at minus one. *)
Theorem scores_clipped gt paths imgs :
  (forall s, baseline_score gt paths = Ok s ->
     Forall (fun x => (-1 <= x)%Q /\ (x <= 1)%Q) s) /\
  (forall s, aligned_score gt imgs = Ok s ->
     Forall (fun x => (-1 <= x)%Q /\ (x <= 1)%Q) s).
Proof.
  split; intros s Hs; exact (clipped_score_bounds _ _ _ Hs).
Qed.

(** A clipped score has one value per voxel of the ground truth. *)
Lemma clipped_score_length gt imgs s :
  clipped_score gt imgs = Ok s -> length s = ncols gt.
Proof.
  unfold clipped_score. intros Hs. apply bind_ok_inv in Hs as (P & _ & Hs).
  apply bind_ok_inv in Hs as (scores & Hr & [= <-]).
  rewrite length_np_maximum. exact (r2_score_length _ _ _ Hr).
Qed.

Lemma np_maximum_ones n : np_maximum (repeat 1%Q n) (-1)%Q = repeat 1%Q n.
Proof.
  apply np_maximum_id, List.Forall_forall. intros x Hx.
  apply repeat_spec in Hx as ->. lra.
Qed.

(** A prediction equal to the ground truth scores one at every voxel. *)
Lemma clipped_score_perfect gt imgs P :
  masker_transform roi_masker imgs = Ok P -> gt =~= P ->
  0 < nrows gt -> 0 < ncols gt ->
  clipped_score gt imgs = Ok (repeat 1%Q (ncols gt)).
Proof.
  intros HP He Hn Hp. unfold clipped_score. rewrite HP. simpl.
  rewrite (r2_score_perfect gt P He Hn Hp). simpl. now rewrite np_maximum_ones.
Qed.

(** The score of voxel [j]: the coefficient of determination of its
    column, clipped at minus one. *)
Lemma nth_clipped_score gt imgs P s j :
  masker_transform roi_masker imgs = Ok P -> clipped_score gt imgs = Ok s ->
  j < ncols gt ->
  nth j s 0%Q = if Qle_bool (-1) (r2_column gt P j) then r2_column gt P j
                else (-1)%Q.
Proof.
  intros HP Hs Hj. unfold clipped_score in Hs. rewrite HP in Hs.
  cbn [bind] in Hs. apply bind_ok_inv in Hs as (sc & Hr & [= <-]).
  apply r2_score_inv in Hr as (_ & _ & _ & _ & ->).
  rewrite nth_np_maximum by (now rewrite length_map, length_seq).
  now rewrite (nth_map_seq _ _ _ _ Hj).
Qed.

(** C25: on a test fold of two contrasts or more, where the score is
    defined, a voxel scores one exactly when it is predicted exactly at
    every contrast of the test fold: the score of the script is one for a
    perfect prediction, and for no other. *)
Theorem score_one_iff_exact gt imgs P s j :
  masker_transform roi_masker imgs = Ok P -> clipped_score gt imgs = Ok s ->
  1 < nrows gt -> j < ncols gt ->
  (nth j s 0 == 1)%Q <->
  forall i, i < nrows gt -> (mget gt i j == mget P i j)%Q.
Proof.
  intros HP Hs _ Hj. rewrite (nth_clipped_score gt imgs P s j HP Hs Hj).
  rewrite <- r2_column_one_iff.
  pose proof (r2_column_le_one gt P j) as Hle.
  destruct (Qle_bool (-1) (r2_column gt P j)) eqn:E; [reflexivity|].
  split; [intros H; discriminate H|]. intros H. exfalso.
  assert (Ht : Qle_bool (-1) (r2_column gt P j) = true)
    by (apply Qle_bool_iff; lra).
  congruence.
Qed.

(** C29: a voxel whose ground truth is the same at every contrast of the
    test fold scores zero as soon as one contrast is not predicted exactly,
    however close the prediction is. *)
Theorem constant_voxel_scores_zero gt imgs P s j c i :
  masker_transform roi_masker imgs = Ok P -> clipped_score gt imgs = Ok s ->
  1 < nrows gt -> j < ncols gt ->
  (forall k, k < nrows gt -> (mget gt k j == c)%Q) ->
  i < nrows gt -> ~ (mget gt i j == mget P i j)%Q ->
  nth j s 0%Q = 0%Q.
Proof.
  intros HP Hs _ Hj Hc Hi Hne.
  rewrite (nth_clipped_score gt imgs P s j HP Hs Hj).
  rewrite (r2_column_constant gt P j c Hc); [reflexivity|].
  intros H. exact (Hne (H i Hi)).
Qed.

(** ** Fit and prediction *)

Lemma masked_shape paths X_ :
  masker_transform roi_masker (load_all paths) = Ok X_ ->
  nrows X_ = length paths /\ ncols X_ = masker_features roi_masker /\ wf X_.
Proof.
  intros HX. apply masker_transform_shape in HX.
  unfold load_all in HX. now rewrite length_map in HX.
Qed.

(** The transformation a fitted scaled orthogonal object applies. *)
Lemma transform_scaled_orthogonal_cols v R sc Z :
  ncols R = nrows Z ->
  transform (Method v (Some (T_scaled_orthogonal R sc))) Z =
  Ok (scale sc (dot R Z)).
Proof. intros Hn. unfold transform. simpl. now rewrite Hn, Nat.eqb_refl. Qed.

Lemma transform_scaled_orthogonal v R sc Z :
  orthogonal R -> nrows R = nrows Z ->
  transform (Method v (Some (T_scaled_orthogonal R sc))) Z =
  Ok (scale sc (dot R Z)).
Proof.
  intros HR Hn. apply transform_scaled_orthogonal_cols.
  now rewrite (orthogonal_square R HR).
Qed.

(** What the script's [fit] and [transform] compute when the solver
    returns a matrix [R] with one column per voxel of the mask, and a
    scale: the estimator holds them, and the prediction is the image of
    [sc * R.dot(Z.T)], transposed back. *)
Lemma script_fit_predict_shaped st tt ste X_ Y_ Z_ R sc :
  masker_transform roi_masker (load_all st) = Ok X_ ->
  masker_transform roi_masker (load_all tt) = Ok Y_ ->
  masker_transform roi_masker (load_all ste) = Ok Z_ ->
  length st = length tt -> 0 < ncols X_ ->
  procrustes solve X_ Y_ default_scaling None = Ok (R, sc) ->
  nrows R = ncols X_ -> ncols R = ncols X_ ->
  exists est,
    fit solve (new_method (ScaledOrthogonal default_scaling)) X_ Y_ =
      Ok (Method (ScaledOrthogonal default_scaling)
                 (Some (T_scaled_orthogonal R sc))) /\
    fit_estimator st tt = Ok est /\
    predicted_img est ste =
      masker_inverse_transform roi_masker
        (transpose (scale sc (dot R (transpose Z_)))).
Proof.
  intros HX HY HZ Hlen Hpos E HRn HRc.
  destruct (masked_shape _ _ HX) as (HXr & HXc & HXw).
  destruct (masked_shape _ _ HY) as (HYr & HYc & HYw).
  destruct (masked_shape _ _ HZ) as (HZr & HZc & HZw).
  assert (Hs : shape_eqb X_ Y_ = true)
    by (apply shape_eqb_true; split; congruence).
  assert (Hfit : fit solve (new_method (ScaledOrthogonal default_scaling))
                     X_ Y_ =
                 Ok (Method (ScaledOrthogonal default_scaling)
                            (Some (T_scaled_orthogonal R sc))))
    by (unfold fit; simpl; now rewrite E).
  assert (Hnf : n_features_of (pa_mask alignment_estimator) = ncols X_)
    by (symmetry; exact HXc).
  destruct (pairwise_single_piece solve alignment_estimator
              (ScaledOrthogonal default_scaling) _ _ X_ Y_ _
              eq_refl eq_refl eq_refl HX HY HXw HYw Hs Hnf Hpos Hfit)
    as (est & Hest & Hpred).
  exists est. split; [exact Hfit | split; [exact Hest|]].
  unfold predicted_img.
  rewrite (Hpred _ Z_ HZ HZw) by (simpl; congruence).
  rewrite transform_scaled_orthogonal_cols by (simpl; congruence).
  reflexivity.
Qed.

(** What the script's [fit] and [transform] compute when the solver meets
    its contract on the masked training data: the estimator holds a
    solution [R] of the Procrustes problem with its scale, and the
    prediction is the image of [sc * R.dot(Z.T)], transposed back. *)
Lemma script_fit_predict st tt ste X_ Y_ Z_ :
  masker_transform roi_masker (load_all st) = Ok X_ ->
  masker_transform roi_masker (load_all tt) = Ok Y_ ->
  masker_transform roi_masker (load_all ste) = Ok Z_ ->
  length st = length tt -> 0 < ncols X_ ->
  procrustes_contract X_ Y_ default_scaling
    (procrustes solve X_ Y_ default_scaling None) ->
  exists est R sc,
    procrustes_contract X_ Y_ default_scaling (Ok (R, sc)) /\
    fit solve (new_method (ScaledOrthogonal default_scaling)) X_ Y_ =
      Ok (Method (ScaledOrthogonal default_scaling)
                 (Some (T_scaled_orthogonal R sc))) /\
    fit_estimator st tt = Ok est /\
    predicted_img est ste =
      masker_inverse_transform roi_masker
        (transpose (scale sc (dot R (transpose Z_)))).
Proof.
  intros HX HY HZ Hlen Hpos Hc.
  destruct (masked_shape _ _ HX) as (HXr & _ & _).
  destruct (masked_shape _ _ HY) as (HYr & _ & _).
  destruct (masked_shape _ _ HX) as (_ & HXc & _).
  destruct (masked_shape _ _ HY) as (_ & HYc & _).
  assert (Hs : shape_eqb X_ Y_ = true)
    by (apply shape_eqb_true; split; congruence).
  destruct (contract_ok_solution _ _ _ _ Hc Hs)
    as (R & sc & E & (HR & HRn & _)).
  destruct (script_fit_predict_shaped st tt ste X_ Y_ Z_ R sc
              HX HY HZ Hlen Hpos E HRn) as (est & Hfit & Hest & Hpred);
    [rewrite (orthogonal_square R HR); congruence|].
  exists est, R, sc. split; [now rewrite <- E|].
  split; [exact Hfit | split; [exact Hest | exact Hpred]].
Qed.

(** C9: with [n_pieces=1] the estimator of the script is one scaled
    orthogonal method object: fitting it on the training folds and
    transforming the test fold gives the images of what
    [ScaledOrthogonalAlignment] fitted on the masked training data returns
    on the masked test data, given with one row per voxel. *)
Theorem estimator_is_direct_method st tt ste X_ Y_ Z_ :
  masker_transform roi_masker (load_all st) = Ok X_ ->
  masker_transform roi_masker (load_all tt) = Ok Y_ ->
  masker_transform roi_masker (load_all ste) = Ok Z_ ->
  length st = length tt -> 0 < ncols X_ ->
  procrustes_contract X_ Y_ default_scaling
    (procrustes solve X_ Y_ default_scaling None) ->
  (est <- fit_estimator st tt ;; predicted_img est ste) =
  (e <- fit solve (new_method (ScaledOrthogonal default_scaling)) X_ Y_ ;;
   T <- transform e (transpose Z_) ;;
   masker_inverse_transform roi_masker (transpose T)).
Proof.
  intros HX HY HZ Hlen Hpos Hc.
  destruct (script_fit_predict _ _ _ _ _ _ HX HY HZ Hlen Hpos Hc)
    as (est & R & sc & Hc' & -> & -> & Hpred). simpl. rewrite Hpred.
  apply contract_solution in Hc' as (HR & HRn & _).
  destruct (masked_shape _ _ HX) as (_ & HXc & _).
  destruct (masked_shape _ _ HZ) as (_ & HZc & _).
  rewrite transform_scaled_orthogonal by (simpl; congruence). reflexivity.
Qed.

Lemma roi_masker_inverse_ok T :
  ncols T = masker_features roi_masker ->
  exists imgs, masker_inverse_transform roi_masker T = Ok imgs.
Proof.
  intros Hc.
  pose proof (masker_inverse_ok (nifti_masker resampled_mask_visual) T Hc) as Hok.
  unfold roi_masker.
  destruct (masker_inverse_transform _ T) as [imgs|]; [eauto | discriminate].
Qed.

(** Under an exact orthogonal relation between the masked training folds,
    the masker reads the prediction back as the same combinations [C] of
    the target's training contrasts. *)
Lemma exact_prediction st tt ste X_ Y_ Z_ G R0 C :
  masker_transform roi_masker (load_all st) = Ok X_ ->
  masker_transform roi_masker (load_all tt) = Ok Y_ ->
  masker_transform roi_masker (load_all ste) = Ok Z_ ->
  length st = length tt -> 0 < ncols X_ ->
  orthogonal R0 -> nrows R0 = ncols X_ ->
  dot R0 (transpose X_) =~= transpose Y_ ->
  dot C X_ =~= Z_ -> dot C Y_ =~= G ->
  procrustes_contract X_ Y_ default_scaling
    (procrustes solve X_ Y_ default_scaling None) ->
  exists est imgs T,
    fit_estimator st tt = Ok est /\ predicted_img est ste = Ok imgs /\
    masker_transform roi_masker imgs = Ok T /\ G =~= T.
Proof.
  intros HX HY HZ Hlen Hpos HR0 HR0n Hrel HCX HCY Hc.
  destruct (script_fit_predict _ _ _ _ _ _ HX HY HZ Hlen Hpos Hc)
    as (est & R & sc & Hc' & _ & Hest & Hpred).
  destruct (masked_shape _ _ HX) as (HXr & HXc & _).
  destruct (masked_shape _ _ HY) as (HYr & HYc & _).
  pose proof (contract_solution _ _ _ _ _ Hc') as (HR & HRn & _).
  set (T := transpose (scale sc (dot R (transpose Z_)))) in *.
  assert (HT : G =~= T).
  { unfold T. rewrite <- HCY, <- HCX.
    rewrite (exact_fit_scale X_ Y_ R R0 sc default_scaling) by congruence.
    rewrite scale_one, transpose_dot, transpose_involutive, dot_assoc.
    now rewrite (exact_fit_samples X_ Y_ R R0 sc default_scaling) by congruence. }
  destruct (roi_masker_inverse_ok T) as (imgs & Ei);
    [unfold T; simpl; rewrite HRn, HXc; reflexivity|].
  exists est, imgs, T. split; [exact Hest | split; [now rewrite Hpred|]].
  split; [|exact HT]. apply masker_round_trip; [apply wf_mk | exact Ei].
Qed.

(** C4: when the masked training data of the two subjects are related by an
    orthogonal map of the voxels, and the test contrasts of both subjects
    are the same combinations [C] of their training contrasts, two or more
    in number, the prediction of the script is the ground truth, and the
    aligned score is one at every voxel. *)
Theorem exact_alignment_scores_one st tt ste tte X_ Y_ Z_ G R0 C :
  masker_transform roi_masker (load_all st) = Ok X_ ->
  masker_transform roi_masker (load_all tt) = Ok Y_ ->
  masker_transform roi_masker (load_all ste) = Ok Z_ ->
  ground_truth tte = Ok G ->
  length st = length tt -> 1 < length tte -> 0 < ncols X_ ->
  orthogonal R0 -> nrows R0 = ncols X_ ->
  dot R0 (transpose X_) =~= transpose Y_ ->
  dot C X_ =~= Z_ -> dot C Y_ =~= G ->
  procrustes_contract X_ Y_ default_scaling
    (procrustes solve X_ Y_ default_scaling None) ->
  exists est imgs,
    fit_estimator st tt = Ok est /\ predicted_img est ste = Ok imgs /\
    aligned_score G imgs = Ok (repeat 1%Q (ncols G)).
Proof.
  intros HX HY HZ HG Hlen Hte2 Hpos HR0 HR0n Hrel HCX HCY Hc.
  assert (Hte : 0 < length tte) by lia.
  destruct (exact_prediction _ _ _ _ _ _ G _ _ HX HY HZ Hlen Hpos HR0 HR0n
              Hrel HCX HCY Hc) as (est & imgs & T & Hest & Hpred & HT & He).
  exists est, imgs. split; [exact Hest | split; [exact Hpred|]].
  destruct (masked_shape _ _ HX) as (_ & HXc & _).
  destruct (masked_shape _ _ HG) as (HGr & HGc & _).
  apply (clipped_score_perfect G imgs T HT He); congruence.
Qed.

(** C21: a successful [fit] of the script's estimator takes the orchestrator
    of its configuration from its fresh state through the state FITTING to
    the state FITTED, by steps of the orchestrator's machine, and the
    estimator stores the orchestrator so reached. *)
Theorem script_fit_reaches_fitted st tt est :
  fit_estimator st tt = Ok est ->
  exists o,
    pa_fit_ est = Some o /\
    rtc (step solve)
        (Idle (new_orchestrator (ScaledOrthogonal default_scaling) 1
                                roi_masker))
        (Idle o) /\
    phase (Idle o) = FITTED.
Proof.
  unfold fit_estimator, pairwise_fit. intros Hf.
  apply bind_ok_inv in Hf as (v & Hv & Hf). injection Hv as <-.
  apply bind_ok_inv in Hf as (X_ & _ & Hf).
  apply bind_ok_inv in Hf as (Y_ & _ & Hf).
  apply bind_ok_inv in Hf as (o & Ho & Hf). injection Hf as <-.
  exists o. split; [reflexivity|].
  split; [exact (machine_fit_complete solve _ _ _ _ Ho)|].
  now apply piecewise_fit_ok in Ho.
Qed.

(** ** The script runs to completion *)

Lemma roi_masker_transform_ok paths :
  (forall p, In p paths -> length (load p) = length resampled_mask_visual) ->
  exists T, masker_transform roi_masker (load_all paths) = Ok T.
Proof.
  intros Hg. eexists. apply nifti_transform_on_grid; [reflexivity|].
  intros v Hv. unfold load_all in Hv. apply in_map_iff in Hv as (p & <- & Hp).
  now apply Hg.
Qed.

Lemma score_image_ok score :
  length score = masker_features roi_masker ->
  is_ok (score_image score) = true.
Proof.
  intros Hl. unfold score_image.
  destruct (roi_masker_inverse_ok (Matrix 1 (length score) [score]) Hl)
    as (imgs & ->). reflexivity.
Qed.

(** A score is computed for images that the masker accepts, when there are
    as many of them as rows of the ground truth. *)
Lemma clipped_score_ok gt imgs P :
  masker_transform roi_masker imgs = Ok P ->
  nrows gt = nrows P -> ncols gt = ncols P ->
  0 < nrows gt -> 0 < ncols gt ->
  exists s, clipped_score gt imgs = Ok s /\ length s = ncols gt.
Proof.
  intros HP Hr Hc Hn Hp. unfold clipped_score. rewrite HP. cbn [bind].
  destruct (r2_score_ok gt P Hr Hc Hn Hp) as (s & -> & Hl). cbn [bind].
  eexists. split; [reflexivity|]. now rewrite length_np_maximum.
Qed.

(** The prediction of the script exists and is read back by the masker as
    an array of the shape of the masked test fold, when the solver returns
    a square matrix of the size of the mask. *)
Lemma script_prediction_ok st tt ste X_ Y_ Z_ R sc :
  masker_transform roi_masker (load_all st) = Ok X_ ->
  masker_transform roi_masker (load_all tt) = Ok Y_ ->
  masker_transform roi_masker (load_all ste) = Ok Z_ ->
  length st = length tt -> 0 < ncols X_ ->
  procrustes solve X_ Y_ default_scaling None = Ok (R, sc) ->
  nrows R = ncols X_ -> ncols R = ncols X_ ->
  exists est imgs T,
    fit_estimator st tt = Ok est /\ predicted_img est ste = Ok imgs /\
    masker_transform roi_masker imgs = Ok T /\
    nrows T = nrows Z_ /\ ncols T = ncols Z_.
Proof.
  intros HX HY HZ Hlen Hpos E HRn HRc.
  destruct (script_fit_predict_shaped _ _ _ _ _ _ _ _ HX HY HZ Hlen Hpos E
              HRn HRc) as (est & _ & Hest & Hpred).
  destruct (masked_shape _ _ HX) as (_ & HXc & _).
  destruct (masked_shape _ _ HZ) as (_ & HZc & _).
  set (T := transpose (scale sc (dot R (transpose Z_)))) in *.
  destruct (roi_masker_inverse_ok T) as (imgs & Ei);
    [unfold T; simpl; rewrite HRn, HXc; reflexivity|].
  exists est, imgs, T. split; [exact Hest | split; [now rewrite Hpred|]].
  split; [apply masker_round_trip; [apply wf_mk | exact Ei]|].
  unfold T. simpl. split; [reflexivity | now rewrite HRn, HXc, HZc].
Qed.

(** The script runs to completion as soon as the solver returns a square
    matrix of the size of the mask on the masked training folds. *)
Lemma script_completes st tt ste tte :
  source_train = Ok st -> target_train = Ok tt ->
  source_test = Ok ste -> target_test = Ok tte ->
  (forall p, In p (st ++ tt ++ ste ++ tte) ->
     length (load p) = length resampled_mask_visual) ->
  length st = length tt -> length ste = length tte -> 0 < length ste ->
  0 < masker_features roi_masker ->
  (forall X_ Y_,
     masker_transform roi_masker (load_all st) = Ok X_ ->
     masker_transform roi_masker (load_all tt) = Ok Y_ ->
     exists R sc,
       procrustes solve X_ Y_ default_scaling None = Ok (R, sc) /\
       nrows R = ncols X_ /\ ncols R = ncols X_) ->
  is_ok pairwise_roi_alignment = true.
Proof.
  intros Hst Htt Hste Htte Hgrid Hl1 Hl2 Hne Hpos Hc.
  destruct (roi_masker_transform_ok st) as (X_ & HX);
    [intros; apply Hgrid; rewrite !in_app_iff; tauto|].
  destruct (roi_masker_transform_ok tt) as (Y_ & HY);
    [intros; apply Hgrid; rewrite !in_app_iff; tauto|].
  destruct (roi_masker_transform_ok ste) as (Z_ & HZ);
    [intros; apply Hgrid; rewrite !in_app_iff; tauto|].
  destruct (roi_masker_transform_ok tte) as (G & HG);
    [intros; apply Hgrid; rewrite !in_app_iff; tauto|].
  destruct (masked_shape _ _ HX) as (_ & HXc & _).
  destruct (masked_shape _ _ HZ) as (HZr & HZc & _).
  destruct (masked_shape _ _ HG) as (HGr & HGc & _).
  destruct (Hc X_ Y_ HX HY) as (R & sc & E & HRn & HRc).
  destruct (script_prediction_ok st tt ste X_ Y_ Z_ R sc HX HY HZ Hl1)
    as (est & imgs & T & Hest & Hpred & HT & HTr & HTc);
    [congruence | exact E | exact HRn | exact HRc |].
  destruct (clipped_score_ok G (load_all ste) Z_ HZ) as (s0 & Hs0 & Hn0);
    [congruence.. |].
  destruct (clipped_score_ok G imgs T HT) as (s1 & Hs1 & Hn1);
    [congruence.. |].
  pose proof (score_image_ok s0 ltac:(congruence)) as Hi0.
  pose proof (score_image_ok s1 ltac:(congruence)) as Hi1.
  unfold pairwise_roi_alignment.
  rewrite Hst, Htt, Hste, Htte. cbn [bind]. rewrite Hest. cbn [bind].
  rewrite Hpred. cbn [bind]. unfold ground_truth. rewrite HG. cbn [bind].
  unfold baseline_score, aligned_score. rewrite Hs0, Hs1. cbn [bind].
  destruct (score_image s0); [|discriminate].
  destruct (score_image s1); [reflexivity | discriminate].
Qed.

(** C6: the script runs to completion, from the folds to the two images it
    plots, when every image of the folds is on the grid of the mask, the
    two training folds and the two test folds have the same numbers of
    images, the test folds hold two images or more, the mask is not empty
    and the solver meets its contract on the masked training folds. *)
Theorem script_runs st tt ste tte :
  source_train = Ok st -> target_train = Ok tt ->
  source_test = Ok ste -> target_test = Ok tte ->
  (forall p, In p (st ++ tt ++ ste ++ tte) ->
     length (load p) = length resampled_mask_visual) ->
  length st = length tt -> length ste = length tte -> 1 < length ste ->
  0 < masker_features roi_masker ->
  (forall X_ Y_,
     masker_transform roi_masker (load_all st) = Ok X_ ->
     masker_transform roi_masker (load_all tt) = Ok Y_ ->
     procrustes_contract X_ Y_ default_scaling
       (procrustes solve X_ Y_ default_scaling None)) ->
  is_ok pairwise_roi_alignment = true.
Proof.
  intros Hst Htt Hste Htte Hgrid Hl1 Hl2 Hne2 Hpos Hc.
  assert (Hne : 0 < length ste) by lia.
  apply (script_completes st tt ste tte); try assumption.
  intros X_ Y_ HX HY.
  destruct (masked_shape _ _ HX) as (HXr & HXc & _).
  destruct (masked_shape _ _ HY) as (HYr & HYc & _).
  assert (Hs : shape_eqb X_ Y_ = true)
    by (apply shape_eqb_true; split; congruence).
  destruct (contract_ok_solution _ _ _ _ (Hc X_ Y_ HX HY) Hs)
    as (R & sc & E & (HR & HRn & _)).
  exists R, sc. split; [exact E | split; [exact HRn|]].
  now rewrite (orthogonal_square R HR).
Qed.

(** No score is computed for an empty list of images. *)
Lemma clipped_score_no_image gt : is_ok (clipped_score gt []) = false.
Proof.
  unfold clipped_score.
  destruct (masker_transform roi_masker []) as [P|] eqn:HP; [|reflexivity].
  apply masker_transform_shape in HP as (HPr & _). cbn [bind].
  pose proof (r2_score_empty gt P) as He.
  destruct (r2_score gt P); [|reflexivity].
  discriminate He. simpl in HPr. tauto.
Qed.

(** C24: with an empty test fold for the source subject the script does not
    run to its end: whatever the other folds hold, the baseline score of no
    image is refused before a map of scores is drawn. *)
Theorem empty_test_fold_refused :
  source_test = Ok [] -> is_ok pairwise_roi_alignment = false.
Proof.
  intros Hste. unfold pairwise_roi_alignment, baseline_score.
  destruct source_train; [|reflexivity].
  destruct target_train; [|reflexivity]. rewrite Hste.
  destruct target_test; [|reflexivity]. cbn [bind].
  destruct (fit_estimator _ _); [|reflexivity]. cbn [bind].
  destruct (predicted_img _ _); [|reflexivity]. cbn [bind].
  destruct (ground_truth _) as [G|]; [|reflexivity]. cbn [bind].
  pose proof (clipped_score_no_image G) as He. simpl load_all.
  now destruct (clipped_score G []).
Qed.

(** An estimator that has not been fitted refuses to transform: the
    script's call of [transform] is valid only after its call of [fit]. *)
Lemma transform_before_fit paths :
  predicted_img alignment_estimator paths = Err NotFittedError.
Proof. reflexivity. Qed.

(** C22: when the two training folds do not hold the same number of
    images, the script's [fit] raises [ShapeMismatch], whatever the solver:
    the orchestrator compares the shapes of the masked folds before any
    region is fitted. *)
Theorem fit_mismatched_folds st tt X_ Y_ :
  masker_transform roi_masker (load_all st) = Ok X_ ->
  masker_transform roi_masker (load_all tt) = Ok Y_ ->
  length st <> length tt ->
  fit_estimator st tt = Err ShapeMismatch.
Proof.
  intros HX HY Hlen.
  unfold fit_estimator, pairwise_fit, alignment_estimator, PairwiseAlignment.
  cbn [pa_alignment_method pa_scaling pa_reg pa_mask pa_n_pieces pa_fit_].
  rewrite parse_method_scaled_orthogonal. cbn [bind].
  rewrite HX. cbn [bind]. rewrite HY. cbn [bind].
  rewrite piecewise_fit_shape_mismatch; [reflexivity|].
  destruct (masked_shape _ _ HX) as (HXr & _).
  destruct (masked_shape _ _ HY) as (HYr & _).
  unfold shape_eqb. apply andb_false_iff. left. apply Nat.eqb_neq. congruence.
Qed.

(** ** The shapes of what the script computes *)

(** C13: the prediction of the fitted estimator has the type of its input:
    as many images as there are test images, each on the grid of the
    mask. *)
Theorem prediction_on_grid st tt ste est imgs :
  fit_estimator st tt = Ok est -> predicted_img est ste = Ok imgs ->
  length imgs = length ste /\
  Forall (fun v => length v = length resampled_mask_visual) imgs.
Proof.
  intros Hf Hp. apply pairwise_fit_fitted in Hf as (Hm & o & Ho & _).
  unfold predicted_img, pairwise_transform in Hp. rewrite Ho, Hm in Hp.
  apply bind_ok_inv in Hp as (Z_ & HZ & Hp).
  apply bind_ok_inv in Hp as (T & HT & Hp).
  apply piecewise_transform_shape in HT as (HTr & _).
  apply masked_shape in HZ as (HZr & _).
  apply nifti_inverse_transform_shape in Hp as (Hl & Hg).
  split; [congruence | exact Hg].
Qed.

(** C30: the value of predicted image [i] at voxel [v]: inside the mask it
    is the entry of [sc * R . Z^T] at the voxel's rank among the voxels of
    the mask and at contrast [i], where [(R, sc)] is what the solver
    learned on the masked training folds and [Z] is the masked test fold;
    outside the mask it is zero. *)
Theorem prediction_voxelwise st tt ste X_ Y_ Z_ R sc est imgs i v :
  masker_transform roi_masker (load_all st) = Ok X_ ->
  masker_transform roi_masker (load_all tt) = Ok Y_ ->
  masker_transform roi_masker (load_all ste) = Ok Z_ ->
  length st = length tt -> 0 < ncols X_ ->
  procrustes solve X_ Y_ default_scaling None = Ok (R, sc) ->
  nrows R = ncols X_ -> ncols R = ncols X_ ->
  fit_estimator st tt = Ok est -> predicted_img est ste = Ok imgs ->
  i < length ste ->
  nth v (nth i imgs []) 0%Q =
  if nth v resampled_mask_visual false
  then mget (scale sc (dot R (transpose Z_))) (rank resampled_mask_visual v) i
  else 0%Q.
Proof.
  intros HX HY HZ Hlen Hpos E HRn HRc Hest Himgs Hi.
  destruct (script_fit_predict_shaped _ _ _ _ _ _ _ _ HX HY HZ Hlen Hpos E
              HRn HRc) as (est' & _ & Hest' & Hpred).
  assert (est' = est) by congruence. subst est'. rewrite Himgs in Hpred.
  destruct (masked_shape _ _ HZ) as (HZr & _).
  rewrite (nifti_inverse_transform_voxel roi_masker _ _ i v (eq_sym Hpred))
    by (simpl; congruence).
  now rewrite mget_transpose.
Qed.

(** C31: running the statement [alignment_estimator.fit(source_train,
    target_train)] again on the estimator it returned changes nothing: the
    labeling is reused and the same transformation is learned. *)
Theorem refit_same_estimator st tt est :
  fit_estimator st tt = Ok est ->
  pairwise_fit solve est (load_all st) (load_all tt) = Ok est.
Proof.
  unfold fit_estimator. intros Hf.
  exact (pairwise_fit_idempotent solve _ _ _ _ Hf).
Qed.

(** The image of a score: the masker refuses a score that has not one
    value per voxel of the mask, and unmasks any other. *)
Lemma score_image_eq score :
  score_image score =
  if length score =? masker_features roi_masker
  then Ok (unmask resampled_mask_visual score)
  else Err ShapeMismatch.
Proof.
  unfold score_image. simpl. unfold nifti_inverse_transform. simpl.
  destruct (_ =? _); [|reflexivity]. simpl. now rewrite row_single.
Qed.

(** ** The fit of the script ends *)

(** The fit of the script on masked folds: the fit of the orchestrator of
    the configuration, stored in the estimator. *)
Lemma fit_estimator_masked st tt X_ Y_ :
  masker_transform roi_masker (load_all st) = Ok X_ ->
  masker_transform roi_masker (load_all tt) = Ok Y_ ->
  fit_estimator st tt =
  (o <- piecewise_fit solve
          (new_orchestrator (ScaledOrthogonal default_scaling) 1 roi_masker)
          X_ Y_ ;;
   Ok (Build_PairwiseAlignment "scaled_orthogonal"%string 1 roi_masker
         default_scaling default_reg (Some o))).
Proof.
  intros HX HY. unfold fit_estimator, pairwise_fit.
  cbn [pa_alignment_method pa_scaling pa_reg pa_mask pa_n_pieces pa_fit_
       alignment_estimator PairwiseAlignment].
  rewrite parse_method_scaled_orthogonal. cbn [bind].
  now rewrite HX, HY.
Qed.

(** What the statement [alignment_estimator.fit(source_train,
    target_train)] leaves when the orchestrator comes to rest in [s]: the
    estimator stores [s], or [fit] raises and the orchestrator is the
    initial one. *)
Definition fit_leaves (st tt : list String.string)
    (s : orchestrator NiftiMasker) : Prop :=
  match fit_estimator st tt with
  | Ok est => pa_fit_ est = Some s
  | Err _ =>
      s = new_orchestrator (ScaledOrthogonal default_scaling) 1 roi_masker
  end.

Section Fit.
Variables (st tt : list String.string) (X_ Y_ : matrix).
Hypothesis HX : masker_transform roi_masker (load_all st) = Ok X_.
Hypothesis HY : masker_transform roi_masker (load_all tt) = Ok Y_.
Hypothesis Hlen : length st = length tt.
Hypothesis Hpos : 0 < masker_features roi_masker.

Local Abbreviation o :=
  (new_orchestrator (ScaledOrthogonal default_scaling) 1 roi_masker).
Local Abbreviation l := (replicate (masker_features roi_masker) 0).

(** The guards of the step that begins the fit hold of the masked folds. *)
Lemma script_fit_guards :
  shape_eqb X_ Y_ = true /\ get_labels o = Ok l /\ ncols X_ = length l.
Proof using HX HY Hlen Hpos.
  destruct (masked_shape _ _ HX) as (HXr & HXc & _).
  destruct (masked_shape _ _ HY) as (HYr & HYc & _).
  split; [apply shape_eqb_true; split; congruence|].
  split; [exact (create_labels_single roi_masker Hpos)|].
  now rewrite length_replicate.
Qed.

(** The outcome of the orchestrator's fit, read on the estimator. *)
Lemma script_fit_outcome s :
  piecewise_fit solve o X_ Y_ = Ok s \/
  (s = o /\ is_ok (piecewise_fit solve o X_ Y_) = false) ->
  fit_leaves st tt s.
Proof using HX HY.
  unfold fit_leaves. rewrite (fit_estimator_masked _ _ _ _ HX HY).
  intros [->|[-> Hs]]; [reflexivity|].
  now destruct (piecewise_fit solve _ X_ Y_).
Qed.

(** C14: the statement [alignment_estimator.fit(source_train,
    target_train)] ends, in whatever order the regions are fitted.  With
    training folds of equal sizes and a mask that is not empty, the
    orchestrator of the configuration begins the fit of the masked folds;
    no sequence of steps of that fit is infinite; and every state the fit
    reaches either takes a further step or is the orchestrator at rest,
    which is then the one that [fit] stores in the estimator, or the
    initial orchestrator when [fit] raises. *)
Theorem script_fit_terminates :
  step solve (Idle o) (Busy o (start_job o X_ Y_ l)) /\
  sn (fit_step solve) (Busy o (start_job o X_ Y_ l)) /\
  forall m, rtc (fit_step solve) (Busy o (start_job o X_ Y_ l)) m ->
    red (fit_step solve) m \/ exists s, m = Idle s /\ fit_leaves st tt s.
Proof using HX HY Hlen Hpos.
  destruct script_fit_guards as (Hshape & Hlabels & Hcols).
  destruct (fit_terminates solve o X_ Y_ l Hshape Hlabels Hcols)
    as (Hb & Hsn & Hend).
  split; [exact Hb | split; [exact Hsn|]]. intros m Hm.
  destruct (Hend m Hm) as [Hred|(s & -> & Hs)]; [now left | right].
  exists s. split; [reflexivity | now apply script_fit_outcome].
Qed.

(** C15: the fit of the script by a pool of workers: whatever the number
    of workers and the order in which they take the regions and give
    their results back, the pool has taken at most two steps when its
    work ends, by the join or by the error of a task, and the orchestrator
    is then the one that [alignment_estimator.fit] stores in the
    estimator, or the initial one when [fit] raises. *)
Theorem script_fit_any_pool n_workers n p s :
  nsteps (pool_step solve o n_workers) n (Pool (start_job o X_ Y_ l) []) p ->
  pool_end solve o p (Idle s) ->
  n <= 2 /\ fit_leaves st tt s.
Proof using HX HY Hlen Hpos.
  destruct script_fit_guards as (Hshape & Hlabels & Hcols).
  intros Hn He. split.
  - change (n <= 2 * n_pieces o). eapply pool_fit_steps; eassumption.
  - apply script_fit_outcome.
    apply (pool_fit_outcome solve o X_ Y_ l n_workers Hshape Hlabels Hcols p s);
      [|exact He].
    exact (rtc_nsteps_2 _ _ _ Hn).
Qed.
End Fit.
End Script.

(** ** The solvers the script reaches *)

Section Solvers.
Context {resampler : Resampler}.

(** C32: the script reaches no solver but the Procrustes solver: its two
    images are the same whatever the solvers of the permutation, transport
    and ridge methods are. *)
Theorem script_ignores_linear_solvers fetch yeo load_img
    resample load clustering
    procrustes linear linear' scaling reg :
  pairwise_roi_alignment fetch yeo load_img resample load clustering
    (Solvers procrustes linear) scaling reg =
  pairwise_roi_alignment fetch yeo load_img resample load clustering
    (Solvers procrustes linear') scaling reg.
Proof.
  unfold pairwise_roi_alignment, fit_estimator.
  destruct (source_train fetch) as [st|]; [|reflexivity].
  destruct (target_train fetch) as [tt|]; [|reflexivity]. cbn [bind].
  now rewrite (pairwise_fit_procrustes_only procrustes linear linear').
Qed.

(** C12: the script runs to completion with the Procrustes solver of the
    library whatever the accuracy of the decomposition it calls: it is
    enough that the decomposition returns bases with the rows and the
    columns of its argument, that the images are on the grid of the mask,
    that the folds have matching sizes, that the test folds hold two
    images or more and that the mask is not empty. *)
Theorem script_runs_any_decomposition fetch yeo load_img
    resample load clustering
    svd linear scaling reg st tt ste tte :
  svd_shaped svd ->
  source_train fetch = Ok st -> target_train fetch = Ok tt ->
  source_test fetch = Ok ste -> target_test fetch = Ok tte ->
  (forall p, In p (st ++ tt ++ ste ++ tte) ->
     length (load p) = length (resampled_mask_visual fetch yeo load_img
         resample)) ->
  length st = length tt -> length ste = length tte -> 1 < length ste ->
  0 < masker_features (roi_masker fetch yeo load_img resample) ->
  is_ok (pairwise_roi_alignment fetch yeo load_img resample load clustering
           (Solvers (scaled_procrustes svd) linear) scaling reg) = true.
Proof.
  intros Hsvd Hst Htt Hste Htte Hgrid Hl1 Hl2 Hne2 Hpos.
  assert (Hne : 0 < length ste) by lia.
  apply (script_completes fetch yeo load_img
      resample load clustering _ scaling reg
           st tt ste tte); try assumption.
  intros X_ Y_ HX HY. simpl. apply scaled_procrustes_total; [exact Hsvd|].
  apply masked_shape in HX as (HXr & HXc & _).
  apply masked_shape in HY as (HYr & HYc & _).
  apply shape_eqb_true. split; congruence.
Qed.
End Solvers.

(** ** A small dataset on which the hypotheses hold

    Two subjects, four training contrasts and two test contrasts each, on a
    grid of four voxels of which three lie in the first network of the
    atlas.  The second subject is the first one turned by a quarter turn
    about the third voxel axis, and the test contrasts are combinations of
    the training contrasts. *)

(** The masker resamples with [nearest_resampler]; every image below is on
    the grid of the mask. *)
#[local] Existing Instance nearest_resampler.

Definition rows_witness : list contrast_row :=
  [Row "sub-01" "ap" "s1_ap_1"; Row "sub-01" "ap" "s1_ap_2";
   Row "sub-01" "ap" "s1_ap_3"; Row "sub-01" "ap" "s1_ap_4";
   Row "sub-02" "ap" "s2_ap_1"; Row "sub-02" "ap" "s2_ap_2";
   Row "sub-02" "ap" "s2_ap_3"; Row "sub-02" "ap" "s2_ap_4";
   Row "sub-01" "pa" "s1_pa_1"; Row "sub-01" "pa" "s1_pa_2";
   Row "sub-02" "pa" "s2_pa_1"; Row "sub-02" "pa" "s2_pa_2"]%string.

Definition images_witness : list (String.string * volume) :=
  [("s1_ap_1", [1; 0; 9; 1]); ("s1_ap_2", [-1; 0; 9; 1]);
   ("s1_ap_3", [0; 1; 9; -1]); ("s1_ap_4", [0; -1; 9; -1]);
   ("s2_ap_1", [0; 1; 7; 1]); ("s2_ap_2", [0; -1; 7; 1]);
   ("s2_ap_3", [-1; 0; 7; -1]); ("s2_ap_4", [1; 0; 7; -1]);
   ("s1_pa_1", [0; 0; 5; 2]); ("s1_pa_2", [0; -1; 5; -3]);
   ("s2_pa_1", [0; 0; 3; 2]); ("s2_pa_2", [1; 0; 3; -3])]%string%Q.

Definition fetch_witness (subjects : list String.string)
  : list String.string * dataframe * list bool :=
  (map path rows_witness, with_range_index rows_witness,
   [true; true; true; true]).

Definition yeo_witness : yeo_atlas :=
  Build_yeo_atlas "yeo_thin_7"%string "yeo_thick_7"%string
                  "yeo_thin_17"%string "yeo_thick_17"%string.

Definition load_img_witness (p : String.string) : list Z :=
  if String.eqb p "yeo_thick_7"%string then [1; 1; 2; 1]%Z else [].

Definition resample_witness (img target : list bool)
    (interpolation : String.string) : list bool := img.

Definition load_witness (p : String.string) : volume :=
  match List.find (fun kv => String.eqb (fst kv) p) images_witness with
  | Some kv => snd kv
  | None => []
  end.

Definition clustering_witness (m : NiftiMasker) (n : nat) : labeling := [].

(** The quarter turn, and the exact decomposition of the matrix the solver
    decomposes on this dataset. *)
Definition R0_witness : matrix :=
  array [[0; -1; 0]; [1; 0; 0]; [0; 0; 1]]%Q.

Definition solve_witness : solvers :=
  Solvers (scaled_procrustes (fun _ => (R0_witness, [2; 2; 4]%Q, eye 3)))
          (fun _ _ _ => Err InvalidConfiguration).

(** The masked folds. *)
Definition X_train_witness : matrix :=
  array [[1; 0; 1]; [-1; 0; 1]; [0; 1; -1]; [0; -1; -1]]%Q.
Definition Y_train_witness : matrix :=
  array [[0; 1; 1]; [0; -1; 1]; [-1; 0; -1]; [1; 0; -1]]%Q.
Definition X_test_witness : matrix := array [[0; 0; 2]; [0; -1; -3]]%Q.
Definition Y_test_witness : matrix := array [[0; 0; 2]; [1; 0; -3]]%Q.
Definition C_witness : matrix := array [[1; 1; 0; 0]; [0; 0; 1; 2]]%Q.

Definition st_witness : list String.string :=
  ["s1_ap_1"; "s1_ap_2"; "s1_ap_3"; "s1_ap_4"]%string.
Definition tt_witness : list String.string :=
  ["s2_ap_1"; "s2_ap_2"; "s2_ap_3"; "s2_ap_4"]%string.
Definition ste_witness : list String.string := ["s1_pa_1"; "s1_pa_2"]%string.
Definition tte_witness : list String.string := ["s2_pa_1"; "s2_pa_2"]%string.

#[local] Instance string_eq_dec : EqDecision String.string :=
  String.string_dec.

Lemma unique_index_witness : unique_index (df fetch_witness).
Proof.
  unfold unique_index. apply NoDup_ListNoDup, (bool_decide_unpack _).
  vm_compute. reflexivity.
Qed.

Lemma unique_paths_witness : List.NoDup (path_values (df fetch_witness)).
Proof.
  apply NoDup_ListNoDup, (bool_decide_unpack _). vm_compute. reflexivity.
Qed.

Lemma folds_are_conjunctions_witness :
  source_train fetch_witness =
    Ok (path_values (List.filter (in_fold "sub-01" "ap") (df fetch_witness))) /\
  target_train fetch_witness =
    Ok (path_values (List.filter (in_fold "sub-02" "ap") (df fetch_witness))) /\
  source_test fetch_witness =
    Ok (path_values (List.filter (in_fold "sub-01" "pa") (df fetch_witness))) /\
  target_test fetch_witness =
    Ok (path_values (List.filter (in_fold "sub-02" "pa") (df fetch_witness))).
Proof. apply folds_are_conjunctions, unique_index_witness. Defined.

Lemma train_test_disjoint_witness :
  Forall (fun p => ~ In p ste_witness) st_witness.
Proof.
  apply (train_test_disjoint fetch_witness "sub-01"%string "sub-01"%string).
  - apply unique_index_witness.
  - apply unique_paths_witness.
  - reflexivity.
  - reflexivity.
Defined.

(** The script on this dataset, with scaling. *)
Definition masker_witness : NiftiMasker :=
  roi_masker fetch_witness yeo_witness load_img_witness resample_witness.

Definition fit_witness : result (pairwise_alignment NiftiMasker) :=
  fit_estimator fetch_witness yeo_witness load_img_witness
      resample_witness load_witness
    clustering_witness solve_witness true 0%Q st_witness tt_witness.

Lemma estimator_is_direct_method_witness :
  (est <- fit_witness ;; predicted_img load_witness est ste_witness) =
  (e <- fit solve_witness (new_method (ScaledOrthogonal true))
            X_train_witness Y_train_witness ;;
   T <- transform e (transpose X_test_witness) ;;
   masker_inverse_transform masker_witness (transpose T)).
Proof.
  apply (estimator_is_direct_method fetch_witness yeo_witness load_img_witness
           resample_witness load_witness clustering_witness solve_witness
           true 0%Q st_witness tt_witness ste_witness);
    try reflexivity.
  - vm_compute. lia.
  - apply scaled_procrustes_refines. intros _ _.
    apply svd_specb_true. vm_compute. reflexivity.
Defined.

Lemma exact_alignment_scores_one_witness :
  exists est imgs,
    fit_witness = Ok est /\
    predicted_img load_witness est ste_witness = Ok imgs /\
    aligned_score fetch_witness yeo_witness load_img_witness resample_witness
      Y_test_witness imgs = Ok (repeat 1%Q (ncols Y_test_witness)).
Proof.
  apply (exact_alignment_scores_one fetch_witness yeo_witness load_img_witness
           resample_witness load_witness clustering_witness solve_witness
           true 0%Q st_witness tt_witness ste_witness tte_witness
           X_train_witness Y_train_witness X_test_witness Y_test_witness
           R0_witness C_witness);
    try reflexivity;
    try (apply meqb_true; vm_compute; reflexivity).
  - simpl. lia.
  - vm_compute. lia.
  - apply orthogonalb_spec. vm_compute. reflexivity.
  - apply scaled_procrustes_refines. intros _ _.
    apply svd_specb_true. vm_compute. reflexivity.
Defined.

(** The orchestrator the fit stores on this dataset. *)
Definition orchestrator_witness : orchestrator NiftiMasker :=
  Orchestrator (ScaledOrthogonal true) 1 masker_witness
    (Some [0; 0; 0])
    (Some [Some (Method (ScaledOrthogonal true)
                   (Some (T_scaled_orthogonal
                            (dot R0_witness (eye 3)) (8 / 8)%Q)))]).

#[local] Instance partitioner_witness : Partitioner NiftiMasker :=
  masker_partitioner clustering_witness.

Lemma script_fit_reaches_fitted_witness :
  exists o,
    Some orchestrator_witness = Some o /\
    rtc (step solve_witness)
        (Idle (new_orchestrator (ScaledOrthogonal true) 1 masker_witness))
        (Idle o) /\
    phase (Idle o) = FITTED.
Proof.
  apply (script_fit_reaches_fitted fetch_witness yeo_witness load_img_witness
           resample_witness load_witness clustering_witness solve_witness
           true 0%Q st_witness tt_witness
           (Build_PairwiseAlignment "scaled_orthogonal"%string 1 masker_witness
              true 0%Q (Some orchestrator_witness))).
  vm_compute. reflexivity.
Defined.

Lemma fit_mismatched_folds_witness :
  fit_estimator fetch_witness yeo_witness load_img_witness
      resample_witness load_witness
    clustering_witness solve_witness true 0%Q st_witness tte_witness =
  Err ShapeMismatch.
Proof.
  apply (fit_mismatched_folds fetch_witness yeo_witness load_img_witness
      resample_witness
           load_witness clustering_witness solve_witness true 0%Q
           st_witness tte_witness X_train_witness Y_test_witness).
  - reflexivity.
  - reflexivity.
  - simpl. lia.
Defined.

Lemma script_runs_witness :
  is_ok (pairwise_roi_alignment fetch_witness yeo_witness load_img_witness
      resample_witness
           load_witness clustering_witness solve_witness true 0%Q) = true.
Proof.
  apply (script_runs fetch_witness yeo_witness load_img_witness resample_witness
           load_witness clustering_witness solve_witness true 0%Q
           st_witness tt_witness ste_witness tte_witness);
    try reflexivity.
  - intros p Hp. repeat (destruct Hp as [<-|Hp]; [reflexivity|]).
    contradiction.
  - simpl. lia.
  - vm_compute. lia.
  - intros X_ Y_ HX HY.
    assert (X_ = X_train_witness) as ->
      by (vm_compute in HX; injection HX as <-; reflexivity).
    assert (Y_ = Y_train_witness) as ->
      by (vm_compute in HY; injection HY as <-; reflexivity).
    apply scaled_procrustes_refines. intros _ _.
    apply svd_specb_true. vm_compute. reflexivity.
Defined.

(** The estimator the fit returns on this dataset, and what it predicts. *)
Definition estimator_witness : pairwise_alignment NiftiMasker :=
  Build_PairwiseAlignment "scaled_orthogonal"%string 1 masker_witness
    true 0%Q (Some orchestrator_witness).

Definition predicted_witness : list volume :=
  Eval vm_compute in
    match predicted_img load_witness estimator_witness ste_witness with
    | Ok imgs => imgs
    | Err _ => []
    end.

Lemma folds_partition_witness :
  perm (st_witness ++ tt_witness ++ ste_witness ++ tte_witness)
       (path_values (df fetch_witness)).
Proof.
  apply (folds_partition fetch_witness);
    [apply unique_index_witness | | reflexivity..].
  repeat constructor.
Defined.

(** A frame put together from one frame per subject, each subject with its
    own labels [0, ..., 5]: the labels are not distinct. *)
Definition fetch_concat_witness (subjects : list String.string)
  : list String.string * dataframe * list bool :=
  (map path rows_witness,
   combine ([0; 1; 2; 3; 0; 1; 2; 3; 4; 5; 4; 5]) rows_witness,
   [true; true; true; true]).

Lemma duplicate_labels_refused_witness :
  select_fold fetch_concat_witness "sub-01"%string "ap"%string =
  Err ValueError.
Proof.
  apply duplicate_labels_refused.
  - intros H%NoDup_ListNoDup. revert H.
    apply (bool_decide_eq_false_1 _). vm_compute. reflexivity.
  - do 4 apply List.Exists_cons_tl. apply List.Exists_cons_hd. reflexivity.
Defined.

Lemma prediction_on_grid_witness :
  length predicted_witness = length ste_witness /\
  Forall (fun v => length v =
                   length (resampled_mask_visual fetch_witness yeo_witness
                             load_img_witness
                             resample_witness))
         predicted_witness.
Proof.
  apply (prediction_on_grid fetch_witness yeo_witness load_img_witness
      resample_witness
           load_witness clustering_witness solve_witness true 0%Q
           st_witness tt_witness ste_witness estimator_witness);
    vm_compute; reflexivity.
Defined.

(** The two images the script plots on this dataset. *)
Definition baseline_display_witness : volume :=
  Eval vm_compute in
    match pairwise_roi_alignment fetch_witness yeo_witness load_img_witness
        resample_witness
            load_witness clustering_witness solve_witness true 0%Q with
    | Ok (baseline_display, _) => baseline_display
    | Err _ => []
    end.

Definition display_witness : volume :=
  Eval vm_compute in
    match pairwise_roi_alignment fetch_witness yeo_witness load_img_witness
        resample_witness
            load_witness clustering_witness solve_witness true 0%Q with
    | Ok (_, display) => display
    | Err _ => []
    end.

(** The fit of the training folds of this dataset in progress, before any
    region is fitted. *)
Definition start_witness : job :=
  start_job (new_orchestrator (ScaledOrthogonal true) 1 masker_witness)
            X_train_witness Y_train_witness [0; 0; 0].

Definition fitting_witness : machine NiftiMasker :=
  Busy (new_orchestrator (ScaledOrthogonal true) 1 masker_witness)
       start_witness.

Lemma script_fit_terminates_witness :
  step solve_witness
    (Idle (new_orchestrator (ScaledOrthogonal true) 1 masker_witness))
    fitting_witness /\
  sn (fit_step solve_witness) fitting_witness /\
  forall m, rtc (fit_step solve_witness) fitting_witness m ->
    red (fit_step solve_witness) m \/
    exists s, m = Idle s /\
      fit_leaves fetch_witness yeo_witness load_img_witness resample_witness
        load_witness clustering_witness solve_witness true 0%Q
        st_witness tt_witness s.
Proof.
  apply (script_fit_terminates fetch_witness yeo_witness load_img_witness
           resample_witness load_witness clustering_witness solve_witness
           true 0%Q st_witness tt_witness X_train_witness Y_train_witness).
  - reflexivity.
  - reflexivity.
  - reflexivity.
  - vm_compute. lia.
Defined.

(** A schedule of the fit by two workers on this dataset: the first worker
    takes the region and gives its result back. *)
Definition job_witness : job :=
  write_slot start_witness 0
    (nth 0 (default [] (fit_ orchestrator_witness)) None).

Lemma script_fit_any_pool_witness :
  2 <= 2 /\
  fit_leaves fetch_witness yeo_witness load_img_witness resample_witness
    load_witness clustering_witness solve_witness true 0%Q
    st_witness tt_witness orchestrator_witness.
Proof.
  refine (script_fit_any_pool fetch_witness yeo_witness load_img_witness
            resample_witness load_witness clustering_witness solve_witness
            true 0%Q st_witness tt_witness X_train_witness Y_train_witness
            _ _ _ _ 2 2 (Pool job_witness []) orchestrator_witness _ _).
  - reflexivity.
  - reflexivity.
  - reflexivity.
  - vm_compute. lia.
  - apply (nsteps_l _ _ _ (Pool start_witness [(0, 0)])).
    + apply (pool_take _ _ _ (Pool start_witness []) 0 0); simpl;
        [lia | tauto | tauto | tauto].
    + apply (nsteps_l _ _ _ (Pool job_witness [])); [|constructor].
      apply (pool_give _ _ _ (Pool start_witness [(0, 0)]) 0 0);
        [now left|]. vm_compute. reflexivity.
  - exact (pool_join _ _ (Pool job_witness []) eq_refl).
Defined.

(** ** Alignment can lower the scores *)

(** The estimator fitted on the dataset above, scored against a target
    whose test contrasts are those of the source: without alignment the
    prediction is perfect, and with alignment two of the three voxels
    score lower. *)
Example alignment_can_lower_scores :
  baseline_score fetch_witness yeo_witness load_img_witness
      resample_witness load_witness
    X_test_witness ste_witness = Ok [1; 1; 1]%Q /\
  exists a,
    aligned_score fetch_witness yeo_witness load_img_witness resample_witness
      X_test_witness predicted_witness = Ok a /\
    Forall2 Qle a [0; -1; 1]%Q.
Proof.
  split; [reflexivity|]. eexists. split; [vm_compute; reflexivity|].
  repeat constructor; discriminate.
Qed.

Lemma refit_same_estimator_witness :
  pairwise_fit solve_witness estimator_witness
    (load_all load_witness st_witness) (load_all load_witness tt_witness) =
  Ok estimator_witness.
Proof.
  apply (refit_same_estimator fetch_witness yeo_witness load_img_witness
      resample_witness
           load_witness clustering_witness solve_witness true 0%Q).
  vm_compute. reflexivity.
Defined.

(** The decomposition that returns its argument for both bases has the
    shapes asked for without being a decomposition of its argument; the script
    runs to completion with it. *)
Lemma script_runs_any_decomposition_witness :
  is_ok (pairwise_roi_alignment fetch_witness yeo_witness load_img_witness
      resample_witness
           load_witness clustering_witness
           (Solvers (scaled_procrustes (fun A => (A, [], A)))
                    (fun _ _ _ => Err InvalidConfiguration))
           true 0%Q) = true.
Proof.
  apply (script_runs_any_decomposition fetch_witness yeo_witness load_img_witness
           resample_witness load_witness clustering_witness
           (fun A => (A, [], A)) (fun _ _ _ => Err InvalidConfiguration)
           true 0%Q st_witness tt_witness ste_witness tte_witness);
    try reflexivity.
  - intros A. split; reflexivity.
  - intros p Hp. repeat (destruct Hp as [<-|Hp]; [reflexivity|]).
    contradiction.
  - simpl. lia.
  - vm_compute. lia.
Defined.

(** The frame of the training contrasts alone: the test folds are empty. *)
Definition fetch_train_only_witness (subjects : list String.string)
  : list String.string * dataframe * list bool :=
  (map path (firstn 8 rows_witness), with_range_index (firstn 8 rows_witness),
   [true; true; true; true]).

Lemma empty_test_fold_refused_witness :
  is_ok (pairwise_roi_alignment fetch_train_only_witness yeo_witness load_img_witness
           resample_witness load_witness clustering_witness solve_witness
           true 0%Q) = false.
Proof.
  apply (empty_test_fold_refused fetch_train_only_witness yeo_witness load_img_witness
           resample_witness load_witness clustering_witness solve_witness
           true 0%Q).
  reflexivity.
Defined.

(** The scores without alignment on the dataset: the first voxel is
    clipped, the second has a constant ground truth, the third is
    predicted exactly. *)
Definition baseline_scores_witness : list Q :=
  Eval vm_compute in
    match baseline_score fetch_witness yeo_witness load_img_witness
        resample_witness
            load_witness Y_test_witness ste_witness with
    | Ok s => s
    | Err _ => []
    end.

Lemma score_one_iff_exact_witness :
  (nth 2 baseline_scores_witness 0 == 1)%Q <->
  forall i, i < nrows Y_test_witness ->
    (mget Y_test_witness i 2 == mget X_test_witness i 2)%Q.
Proof.
  apply (score_one_iff_exact fetch_witness yeo_witness load_img_witness
      resample_witness
           Y_test_witness (load_all load_witness ste_witness)
           X_test_witness baseline_scores_witness 2).
  - reflexivity.
  - reflexivity.
  - simpl. lia.
  - simpl. lia.
Defined.

Lemma constant_voxel_scores_zero_witness :
  nth 1 baseline_scores_witness 0%Q = 0%Q.
Proof.
  apply (constant_voxel_scores_zero fetch_witness yeo_witness load_img_witness
           resample_witness Y_test_witness (load_all load_witness ste_witness)
           X_test_witness baseline_scores_witness 1 0%Q 1).
  - reflexivity.
  - reflexivity.
  - simpl. lia.
  - simpl. lia.
  - intros [|[|k]] Hk; [reflexivity | reflexivity | simpl in Hk; lia].
  - simpl. lia.
  - discriminate.
Defined.

(** The second predicted image at the first voxel, which is the first voxel
    of the mask. *)
Lemma prediction_voxelwise_witness :
  nth 0 (nth 1 predicted_witness []) 0%Q =
  if nth 0 (resampled_mask_visual fetch_witness yeo_witness load_img_witness
              resample_witness) false
  then mget (scale (8 # 8) (dot R0_witness (transpose X_test_witness)))
            (rank (resampled_mask_visual fetch_witness yeo_witness load_img_witness
                     resample_witness) 0) 1
  else 0%Q.
Proof.
  apply (prediction_voxelwise fetch_witness yeo_witness load_img_witness
      resample_witness
           load_witness clustering_witness solve_witness true 0%Q
           st_witness tt_witness ste_witness
           X_train_witness Y_train_witness X_test_witness R0_witness (8 # 8)%Q
           estimator_witness predicted_witness 1 0);
    try (vm_compute; reflexivity); vm_compute; lia.
Defined.
