(* ===== verification/Plotting.v ===== *)
(** * Plotting: the figures of the example script

    The script [examples/pairwise_roi_alignment.py] draws three figures: the
    mask of the visual cortex, as soon as it is resampled, and the two maps
    of scores at its end, before [plotting.show()].  The plotting routines
    are collaborators; what this file keeps of them is the sequence of the
    calls with their arguments, as a log of events that the statements of
    the script extend in their order.  A statement that raises leaves the
    log as it is: the figures drawn so far exist.

    The script with its figures is [script_with_figures], a computation of
    the monad [plotting] (the log as a state, the errors of [Prelude]).  It
    is related to the pipeline [pairwise_roi_alignment] of [Example], which
    computes the two images without drawing them: the script draws the
    mask whatever happens later, and then either nothing or both maps, with
    the images of the pipeline; and every value of a map lies in the range
    of colours [-vmax, vmax] that the script asks for.  Two small logics
    on the monad carry the proofs statement by statement: [extends] (no
    statement removes a figure) and [keeps] (a property of every event of
    the log is kept). *)

From stdpp Require Import base list.
From Stdlib Require Import ZArith QArith Lqa Lia Bool Arith.
From Stdlib Require String.
Import String.StringSyntax.
#[local] Set Warnings "-notation-incompatible-prefix".
From S2P Require Import Prelude Matrix Numeric Methods Piecewise Pairwise.
From S2P Require Import Frame Example.
Close Scope Q_scope.
Open Scope nat_scope.
Open Scope mat_scope.
Open Scope align_scope.

(** ** Events and the monad of the figures *)

(** The calls of the plotting library, with the arguments the script gives
    them.  A display is named by the position of its event in the log. *)
Variant plot_event : Type :=
| PlotRoi (roi_img : list bool) (title : String.string)
          (cut_coords : list Z) (colorbar : bool) (cmap : String.string)
| PlotStatMap (stat_map_img : volume) (display_mode : String.string)
              (cut_coords : list Z) (vmax : Q)
| Title (display : nat) (text : String.string)
| Show.

(** A statement of the script: from the log before it to the log after it,
    with a value or an error. *)
Definition plotting (A : Type) : Type :=
  list plot_event -> list plot_event * result A.

Definition pret {A : Type} (a : A) : plotting A := fun figs => (figs, Ok a).

Definition pbind {A B : Type} (m : plotting A) (k : A -> plotting B)
  : plotting B :=
  fun figs =>
    match m figs with
    | (figs', Ok a) => k a figs'
    | (figs', Err e) => (figs', Err e)
    end.

(** A statement that draws nothing. *)
Definition lift {A : Type} (r : result A) : plotting A := fun figs => (figs, r).

(** A call of the plotting library: the event is appended, and the display
    it creates is returned. *)
Definition emit (e : plot_event) : plotting nat :=
  fun figs => (figs ++ [e], Ok (length figs)).

Declare Scope plot_scope.
Delimit Scope plot_scope with plot.

Notation "x <~ c1 ;; c2" := (pbind c1 (fun x => c2))
  (at level 60, c1 at next level, right associativity) : plot_scope.
Open Scope plot_scope.

(** [plot_roi(img, title=..., cut_coords=..., colorbar=..., cmap=...)] *)
Definition plot_roi (img : list bool) (title : String.string)
    (cut_coords : list Z) (colorbar : bool) (cmap : String.string)
  : plotting nat :=
  emit (PlotRoi img title cut_coords colorbar cmap).

(** [plotting.plot_stat_map(img, display_mode=..., cut_coords=...,
    vmax=...)] *)
Definition plot_stat_map (img : volume) (display_mode : String.string)
    (cut_coords : list Z) (vmax : Q) : plotting nat :=
  emit (PlotStatMap img display_mode cut_coords vmax).

(** [display.title(text)] *)
Definition title (display : nat) (text : String.string) : plotting unit :=
  _ <~ emit (Title display text) ;; pret tt.

(** [plotting.show()] *)
Definition show : plotting unit := _ <~ emit Show ;; pret tt.

(** What a plotted map asks of its values: to lie in the range of colours,
    which [plot_stat_map] takes symmetric about zero. *)
Definition within_colour_range (e : plot_event) : Prop :=
  match e with
  | PlotStatMap img _ _ vmax => Forall (fun x => (- vmax <= x <= vmax)%Q) img
  | _ => True
  end.

(** ** The laws of the monad *)

Lemma pbind_pret_l {A B : Type} (a : A) (k : A -> plotting B) figs :
  (x <~ pret a ;; k x) figs = k a figs.
Proof. reflexivity. Qed.

Lemma pbind_pret_r {A : Type} (m : plotting A) figs :
  (x <~ m ;; pret x) figs = m figs.
Proof. unfold pbind, pret. now destruct (m figs) as [figs' [a|e]]. Qed.

Lemma pbind_assoc {A B C : Type} (m : plotting A) (k : A -> plotting B)
    (h : B -> plotting C) figs :
  (y <~ (x <~ m ;; k x) ;; h y) figs = (x <~ m ;; y <~ k x ;; h y) figs.
Proof. unfold pbind. now destruct (m figs) as [figs' [a|e]]. Qed.

Lemma pbind_lift {A B : Type} (r : result A) (k : A -> plotting B) figs :
  (x <~ lift r ;; k x) figs =
  match r with Ok a => k a figs | Err e => (figs, Err e) end.
Proof. reflexivity. Qed.

Lemma pbind_emit {B : Type} (e : plot_event) (k : nat -> plotting B) figs :
  (x <~ emit e ;; k x) figs = k (length figs) (figs ++ [e]).
Proof. reflexivity. Qed.

(** ** A logic for what the figures keep

    [keeps P m Q]: when every event of the log satisfies [P] before the
    statement [m], every event does after it, and the value of [m]
    satisfies [Q]. *)

Definition keeps (P : plot_event -> Prop) {A : Type} (m : plotting A)
    (Q : A -> Prop) : Prop :=
  forall figs, Forall P figs ->
    Forall P (fst (m figs)) /\ forall a, snd (m figs) = Ok a -> Q a.

Section Keeps.
Variable P : plot_event -> Prop.

Lemma keeps_pret {A : Type} (a : A) (Q : A -> Prop) :
  Q a -> keeps P (pret a) Q.
Proof. intros Ha figs Hf. split; [exact Hf|]. now intros a' [= <-]. Qed.

Lemma keeps_lift {A : Type} (r : result A) (Q : A -> Prop) :
  (forall a, r = Ok a -> Q a) -> keeps P (lift r) Q.
Proof. intros Hr figs Hf. split; [exact Hf | exact Hr]. Qed.

Lemma keeps_emit (e : plot_event) : P e -> keeps P (emit e) (fun _ => True).
Proof.
  intros He figs Hf. split; [|trivial]. simpl.
  apply Forall_app. split; [exact Hf | now constructor].
Qed.

Lemma keeps_bind {A B : Type} (m : plotting A) (k : A -> plotting B)
    (Q : A -> Prop) (R : B -> Prop) :
  keeps P m Q -> (forall a, Q a -> keeps P (k a) R) ->
  keeps P (x <~ m ;; k x) R.
Proof.
  intros Hm Hk figs Hf. destruct (Hm figs Hf) as [Hf' HQ]. unfold pbind.
  destruct (m figs) as [figs' [a|e]]; simpl in *.
  - exact (Hk a (HQ a eq_refl) figs' Hf').
  - split; [exact Hf' | discriminate].
Qed.

Lemma keeps_weaken {A : Type} (m : plotting A) (Q Q' : A -> Prop) :
  keeps P m Q -> (forall a, Q a -> Q' a) -> keeps P m Q'.
Proof.
  intros Hm HQ figs Hf. destruct (Hm figs Hf) as [Hf' Ha].
  split; [exact Hf' | intros a E; exact (HQ a (Ha a E))].
Qed.
End Keeps.

(** ** Figures are never removed

    [extends m]: the log after the statement [m] is the log before it with
    events added at its end. *)

Definition extends {A : Type} (m : plotting A) : Prop :=
  forall figs, exists l, fst (m figs) = figs ++ l.

Lemma extends_pret {A : Type} (a : A) : extends (pret a).
Proof. intros figs. exists []. simpl. now rewrite app_nil_r. Qed.

Lemma extends_lift {A : Type} (r : result A) : extends (lift r).
Proof. intros figs. exists []. simpl. now rewrite app_nil_r. Qed.

Lemma extends_emit (e : plot_event) : extends (emit e).
Proof. intros figs. now exists [e]. Qed.

Lemma extends_bind {A B : Type} (m : plotting A) (k : A -> plotting B) :
  extends m -> (forall a, extends (k a)) -> extends (x <~ m ;; k x).
Proof.
  intros Hm Hk figs. destruct (Hm figs) as [l Hl]. unfold pbind.
  destruct (m figs) as [figs' [a|e]]; simpl in Hl; subst figs'.
  - destruct (Hk a (figs ++ l)) as [l' Hl']. exists (l ++ l').
    now rewrite Hl', app_assoc.
  - now exists l.
Qed.

Create HintDb plot.
#[export] Hint Resolve extends_pret extends_lift extends_emit : plot.

(** Every statement built from the calls above extends the log. *)
Ltac extends_script :=
  repeat first [ apply extends_bind; [|intros ?] | solve [auto with plot] ].

(** A statement that draws nothing and whose value is not constrained,
    then the rest of the script. *)
Ltac keeps_lift_any :=
  apply keeps_bind with (Q := fun _ => True);
  [ apply keeps_lift; trivial | intros ? _ ].

(** ** The script *)

Section Script.
Context {resampler : Resampler}.
Variable fetch_ibc_subjects_contrasts :
  list String.string -> list String.string * dataframe * list bool.
Variable fetch_atlas_yeo_2011 : yeo_atlas.
Variable load_img : String.string -> list Z.
Variable resample_to_img :
  list bool -> list bool -> String.string -> list bool.
Variable load : String.string -> volume.
Variable clustering : NiftiMasker -> nat -> labeling.
Variable solve : solvers.
Variable default_scaling : bool.
Variable default_reg : Q.

Local Abbreviation the_mask :=
  (resampled_mask_visual fetch_ibc_subjects_contrasts fetch_atlas_yeo_2011
     load_img resample_to_img).
Local Abbreviation image_of :=
  (score_image fetch_ibc_subjects_contrasts fetch_atlas_yeo_2011 load_img
     resample_to_img).
Local Abbreviation pipeline :=
  (pairwise_roi_alignment fetch_ibc_subjects_contrasts fetch_atlas_yeo_2011
     load_img resample_to_img load clustering solve default_scaling
     default_reg).

(** [plot_roi(resampled_mask_visual, title='Visual mask extracted from
    atlas', cut_coords=(8, -80, 9), colorbar=True, cmap='Paired')] *)
Definition plot_mask : plotting nat :=
  plot_roi the_mask "Visual mask extracted from atlas"%string
           [8; -80; 9]%Z true "Paired"%string.

(** [baseline_display = plotting.plot_stat_map(
    roi_masker.inverse_transform(baseline_score), display_mode="z",
    cut_coords=[-15, -5], vmax=1)] and its title. *)
Definition baseline_display (baseline_score : list Q) : plotting nat :=
  img <~ lift (image_of baseline_score) ;;
  baseline_display <~ plot_stat_map img "z"%string [-15; -5]%Z 1%Q ;;
  _ <~ title baseline_display "R2 score between raw data"%string ;;
  pret baseline_display.

(** [display = plotting.plot_stat_map(
    roi_masker.inverse_transform(aligned_score), display_mode="z",
    cut_coords=[-15, -5], vmax=1)] and its title. *)
Definition display (aligned_score : list Q) : plotting nat :=
  img <~ lift (image_of aligned_score) ;;
  display <~ plot_stat_map img "z"%string [-15; -5]%Z 1%Q ;;
  _ <~ title display "R2 score after alignment"%string ;;
  pret display.

(** The script with its figures, in the order of its statements. *)
Definition script_with_figures : plotting unit :=
  _ <~ plot_mask ;;
  source_train <~ lift (source_train fetch_ibc_subjects_contrasts) ;;
  target_train <~ lift (target_train fetch_ibc_subjects_contrasts) ;;
  source_test <~ lift (source_test fetch_ibc_subjects_contrasts) ;;
  target_test <~ lift (target_test fetch_ibc_subjects_contrasts) ;;
  estimator <~ lift (fit_estimator fetch_ibc_subjects_contrasts
                       fetch_atlas_yeo_2011 load_img resample_to_img load
                       clustering solve default_scaling default_reg
                       source_train target_train) ;;
  predicted_img <~ lift (predicted_img load estimator source_test) ;;
  ground_truth <~ lift (ground_truth fetch_ibc_subjects_contrasts
                          fetch_atlas_yeo_2011 load_img resample_to_img load
                          target_test) ;;
  baseline_score <~ lift (baseline_score fetch_ibc_subjects_contrasts
                            fetch_atlas_yeo_2011 load_img resample_to_img
                            load ground_truth source_test) ;;
  aligned_score <~ lift (aligned_score fetch_ibc_subjects_contrasts
                           fetch_atlas_yeo_2011 load_img resample_to_img
                           ground_truth predicted_img) ;;
  _ <~ baseline_display baseline_score ;;
  _ <~ display aligned_score ;;
  show.

(** The figures of a run that ends: the two maps with their titles, then
    [show], after [n] earlier events. *)
Definition score_figures (n : nat) (maps : volume * volume)
  : list plot_event :=
  [PlotStatMap (fst maps) "z"%string [-15; -5]%Z 1%Q;
   Title n "R2 score between raw data"%string;
   PlotStatMap (snd maps) "z"%string [-15; -5]%Z 1%Q;
   Title (n + 2) "R2 score after alignment"%string;
   Show].

(** The log of the script in terms of the pipeline without figures. *)
Definition figures_of (figs : list plot_event)
    (r : result (volume * volume)) : list plot_event :=
  figs ++
  PlotRoi the_mask "Visual mask extracted from atlas"%string
          [8; -80; 9]%Z true "Paired"%string ::
  match r with
  | Ok maps => score_figures (length figs + 1) maps
  | Err _ => []
  end.

(** No statement of the script removes a figure: the log of a run starts
    with the figures that were there. *)
Lemma script_extends : extends script_with_figures.
Proof using Type.
  unfold script_with_figures, plot_mask, baseline_display, display,
    plot_roi, plot_stat_map, title, show.
  extends_script.
Qed.

(** ** What the maps hold *)

Local Abbreviation in_range := (fun x : Q => (- (1) <= x <= 1)%Q).

(** The image of a score between minus one and one lies in the range of
    colours of the maps. *)
Lemma score_image_in_range score img :
  Forall (fun x => (-1 <= x)%Q /\ (x <= 1)%Q) score ->
  image_of score = Ok img -> Forall in_range img.
Proof using Type.
  intros Hs. rewrite score_image_eq. destruct (_ =? _); [|discriminate].
  intros [= <-]. apply unmask_Forall; [split; discriminate | exact Hs].
Qed.

(** A map of scores between minus one and one keeps the log within the
    range of colours. *)
Lemma stat_map_keeps score text :
  Forall (fun x => (-1 <= x)%Q /\ (x <= 1)%Q) score ->
  keeps within_colour_range
    (img <~ lift (image_of score) ;;
     d <~ plot_stat_map img "z"%string [-15; -5]%Z 1%Q ;;
     _ <~ title d text ;;
     pret d)
    (fun _ => True).
Proof using Type.
  intros Hs.
  apply keeps_bind with (Q := fun img => Forall in_range img);
    [apply keeps_lift; intros img; exact (score_image_in_range _ _ Hs)|].
  intros img Hi.
  apply keeps_bind with (Q := fun _ => True); [now apply keeps_emit|].
  intros d _. apply keeps_bind with (Q := fun _ => True);
    [|intros; now apply keeps_pret].
  apply keeps_bind with (Q := fun _ => True);
    [now apply keeps_emit | intros; now apply keeps_pret].
Qed.

(** C20: every value of the two maps that the script draws lies in the
    range of colours it asks for: the scores are clipped at minus one and
    are at most one, the voxels outside the mask are zero, and both maps
    are drawn with [vmax=1], so no voxel of a map is saturated. *)
Theorem maps_within_colour_range :
  Forall within_colour_range (fst (script_with_figures [])).
Proof.
  assert (H : keeps within_colour_range script_with_figures (fun _ => True)).
  { unfold script_with_figures.
    apply keeps_bind with (Q := fun _ => True);
      [now apply keeps_emit | intros ? _].
    do 7 keeps_lift_any.
    apply keeps_bind
      with (Q := Forall (fun x => (-1 <= x)%Q /\ (x <= 1)%Q));
      [apply keeps_lift; intros s; apply clipped_score_bounds | intros s0 H0].
    apply keeps_bind
      with (Q := Forall (fun x => (-1 <= x)%Q /\ (x <= 1)%Q));
      [apply keeps_lift; intros s; apply clipped_score_bounds | intros s1 H1].
    apply keeps_bind with (Q := fun _ => True);
      [now apply stat_map_keeps | intros ? _].
    apply keeps_bind with (Q := fun _ => True);
      [now apply stat_map_keeps | intros ? _].
    apply keeps_bind with (Q := fun _ => True);
      [now apply keeps_emit | intros; now apply keeps_pret]. }
  exact (proj1 (H [] (List.Forall_nil _))).
Qed.

(** ** The figures and the pipeline *)

(** When one of the two scores has an image, so has the other: both have
    one value per voxel of the ground truth. *)
Lemma score_images_together gt ste imgs s0 s1 :
  baseline_score fetch_ibc_subjects_contrasts fetch_atlas_yeo_2011 load_img
    resample_to_img load gt ste = Ok s0 ->
  aligned_score fetch_ibc_subjects_contrasts fetch_atlas_yeo_2011 load_img
    resample_to_img gt imgs = Ok s1 ->
  is_ok (image_of s0) = is_ok (image_of s1).
Proof using Type.
  intros H0 H1. rewrite !score_image_eq.
  rewrite (clipped_score_length _ _ _ _ _ _ _ H0).
  rewrite (clipped_score_length _ _ _ _ _ _ _ H1).
  now destruct (_ =? _).
Qed.

(** C16: the figures of the script, for every dataset: the mask is drawn
    whatever happens later; when a statement raises, nothing else is
    drawn; when the script runs to its end, the two maps are drawn with
    the images of the pipeline, each followed by its title, and
    [plotting.show()] comes last.  The script never stops between the two
    maps. *)
Theorem figures_all_or_mask_only figs :
  script_with_figures figs =
  (figures_of figs pipeline, _ <- pipeline ;; Ok tt).
Proof.
  unfold script_with_figures, figures_of, pairwise_roi_alignment, plot_mask,
    plot_roi.
  rewrite pbind_emit.
  repeat (rewrite pbind_lift;
          match goal with
          | |- context [bind ?r _] => destruct r eqn:?
          end; cbn [bind]; [|reflexivity]).
  match goal with
  | H0 : baseline_score _ _ _ _ _ _ _ = Ok ?s0,
    H1 : aligned_score _ _ _ _ _ _ = Ok ?s1 |- _ =>
      pose proof (score_images_together _ _ _ _ _ H0 H1) as Hboth
  end.
  unfold baseline_display, display, plot_stat_map, title, show, pbind, lift,
    emit, pret, score_figures.
  destruct (image_of _) as [b|]; destruct (image_of _) as [d|];
    try discriminate Hboth; cbn [bind fst snd]; [|reflexivity].
  rewrite !length_app, <- !app_assoc. cbn [length app].
  now replace (length figs + 1 + 1 + 1) with (length figs + 1 + 2) by lia.
Qed.
End Script.

(** ** The script on a small dataset *)

Section Dataset.
Context {resampler : Resampler}.

(** On the dataset of [Example] the script draws the mask, the map of the
    scores without alignment, the map of the scores with alignment, and
    shows them, whatever the resampling of the masker: the images are on
    the grid of the mask. *)
Example figures_example :
  script_with_figures fetch_witness yeo_witness load_img_witness
    resample_witness load_witness clustering_witness solve_witness true 0%Q
    [] =
  ([PlotRoi [true; true; false; true]
            "Visual mask extracted from atlas"%string [8; -80; 9]%Z true
            "Paired"%string;
    PlotStatMap baseline_display_witness "z"%string [-15; -5]%Z 1%Q;
    Title 1 "R2 score between raw data"%string;
    PlotStatMap display_witness "z"%string [-15; -5]%Z 1%Q;
    Title 3 "R2 score after alignment"%string;
    Show], Ok tt).
Proof. vm_compute. reflexivity. Qed.

(** On a frame whose index labels are not distinct the selection of the
    first fold raises: the mask has been drawn, and nothing else is. *)
Example figures_of_failed_run :
  script_with_figures fetch_concat_witness yeo_witness load_img_witness
    resample_witness load_witness clustering_witness solve_witness true 0%Q
    [] =
  ([PlotRoi [true; true; false; true]
            "Visual mask extracted from atlas"%string [8; -80; 9]%Z true
            "Paired"%string], Err ValueError).
Proof. vm_compute. reflexivity. Qed.
End Dataset.
