(* ===== verification/Tests.v ===== *)
(** * Tests: the test suite of the scaled orthogonal alignment

    The functions of [fmralign/tests/test_scaled_orthogonal_alignment.py],
    each as a boolean: [true] when every assertion of the test holds.  The
    function under test is a parameter, [solve], standing for the imported
    [scaled_procrustes]; what the test draws at random is an argument; the
    constants [np.cos(1)] and [np.sin(1)] are arguments [c] and [s], of which
    the theorems assume [c * c + s * s == 1] only.

    The theorems state that a solver that meets [procrustes_contract] at the
    call of a test passes it, for every input the test can draw; the last
    section runs the tests on the solver of the model itself. *)

From Stdlib Require Import ZArith QArith Qabs Lqa Lia List Bool Arith Setoid Morphisms.
From S2P Require Import Prelude Matrix Orthogonal Procrustes Numeric Methods.
Import ListNotations.
Open Scope Q_scope.
Open Scope mat_scope.
Open Scope align_scope.

(** ** Fixtures *)

(** The rotation about the first axis, with [c] for the cosine and [s] for
    the sine of the angle. *)
Definition rotation_x (c s : Q) : matrix :=
  array [[1; 0; 0];
         [0; c; - s];
         [0; s; c]].

(** The data of [test_scaled_procrustes_multiplication]. *)
Definition X_multiplication : matrix :=
  array [[1; 2; 3; 4];
         [5; 3; 4; 6];
         [7; 8; -5; -2]].

(** ** The tests *)

Section Tests.
(** What the test module imports from [fmralign.alignment_methods]: the
    solver under test, and the solvers of the other methods, which no test
    of this file reaches. *)
Variable solve : solver.
Variable linear_solve : variant -> matrix -> matrix -> result matrix.

(** A zero target yields the identity. *)
Definition test_procrustes_null_input (X : matrix) : bool :=
  let Y := zeros_like X in
  let R := eye (ncols X) in
  match solve X Y false None with
  | Ok (R_test, _) => assert_array_almost_equal R R_test
  | Err _ => false
  end.

(** The primal and the dual formulation agree: on the matrices when there
    are more samples than features, on the images of the data otherwise. *)
Definition test_scaled_procrustes_primal_dual (X1 Y1 X2 Y2 : matrix) : bool :=
  match solve X1 Y1 true (Some true), solve X1 Y1 true (Some false) with
  | Ok (R1, _), Ok (R2, _) =>
      assert_array_almost_equal R1 R2 &&
      match solve X2 Y2 true (Some true), solve X2 Y2 true (Some false) with
      | Ok (R1', _), Ok (R2', _) =>
          assert_array_almost_equal (dot R1' (transpose X2))
                                    (dot R2' (transpose X2))
      | _, _ => false
      end
  | _, _ => false
  end.

(** A rotation of centred data is recovered. *)
Definition test_scaled_procrustes_3Drotation (c s : Q) (X0 : matrix) : bool :=
  let R := rotation_x c s in
  let X := center_rows X0 in
  let Y := dot R X in
  match solve (transpose X) (transpose Y) false None with
  | Ok (R_test, _) =>
      assert_vec_almost_equal (dot_vec R [0; 1; 0]) [0; c; s] &&
      assert_vec_almost_equal (dot_vec R [0; 0; 1]) [0; - s; c] &&
      assert_array_almost_equal R R_test
  | Err _ => false
  end.

(** The estimator fitted on rotated data maps the data onto its rotation. *)
Definition test_Scaled_Orthogonal_Alignment_3Drotation (c s : Q) (X0 : matrix)
  : bool :=
  let R := rotation_x c s in
  let X := center_rows X0 in
  let Y := dot R X in
  let ortho_al := ScaledOrthogonalAlignment false in
  match fit (Solvers solve linear_solve) ortho_al (transpose X) (transpose Y) with
  | Ok ortho_al =>
      match transform ortho_al X with
      | Ok T => assert_array_almost_equal T Y
      | Err _ => false
      end
  | Err _ => false
  end.

(** An orthogonal matrix [R], the first factor of a QR decomposition in the
    test, is recovered. *)
Definition test_scaled_procrustes_orthogonalmatrix (R X0 : matrix) : bool :=
  let X := center_rows X0 in
  let Y := dot R X in
  match solve (transpose X) (transpose Y) false None with
  | Ok (R_test, _) => assert_array_almost_equal R_test R
  | Err _ => false
  end.

(** Doubled data: the identity, and the scale two. *)
Definition test_scaled_procrustes_multiplication : bool :=
  let X := center_rows X_multiplication in
  let Y := scale 2 X in
  let Y := center_rows Y in
  match solve (transpose X) (transpose Y) true None with
  | Ok (R, _) =>
      assert_array_almost_equal R (eye 3) &&
      match solve (transpose X) (transpose Y) true None with
      | Ok (_, sc) => almost_equal sc 2
      | Err _ => false
      end
  | Err _ => false
  end.

(** The matrix returned is orthogonal. *)
Definition test_scaled_procrustes_basis_orthogonal (X0 Y0 : matrix) : bool :=
  let X := center_rows X0 in
  let Y := center_rows Y0 in
  match solve (transpose X) (transpose Y) false None with
  | Ok (R, _) =>
      assert_array_almost_equal (dot R (transpose R)) (eye (nrows R)) &&
      assert_array_almost_equal (dot (transpose R) R) (eye (nrows R))
  | Err _ => false
  end.

(** The solver agrees with [scipy.linalg.orthogonal_procrustes] called with
    the arguments exchanged. *)
Definition test_scaled_procrustes_scipy_orthogonal_procrustes
    (orthogonal_procrustes : matrix -> matrix -> matrix * Q)
    (X Y : matrix) : bool :=
  match solve X Y false None with
  | Ok (R, _) =>
      let '(R_s, _) := orthogonal_procrustes Y X in
      assert_array_almost_equal R R_s
  | Err _ => false
  end.
End Tests.

(** ** A solver that never decomposes, for the branches that need none *)

Definition svd_unused : svd_fun := fun A => (A, [], A).

(** ** Theorems *)

(** *** The fixtures *)

Lemma rotation_x_orthogonal c s :
  c * c + s * s == 1 -> orthogonal (rotation_x c s).
Proof.
  intros H. split; [reflexivity | split];
  (apply meq_intro; [reflexivity | reflexivity |]; intros i j Hi Hj;
   simpl in Hi, Hj; rewrite mget_dot; simpl sumQ; rewrite !mget_transpose);
  destruct i as [|[|[|i]]]; try lia; destruct j as [|[|[|j]]]; try lia;
  unfold mget; simpl; nra.
Qed.

(** The images of the second and third basis vectors, as lines 38 to 45 of
    the test assert them. *)
Lemma rotation_x_columns c s :
  assert_vec_almost_equal (dot_vec (rotation_x c s) [0; 1; 0]) [0; c; s] = true /\
  assert_vec_almost_equal (dot_vec (rotation_x c s) [0; 0; 1]) [0; - s; c] = true.
Proof.
  split; (apply assert_vec_almost_equal_refl; [reflexivity|]);
    intros [|[|[|i]]]; unfold dot_vec, mget; simpl; try ring;
    destruct i; reflexivity.
Qed.

(** *** Witness data: a rotation with rational entries, centred data with
    orthogonal rows, and a decomposition that is exact on them *)

Definition R_witness : matrix := rotation_x (3 # 5) (4 # 5).

Definition X_witness : matrix :=
  array [[1; -1; 0; 0];
         [0; 0; 1; -1];
         [1; 1; -1; -1]].

(** A right inverse of [X_witness]. *)
Definition W_witness : matrix :=
  array [[1 # 2; 0; 1 # 4];
         [- (1 # 2); 0; 1 # 4];
         [0; 1 # 2; - (1 # 4)];
         [0; - (1 # 2); - (1 # 4)]].

(** The decomposition of [R X X^T] for [X X^T = diag(2, 2, 4)]. *)
Definition svd_witness : svd_fun :=
  fun _ => (R_witness, [2; 2; 4], eye 3).

(** C1: [test_scaled_procrustes_3Drotation] passes for every draw [X0] with
    three rows whose centred rows are linearly independent (a right inverse
    [W] exists), for every angle: the rotation is recovered exactly. *)
Theorem rotation_recovered (solve : solver) (c s : Q) (X0 W : matrix) :
  c * c + s * s == 1 ->
  nrows X0 = 3%nat ->
  dot (center_rows X0) W =~= eye 3 ->
  procrustes_contract (transpose (center_rows X0))
    (transpose (dot (rotation_x c s) (center_rows X0))) false
    (solve (transpose (center_rows X0))
           (transpose (dot (rotation_x c s) (center_rows X0))) false None) ->
  test_scaled_procrustes_3Drotation solve c s X0 = true.
Proof.
  intros Hcs Hn HW H. unfold test_scaled_procrustes_3Drotation. cbv zeta.
  assert (HRn : nrows (rotation_x c s) = nrows (center_rows X0))
    by (simpl; congruence).
  assert (HW' : dot (center_rows X0) W =~= eye (nrows (center_rows X0)))
    by (simpl; now rewrite Hn).
  destruct (recovery_contract _ _ _ (rotation_x_orthogonal c s Hcs) HRn HW' _ _ H)
    as (R & sc & -> & HR).
  destruct (rotation_x_columns c s) as [-> ->]. simpl.
  apply assert_array_almost_equal_meq. now symmetry.
Qed.

Lemma rotation_recovered_witness :
  test_scaled_procrustes_3Drotation (scaled_procrustes svd_witness)
    (3 # 5) (4 # 5) X_witness = true.
Proof.
  apply (rotation_recovered _ _ _ _ W_witness).
  - reflexivity.
  - reflexivity.
  - apply meqb_true. vm_compute. reflexivity.
  - apply scaled_procrustes_refines. intros _ _.
    apply svd_specb_true. vm_compute. reflexivity.
Defined.

(** C7: [test_scaled_procrustes_orthogonalmatrix] passes for every
    orthogonal [R] (the first factor of the QR decomposition in the test)
    and every draw [X0] whose centred rows are linearly independent. *)
Theorem orthogonal_matrix_recovered (solve : solver) (R X0 W : matrix) :
  orthogonal R ->
  nrows R = nrows X0 ->
  dot (center_rows X0) W =~= eye (nrows X0) ->
  procrustes_contract (transpose (center_rows X0))
    (transpose (dot R (center_rows X0))) false
    (solve (transpose (center_rows X0))
           (transpose (dot R (center_rows X0))) false None) ->
  test_scaled_procrustes_orthogonalmatrix solve R X0 = true.
Proof.
  intros HR Hn HW H. unfold test_scaled_procrustes_orthogonalmatrix. cbv zeta.
  destruct (recovery_contract (center_rows X0) R W HR Hn HW _ _ H)
    as (R' & sc & -> & HR').
  now apply assert_array_almost_equal_meq.
Qed.

Lemma orthogonal_matrix_recovered_witness :
  test_scaled_procrustes_orthogonalmatrix (scaled_procrustes svd_witness)
    R_witness X_witness = true.
Proof.
  apply (orthogonal_matrix_recovered _ _ _ W_witness).
  - apply orthogonalb_spec. vm_compute. reflexivity.
  - reflexivity.
  - apply meqb_true. vm_compute. reflexivity.
  - apply scaled_procrustes_refines. intros _ _.
    apply svd_specb_true. vm_compute. reflexivity.
Defined.

(** C2: [test_Scaled_Orthogonal_Alignment_3Drotation] passes for every
    angle and every draw [X0] with three rows whose centred rows are
    linearly independent (a right inverse [W] exists), as soon as the
    solver meets its contract at the call: the estimator fitted on
    [(X.T, Y.T)] with [Y = R X] maps [X] onto [Y]. *)
Theorem alignment_round_trip (solve : solver)
    (linear_solve : variant -> matrix -> matrix -> result matrix)
    (c s : Q) (X0 W : matrix) :
  c * c + s * s == 1 ->
  nrows X0 = 3%nat ->
  dot (center_rows X0) W =~= eye 3 ->
  procrustes_contract (transpose (center_rows X0))
    (transpose (dot (rotation_x c s) (center_rows X0))) false
    (solve (transpose (center_rows X0))
           (transpose (dot (rotation_x c s) (center_rows X0))) false None) ->
  test_Scaled_Orthogonal_Alignment_3Drotation solve linear_solve c s X0 = true.
Proof.
  intros Hcs Hn HW H.
  unfold test_Scaled_Orthogonal_Alignment_3Drotation. cbv zeta.
  unfold fit, ScaledOrthogonalAlignment, new_method. simpl.
  assert (HRn : nrows (rotation_x c s) = nrows (center_rows X0))
    by (simpl; congruence).
  assert (HW' : dot (center_rows X0) W =~= eye (nrows (center_rows X0)))
    by (simpl; now rewrite Hn).
  destruct (recovery_contract _ _ _ (rotation_x_orthogonal c s Hcs) HRn HW' _ _ H)
    as (R & sc & E & HR).
  rewrite E in H |- *. simpl. unfold transform. simpl.
  pose proof (contract_scale_one _ _ _ _ H) as Hsc.
  rewrite (ncols_Proper _ _ HR). simpl. rewrite Hn. simpl.
  apply assert_array_almost_equal_meq.
  rewrite Hsc, HR. apply scale_one.
Qed.

Lemma alignment_round_trip_witness :
  test_Scaled_Orthogonal_Alignment_3Drotation (scaled_procrustes svd_witness)
    (fun _ _ _ => Err InvalidConfiguration) (3 # 5) (4 # 5) X_witness = true.
Proof.
  apply (alignment_round_trip _ _ _ _ _ W_witness).
  - reflexivity.
  - reflexivity.
  - apply meqb_true. vm_compute. reflexivity.
  - apply scaled_procrustes_refines. intros _ _.
    apply svd_specb_true. vm_compute. reflexivity.
Defined.

(** *** Doubled data *)

(** A right inverse of the centred data of the multiplication test. *)
Definition W_multiplication : matrix :=
  array [[- (29 # 62); 8 # 31; - (1 # 62)];
         [21 # 62; - (9 # 31); 5 # 62];
         [- (17 # 62); - (6 # 31); - (7 # 62)];
         [25 # 62; 7 # 31; 3 # 62]].

(** The arguments of the call of the multiplication test. *)
Definition X_call : matrix := transpose (center_rows X_multiplication).

Definition Y_call : matrix :=
  transpose (center_rows (scale 2 (center_rows X_multiplication))).

Lemma Y_call_doubles : Y_call =~= scale 2 X_call.
Proof. apply meqb_true. vm_compute. reflexivity. Qed.

Lemma W_multiplication_inverse :
  dot (transpose X_call) W_multiplication =~= eye (ncols X_call).
Proof. apply meqb_true. vm_compute. reflexivity. Qed.

Lemma X_call_nonzero : ~ frob2 X_call == 0.
Proof. intros H. vm_compute in H. discriminate. Qed.

(** C5: [test_scaled_procrustes_multiplication] passes: on the data of the
    test and its double, the solver returns the identity and the scale
    two. *)
Theorem doubled_data_scale (solve : solver) :
  procrustes_contract X_call Y_call true (solve X_call Y_call true None) ->
  test_scaled_procrustes_multiplication solve = true.
Proof.
  intros H. unfold test_scaled_procrustes_multiplication. cbv zeta.
  fold X_call Y_call.
  destruct (scaled_copy_contract X_call Y_call W_multiplication 2)
    with (out := solve X_call Y_call true None)
    as (R & sc & -> & HR & Hsc);
    auto using Y_call_doubles, W_multiplication_inverse, X_call_nonzero.
  { reflexivity. }
  rewrite (assert_array_almost_equal_meq R (eye 3)) by exact HR.
  simpl. now apply almost_equal_refl.
Qed.

(** A solver that answers the identity and the scale two. *)
Definition solve_doubled : solver := fun _ _ _ _ => Ok (eye 3, 2).

Lemma doubled_data_scale_witness :
  test_scaled_procrustes_multiplication solve_doubled = true.
Proof.
  apply doubled_data_scale. unfold solve_doubled.
  apply contract_regular.
  - reflexivity.
  - apply (scaled_copy_regular X_call Y_call 2);
      auto using Y_call_doubles, X_call_nonzero. reflexivity.
  - apply (scaled_copy_eye_solution X_call Y_call 2);
      auto using Y_call_doubles. reflexivity.
  - vm_compute. reflexivity.
Defined.

(** *** Primal and dual formulations *)

(** C3: [test_scaled_procrustes_primal_dual] passes whenever both calls of
    each half meet the contract, [Y1^T X1] is invertible (more samples than
    features, in general position) and the samples of [Y2] are linearly
    independent (fewer samples than features): the two formulations return
    the same matrix in the first half and matrices with the same image of
    the data in the second.  The exact decompositions of [Y1^T X1] and
    [Y2^T X2] are what makes the sets of solutions explicit. *)
Theorem primal_dual_agree (solve : solver) (X1 Y1 X2 Y2 : matrix)
    (U1 Vt1 B U2 Vt2 V : matrix) (s1 s2 : list Q) :
  nrows X1 = nrows Y1 -> ncols X1 = ncols Y1 ->
  nrows X2 = nrows Y2 -> ncols X2 = ncols Y2 ->
  svd_spec (dot (transpose Y1) X1) (U1, s1, Vt1) ->
  dot B (dot (transpose Y1) X1) =~= eye (ncols X1) ->
  svd_spec (dot (transpose Y2) X2) (U2, s2, Vt2) ->
  dot Y2 V =~= eye (nrows Y2) ->
  (forall p, procrustes_contract X1 Y1 true (solve X1 Y1 true (Some p))) ->
  (forall p, procrustes_contract X2 Y2 true (solve X2 Y2 true (Some p))) ->
  test_scaled_procrustes_primal_dual solve X1 Y1 X2 Y2 = true.
Proof.
  intros Hr1 Hc1 Hr2 Hc2 Hsvd1 HB Hsvd2 HV H1 H2.
  unfold test_scaled_procrustes_primal_dual.
  assert (Hs1 : shape_eqb X1 Y1 = true) by now apply shape_eqb_true.
  assert (Hs2 : shape_eqb X2 Y2 = true) by now apply shape_eqb_true.
  destruct (contract_ok_solution _ _ _ _ (H1 true) Hs1) as (R1 & c1 & -> & S1).
  destruct (contract_ok_solution _ _ _ _ (H1 false) Hs1) as (R2 & c2 & -> & S2).
  destruct (contract_ok_solution _ _ _ _ (H2 true) Hs2) as (R3 & c3 & -> & S3).
  destruct (contract_ok_solution _ _ _ _ (H2 false) Hs2) as (R4 & c4 & -> & S4).
  rewrite (assert_array_almost_equal_meq R1 R2)
    by exact (solution_unique _ _ _ _ _ Hr1 Hc1 Hsvd1 R1 R2 B HB S1 S2).
  apply assert_array_almost_equal_meq.
  exact (solutions_same_action _ _ _ _ _ Hr2 Hc2 Hsvd2 R3 R4 V HV S3 S4).
Qed.

(** Witness data: four samples of three features and their rotation; two
    samples of three features and their rotation. *)
Definition X1_witness : matrix := transpose X_witness.
Definition Y1_witness : matrix := transpose (dot R_witness X_witness).
Definition X2_witness : matrix := array [[1; 0; 0]; [0; 1; 0]].
Definition Y2_witness : matrix := dot X2_witness (transpose R_witness).

(** Exact decompositions of the four matrices the two halves decompose.
    For the rank-deficient matrix of the dual call of the second half the
    decomposition flips the sign of the direction the data leaves free. *)
Definition svd_primal_dual : svd_fun := fun A =>
  if meqb A (dot (transpose Y1_witness) X1_witness)
  then (R_witness, [2; 2; 4], eye 3)
  else if meqb A (dot (transpose X1_witness) Y1_witness)
  then (eye 3, [2; 2; 4], transpose R_witness)
  else if meqb A (dot (transpose Y2_witness) X2_witness)
  then (R_witness, [1; 1; 0], eye 3)
  else (diag [1; 1; -1], [1; 1; 0], transpose R_witness).

Lemma primal_dual_agree_witness :
  test_scaled_procrustes_primal_dual (scaled_procrustes svd_primal_dual)
    X1_witness Y1_witness X2_witness Y2_witness = true.
Proof.
  apply (primal_dual_agree _ _ _ _ _
           R_witness (eye 3)
           (dot (diag [1 # 2; 1 # 2; 1 # 4]) (transpose R_witness))
           R_witness (eye 3)
           (dot R_witness (transpose X2_witness))
           [2; 2; 4] [1; 1; 0]);
    try reflexivity;
    try (apply svd_specb_true; vm_compute; reflexivity);
    try (apply meqb_true; vm_compute; reflexivity);
    intros p; apply scaled_procrustes_refines; intros _ _;
    apply svd_specb_true; destruct p; vm_compute; reflexivity.
Defined.

(** In the second half the two formulations return different matrices: the
    test compares their images of the data, which agree. *)
Example primal_dual_matrices_differ :
  match scaled_procrustes svd_primal_dual X2_witness Y2_witness true (Some true),
        scaled_procrustes svd_primal_dual X2_witness Y2_witness true (Some false)
  with
  | Ok (R1, _), Ok (R2, _) =>
      meqb R1 R2 = false /\
      meqb (dot R1 (transpose X2_witness)) (dot R2 (transpose X2_witness)) = true
  | _, _ => False
  end.
Proof. vm_compute. split; reflexivity. Qed.

(** *** Agreement with the library routine *)

(** C8: [test_scaled_procrustes_scipy_orthogonal_procrustes] passes whenever
    [Y^T X] is invertible, the solver meets its contract and the library
    routine returns a minimiser of [|Y R - X|]: both solve the same
    problem, whose solution is unique. *)
Theorem scipy_agreement (solve : solver)
    (orthogonal_procrustes : matrix -> matrix -> matrix * Q)
    (X Y U Vt B : matrix) (s : list Q) :
  nrows X = nrows Y -> ncols X = ncols Y ->
  svd_spec (dot (transpose Y) X) (U, s, Vt) ->
  dot B (dot (transpose Y) X) =~= eye (ncols X) ->
  procrustes_contract X Y false (solve X Y false None) ->
  orthogonal_procrustes_spec Y X (fst (orthogonal_procrustes Y X)) ->
  test_scaled_procrustes_scipy_orthogonal_procrustes
    solve orthogonal_procrustes X Y = true.
Proof.
  intros Hr Hc Hsvd HB H Hs.
  unfold test_scaled_procrustes_scipy_orthogonal_procrustes.
  destruct (contract_ok_solution _ _ _ _ H) as (R & sc & -> & S);
    [now apply shape_eqb_true|].
  destruct (orthogonal_procrustes Y X) as [R_s w]. simpl in Hs.
  apply assert_array_almost_equal_meq.
  apply (solution_unique _ _ _ _ _ Hr Hc Hsvd R R_s B HB S).
  now apply orthogonal_procrustes_solution.
Qed.

Lemma scipy_agreement_witness :
  test_scaled_procrustes_scipy_orthogonal_procrustes
    (scaled_procrustes svd_witness) (orthogonal_procrustes svd_witness)
    X1_witness Y1_witness = true.
Proof.
  apply (scipy_agreement _ _ _ _ R_witness (eye 3)
           (dot (diag [1 # 2; 1 # 2; 1 # 4]) (transpose R_witness))
           [2; 2; 4]);
    try reflexivity;
    try (apply svd_specb_true; vm_compute; reflexivity);
    try (apply meqb_true; vm_compute; reflexivity).
  - apply scaled_procrustes_refines. intros _ _.
    apply svd_specb_true. vm_compute. reflexivity.
  - apply orthogonal_procrustes_refines; try reflexivity.
    apply svd_specb_true. vm_compute. reflexivity.
Defined.

(** ** The tests on the solver of the model *)

(** C27: [test_procrustes_null_input] passes for the solver of the model on
    every input and with every decomposition service: a zero target is
    answered before anything is decomposed. *)
Theorem null_input_model_passes (svd : svd_fun) (X : matrix) :
  test_procrustes_null_input (scaled_procrustes svd) X = true.
Proof.
  unfold test_procrustes_null_input, scaled_procrustes.
  rewrite (proj2 (shape_eqb_true X (zeros_like X))) by (split; reflexivity).
  rewrite (proj2 (degenerateb_spec X (zeros_like X)))
    by apply degenerate_zeros_like.
  simpl. now apply assert_array_almost_equal_meq.
Qed.

(** C17: [test_scaled_procrustes_basis_orthogonal] passes for the solver of
    the model on every pair of draws of the same shape, with every
    decomposition service whose two bases are orthogonal and of one size
    at the call of the test, whether or not their product with the singular
    values gives the decomposed matrix back: the matrix returned is the
    identity when a centred draw is zero and the product of the two bases
    otherwise, transposed in the dual formulation, and satisfies
    [R R^T = I] and [R^T R = I]. *)
Theorem basis_orthogonal_model_passes (svd : svd_fun) (X0 Y0 : matrix) :
  nrows X0 = nrows Y0 -> ncols X0 = ncols Y0 ->
  orthogonal_bases
    (svd (decomposed (choose_primal None (transpose (center_rows X0)))
            (transpose (center_rows X0)) (transpose (center_rows Y0)))) ->
  test_scaled_procrustes_basis_orthogonal (scaled_procrustes svd) X0 Y0 = true.
Proof.
  intros Hr Hc Hb. unfold test_scaled_procrustes_basis_orthogonal. cbv zeta.
  destruct (scaled_procrustes svd _ _ false None) as [[R sc]|e] eqn:E.
  - destruct (scaled_procrustes_orthogonal _ _ _ _ _ _ _ Hb E) as (_ & H1 & H2).
    now rewrite !assert_array_almost_equal_meq.
  - unfold scaled_procrustes in E.
    rewrite (proj2 (shape_eqb_true _ _)) in E by (simpl; split; assumption).
    simpl in E. destruct (degenerateb _ _); [discriminate|].
    now destruct (formulation svd _ _ _).
Qed.

(** A decomposition service whose bases are orthogonal and whose factors
    have nothing to do with the matrix it is given. *)
Definition svd_any_bases : svd_fun := fun _ => (R_witness, [], eye 3).

Lemma basis_orthogonal_model_passes_witness :
  test_scaled_procrustes_basis_orthogonal (scaled_procrustes svd_any_bases)
    X_witness X_witness = true.
Proof.
  apply basis_orthogonal_model_passes.
  - reflexivity.
  - reflexivity.
  - repeat split; try (apply orthogonalb_spec; vm_compute; reflexivity).
Defined.

(** C26: with at least as many samples as features, as in the 4 x 4 data of
    [test_scaled_procrustes_scipy_orthogonal_procrustes], the solver of the
    model takes the primal formulation and hands the decomposition service
    the very array that the library routine hands it: the test passes with
    every decomposition service, exact or not. *)
Theorem scipy_same_decomposition (svd : svd_fun) (X Y : matrix) :
  shape_eqb X Y = true -> (ncols X <= nrows X)%nat -> ~ degenerate X Y ->
  test_scaled_procrustes_scipy_orthogonal_procrustes
    (scaled_procrustes svd) (orthogonal_procrustes svd) X Y = true.
Proof.
  intros Hs Hn Hd.
  unfold test_scaled_procrustes_scipy_orthogonal_procrustes,
    scaled_procrustes, orthogonal_procrustes, choose_primal.
  apply degenerateb_false in Hd. rewrite Hs, Hd.
  rewrite (proj2 (Nat.ltb_ge (nrows X) (ncols X)) Hn). simpl.
  unfold procrustes_primal.
  rewrite dual_matrix_transpose_eq by (now apply shape_eqb_true in Hs).
  destruct (svd (dot (transpose Y) X)) as [[U s] Vt].
  now apply assert_array_almost_equal_meq.
Qed.

Lemma scipy_same_decomposition_witness :
  test_scaled_procrustes_scipy_orthogonal_procrustes
    (scaled_procrustes svd_unused) (orthogonal_procrustes svd_unused)
    R_witness (eye 3) = true.
Proof.
  apply scipy_same_decomposition.
  - reflexivity.
  - simpl. lia.
  - apply degenerateb_false. vm_compute. reflexivity.
Defined.

(** C28: what [test_scaled_procrustes_3Drotation] establishes: it passes
    exactly when the solver returns a 3 x 3 array whose entries are all
    within [1.5e-6] of those of the rotation; its first two assertions
    hold of the rotation whatever the solver returns. *)
Theorem rotation_test_characterised (solve : solver) (c s : Q) (X0 : matrix) :
  test_scaled_procrustes_3Drotation solve c s X0 = true <->
  exists R_test sc,
    solve (transpose (center_rows X0))
          (transpose (dot (rotation_x c s) (center_rows X0))) false None =
    Ok (R_test, sc) /\
    nrows R_test = 3%nat /\ ncols R_test = 3%nat /\
    forall i j, (i < 3)%nat -> (j < 3)%nat ->
      Qabs (mget R_test i j - mget (rotation_x c s) i j) < tolerance.
Proof.
  unfold test_scaled_procrustes_3Drotation.
  destruct (rotation_x_columns c s) as [-> ->]. cbn [andb].
  destruct (solve _ _ false None) as [[R_test sc]|e].
  - rewrite assert_array_almost_equal_spec. split.
    + intros (Hr & Hc & H). exists R_test, sc. auto.
    + intros (R' & sc' & [= <- <-] & Hr & Hc & H). auto.
  - split; [discriminate | intros (R' & sc' & HE & _); discriminate].
Qed.
